(* ===== verification/_CoqProject ===== *)
-Q . S2P
Prelude.v
GoLib.v
GoStrings.v
GoFloat.v
Prog.v
Emits.v
Exec.v
Safe.v
Calls.v
Kube.v
NetIP.v
Config.v
Cloud.v
Md5.v
Effects.v
Metrics.v
Update.v
Provision.v
HostPools.v
LocalHost.v
Dynamics.v
DynamicPools.v
Platforms.v
Reconciler.v
HostUpdate.v
RetryClient.v
Otp.v
OtpServer.v
Aws.v
IbmZ.v
IbmPower.v
System.v
Manager.v
DevSetup.v
Trace.v
UpdateFacts.v
ProvisionFacts.v
HostPoolFacts.v
DynamicFacts.v
DynamicPoolFacts.v
ConfigFacts.v
PlatformFacts.v
ReconcilerFacts.v
ErrorFacts.v
EffectFacts.v
ManagerFacts.v
RetryFacts.v
OtpFacts.v
CloudFacts.v
Provider.v
AwsFacts.v
DevSetupFacts.v
IbmZFacts.v
IbmPowerFacts.v
ProviderFacts.v
SystemFacts.v
Cluster.v
Fleet.v
ClusterFacts.v
FleetTypes.v
Examples.v
FleetFacts.v
ProgressFacts.v
ServiceFacts.v
HostUpdateFacts.v
MetricsFacts.v
