(* ===== verification/Prelude.v ===== *)
(** * The multi-platform controller

    The controller lets Tekton TaskRuns of a Kubernetes cluster run on hosts of other
    platforms. A user's TaskRun names a platform and mounts a secret that does not exist
    yet; the controller finds a host (one of a static pool, a cloud instance of its own, a
    shared cloud instance, or the cluster itself), starts a provisioning task for it, and
    the TaskRun runs when that task has made the secret with the host's credentials. When
    the TaskRun is done the host is released and the oldest waiting TaskRun tries again.
    This development models the Go code under [src/] and proves what each part
    guarantees and what the parts guarantee together.

    ** How the code is modelled

    A Go function that calls the outside world is a program [Prog.prog E A]: a finite tree
    of the requests of a signature [E] with a branch for every answer; a Go panic is the
    leaf [Panic]. Pointers that are written through become the object that the function
    also returns; a Go error is a value of [GoLib.error], [result] or [option error]; 64-bit
    integers are [Z] with [wrap64] where the code can overflow; strings are byte strings.
    The memory of the process (the cache of platforms, the maps of tags that cloud calls
    write to, the registered metrics) is changed by requests of its own, so aliasing is
    kept. Everything is executable: [Prog.run] runs a program in a concrete environment,
    and the examples and witnesses evaluate by [vm_compute].

    Four judgements speak about programs:
    - [Prog.wpp S P p Q h]: whatever the answers within the contract [S], [p] ends with [Q]
      of its result and of the history of its calls, after [h], or panics with [P] of the
      history; [Prog.wp S p Q h] when it does not panic;
    - [Emits.emits P p]: an effect type, [p] makes only requests in [P];
    - [Calls.makes]: a specification by the calls that are added;
    - [Safe.safe] and [Safe.typed]: an invariant after every call, wherever the run stops.
    Since programs are finite trees, [wp] includes termination; loops of the code without a
    bound in their text have fuel, and a theorem says how much is enough (below).
    [Exec] has executions, and interleavings by a schedule; [Prog.interp], [wp_interp] and
    [wpp_interp] put an implementation between a program and its environment.

    The specification of a function is for the most part an [Inductive] over its result and
    the list of its calls with their answers, the last one first: one constructor for each
    way through the function, whose premises are what decides between them. They compose as
    the functions do ([updates_to] of [UpdateFacts] for an update with its retries,
    [error_secret_outcome] and [provision_outcome] of [ProvisionFacts], [allocates] of each
    platform, [deallocates], [host_released] and [provision_handled] of [ReconcilerFacts]).

    ** Parts of the program, and their files

    - Go and its library: [GoLib] (errors, results, maps, integers), [GoStrings] (strings,
      strconv, sort), [GoFloat] (ParseFloat), [NetIP] (ParseIP), [Md5] (md5, hex).
    - Objects and clients: [Kube] (the fields of TaskRuns, secrets, pods and ConfigMaps that
      are used, and the requests of [client.Client]), [Cloud] ([pkg/cloud]: the provider
      interface, TaskRun ids), [Effects] (the signature [mpcE] of the reconciler, its memory,
      the contract [go_spec]), [RetryClient] ([pkg/util]: every method of the retrying client).
    - Configuration: [Config] ([pkg/config]: the parsers and validators of the host
      ConfigMap), [Platforms] ([getPlatformConfig], its cache, the [PlatformConfig]
      interface).
    - Platforms: [HostPools] ([hostpool.go]), [Dynamics] ([dynamic.go]), [DynamicPools]
      ([dynamicpool.go]), [LocalHost] ([local.go]).
    - The reconciler: [Reconciler] (the handlers of [taskrun.go], one definition per
      function, [Reconcile] at the end), [Update] ([UpdateTaskRunWithRetry] and the merge),
      [Provision] (error secrets, provisioning tasks), [Metrics] ([pkg/metrics], gauges and
      the exporter's goroutine), [HostUpdate] ([updates.go]).
    - Clouds: [Aws] ([pkg/aws]), [IbmZ] and [IbmPower] ([pkg/ibm]); each has a [handle] that
      implements the requests [cloudE] of [Cloud] over its own client's signature.
    - Put together: [System] ([newReconciler]: [Reconcile] over the retrying client and the
      three clouds), [Manager] ([NewManager], the controller's [main], the registration in
      [controller.go]).
    - The password service: [Otp] ([cmd/otp/otp.go]), [OtpServer] ([cmd/otp/main.go]).
    - The development tool: [DevSetup] ([cmd/devsetup/main.go]).
    A file [XFacts] holds the theorems about [X].

    ** Contracts

    What is not the repository's code answers within a contract, a relation between a
    history, a request and its answer:
    - [go_spec]: memory holds what was written to it, a range over a map visits every key
      once in any order, a get returns an object of the key, an update returns what was sent;
      nothing else is assumed of the API server, the clouds or the clock;
    - [world_spec] (in [Fleet]), for the capacity of static hosts over many reconciles: the
      manager's client reads versions that were stored at some time, and a list of the
      assigned TaskRuns misses [lag] of those of a host at most; the API reader is up to
      date; an update is accepted only with the stored resource version, and gives a new
      one; the ConfigMap keeps its contents and no cloud instance has the name of a static
      host;
    - [cluster_spec]: moreover every read is up to date, for single allocations;
      [willing_spec]: the server refuses nothing it need not refuse, and [service_spec] (in
      [ServiceFacts]) has what the controller needs, for progress;
    - [ec2_spec], [vpc_spec], [settled_spec], [pow_spec]: the clouds' clients, with clocks that
      move by what is slept; [sys_spec]: all of these for the controller put together;
    - [http_spec] (the lock gives the map its last holder left), [s3_spec] (a listing has at most [n]
      pages, of keys with the prefix), [manager_spec], [ticks_spec] (the context of the exporter ends
      within [n] ticks).
    Libraries that the code calls with closures are classes with their documented laws:
    [K8s]/[K8sLaws] (name validation, finalizers, owner references), [Retry]/[RetryLaws]
    ([retry.OnError], [RetryOnConflict]: attempts up to the steps of the back-off),
    [Wait]/[WaitLaws] (polling), [JSON]. [Trace] and [ManagerFacts] have concrete instances
    that satisfy the laws, with which the witnesses run.
    The interface between the reconciler and the clouds is the class [Provider.Provider]:
    [SystemFacts] is proved against it, and [ProviderFacts] has the instances of the three clouds.

    ** What is shown

    - A reconcile through the retrying client returns without a panic, and is a run of
      [Reconcile] with each client request replaced by its attempts ([RetryFacts]); with the
      three clouds it asks for one instance at most, and deletes none that it was not
      asked to ([SystemFacts], [EffectFacts], [ProviderFacts]). The only panics are those of
      the IBM providers after an answer that leaves out the health of an instance in error, or
      its primary network interface ([omits] of the class [Provider]).
    - Each platform's allocation refines a relation [allocates] that lists its outcomes
      ([HostPoolFacts], [DynamicFacts], [DynamicPoolFacts]): full hosts are not selected,
      launches are below the maximum and accounted for, old instances retire; a failed host
      is avoided ([ReconcilerFacts]), and the reconcile of a TaskRun gives it a host when one
      is free ([ServiceFacts]; [ProgressFacts] for the allocation alone).
    - No static host ever has more tasks than it may run and a lagging list may miss, for
      reconciles one after the other, stopped anywhere, with restarts ([FleetFacts], by the
      types of [FleetTypes]; for single allocations [ClusterFacts]).
    - Errors: the user is told of every error of an allocation ([ErrorFacts]).
    - Updates resend only managed fields and succeed only when stored ([UpdateFacts]);
      provisioning and its outcome ([ProvisionFacts], [ReconcilerFacts]); the cache agrees with
      the ConfigMap ([PlatformFacts]); the parsers accept exactly the configurations described
      and round-trip ([ConfigFacts]).
    - Clouds: tags, names within their bounds, what is counted and listed, loops that
      return or that need not ([AwsFacts], [IbmZFacts], [IbmPowerFacts]).
    - A password redeems what was stored, once ([OtpFacts]); the process starts its manager
      only when set up, and sees the secrets it creates ([ManagerFacts]); host updates are
      staggered ([HostUpdateFacts]), gauges show counts ([MetricsFacts]); the development
      tool deletes what it should and keeps credentials off command lines ([DevSetupFacts]).
    [Examples] executes whole reconciles against an API server.

    ** Concurrency

    The controller reconciles ten TaskRuns at once by default. Theorems over [go_spec] allow
    other reconciles in between, since answers are arbitrary. The capacity of static hosts
    holds for reconciles that do not overlap; [ClusterFacts.overlapping_allocations_overcommit]
    executes two overlapping allocations that put two tasks on a host for one, and
    [FleetFacts.stale_list_overcommits] two reconciles, one after the other, with a list that
    is out of date. The password
    service's requests are transactions in the order they take the lock.

    ** Bounds and fuel

    The background loops of the clouds take one round per sleep and stop at a time limit:
    62 rounds of ten seconds for the ten minutes of a deletion on IBM Z and IBM Power, 61
    for the resizing loop of IBM Power; the theorems show that these rounds suffice when
    the conditions of the loop are met, and [deletion_waits_for_pending] that on IBM Z no
    number suffices while an instance stays pending. The exporter's goroutine needs one
    round more than the ticks, the listing of logs one more than the pages. Trimming has
    the length of the string as fuel. Retries take the steps of their back-off, which the
    laws make positive.

    ** Not modelled

    Logging, and the text of log messages. Flag parsing (flags are a record), signal
    handling. The settings of cloud requests that are constants (disk types, machine
    profiles) as far as no method reads them back. Headers and bodies of the mux's own
    answers; TLS below the certificate that is loaded. The test clients and the ping that
    tests inject into the IBM providers, generated mocks, coverage hooks, and the
    end-to-end test helpers under [src/test]. What an API server does with a request whose answer is lost: an
    error is a write that was not stored. *)
From stdpp Require Export base option list gmap sets strings fin_maps.
From Stdlib Require Export ZArith Lia Ascii.

(** The scope of the development's own notations. *)
Declare Scope mpc_scope.
Delimit Scope mpc_scope with mpc.
#[global] Open Scope mpc_scope.

(** ** Hint databases *)

(** [mpc]: lemmas that close the routine goals of the components. *)
Create HintDb mpc discriminated.

(** ** Tactics *)

(** Case analysis on the scrutinee of the first [match] of a hypothesis or the goal,
    closing the branches that contradict an equation in the context. *)
Ltac case_step :=
  match goal with
  | H : context [match ?x with _ => _ end] |- _ => destruct x eqn:?; simplify_eq/=
  | |- context [match ?x with _ => _ end] => destruct x eqn:?; simplify_eq/=
  end.

Ltac cases := repeat (case_step; try done).

(** Two string constants differ. *)
Ltac differ := vm_compute; discriminate.

(** Split every conjunction of the goal, then try the given tactic. *)
Tactic Notation "splits" "by" tactic3(tac) := repeat split; try tac.

(** ** Lists *)

Section lists.
Context {A : Type}.
Implicit Types (l : list A) (P : A → Prop).

Lemma elem_of_snoc x y l : x ∈ l ++ [y] ↔ x ∈ l ∨ x = y.
Proof. rewrite elem_of_app, list_elem_of_singleton. done. Qed.

(** The first element of a list that satisfies a boolean test (Go's
    [for … { if p { x = …; break } }]). *)
Fixpoint find_first (p : A → bool) l : option A :=
  match l with
  | [] => None
  | x :: l => if p x then Some x else find_first p l
  end.

Lemma find_first_Some p l x :
  find_first p l = Some x →
  p x = true ∧ ∃ l1 l2, l = l1 ++ x :: l2 ∧ Forall (λ y, p y = false) l1.
Proof.
  induction l as [|y l IH]; simpl; [done|].
  destruct (p y) eqn:Hp; intros Heq; simplify_eq.
  - split; [done|]. by exists [], l.
  - destruct (IH Heq) as (? & l1 & l2 & -> & ?). split; [done|].
    exists (y :: l1), l2. auto.
Qed.

Lemma find_first_None p l : find_first p l = None ↔ Forall (λ y, p y = false) l.
Proof.
  induction l as [|y l IH]; simpl; [by split; auto|].
  destruct (p y) eqn:Hp; rewrite ?Forall_cons, <- ?IH; naive_solver congruence.
Qed.

Lemma find_first_existsb p l : is_Some (find_first p l) ↔ existsb p l = true.
Proof.
  induction l as [|y l IH]; simpl.
  - split; [intros [? ?]; done|done].
  - destruct (p y); simpl; naive_solver.
Qed.
End lists.
