(* ===== verification/GoLib.v ===== *)
(** * The part of the Go language and of its standard library that the controller uses

    Strings are Go strings: sequences of bytes. *)
From S2P Require Import Prelude.
From Stdlib Require Import DecimalString DecimalZ DecimalFacts DecimalPos.

(** ** Errors *)

(** The reason of a Kubernetes API status error ([k8s.io/apimachinery/pkg/api/errors]). *)
Inductive StatusReason :=
| ReasonNotFound
| ReasonAlreadyExists
| ReasonConflict
| ReasonInternalError
| ReasonOther (reason : string).

#[global] Instance StatusReason_eq_dec : EqDecision StatusReason.
Proof. solve_decision. Defined.

(** The package-level error values the code compares against. *)
Inductive Sentinel :=
| ErrAllHostsFailed
| errInvalidPlatformFormat
| errMissingPlatformParameter
| ErrInvalidIPFormat
| errIBMHostSecretPlatformMismatch.

#[global] Instance Sentinel_eq_dec : EqDecision Sentinel.
Proof. solve_decision. Defined.

(** A Go error: an API status, a package-level value, a fresh [errors.New] (or
    [fmt.Errorf] without [%w]), or [fmt.Errorf] with one [%w] verb between two texts. *)
Inductive error :=
| ApiStatus (r : StatusReason) (msg : string)
| ErrSentinel (s : Sentinel)
| ErrText (msg : string)
| ErrWrap (pre : string) (inner : error) (post : string).

#[global] Instance error_eq_dec : EqDecision error.
Proof. solve_decision. Defined.

Definition sentinel_text (s : Sentinel) : string :=
  match s with
  | ErrAllHostsFailed => "all available hosts for the platform have failed"
  | errInvalidPlatformFormat => "platform must be in format 'label/label' where each label follows Kubernetes RFC 1035 label name format"
  | errMissingPlatformParameter => "PLATFORM parameter not found in TaskRun parameters"
  | ErrInvalidIPFormat => "value must be a valid IP address in dotted decimal notation"
  | errIBMHostSecretPlatformMismatch => "host secret key and value must contain matching platform substring"
  end.

(** [err.Error()] *)
Fixpoint Error (e : error) : string :=
  match e with
  | ApiStatus _ msg => msg
  | ErrSentinel s => sentinel_text s
  | ErrText msg => msg
  | ErrWrap pre e post => pre +:+ Error e +:+ post
  end.

(** [errors.Is(err, target)] for a package-level target. *)
Fixpoint errors_Is (e : error) (target : Sentinel) : bool :=
  match e with
  | ErrSentinel s => bool_decide (s = target)
  | ErrWrap _ e _ => errors_Is e target
  | _ => false
  end.

(** The reason [k8serrors.ReasonForError] finds in the chain of wrapped errors. *)
Fixpoint ReasonForError (e : error) : option StatusReason :=
  match e with
  | ApiStatus r _ => Some r
  | ErrWrap _ e _ => ReasonForError e
  | _ => None
  end.

Definition IsNotFound (e : error) : bool := bool_decide (ReasonForError e = Some ReasonNotFound).
Definition IsAlreadyExists (e : error) : bool := bool_decide (ReasonForError e = Some ReasonAlreadyExists).
Definition IsConflict (e : error) : bool := bool_decide (ReasonForError e = Some ReasonConflict).
Definition IsInternalError (e : error) : bool := bool_decide (ReasonForError e = Some ReasonInternalError).

(** A Go result pair [(T, error)] whose value is only meaningful when the error is nil. *)
Inductive result (A : Type) :=
| Ok (a : A)
| Err (e : error).
Arguments Ok {A} a.
Arguments Err {A} e.

#[global] Instance result_eq_dec {A} `{EqDecision A} : EqDecision (result A).
Proof. solve_decision. Defined.

#[global] Instance result_ret : MRet result := @Ok.
#[global] Instance result_bind : MBind result := λ A B f r,
  match r with Ok a => f a | Err e => Err e end.
#[global] Instance result_fmap : FMap result := λ A B f r,
  match r with Ok a => Ok (f a) | Err e => Err e end.

(** [if err := r; err != nil { return …, wrap(err) }] *)
Definition map_err {A} (f : error → error) (r : result A) : result A :=
  match r with Ok a => Ok a | Err e => Err (f e) end.

(** [if err := e; err != nil { return wrap(err) }] *)
Definition check (f : error → error) (e : option error) : result unit :=
  match e with Some e => Err (f e) | None => Ok tt end.

Lemma check_Ok f e u : check f e = Ok u ↔ e = None.
Proof. destruct e, u; simpl; naive_solver. Qed.

Lemma result_bind_Ok {A B} (f : A → result B) r b :
  r ≫= f = Ok b ↔ ∃ a, r = Ok a ∧ f a = Ok b.
Proof. destruct r; simpl; naive_solver. Qed.

Lemma map_err_Ok {A} f (r : result A) a : map_err f r = Ok a ↔ r = Ok a.
Proof. destruct r; simpl; naive_solver. Qed.

(** ** Maps

    A Go [map[string]string] value is nil or refers to a map. *)
Abbreviation smap := (gmap string string).
Abbreviation gomap := (option smap).

(** [m[k]]: the zero value when the key is absent or the map nil. *)
Definition map_get (m : gomap) (k : string) : string := default "" (m ≫= (.!! k)).
(** [v, ok := m[k]] *)
Definition map_lookup (m : gomap) (k : string) : option string := m ≫= (.!! k).
(** [delete(m, k)]: no effect on a nil map. *)
Definition map_delete (m : gomap) (k : string) : gomap := delete k <$> m.
(** [m[k] = v] on a map that is not nil; [None] is the run-time panic on a nil map. *)
Definition map_set (m : gomap) (k v : string) : option gomap :=
  match m with None => None | Some g => Some (Some (<[k:=v]> g)) end.
(** [data[k]] on a map that is known not to be nil. *)
Definition sget (m : smap) (k : string) : string := default "" (m !! k).

(** ** Integers

    [int] and [int64] are 64-bit two's complement. *)
Definition wrap64 (z : Z) : Z := ((z + 2^63) mod 2^64 - 2^63)%Z.
Definition min_int64 : Z := (- 2^63)%Z.
Definition max_int64 : Z := (2^63 - 1)%Z.
Definition in_int64 (z : Z) : Prop := (min_int64 ≤ z ≤ max_int64)%Z.

Lemma wrap64_range z : in_int64 (wrap64 z).
Proof.
  unfold wrap64, in_int64, min_int64, max_int64.
  pose proof (Z.mod_pos_bound (z + 2^63) (2^64) ltac:(lia)). lia.
Qed.

Lemma wrap64_id z : in_int64 z → wrap64 z = z.
Proof.
  unfold wrap64, in_int64, min_int64, max_int64. intros ?.
  rewrite Z.mod_small; lia.
Qed.
