(* ===== verification/GoStrings.v ===== *)
(** * The functions of Go's [strings], [strconv] and [sort] packages the controller calls

    Each function works on bytes, as Go's do; separators and characters to replace are
    single bytes at every call site. *)
From S2P Require Import Prelude GoLib.
From Stdlib Require Import DecimalString DecimalZ DecimalFacts DecimalPos Sorting.
From stdpp Require Import sorting.


(** ** Characters *)

Definition is_lower (c : ascii) : bool := let n := N_of_ascii c in (97 <=? n)%N && (n <=? 122)%N.
Definition is_upper (c : ascii) : bool := let n := N_of_ascii c in (65 <=? n)%N && (n <=? 90)%N.
Definition is_digit (c : ascii) : bool := let n := N_of_ascii c in (48 <=? n)%N && (n <=? 57)%N.

(** A string all of whose bytes satisfy a test. *)
Fixpoint str_forall (p : ascii → bool) (s : string) : bool :=
  match s with EmptyString => true | String c s => p c && str_forall p s end.

(** The byte [c] occurs in [s]. *)
Fixpoint str_mem (c : ascii) (s : string) : bool :=
  match s with EmptyString => false | String d s => Ascii.eqb d c || str_mem c s end.

(** ** Splitting and joining *)

(** [strings.Split(s, sep)] *)
Fixpoint Split (s : string) (sep : ascii) : list string :=
  match s with
  | EmptyString => [EmptyString]
  | String c s =>
      if Ascii.eqb c sep then EmptyString :: Split s sep
      else match Split s sep with
           | [] => [String c EmptyString]
           | p :: ps => String c p :: ps
           end
  end.

(** [strings.Join(elems, sep)] *)
Definition Join (elems : list string) (sep : ascii) : string :=
  String.concat (String sep EmptyString) elems.

(** [strings.ReplaceAll(s, old, new)] *)
Fixpoint ReplaceAll (s : string) (old new : ascii) : string :=
  match s with
  | EmptyString => EmptyString
  | String c s => String (if Ascii.eqb c old then new else c) (ReplaceAll s old new)
  end.

(** [strings.HasPrefix(s, prefix)] *)
Definition HasPrefix (s pre : string) : bool := String.prefix pre s.

(** [strings.Contains(s, substr)] *)
Fixpoint Contains (s substr : string) : bool :=
  String.prefix substr s || match s with EmptyString => false | String _ s => Contains s substr end.

(** [strings.Index(s, sep)] for a one-byte [sep]; [None] is -1. *)
Fixpoint Index (s : string) (sep : ascii) : option nat :=
  match s with
  | EmptyString => None
  | String c s => if Ascii.eqb c sep then Some 0 else S <$> Index s sep
  end.

(** [strings.LastIndex(s, sep)] for a one-byte [sep]; [None] is -1. *)
Fixpoint LastIndex (s : string) (sep : ascii) : option nat :=
  match s with
  | EmptyString => None
  | String c s =>
      match LastIndex s sep with
      | Some i => Some (S i)
      | None => if Ascii.eqb c sep then Some 0 else None
      end
  end.

(** [s[lo:hi]] and [s[lo:]] for bounds that are in range. *)
Definition slice (s : string) (lo hi : nat) : string := String.substring lo (hi - lo) s.
Definition slice_from (s : string) (lo : nat) : string := String.substring lo (String.length s - lo) s.

(** [strings.ToLower]: the ASCII letters. At its call sites the result is compared with an
    ASCII prefix or the argument has been checked to be ASCII. *)
Definition lower_char (c : ascii) : ascii :=
  if is_upper c then ascii_of_N (N_of_ascii c + 32) else c.
Fixpoint ToLower (s : string) : string :=
  match s with EmptyString => EmptyString | String c s => String (lower_char c) (ToLower s) end.

(** [strings.TrimLeft(s, cutset)] *)
Fixpoint TrimLeft (s cutset : string) : string :=
  match s with
  | EmptyString => EmptyString
  | String c s' => if str_mem c cutset then TrimLeft s' cutset else s
  end.

(** [strings.TrimSuffix(s, suffix)] *)
Definition TrimSuffix (s suffix : string) : string :=
  let n := String.length s - String.length suffix in
  if (String.length suffix <=? String.length s)%nat && String.eqb (slice_from s n) suffix
  then slice s 0 n else s.

(** *** [strings.TrimSpace]: the runes of [unicode.IsSpace], in UTF-8. *)

Definition bytes (l : list N) : string := fold_right (λ n s, String (ascii_of_N n) s) EmptyString l.

Definition space_runes : list string :=
  map bytes ([[9]; [10]; [11]; [12]; [13]; [32];
        [194; 133]; [194; 160]; [225; 154; 128];
        [226; 128; 128]; [226; 128; 129]; [226; 128; 130]; [226; 128; 131];
        [226; 128; 132]; [226; 128; 133]; [226; 128; 134]; [226; 128; 135];
        [226; 128; 136]; [226; 128; 137]; [226; 128; 138];
        [226; 128; 168]; [226; 128; 169]; [226; 128; 175]; [226; 129; 159];
        [227; 128; 128]]%N : list (list N)).

Definition strip_one (runes : list string) (s : string) : option string :=
  match find_first (λ r, String.prefix r s) runes with
  | Some r => Some (slice_from s (String.length r))
  | None => None
  end.

(** Every round removes at least one byte: [String.length s] rounds are enough. *)
Fixpoint strip_all (fuel : nat) (runes : list string) (s : string) : string :=
  match fuel with
  | 0 => s
  | S fuel => match strip_one runes s with Some s' => strip_all fuel runes s' | None => s end
  end.

Definition strip (runes : list string) (s : string) : string := strip_all (String.length s) runes s.
Definition TrimLeftSpace (s : string) : string := strip space_runes s.
Definition TrimRightSpace (s : string) : string :=
  String.rev (strip (String.rev <$> space_runes) (String.rev s)).
Definition TrimSpace (s : string) : string := TrimRightSpace (TrimLeftSpace s).

(** ** Numbers *)

(** [strconv.Quote], on printable bytes. *)
Definition Quote (s : string) : string := String "034" (s +:+ String "034" EmptyString).
Definition errSyntax (fn s : string) : error :=
  ErrText ("strconv." +:+ fn +:+ ": parsing " +:+ Quote s +:+ ": invalid syntax").
Definition errRange (fn s : string) : error :=
  ErrText ("strconv." +:+ fn +:+ ": parsing " +:+ Quote s +:+ ": value out of range").

(** The value of a non-empty string of decimal digits. *)
Definition digits_value (s : string) : option Z :=
  match s with
  | EmptyString => None
  | _ => (λ u, Z.of_N (N.of_uint u)) <$> NilEmpty.uint_of_string s
  end.

(** An optional sign, then digits. *)
Definition signed_value (s : string) : option Z :=
  match s with
  | String "-" s => Z.opp <$> digits_value s
  | String "+" s => digits_value s
  | _ => digits_value s
  end.

(** [strconv.ParseInt(s, 10, bitSize)] *)
Definition ParseInt_ (fn s : string) (bitSize : Z) : result Z :=
  match signed_value s with
  | None => Err (errSyntax fn s)
  | Some v =>
      if (- 2^(bitSize - 1) <=? v)%Z && (v <=? 2^(bitSize - 1) - 1)%Z then Ok v
      else Err (errRange fn s)
  end.
Definition ParseInt (s : string) (bitSize : Z) : result Z := ParseInt_ "ParseInt" s bitSize.
(** [strconv.Atoi(s)] *)
Definition Atoi (s : string) : result Z := ParseInt_ "Atoi" s 64.
(** [strconv.Itoa(i)], [strconv.FormatInt(i, 10)] and the verb [%d]. *)
Definition Itoa (i : Z) : string := NilZero.string_of_int (Z.to_int i).

(** [strconv.ParseBool(s)] *)
Definition ParseBool (s : string) : result bool :=
  if bool_decide (s ∈ ["1"; "t"; "T"; "true"; "TRUE"; "True"]) then Ok true
  else if bool_decide (s ∈ ["0"; "f"; "F"; "false"; "FALSE"; "False"]) then Ok false
  else Err (errSyntax "ParseBool" s).

(** ** Sorting: [sort.Strings] (byte-wise order) *)

Definition Strings_sort (l : list string) : list string := merge_sort String.le l.

(** ** Lemmas *)

Lemma str_mem_forall c s : str_mem c s = false ↔ str_forall (λ d, negb (Ascii.eqb d c)) s = true.
Proof.
  induction s as [|d s IH]; simpl; [done|].
  destruct (Ascii.eqb d c); simpl; [done|exact IH].
Qed.

Lemma str_forall_impl p q s :
  (∀ c, p c = true → q c = true) → str_forall p s = true → str_forall q s = true.
Proof.
  intros Hpq. induction s as [|c s IH]; simpl; [done|].
  rewrite !andb_true_iff. intros [? ?]; auto.
Qed.

Lemma str_forall_app p s1 s2 : str_forall p (s1 +:+ s2) = str_forall p s1 && str_forall p s2.
Proof.
  induction s1 as [|c s1 IH]; [done|].
  change (String c s1 +:+ s2) with (String c (s1 +:+ s2)). simpl. rewrite IH. by rewrite andb_assoc.
Qed.

Lemma str_mem_app c s1 s2 : str_mem c (s1 +:+ s2) = str_mem c s1 || str_mem c s2.
Proof.
  induction s1 as [|d s1 IH]; [done|].
  change (String d s1 +:+ s2) with (String d (s1 +:+ s2)). simpl. rewrite IH. by rewrite orb_assoc.
Qed.

Lemma str_app_nil_r s : s +:+ EmptyString = s.
Proof. induction s as [|c s IH]; [done|]. change (String c (s +:+ "") = String c s). by rewrite IH. Qed.

Lemma str_app_assoc s1 s2 s3 : (s1 +:+ s2) +:+ s3 = s1 +:+ (s2 +:+ s3).
Proof.
  induction s1 as [|c s IH]; [done|].
  change (String c ((s +:+ s2) +:+ s3) = String c (s +:+ (s2 +:+ s3))). by rewrite IH.
Qed.

Lemma length_str_app s1 s2 :
  String.length (s1 +:+ s2) = String.length s1 + String.length s2.
Proof.
  induction s1 as [|c s IH]; [done|].
  change (S (String.length (s +:+ s2)) = S (String.length s) + String.length s2). by rewrite IH.
Qed.

Lemma length_ReplaceAll s old new : String.length (ReplaceAll s old new) = String.length s.
Proof. induction s; simpl; auto. Qed.

Lemma length_ToLower s : String.length (ToLower s) = String.length s.
Proof. induction s; simpl; auto. Qed.

(** *** Split and Join *)

Lemma Split_not_nil s sep : Split s sep ≠ [].
Proof.
  destruct s as [|c s]; simpl; [done|]. destruct (Ascii.eqb c sep); [done|].
  destruct (Split s sep); done.
Qed.

Lemma Join_cons p q ps sep :
  Join (p :: q :: ps) sep = p +:+ String sep (Join (q :: ps) sep).
Proof. done. Qed.

Lemma Join_Split s sep : Join (Split s sep) sep = s.
Proof.
  induction s as [|c s IH]; [done|]. simpl. destruct (Ascii.eqb_spec c sep) as [->|Hne].
  - pose proof (Split_not_nil s sep). destruct (Split s sep) as [|q ps]; [done|].
    rewrite Join_cons, IH. done.
  - pose proof (Split_not_nil s sep). destruct (Split s sep) as [|q [|r ps]]; [done|..].
    + unfold Join in *. simpl in *. by rewrite IH.
    + rewrite Join_cons in *.
      change (String c (q +:+ String sep (Join (r :: ps) sep)) = String c s). by rewrite IH.
Qed.

Lemma Split_no_sep s sep : str_mem sep s = false → Split s sep = [s].
Proof.
  induction s as [|c s IH]; simpl; [done|]. intros [Hc Hs]%orb_false_iff.
  rewrite Hc, IH; done.
Qed.

Lemma Split_app_sep p s sep :
  str_mem sep p = false → Split (p +:+ String sep s) sep = p :: Split s sep.
Proof.
  induction p as [|c p IH]; simpl.
  - intros _. change (EmptyString +:+ String sep s) with (String sep s). simpl.
    by rewrite Ascii.eqb_refl.
  - intros [Hc Hp]%orb_false_iff.
    change (String c p +:+ String sep s) with (String c (p +:+ String sep s)). simpl.
    by rewrite Hc, IH.
Qed.

Lemma Split_Join l sep :
  l ≠ [] → Forall (λ p, str_mem sep p = false) l → Split (Join l sep) sep = l.
Proof.
  intros Hne Hl. induction Hl as [|p l Hp Hl IH]; [done|]. destruct l as [|q l].
  - unfold Join. simpl. by apply Split_no_sep.
  - rewrite Join_cons, Split_app_sep, IH; done.
Qed.

Lemma Split_pieces s sep : Forall (λ p, str_mem sep p = false) (Split s sep).
Proof.
  induction s as [|c s IH]; simpl; [by repeat constructor|].
  destruct (Ascii.eqb_spec c sep) as [->|Hne]; [by constructor|].
  destruct (Split s sep) as [|q ps]; simplify_eq/=.
  - repeat constructor. simpl. rewrite orb_false_r. by apply Ascii.eqb_neq.
  - inversion IH; subst. constructor; [|done]. simpl. apply orb_false_iff. split; [|done].
    by apply Ascii.eqb_neq.
Qed.

(** *** Decimal numbers *)

Lemma string_of_pos_no_sign p c s :
  NilEmpty.string_of_uint (Pos.to_uint p) = String c s → is_digit c = true.
Proof.
  destruct (Pos.to_uint p); simpl; intros; simplify_eq; done.
Qed.

Lemma Pos_to_uint_not_nil p : Pos.to_uint p ≠ Decimal.Nil.
Proof. intros Heq. pose proof (DecimalPos.Unsigned.to_uint_nonnil p). done. Qed.

Lemma string_of_uint_pos p :
  NilZero.string_of_uint (Pos.to_uint p) = NilEmpty.string_of_uint (Pos.to_uint p).
Proof. pose proof (Pos_to_uint_not_nil p). by destruct (Pos.to_uint p). Qed.

Lemma digits_value_pos p :
  digits_value (NilEmpty.string_of_uint (Pos.to_uint p)) = Some (Z.pos p).
Proof.
  unfold digits_value. pose proof (Pos_to_uint_not_nil p).
  rewrite NilEmpty.usu.
  assert (N.of_uint (Pos.to_uint p) = N.pos p) as Hp.
  { pose proof (DecimalN.Unsigned.of_to (N.pos p)). done. }
  simpl. rewrite Hp. by destruct (Pos.to_uint p).
Qed.

Lemma signed_value_Itoa z : signed_value (Itoa z) = Some z.
Proof.
  unfold Itoa. destruct z as [|p|p]; simpl; [done|..].
  - rewrite string_of_uint_pos. pose proof (digits_value_pos p) as Hd.
    destruct (NilEmpty.string_of_uint (Pos.to_uint p)) as [|c s] eqn:Hs; [done|].
    apply string_of_pos_no_sign in Hs as Hc.
    unfold signed_value. destruct c as [[] [] [] [] [] [] [] []]; done.
  - rewrite string_of_uint_pos, digits_value_pos. done.
Qed.

Lemma ParseInt_range fn s b v :
  ParseInt_ fn s b = Ok v → (- 2^(b-1) ≤ v ≤ 2^(b-1) - 1)%Z ∧ signed_value s = Some v.
Proof.
  unfold ParseInt_. destruct (signed_value s) as [v'|]; [|done].
  destruct (_ && _) eqn:Hb; [|done]. intros ?; simplify_eq.
  apply andb_true_iff in Hb. split; [lia|done].
Qed.

Lemma ParseInt_Itoa fn z : in_int64 z → ParseInt_ fn (Itoa z) 64 = Ok z.
Proof.
  intros [? ?]. unfold ParseInt_. rewrite signed_value_Itoa.
  unfold min_int64, max_int64 in *.
  assert ((- 2^(64 - 1) <=? z)%Z && (z <=? 2^(64 - 1) - 1)%Z = true) as ->; [|done].
  apply andb_true_iff. lia.
Qed.

Lemma Atoi_Itoa z : in_int64 z → Atoi (Itoa z) = Ok z.
Proof. apply ParseInt_Itoa. Qed.

Lemma Atoi_range s v : Atoi s = Ok v → in_int64 v.
Proof.
  intros Hv. apply ParseInt_range in Hv as [Hv _]. exact Hv.
Qed.

(** *** Sorting *)

Lemma Strings_sort_Permutation l : Strings_sort l ≡ₚ l.
Proof. apply merge_sort_Permutation. Qed.

Lemma Strings_sort_unique l1 l2 : l1 ≡ₚ l2 → Strings_sort l1 = Strings_sort l2.
Proof.
  intros Hp. apply (StronglySorted_unique String.le); try apply (StronglySorted_merge_sort _).
  by rewrite !Strings_sort_Permutation.
Qed.

(** ** Prefixes *)

Lemma prefix_app p s : HasPrefix (p +:+ s) p = true.
Proof. unfold HasPrefix. induction p as [|c p IH]; simpl; [by destruct s|]. by destruct (ascii_dec c c). Qed.

Lemma prefix_split s p : HasPrefix s p = true → ∃ r, s = p +:+ r.
Proof.
  unfold HasPrefix. revert s. induction p as [|c p IH]; intros s; simpl; [by exists s|].
  destruct s as [|d s]; [done|]. cbn [String.prefix]. destruct (ascii_dec c d) as [->|]; [|done].
  intros [r ->]%IH. by exists r.
Qed.

(** A string is split at the last occurrence of a byte. *)
Lemma last_split s sep :
  str_mem sep s = true → ∃ p r, s = p +:+ String sep r ∧ str_mem sep r = false.
Proof.
  induction s as [|c s IH]; simpl; [done|]. destruct (str_mem sep s) eqn:Hs.
  - intros _. destruct (IH eq_refl) as (p & r & -> & ?). by exists (String c p), r.
  - rewrite orb_false_r. intros ->%Ascii.eqb_eq. by exists EmptyString, s.
Qed.
