(* ===== verification/GoFloat.v ===== *)
(** * [strconv.ParseFloat] of Go's standard library

    A [float64] is a value of the Standard Library's specification of binary floating
    point, with 53 bits of precision and exponents below 1024. A decimal or hexadecimal
    numeral is read exactly and rounded once, to nearest, ties to even. *)
From S2P Require Import Prelude GoLib GoStrings.
From Stdlib Require Export SpecFloat.
#[local] Open Scope Z_scope.

Abbreviation float64 := spec_float.
Definition prec64 : Z := 53.
Definition emax64 : Z := 1024.

(** The float nearest to the integer [n]. *)
Definition float_of_Z (n : Z) : float64 := binary_normalize prec64 emax64 n 0 false.

(** [a < b] and [a == b] on floats: false when one of them is not a number. *)
Definition float_ltb (a b : float64) : bool := SFltb a b.
Definition float_eqb (a b : float64) : bool := SFeqb a b.

(** The float nearest to [m / d], with a sign of its own. *)
Definition round_ratio (neg : bool) (m d : positive) : float64 :=
  let '(mz, ez, lz) := SFdiv_core_binary prec64 emax64 (Zpos m) 0 (Zpos d) 0 in
  binary_round_aux prec64 emax64 neg mz ez lz.

(** The float nearest to [m * base^e]. *)
Definition round_scaled (neg : bool) (m base e : Z) : float64 :=
  match m with
  | Zpos m =>
      if 0 <=? e then round_ratio neg (Z.to_pos (Zpos m * base ^ e)) 1
      else round_ratio neg m (Z.to_pos (base ^ (- e)))
  | _ => S754_zero neg
  end.

(** ** The numerals of Go *)

Definition lower (c : ascii) : ascii := lower_char c.
(** The value of a digit. *)
Definition digit_of (hex : bool) (c : ascii) : option Z :=
  let n := Z.of_N (N_of_ascii c) in
  let l := Z.of_N (N_of_ascii (lower c)) in
  if is_digit c then Some (n - 48)
  else if hex && (97 <=? l) && (l <=? 102) then Some (l - 87)
  else None.

(** The loop over the digits: the mantissa without its point, the number of digits after
    the point, and whether a point and a digit were seen. *)
Record mantissa := { mant : Z; frac : Z; sawdot : bool; sawdigits : bool }.
Fixpoint read_mantissa (hex : bool) (m : mantissa) (s : string) : mantissa * string :=
  match s with
  | EmptyString => (m, EmptyString)
  | String c s' =>
      if Ascii.eqb c "_" then read_mantissa hex m s'
      else if Ascii.eqb c "." then
        if sawdot m then (m, s)
        else read_mantissa hex {| mant := mant m; frac := frac m; sawdot := true; sawdigits := sawdigits m |} s'
      else
        match digit_of hex c with
        | Some d =>
            read_mantissa hex
              {| mant := mant m * (if hex then 16 else 10) + d;
                 frac := if sawdot m then frac m + 1 else frac m;
                 sawdot := sawdot m; sawdigits := true |} s'
        | None => (m, s)
        end
  end.

(** The digits of an exponent: those after its value has reached 10000 are dropped. *)
Fixpoint read_exponent_digits (e : Z) (s : string) : option Z :=
  match s with
  | EmptyString => Some e
  | String c s =>
      if Ascii.eqb c "_" then read_exponent_digits e s
      else match digit_of false c with
           | Some d => read_exponent_digits (if e <? 10000 then e * 10 + d else e) s
           | None => None
           end
  end.

(** What follows the mantissa: nothing, or an exponent, which a hexadecimal numeral has to
    have. *)
Definition read_exponent (hex : bool) (s : string) : option Z :=
  match s with
  | EmptyString => if hex then None else Some 0
  | String c s =>
      if Ascii.eqb (lower c) (if hex then "p" else "e") then
        let '(esign, s) := match s with
                           | String "+" s => (1, s)
                           | String "-" s => (-1, s)
                           | _ => (1, s)
                           end in
        match s with
        | String d _ => if is_digit d then Z.mul esign <$> read_exponent_digits 0 s else None
        | EmptyString => None
        end
      else None
  end.

(** [underscoreOK]: underscores only between digits, or between the base prefix and a
    digit. *)
Inductive seen := Start | Digit | Underscore | Other.
Fixpoint underscores_ok (hex : bool) (saw : seen) (s : string) : bool :=
  match s with
  | EmptyString => match saw with Underscore => false | _ => true end
  | String c s =>
      if (match digit_of hex c with Some _ => true | None => false end) then underscores_ok hex Digit s
      else if Ascii.eqb c "_" then
        match saw with Digit => underscores_ok hex Underscore s | _ => false end
      else match saw with Underscore => false | _ => underscores_ok hex Other s end
  end.

(** An optional sign. *)
Definition split_sign (s : string) : bool * string :=
  match s with
  | String "+" s => (false, s)
  | String "-" s => (true, s)
  | _ => (false, s)
  end.
(** The prefix [0x] of a hexadecimal numeral, which has more after it. *)
Definition split_hex (s : string) : bool * string :=
  match s with
  | String "0" (String x (String _ _ as t)) => if Ascii.eqb (lower x) "x" then (true, t) else (false, s)
  | _ => (false, s)
  end.

(** [readFloat] on a whole string, and the rounding. *)
Definition read_float (s : string) : option float64 :=
  let '(neg, s) := split_sign s in
  let '(hex, digits) := split_hex s in
  let '(m, rest) := read_mantissa hex {| mant := 0; frac := 0; sawdot := false; sawdigits := false |} digits in
  if negb (sawdigits m) then None
  else
    match read_exponent hex rest with
    | None => None
    | Some e =>
        if negb (underscores_ok hex (if hex then Digit else Start) digits) then None
        else Some (if hex then round_scaled neg (mant m) 2 (e - 4 * frac m)
                   else round_scaled neg (mant m) 10 (e - frac m))
    end.

(** [special]: infinities and the value that is not a number, in any case. *)
Definition special (s : string) : option float64 :=
  let '(neg, t) := split_sign s in
  if bool_decide (ToLower t ∈ ["inf"; "infinity"]) then Some (S754_infinity neg)
  else if String.eqb (ToLower s) "nan" then Some S754_nan
  else None.

(** [strconv.ParseFloat(s, 64)]: a numeral too large for a float is an error. *)
Definition ParseFloat (s : string) : result float64 :=
  match special s with
  | Some f => Ok f
  | None =>
      match read_float s with
      | None => Err (errSyntax "ParseFloat" s)
      | Some (S754_infinity _) => Err (errRange "ParseFloat" s)
      | Some f => Ok f
      end
  end.

(** ** Test vectors *)

(** [0.25], [0.1] (whose nearest float is [0x1.999999999999ap-4]), a hexadecimal numeral,
    an underscore, the limits of the range, and strings that are not numerals. *)
Example ParseFloat_vectors :
  ParseFloat "0.25" = Ok (S754_finite false (2^52) (-54)) ∧
  ParseFloat "0.1" = Ok (S754_finite false 0x1999999999999a (-56)) ∧
  ParseFloat "100" = Ok (float_of_Z 100) ∧
  ParseFloat "1_00.0e0" = Ok (float_of_Z 100) ∧
  ParseFloat "-0x1.8p1" = Ok (float_of_Z (-3)) ∧
  ParseFloat "1.7976931348623159e308" = Err (errRange "ParseFloat" "1.7976931348623159e308") ∧
  ParseFloat "4.9e-324" = Ok (S754_finite false 1 (-1074)) ∧
  ParseFloat "1e-400" = Ok (S754_zero false) ∧
  ParseFloat "Infinity" = Ok (S754_infinity false) ∧ ParseFloat "nan" = Ok S754_nan ∧
  ParseFloat "" = Err (errSyntax "ParseFloat" "") ∧ ParseFloat "1__0" = Err (errSyntax "ParseFloat" "1__0") ∧
  ParseFloat "0x1" = Err (errSyntax "ParseFloat" "0x1") ∧ ParseFloat "2GB" = Err (errSyntax "ParseFloat" "2GB").
Proof. vm_compute. repeat split. Qed.
