(* ===== verification/Prog.v ===== *)
(** * Effectful programs and their logic

    A Go function that calls the outside world (the Kubernetes API, a cloud, the clock,
    the process's own memory) is a [prog]: a finite tree whose nodes are the requests it
    makes and whose branches are the answers it may get. [wp] is its weakest
    precondition over the history of calls made so far, under a contract that says which
    answers are possible; [run] executes it against a concrete environment. *)
From S2P Require Import Prelude GoLib.

(** ** Syntax *)

Inductive prog (E : Type → Type) (A : Type) : Type :=
| Ret (a : A)
| Panic (why : string)                       (* a Go run-time panic *)
| Vis {X : Type} (e : E X) (k : X → prog E A).
Arguments Ret {E A} a.
Arguments Panic {E A} why.
Arguments Vis {E A X} e k.

Fixpoint prog_bind {E A B} (f : A → prog E B) (p : prog E A) : prog E B :=
  match p with
  | Ret a => f a
  | Panic w => Panic w
  | Vis e k => Vis e (λ x, prog_bind f (k x))
  end.

#[global] Instance prog_ret E : MRet (prog E) := @Ret E.
#[global] Instance prog_mbind E : MBind (prog E) := @prog_bind E.

(** One request. *)
Definition trigger {E X} (e : E X) : prog E X := Vis e Ret.

(** Programs over two signatures: each request of [p] is carried out by a program of
    the other signature. *)
Fixpoint interp {E F : Type → Type} {A} (f : ∀ X, E X → prog F X) (p : prog E A) : prog F A :=
  match p with
  | Ret a => Ret a
  | Panic w => Panic w
  | Vis e k => f _ e ≫= λ x, interp f (k x)
  end.

(** [for _, x := range xs { acc = f(acc, x) }] with effects in the body. *)
Fixpoint foldM {E A B} (f : B → A → prog E B) (acc : B) (xs : list A) : prog E B :=
  match xs with
  | [] => mret acc
  | x :: xs => acc ← f acc x; foldM f acc xs
  end.

(** [m[k] = v], which panics on a nil map. *)
Definition map_assign {E} (m : gomap) (k v : string) : prog E gomap :=
  match map_set m k v with
  | Some m' => mret m'
  | None => Panic "assignment to entry in nil map"
  end.

(** [*p], which panics on a nil pointer. *)
Definition deref {E A} (p : option A) : prog E A :=
  match p with
  | Some a => mret a
  | None => Panic "invalid memory address or nil pointer dereference"
  end.

(** At most [n] attempts at [fn]: the next one is made when the last returned a
    retriable error. *)
Fixpoint attempts {E A} (n : nat) (retriable : error → bool)
    (fn : prog E (result A)) : prog E (result A) :=
  match n with
  | 0 => fn
  | S n =>
      r ← fn;
      match r with
      | Ok a => mret (Ok a)
      | Err e => if retriable e then attempts n retriable fn else mret (Err e)
      end
  end.

(** [for { … }] with at most [fuel] rounds, each of which says whether it is the last:
    [true] when the loop has returned. *)
Fixpoint until {E} (fuel : nat) (round : prog E bool) : prog E bool :=
  match fuel with
  | 0 => mret false
  | S fuel =>
      last ← round;
      if (last : bool) then mret true else until fuel round
  end.

(** ** Histories and contracts *)

Record event (E : Type → Type) := Ev { ev_ty : Type; ev_req : E ev_ty; ev_ans : ev_ty }.
Arguments Ev {E ev_ty} ev_req ev_ans.
Arguments ev_ty {E} e.
Arguments ev_req {E} e.
Arguments ev_ans {E} e.

(** The calls made so far, the last one first. *)
Abbreviation hist E := (list (event E)).

(** The answers the environment may give, which may depend on what happened before. *)
Definition contract (E : Type → Type) := hist E → ∀ X : Type, E X → X → Prop.
(** Any answer at all. *)
Definition any {E} : contract E := λ _ _ _ _, True.
Definition contract_le {E} (S1 S2 : contract E) : Prop :=
  ∀ h X (e : E X) x, S1 h X e x → S2 h X e x.

(** Whatever the answers within the contract, the program ends: with a result and a history
    that satisfy [Q], or with a panic that satisfies [P]. *)
Fixpoint wpp {E A} (S : contract E) (P : string → hist E → Prop) (p : prog E A) (Q : A → hist E → Prop)
    (h : hist E) : Prop :=
  match p with
  | Ret a => Q a h
  | Panic why => P why h
  | Vis e k => ∀ x, S h _ e x → wpp S P (k x) Q (Ev e x :: h)
  end.

(** Total correctness: no panic. *)
Definition no_panic {E} (why : string) (h : hist E) : Prop := False.
Abbreviation wp S := (wpp S no_panic).

(** ** Rules *)

Section rules.
Context {E : Type → Type} (S : contract E) {P : string → hist E → Prop}.
Implicit Types (h : hist E).

Lemma wp_ret {A} (a : A) (Q : A → hist E → Prop) h : Q a h → wpp S P (mret a) Q h.
Proof. done. Qed.

Lemma wp_trigger {X} (e : E X) (Q : X → hist E → Prop) h :
  (∀ x, S h X e x → Q x (Ev e x :: h)) → wpp S P (trigger e) Q h.
Proof. done. Qed.

Lemma wp_bind_iff {A B} (p : prog E A) (f : A → prog E B) Q h :
  wpp S P (p ≫= f) Q h ↔ wpp S P p (λ a, wpp S P (f a) Q) h.
Proof.
  revert h. induction p as [a|w|X e k IH]; intros h; [done..|].
  split; intros H x Hx; [apply (proj1 (IH x _))|apply (proj2 (IH x _))]; by apply H.
Qed.

Lemma wp_bind {A B} (p : prog E A) (f : A → prog E B) Q h :
  wpp S P p (λ a, wpp S P (f a) Q) h → wpp S P (p ≫= f) Q h.
Proof. apply wp_bind_iff. Qed.

Lemma wp_mono {A} (p : prog E A) (Q Q' : A → hist E → Prop) h :
  (∀ a h', Q a h' → Q' a h') → wpp S P p Q h → wpp S P p Q' h.
Proof. intros HQ. revert h. induction p; simpl; eauto. Qed.

Lemma wp_contract_le (S' : contract E) {A} (p : prog E A) Q h :
  contract_le S' S → wpp S P p Q h → wpp S' P p Q h.
Proof. intros Hle. revert h. induction p; simpl; eauto. Qed.

Lemma wp_and {A} (p : prog E A) (Q1 Q2 : A → hist E → Prop) h :
  wpp S P p Q1 h → wpp S P p Q2 h → wpp S P p (λ a h', Q1 a h' ∧ Q2 a h') h.
Proof. revert h. induction p; simpl; eauto. Qed.

(** Weaker claims about panics. *)
Lemma wpp_panics (P' : string → hist E → Prop) {A} (p : prog E A) (Q : A → hist E → Prop) h :
  (∀ why h', P' why h' → P why h') → wpp S P' p Q h → wpp S P p Q h.
Proof. intros HP. revert h. induction p; simpl; eauto. Qed.
Lemma wp_panics {A} (p : prog E A) (Q : A → hist E → Prop) h : wp S p Q h → wpp S P p Q h.
Proof. by apply wpp_panics. Qed.

(** A program only adds to the history. *)
Lemma wp_frame {A} (p : prog E A) Q h :
  wpp S P p Q h → wpp S P p (λ a h', Q a h' ∧ suffix h h') h.
Proof.
  intros H. eapply (wp_mono _ (λ a h', Q a h' ∧ suffix h h')); [done|]. revert h H.
  induction p as [a|w|X e k IH]; intros h; simpl; [by split|done|].
  intros H x Hx. eapply wp_mono; [|apply IH, H, Hx].
  intros a h' [? Hs]. split; [done|]. etrans; [|exact Hs]. by apply suffix_cons_r.
Qed.

(** Loops: an invariant indexed by the elements already visited. *)
Lemma wp_foldM {A B} (f : B → A → prog E B) (I : list A → B → hist E → Prop) xs :
  ∀ acc pre Q h,
    I pre acc h →
    (∀ pre x acc h, x ∈ xs → I pre acc h → wpp S P (f acc x) (I (pre ++ [x])) h) →
    (∀ acc h, I (pre ++ xs) acc h → Q acc h) →
    wpp S P (foldM f acc xs) Q h.
Proof.
  induction xs as [|x xs IH]; intros acc pre Q h HI Hf HQ; simpl.
  - apply wp_ret, HQ. by rewrite app_nil_r.
  - apply wp_bind. eapply wp_mono; [|apply Hf; [left|done]].
    intros acc' h' HI'. apply (IH _ (pre ++ [x])); [done| |].
    + intros. apply Hf; [by right|done].
    + intros. apply HQ. by rewrite <- app_assoc in *.
Qed.

(** Retry loops. *)
Lemma wp_attempts {A} n retriable (fn : prog E (result A)) (I : hist E → Prop) Q h :
  I h →
  (∀ h, I h → wpp S P fn (λ r h', Q r h' ∧ ∀ e, r = Err e → retriable e = true → I h') h) →
  wpp S P (attempts n retriable fn) Q h.
Proof.
  revert h. induction n as [|n IH]; intros h HI Hfn; simpl.
  - eapply wp_mono; [|by apply Hfn]. naive_solver.
  - apply wp_bind. eapply wp_mono; [|by apply Hfn].
    intros [a|e] h' [HQ HI']; [done|]. destruct (retriable e) eqn:He; [|done].
    apply IH; [by eapply HI'|done].
Qed.

(** Retry loops, with the number of attempts made so far: the result of the last one is
    the result of the loop, and it was not worth a retry or the attempts are used up. *)
Lemma wp_attempts_nat {A} n retriable (fn : prog E (result A)) (I : nat → hist E → Prop) Q i h :
  I i h →
  (∀ j h, i ≤ j ≤ i + n → I j h →
    wpp S P fn (λ r h', (∀ e, r = Err e → retriable e = true → j < i + n → I (1 + j) h') ∧
                     ((∀ e, r = Err e → retriable e = true → j = i + n) → Q r h')) h) →
  wpp S P (attempts n retriable fn) Q h.
Proof.
  revert i h. induction n as [|n IH]; intros i h HI Hfn; simpl.
  - eapply wp_mono; [|apply (Hfn i); [lia|done]]. intros r h' [_ HQ]. apply HQ. intros; lia.
  - apply wp_bind. eapply wp_mono; [|apply (Hfn i); [lia|done]].
    intros [a|e] h' [HI' HQ]; [by apply HQ|].
    destruct (retriable e) eqn:He.
    + apply (IH (1 + i)); [apply (HI' e); [done..|lia]|]. intros j h'' Hj HIj.
      eapply wp_mono; [|apply (Hfn j); [lia|done]]. intros r h3 [HI3 HQ3]. split; intros.
      * eapply HI3; [done..|lia].
      * apply HQ3. intros e' ? ?. assert (j = 1 + i + n) by eauto. lia.
    + apply wp_ret, HQ. intros e' ? ?. congruence.
Qed.

(** Loops that end: an invariant indexed by the rounds that are left at most. *)
Lemma wp_until (round : prog E bool) (I : nat → hist E → Prop) (Q : hist E → Prop) n h :
  (∀ n h, I n h → wpp S P round (λ last h', if last then Q h' else match n with 0 => False | Datatypes.S n => I n h' end) h) →
  I n h → wpp S P (until (Datatypes.S n) round) (λ r h', r = true ∧ Q h') h.
Proof.
  intros Hr. revert h. induction n as [|n IH]; intros h HI; cbn [until]; apply wp_bind;
    (eapply wp_mono; [|by apply Hr]); intros [] h' HQ; first [by apply wp_ret|by apply IH|done].
Qed.

Lemma wp_map_assign m k v (Q : gomap → hist E → Prop) h :
  is_Some m → (∀ g, m = Some g → Q (Some (<[k:=v]> g)) h) → wpp S P (map_assign m k v) Q h.
Proof. intros [g ->] HQ. unfold map_assign. simpl. by apply HQ. Qed.
End rules.

(** When every request may be answered, some run ends. *)
Lemma wp_ends {E A} (S : contract E) (p : prog E A) (Q : A → hist E → Prop) h :
  (∀ h X (e : E X), ∃ x, S h X e x) → wp S p Q h → ∃ a l, Q a (l ++ h).
Proof.
  intros HS. revert h. induction p as [a|w|X e k IH]; intros h Hp; simpl in Hp; [by exists a, []|done|].
  destruct (HS h X e) as [x Hx]. destruct (IH x _ (Hp x Hx)) as (a & l & HQ).
  exists a, (l ++ [Ev e x]). by rewrite <- app_assoc.
Qed.

(** Inserting an implementation between a program and its environment. When the
    implementation panics, what was done is explained by the beginning of a run. *)
Lemma wpp_interp {E F A} (SE : contract E) (SF : contract F) (f : ∀ X, E X → prog F X)
    (R : hist E → hist F → Prop) (P : ∀ X, E X → string → hist F → hist F → Prop) (p : prog E A) Q hE hF :
  (∀ h X (e : E X), ∃ x, SE h X e x) →
  (∀ hE hF X (e : E X), R hE hF →
    wpp SF (λ why, P X e why hF) (f X e) (λ x hF', SE hE X e x ∧ R (Ev e x :: hE) hF') hF) →
  R hE hF → wp SE p Q hE →
  wpp SF (λ why hF', ∃ a l hE' hF0 X (e : E X), Q a (l ++ hE') ∧ R hE' hF0 ∧ P X e why hF0 hF')
    (interp f p) (λ a hF', ∃ hE', R hE' hF' ∧ Q a hE') hF.
Proof.
  intros HS Hf. revert hE hF. induction p as [a|w|X e k IH]; intros hE hF HR Hp; simpl; [by exists hE|done|].
  apply wp_bind. eapply wpp_panics; [|eapply wp_mono; [|exact (Hf _ _ _ e HR)]].
  - intros why hF' HP. destruct (wp_ends SE (Vis e k) Q hE HS Hp) as (a & l & HQ).
    by exists a, l, hE, hF, X, e.
  - intros x hF' [Hx HR']. by eapply IH; [|apply Hp].
Qed.

Lemma wp_interp {E F A} (SE : contract E) (SF : contract F) (f : ∀ X, E X → prog F X)
    (R : hist E → hist F → Prop) (p : prog E A) Q hE hF :
  (∀ hE hF X (e : E X), R hE hF →
    wp SF (f X e) (λ x hF', SE hE X e x ∧ R (Ev e x :: hE) hF') hF) →
  R hE hF →
  wp SE p Q hE →
  wp SF (interp f p) (λ a hF', ∃ hE', R hE' hF' ∧ Q a hE') hF.
Proof.
  intros Hf. revert hE hF. induction p as [a|w|X e k IH]; intros hE hF HR Hp; simpl; [..|].
  - by exists hE.
  - done.
  - apply wp_bind. eapply wp_mono; [|by apply Hf]. intros x hF' [Hx HR']. by eapply IH; [|apply Hp].
Qed.

(** *** A signature as part of another *)

Section embed.
Context {E F : Type → Type} (S : contract E) (S' : contract F) (inj : ∀ X, E X → F X).

Definition inj_ev (ev : event E) : event F := Ev (inj _ (ev_req ev)) (ev_ans ev).

(** A program whose requests are passed on behaves as its specification says, when the
    contract there is as strong as here. *)
Lemma wp_embed {P : string → hist E → Prop} {A} (p : prog E A) Q h :
  (∀ l X (e : E X) x, S' ((inj_ev <$> l) ++ h) X (inj X e) x → S l X e x) →
  wpp S P p Q [] →
  wpp S' (λ why h', ∃ l, h' = (inj_ev <$> l) ++ h ∧ P why l)
    (interp (λ X e, trigger (inj X e)) p) (λ a h', ∃ l, h' = (inj_ev <$> l) ++ h ∧ Q a l) h.
Proof.
  intros Hle. change h with ((inj_ev <$> []) ++ h) at 3. generalize (@nil (event E)).
  induction p as [a|w|X e k IH]; intros l Hp; simpl in *; [by exists l..|].
  intros x Hx. apply (IH x (Ev e x :: l)). apply Hp. by apply (Hle l).
Qed.
End embed.

(** ** Execution *)

Inductive outcome (A : Type) := Done (a : A) | Panicked (why : string).
Arguments Done {A} a.
Arguments Panicked {A} why.

(** A concrete environment: its answer to each request and its next state. *)
Definition environment (E : Type → Type) (W : Type) := ∀ X, E X → W → X * W.

Fixpoint run {E A W} (env : environment E W) (p : prog E A) (w : W) : outcome A * W :=
  match p with
  | Ret a => (Done a, w)
  | Panic s => (Panicked s, w)
  | Vis e k => let '(x, w') := env _ e w in run env (k x) w'
  end.

(** Adequacy: in an environment that keeps to the contract, a program with a [wp]
    finishes without a panic in a state that satisfies it. *)
Lemma wp_run {E A W} (S : contract E) (env : environment E W) (I : hist E → W → Prop)
    (p : prog E A) Q h w :
  (∀ h w X (e : E X), I h w → S h X e (env X e w).1 ∧ I (Ev e (env X e w).1 :: h) (env X e w).2) →
  I h w → wp S p Q h →
  ∃ a h', run env p w = (Done a, (run env p w).2) ∧ Q a h' ∧ I h' (run env p w).2.
Proof.
  intros Henv. revert h w. induction p as [a|s|X e k IH]; intros h w HI Hp; simpl in *; [..|].
  - by exists a, h.
  - done.
  - destruct (Henv h w X e HI) as [HS HI']. destruct (env X e w) as [x w'] eqn:Hx. simpl in *.
    by eapply IH; [|apply Hp].
Qed.

(** ** Automation *)

(** One step of symbolic execution. *)
Ltac wp_step :=
  lazymatch goal with
  | |- wpp _ _ (mbind _ _) _ _ => apply wp_bind
  | |- wpp _ _ (mret _) _ _ => apply wp_ret
  | |- wpp _ _ (Ret _) _ _ => apply wp_ret
  | |- wpp _ _ (trigger _) _ _ => apply wp_trigger; intros
  | |- wpp _ _ (match ?x with _ => _ end) _ _ => destruct x eqn:?
  | |- wpp _ _ (let '_ := ?x in _) _ _ => destruct x eqn:?
  end; cbv beta.

Ltac wp_steps := repeat wp_step.
