(* ===== verification/Emits.v ===== *)
(** * Effect typing of programs

    [emits P p]: whatever the answers, [p] only makes requests that satisfy [P]. Unlike a
    weakest precondition it asks for no contract and no absence of panics; it composes by
    the structure of the program, which [emits] proves by the database of the same name. *)
From S2P Require Import Prelude GoLib Prog.

Inductive emits {E A} (P : ∀ X, E X → Prop) : prog E A → Prop :=
| emits_Ret a : emits P (Ret a)
| emits_Panic w : emits P (Panic w)
| emits_Vis X (e : E X) k : P X e → (∀ x, emits P (k x)) → emits P (Vis e k).

Create HintDb emits discriminated.

Section rules.
Context {E : Type → Type} (P : ∀ X, E X → Prop).

Lemma emits_ret {A} (a : A) : emits P (mret a).
Proof. apply emits_Ret. Qed.
Lemma emits_trigger {X} (e : E X) : P X e → emits P (trigger e).
Proof. intros He. apply emits_Vis; [done|]. intros x. apply emits_Ret. Qed.

Lemma emits_bind {A B} (p : prog E A) (f : A → prog E B) :
  emits P p → (∀ a, emits P (f a)) → emits P (p ≫= f).
Proof. intros Hp Hf. induction Hp as [a|w|X e k He Hk IH]; [apply Hf|apply emits_Panic|by apply emits_Vis]. Qed.

Lemma emits_foldM {A B} (f : B → A → prog E B) acc xs :
  (∀ acc x, x ∈ xs → emits P (f acc x)) → emits P (foldM f acc xs).
Proof.
  revert acc. induction xs as [|x xs IH]; intros acc Hf; simpl; [apply emits_ret|].
  apply emits_bind; [apply Hf; left|]. intros acc'. apply IH. intros. apply Hf. by right.
Qed.

Lemma emits_attempts {A} n retriable (fn : prog E (result A)) : emits P fn → emits P (attempts n retriable fn).
Proof.
  intros Hf. induction n as [|n IH]; simpl; [done|]. apply emits_bind; [done|].
  intros [a|err]; [apply emits_ret|]. destruct (retriable err); [done|apply emits_ret].
Qed.

Lemma emits_map_assign m k v : emits P (map_assign m k v).
Proof. unfold map_assign. destruct (map_set m k v); [apply emits_ret|apply emits_Panic]. Qed.
Lemma emits_deref {A} (p : option A) : emits P (deref p).
Proof. destruct p; [apply emits_ret|apply emits_Panic]. Qed.

Lemma emits_mono (P' : ∀ X, E X → Prop) {A} (p : prog E A) :
  (∀ X e, P X e → P' X e) → emits P p → emits P' p.
Proof. intros HP. induction 1; [apply emits_Ret|apply emits_Panic|apply emits_Vis; auto]. Qed.

(** A program with a specification only adds such requests to the history. *)
Lemma wp_emits (S : contract E) {A} (p : prog E A) Q h :
  emits P p → wp S p Q h →
  wp S p (λ a h', Q a h' ∧ ∃ l, h' = l ++ h ∧ Forall (λ ev, P _ (ev_req ev)) l) h.
Proof.
  intros Hp. revert h. induction Hp as [a|w|X e k He Hk IH]; intros h; simpl; [..|].
  - intros HQ. split; [done|]. by exists [].
  - done.
  - intros Hwp x Hx. eapply wp_mono; [|by apply IH, Hwp]. intros a h' [HQ (l & -> & Hl)]. split; [done|].
    exists (l ++ [Ev e x]). rewrite <- app_assoc. split; [done|]. apply Forall_app_2; [done|by repeat constructor].
Qed.
End rules.

#[export] Hint Resolve emits_ret emits_map_assign emits_deref : emits.

(** One step on a program; [emits] repeats it, closing what is left by the database. *)
Ltac emits_step :=
  lazymatch goal with
  | |- emits _ (mbind _ _) => apply emits_bind; [|intros]
  | |- emits _ (Panic _) => apply emits_Panic
  | |- emits _ (trigger _) => apply emits_trigger
  | |- emits _ (foldM _ _ _) => apply emits_foldM; intros
  | |- emits _ (attempts _ _ _) => apply emits_attempts
  | |- emits _ (match ?x with _ => _ end) => destruct x eqn:?
  | |- emits _ (let _ := _ in _) => cbv zeta
  end.
Ltac emits := repeat (first [solve [eauto with emits] | emits_step]); try done.
