(* ===== verification/Exec.v ===== *)
(** * Executions of programs: one at a time, and interleaved *)
From S2P Require Import Prelude GoLib Prog.

(** [p], after [h], may return [a] with the history [h'], by answers within the contract. *)
Inductive exec {E A} (S : contract E) : prog E A → hist E → A → hist E → Prop :=
| exec_Ret a h : exec S (Ret a) h a h
| exec_Vis X (e : E X) k x h a h' :
    S h X e x → exec S (k x) (Ev e x :: h) a h' → exec S (Vis e k) h a h'.

(** What holds whatever the answers holds of every execution. *)
Lemma wp_exec {E A} (S : contract E) (p : prog E A) Q h a h' : wp S p Q h → exec S p h a h' → Q a h'.
Proof. intros Hp Hx. induction Hx as [a h|X e k x h a h' Hx _ IH]; [done|]. by apply IH, Hp. Qed.

(** What the answers can bring a program to is an execution of it. *)
Lemma wp_self {E A} (S : contract E) (p : prog E A) Q h :
  wp S p Q h → wp S p (λ a h', exec S p h a h' ∧ Q a h') h.
Proof.
  revert h. induction p as [a|w|X e k IH]; intros h; simpl; [|done|].
  - intros HQ. split; [constructor|done].
  - intros Hp x Hx. eapply wp_mono; [|by apply IH, Hp]. intros a h' [He HQ]. split; [by econstructor|done].
Qed.

Lemma exec_contract_le {E A} (S S' : contract E) (p : prog E A) h a h' :
  contract_le S' S → exec S' p h a h' → exec S p h a h'.
Proof. intros Hle. induction 1; [constructor|]. econstructor; [by apply Hle|done]. Qed.

(** The calls [l], made after [h], were answered within the contract. *)
Fixpoint meets {E} (S : contract E) (l h : hist E) : Prop :=
  match l with
  | [] => True
  | Ev e x :: l => S (l ++ h) _ e x ∧ meets S l h
  end.

Lemma meets_app {E} (S : contract E) l1 l2 h : meets S (l1 ++ l2) h ↔ meets S l1 (l2 ++ h) ∧ meets S l2 h.
Proof.
  induction l1 as [|[X e x] l1 IH]; simpl; [by split; [intros|intros []]|].
  rewrite IH, <- app_assoc. tauto.
Qed.

Lemma exec_meets {E A} (S : contract E) (p : prog E A) h a h' :
  exec S p h a h' → ∃ l, h' = l ++ h ∧ meets S l h.
Proof.
  induction 1 as [a h|X e k x h a h' Hx _ (l & -> & Hl)]; [by exists []|].
  exists (l ++ [Ev e x]). split; [by rewrite <- app_assoc|]. apply meets_app. by repeat split.
Qed.

(** Moreover, what a program did was answered within the contract. *)
Lemma wp_meets {E A} (S : contract E) (p : prog E A) Q h :
  wp S p Q h → wp S p (λ a h', Q a h' ∧ ∃ l, h' = l ++ h ∧ meets S l h) h.
Proof.
  revert h. induction p as [a|w|X e k IH]; intros h; simpl; [|done|].
  - intros HQ. split; [done|]. by exists [].
  - intros Hp x Hx. eapply wp_mono; [|by apply IH, Hp]. intros a h' [HQ (l & -> & Hl)]. split; [done|].
    exists (l ++ [Ev e x]). split; [by rewrite <- app_assoc|]. apply meets_app. by repeat split.
Qed.

(** A concrete environment that keeps to the contract executes the program. *)
Lemma run_exec {E A W} (S : contract E) (env : environment E W) (I : hist E → W → Prop) (p : prog E A) h w a w' :
  (∀ h w X (e : E X), I h w → S h X e (env X e w).1 ∧ I (Ev e (env X e w).1 :: h) (env X e w).2) →
  I h w → run env p w = (Done a, w') → ∃ h', exec S p h a h' ∧ I h' w'.
Proof.
  intros Henv. revert h w. induction p as [b|s|X e k IH]; intros h w HI; simpl.
  - intros [= <- <-]. exists h. by split; [constructor|].
  - done.
  - destruct (Henv h w X e HI) as [HS HI']. destruct (env X e w) as [x w1] eqn:Hx. simpl in *. intros Hrun.
    destruct (IH x _ _ HI' Hrun) as (h' & Hex & HI''). exists h'. split; [by econstructor|done].
Qed.

(** An environment that also keeps the history. *)
Definition logged {E W} (env : environment E W) : environment E (W * hist E) :=
  λ X e '(w, h), let '(x, w') := env X e w in (x, (w', Ev e x :: h)).

(** ** Interleavings *)

(** The next request of a program is answered. *)
Definition step_prog {E A W} (env : environment E W) (p : prog E A) (w : W) : prog E A * W :=
  match p with
  | Vis e k => let '(x, w') := env _ e w in (k x, w')
  | _ => (p, w)
  end.

(** Programs that take turns: the schedule says whose request is answered next. *)
Fixpoint par_run {E A W} (env : environment E W) (schedule : list nat) (ps : list (prog E A)) (w : W) : list (prog E A) * W :=
  match schedule with
  | [] => (ps, w)
  | i :: schedule =>
      match ps !! i with
      | Some p => let '(p', w') := step_prog env p w in par_run env schedule (<[i := p']> ps) w'
      | None => par_run env schedule ps w
      end
  end.

(** What a program has returned. *)
Definition returned {E A} (p : prog E A) : option A := match p with Ret a => Some a | _ => None end.
