(* ===== verification/Safe.v ===== *)
(** * Invariants of programs that may stop at any time

    A process can be killed between two of its calls, and a Go panic ends a reconcile.
    [reach] is what a run of a program has done at any point, [safe] that an invariant of
    the history holds after every call, whether or not the program returns; [typed]
    composes it by the structure of the program, with a type for the values. *)
From S2P Require Import Prelude GoLib Prog Emits Exec.

(** [p], after [h], may have made the calls of [h'], by answers within the contract. *)
Inductive reach {E A} (S : contract E) : prog E A → hist E → hist E → Prop :=
| reach_here p h : reach S p h h
| reach_Vis X (e : E X) k x h h' : S h X e x → reach S (k x) (Ev e x :: h) h' → reach S (Vis e k) h h'.

Lemma exec_reach {E A} (S : contract E) (p : prog E A) h a h' : exec S p h a h' → reach S p h h'.
Proof. induction 1; [constructor|by econstructor]. Qed.

Lemma reach_meets {E A} (S : contract E) (p : prog E A) h h' : reach S p h h' → ∃ l, h' = l ++ h ∧ meets S l h.
Proof.
  induction 1 as [p h|X e k x h h' Hx _ (l & -> & Hl)]; [by exists []|].
  exists (l ++ [Ev e x]). split; [by rewrite <- app_assoc|]. apply meets_app. by repeat split.
Qed.

Section safe.
Context {E : Type → Type} (S : contract E) (I : hist E → Prop).

Fixpoint safe {A} (p : prog E A) (Q : A → hist E → Prop) (h : hist E) : Prop :=
  match p with
  | Ret a => Q a h
  | Panic _ => True
  | Vis e k => ∀ x, S h _ e x → I (Ev e x :: h) ∧ safe (k x) Q (Ev e x :: h)
  end.

(** The invariant holds at every point of a run. *)
Lemma safe_reach {A} (p : prog E A) Q h h' : I h → safe p Q h → reach S p h h' → I h'.
Proof. intros HI Hp Hr. induction Hr as [p h|X e k x h h' Hx _ IH]; [done|]. destruct (Hp x Hx). by apply IH. Qed.

Lemma safe_ret {A} (a : A) (Q : A → hist E → Prop) h : Q a h → safe (mret a) Q h.
Proof. done. Qed.

Lemma safe_mono {A} (p : prog E A) (Q Q' : A → hist E → Prop) h :
  (∀ a h', Q a h' → Q' a h') → safe p Q h → safe p Q' h.
Proof.
  intros HQ.  revert h. induction p as [a|w|X e k IH]; intros h; simpl; [apply HQ|done|].
  intros Hp x Hx. destruct (Hp x Hx). split; [done|]. by apply IH.
Qed.

Lemma safe_trigger {X} (e : E X) (Q : X → hist E → Prop) h :
  (∀ x, S h X e x → I (Ev e x :: h) ∧ Q x (Ev e x :: h)) → safe (trigger e) Q h.
Proof. done. Qed.

Lemma safe_bind {A B} (p : prog E A) (f : A → prog E B) Q h :
  safe p (λ a, safe (f a) Q) h → safe (p ≫= f) Q h.
Proof.
  revert h. induction p as [a|w|X e k IH]; intros h Hp; [done..|].
  intros x Hx. destruct (Hp x Hx). split; [done|]. by apply (IH x).
Qed.

(** What a program may do is known of what it has done. *)
Lemma safe_emits (P : ∀ X, E X → Prop) {A} (p : prog E A) Q h :
  emits P p → safe p Q h →
  safe p (λ a h', Q a h' ∧ ∃ l, h' = l ++ h ∧ Forall (λ ev, P _ (ev_req ev)) l) h.
Proof.
  intros Hp. revert h. induction Hp as [a|w|X e k He _ IH]; intros h; simpl; [|done|].
  - intros HQ. split; [done|]. by exists [].
  - intros Hs x Hx. destruct (Hs x Hx) as [HI Hk]. split; [done|].
    eapply safe_mono; [|by apply IH, Hk]. intros a h' [HQ (l & -> & Hl)]. split; [done|].
    exists (l ++ [Ev e x]). rewrite <- app_assoc. split; [done|]. apply Forall_app_2; [done|by repeat constructor].
Qed.

(** ** Types *)

(** From a history with the invariant, the program keeps it and returns values in [Q]. *)
Definition typed {A} (p : prog E A) (Q : A → Prop) : Prop := ∀ h, I h → safe p (λ a _, Q a) h.

Lemma safe_inv {A} (p : prog E A) Q h : I h → safe p Q h → safe p (λ a h', Q a h' ∧ I h') h.
Proof.
  revert h. induction p as [a|w|X e k IH]; intros h HI; simpl; [done..|].
  intros Hp x Hx. destruct (Hp x Hx). split; [done|]. by apply IH.
Qed.

Lemma typed_ret {A} (a : A) (Q : A → Prop) : Q a → typed (mret a) Q.
Proof. by intros HQ h _. Qed.
Lemma typed_Panic {A} w (Q : A → Prop) : typed (Panic w) Q.
Proof. by intros h _. Qed.
Lemma typed_trigger {X} (e : E X) (Q : X → Prop) :
  (∀ h x, I h → S h X e x → I (Ev e x :: h) ∧ Q x) → typed (trigger e) Q.
Proof. intros HQ h HI x Hx. by apply HQ. Qed.

(** A typed program, and what follows it in a history of which more is known. *)
Lemma safe_typed {A B} (p : prog E A) (f : A → prog E B) Q1 Q h :
  I h → typed p Q1 → (∀ a h', I h' → Q1 a → safe (f a) Q h') → safe (p ≫= f) Q h.
Proof.
  intros HI Hp Hf. apply safe_bind. eapply safe_mono; [|apply safe_inv; [done|by apply Hp]].
  intros a h' [HQ HI']. by apply Hf.
Qed.

Lemma typed_bind {A B} (p : prog E A) (f : A → prog E B) Q1 Q :
  typed p Q1 → (∀ a, Q1 a → typed (f a) Q) → typed (p ≫= f) Q.
Proof. intros Hp Hf h HI. eapply safe_typed; [done..|]. intros a h' HI' Ha. by apply Hf. Qed.

Lemma typed_mono {A} (p : prog E A) (Q Q' : A → Prop) : (∀ a, Q a → Q' a) → typed p Q → typed p Q'.
Proof. intros HQ Hp h HI. eapply safe_mono; [|by apply Hp]. intros a h'. apply HQ. Qed.

Lemma typed_foldM {A B} (f : B → A → prog E B) (Q : B → Prop) acc xs :
  Q acc → (∀ acc x, x ∈ xs → Q acc → typed (f acc x) Q) → typed (foldM f acc xs) Q.
Proof.
  revert acc. induction xs as [|x xs IH]; intros acc HQ Hf; simpl; [by apply typed_ret|].
  eapply typed_bind; [apply Hf; [left|done]|]. intros acc' HQ'. apply IH; [done|]. intros. apply Hf; [by right|done].
Qed.

Lemma typed_attempts {A} n retriable (fn : prog E (result A)) Q : typed fn Q → typed (attempts n retriable fn) Q.
Proof.
  intros Hf. induction n as [|n IH]; simpl; [done|]. eapply typed_bind; [done|].
  intros [a|err] Hr; [by apply typed_ret|]. destruct (retriable err); [done|by apply typed_ret].
Qed.

Lemma typed_map_assign m k v (Q : gomap → Prop) :
  (∀ g, m = Some g → Q (Some (<[k:=v]> g))) → typed (map_assign m k v) Q.
Proof. unfold map_assign. destruct m as [g|]; simpl; intros HQ; [by apply typed_ret, HQ|apply typed_Panic]. Qed.

(** Requests that the invariant does not depend on. *)
Definition harmless (X : Type) (e : E X) : Prop := ∀ h x, I h → S h X e x → I (Ev e x :: h).

Lemma typed_emits {A} (p : prog E A) :
  emits harmless p → typed p (λ _, True).
Proof.
  induction 1 as [a|w|X e k He Hk IH]; [by apply typed_ret|apply typed_Panic|].
  intros h HI x Hx. assert (I (Ev e x :: h)) as HI' by by apply He. split; [done|]. by apply IH.
Qed.
End safe.
