(* ===== verification/Calls.v ===== *)
(** * Programs and the calls they make

    A program's specification by the calls it adds to the history, whatever that was:
    every call satisfies [P], and the result and the calls satisfy [Q]. *)
From S2P Require Import Prelude GoLib Prog.

Section makes.
Context {E : Type → Type} {C : Type} (S : contract E) (call : event E → C).

Definition makes {A} (P : C → Prop) (p : prog E A) (Q : A → list C → Prop) : Prop :=
  ∀ h, wp S p (λ a h', ∃ l, h' = l ++ h ∧ Forall P (call <$> l) ∧ Q a (call <$> l)) h.

Implicit Types (P : C → Prop).

Lemma makes_ret {A} P (a : A) (Q : A → list C → Prop) : Q a [] → makes P (mret a) Q.
Proof. intros HQ h. apply wp_ret. by exists []. Qed.

Lemma makes_trigger {X} P (e : E X) (Q : X → list C → Prop) :
  (∀ h x, S h X e x → P (call (Ev e x)) ∧ Q x [call (Ev e x)]) → makes P (trigger e) Q.
Proof.
  intros HQ h. apply wp_trigger. intros x Hx. destruct (HQ h x Hx). exists [Ev e x].
  split; [done|]. by split; [repeat constructor|].
Qed.

Lemma makes_bind {A B} P (p : prog E A) (f : A → prog E B) Q1 (Q : B → list C → Prop) :
  makes P p Q1 → (∀ a l, Q1 a l → makes P (f a) (λ b l', Q b (l' ++ l))) → makes P (p ≫= f) Q.
Proof.
  intros Hp Hf h. apply wp_bind. eapply wp_mono; [|apply Hp].
  intros a h' (l & -> & HP & HQ1). eapply wp_mono; [|apply (Hf a _ HQ1)].
  intros b h'' (l' & -> & HP' & HQ). exists (l' ++ l). rewrite fmap_app, app_assoc.
  split; [done|]. split; [by apply Forall_app_2|done].
Qed.

Lemma makes_mono {A} P P' (p : prog E A) (Q Q' : A → list C → Prop) :
  makes P p Q → (∀ c, P c → P' c) → (∀ a l, Forall P l → Q a l → Q' a l) → makes P' p Q'.
Proof.
  intros Hp HP HQ h. eapply wp_mono; [|apply Hp]. intros a h' (l & -> & HPl & HQl).
  exists l. split; [done|]. split; [by eapply Forall_impl|by apply HQ].
Qed.

Lemma makes_wp {A} P {PP : string → hist E → Prop} (p : prog E A) Q (R : A → hist E → Prop) h :
  makes P p Q → (∀ a l, Forall P (call <$> l) → Q a (call <$> l) → R a (l ++ h)) → wpp S PP p R h.
Proof. intros Hp HR. apply wp_panics. eapply wp_mono; [|apply Hp]. intros a h' (l & -> & HP & HQ). by apply HR. Qed.

(** Without a claim about the result. *)
Abbreviation only P p := (makes P p (λ _ _, True)).

Lemma only_bind {A B} P (p : prog E A) (f : A → prog E B) : only P p → (∀ a, only P (f a)) → only P (p ≫= f).
Proof. intros Hp Hf. eapply makes_bind; [done|]. intros a l _. apply Hf. Qed.

Lemma only_foldM {A B} P (f : B → A → prog E B) xs acc :
  (∀ acc x, x ∈ xs → only P (f acc x)) → only P (foldM f acc xs).
Proof.
  revert acc. induction xs as [|x xs IH]; intros acc Hf; simpl; [by apply makes_ret|].
  apply only_bind; [apply Hf; left|]. intros acc'. apply IH. intros. apply Hf. by right.
Qed.
End makes.

Abbreviation only S call P p := (makes S call P p (λ _ _, True)).
