(* ===== verification/Kube.v ===== *)
(** * Kubernetes and Tekton objects, and the client interface

    The fields of the API objects that the controller reads or writes, the requests of
    the [client.Client] interface it makes, and the library functions of
    controller-runtime, client-go, apimachinery and knative it calls, which are not part
    of the repository: they are the fields of the classes [K8s] and [Retry], and what
    their documentation promises is in [K8sLaws] and [RetryLaws]. *)
From S2P Require Import Prelude GoLib GoStrings Prog.


(** ** Constants ([pkg/constant/constant.go] and the head of [taskrun.go]) *)

Definition AssignedHost := "build.appstudio.redhat.com/assigned-host".
Definition TargetPlatformLabel := "build.appstudio.redhat.com/target-platform".
Definition WaitingForPlatformLabel := "build.appstudio.redhat.com/waiting-for-platform".

Definition SecretPrefix := "multi-platform-ssh-".
Definition MultiPlatformSecretLabel := "build.appstudio.redhat.com/multi-platform-secret".
Definition FailedHosts := "build.appstudio.redhat.com/failed-hosts".
Definition CloudInstanceId := "build.appstudio.redhat.com/cloud-instance-id".
Definition CloudFailures := "build.appstudio.redhat.com/cloud-failure-count".
Definition CloudAddress := "build.appstudio.redhat.com/cloud-address".
Definition CloudDynamicPlatform := "build.appstudio.redhat.com/cloud-dynamic-platform".
Definition ProvisionTaskProcessed := "build.appstudio.redhat.com/provision-task-processed".
Definition AllocationStartTimeAnnotation := "build.appstudio.redhat.com/allocation-start-time".
Definition UserTaskName := "build.appstudio.redhat.com/user-task-name".
Definition UserTaskNamespace := "build.appstudio.redhat.com/user-task-namespace".
Definition FinishedWaitingLabel := "build.appstudio.redhat.com/finished-waiting".
Definition PipelineFinalizer := "appstudio.io/multi-platform-finalizer".
Definition HostConfig := "host-config".
Definition TaskTypeLabel := "build.appstudio.redhat.com/task-type".
Definition TaskTypeProvision := "provision".
Definition TaskTypeUpdate := "update".
Definition TaskTypeClean := "clean".
Definition ProvisionerServiceAccountName := "multi-platform-controller-provisioner".
Definition TaskRunnerServiceAccountName := "multi-platform-controller-task-runner".
Definition PlatformParam := "PLATFORM".
Definition LocalPlatforms := "local-platforms".
Definition DynamicPlatforms := "dynamic-platforms".
Definition DynamicPoolPlatforms := "dynamic-pool-platforms".
Definition DefaultInstanceTag := "instance-tag".
Definition AdditionalInstanceTags := "additional-instance-tags".
Definition ParamNamespace := "NAMESPACE".
Definition ParamTaskrunName := "TASKRUN_NAME".
Definition ParamSecretName := "SECRET_NAME".
Definition ParamHost := "HOST".
Definition ParamUser := "USER".
Definition ParamSudoCommands := "SUDO_COMMANDS".
Definition ParamRawPlatform := "RAW_PLATFORM".
Definition ParamInstanceTag := "INSTANCE_TAG".

(** ** Time: nanoseconds since the Unix epoch; [time.Duration]s are nanoseconds too. *)
Definition Second : Z := 1000000000.
Definition Minute : Z := (60 * Second)%Z.
Definition Hour : Z := (60 * Minute)%Z.
(** The zero [time.Time] (1 January of the year 1). *)
Definition zero_time : Z := (- 62135596800 * Second)%Z.
(** [t.Unix()] *)
Definition Unix (t : Z) : Z := (t / Second)%Z.

(** ** Objects *)

Record NamespacedName := Key { key_namespace : string; key_name : string }.

Record ObjectMeta := {
  Name : string;
  Namespace : string;
  GenerateName : string;
  Labels : gomap;
  Annotations : gomap;
  Finalizers : list string;
  OwnerReferences : list string;      (* the names of the owners *)
  ResourceVersion : string;
  CreationTimestamp : Z;
  DeletionTimestamp : option Z
}.

Record Param := { p_Name : string; p_StringVal : string }.

(** [Secret] is the volume's secret name, when it is a secret volume. *)
Record Volume := { v_Secret : option string }.
Record TaskSpec := { Volumes : option (list Volume) }.
Record WorkspaceBinding := { w_Name : string; w_SecretName : string }.
Record ComputeResources := { c_Requests : smap; c_Limits : smap }.

Record TaskRunSpec := {
  Params : option (list Param);                   (* nil is not the empty list *)
  TaskRefName : string;
  Workspaces : list WorkspaceBinding;
  s_ComputeResources : option ComputeResources;
  ServiceAccountName : string;
  Retries : Z
}.

Inductive ConditionStatus := ConditionTrue | ConditionFalse | ConditionUnknown.

Record TaskRunStatus := {
  CompletionTime : option Z;
  st_TaskSpec : option TaskSpec;
  Succeeded : option ConditionStatus              (* the Succeeded condition, if there is one *)
}.

Record TaskRun := { tr_meta : ObjectMeta; tr_Spec : TaskRunSpec; tr_Status : TaskRunStatus }.
Record Secret := { sec_meta : ObjectMeta; sec_Data : smap }.
Record ConfigMap := { cm_meta : ObjectMeta; cm_Data : smap }.
Record Pod := { pod_meta : ObjectMeta }.

#[global] Instance NamespacedName_eq_dec : EqDecision NamespacedName.
Proof. solve_decision. Defined.
#[global] Instance ObjectMeta_eq_dec : EqDecision ObjectMeta.
Proof. solve_decision. Defined.
#[global] Instance Param_eq_dec : EqDecision Param.
Proof. solve_decision. Defined.
#[global] Instance Volume_eq_dec : EqDecision Volume.
Proof. solve_decision. Defined.
#[global] Instance TaskSpec_eq_dec : EqDecision TaskSpec.
Proof. solve_decision. Defined.
#[global] Instance WorkspaceBinding_eq_dec : EqDecision WorkspaceBinding.
Proof. solve_decision. Defined.
#[global] Instance ComputeResources_eq_dec : EqDecision ComputeResources.
Proof. solve_decision. Defined.
#[global] Instance TaskRunSpec_eq_dec : EqDecision TaskRunSpec.
Proof. solve_decision. Defined.
#[global] Instance ConditionStatus_eq_dec : EqDecision ConditionStatus.
Proof. solve_decision. Defined.
#[global] Instance TaskRunStatus_eq_dec : EqDecision TaskRunStatus.
Proof. solve_decision. Defined.
#[global] Instance TaskRun_eq_dec : EqDecision TaskRun.
Proof. solve_decision. Defined.

(** *** Fresh objects and field updates *)

(** The zero value of an object's metadata. *)
Definition zero_meta : ObjectMeta :=
  {| Name := ""; Namespace := ""; GenerateName := ""; Labels := None; Annotations := None;
     Finalizers := []; OwnerReferences := []; ResourceVersion := "";
     CreationTimestamp := zero_time; DeletionTimestamp := None |}.
Definition zero_spec : TaskRunSpec :=
  {| Params := None; TaskRefName := ""; Workspaces := []; s_ComputeResources := None;
     ServiceAccountName := ""; Retries := 0 |}.
Definition zero_status : TaskRunStatus :=
  {| CompletionTime := None; st_TaskSpec := None; Succeeded := None |}.

Definition meta_with_labels (m : ObjectMeta) (l : gomap) : ObjectMeta :=
  {| Name := Name m; Namespace := Namespace m; GenerateName := GenerateName m; Labels := l;
     Annotations := Annotations m; Finalizers := Finalizers m;
     OwnerReferences := OwnerReferences m; ResourceVersion := ResourceVersion m;
     CreationTimestamp := CreationTimestamp m; DeletionTimestamp := DeletionTimestamp m |}.
Definition meta_with_annotations (m : ObjectMeta) (a : gomap) : ObjectMeta :=
  {| Name := Name m; Namespace := Namespace m; GenerateName := GenerateName m;
     Labels := Labels m; Annotations := a; Finalizers := Finalizers m;
     OwnerReferences := OwnerReferences m; ResourceVersion := ResourceVersion m;
     CreationTimestamp := CreationTimestamp m; DeletionTimestamp := DeletionTimestamp m |}.
Definition meta_with_finalizers (m : ObjectMeta) (f : list string) : ObjectMeta :=
  {| Name := Name m; Namespace := Namespace m; GenerateName := GenerateName m;
     Labels := Labels m; Annotations := Annotations m; Finalizers := f;
     OwnerReferences := OwnerReferences m; ResourceVersion := ResourceVersion m;
     CreationTimestamp := CreationTimestamp m; DeletionTimestamp := DeletionTimestamp m |}.

(** [tr.Labels = l], [tr.Annotations = a], [tr.Finalizers = f] *)
Definition with_meta (tr : TaskRun) (m : ObjectMeta) : TaskRun :=
  {| tr_meta := m; tr_Spec := tr_Spec tr; tr_Status := tr_Status tr |}.
Definition with_labels (tr : TaskRun) (l : gomap) : TaskRun :=
  with_meta tr (meta_with_labels (tr_meta tr) l).
Definition with_annotations (tr : TaskRun) (a : gomap) : TaskRun :=
  with_meta tr (meta_with_annotations (tr_meta tr) a).
Definition with_finalizers (tr : TaskRun) (f : list string) : TaskRun :=
  with_meta tr (meta_with_finalizers (tr_meta tr) f).

Definition tr_Name (tr : TaskRun) : string := Name (tr_meta tr).
Definition tr_Namespace (tr : TaskRun) : string := Namespace (tr_meta tr).
Definition tr_Labels (tr : TaskRun) : gomap := Labels (tr_meta tr).
Definition tr_Annotations (tr : TaskRun) : gomap := Annotations (tr_meta tr).
Definition tr_Finalizers (tr : TaskRun) : list string := Finalizers (tr_meta tr).
(** [client.ObjectKeyFromObject(tr)] *)
Definition ObjectKeyFromObject (tr : TaskRun) : NamespacedName := Key (tr_Namespace tr) (tr_Name tr).
(** [tr.Labels[k]] and [tr.Annotations[k]] *)
Definition label (tr : TaskRun) (k : string) : string := map_get (tr_Labels tr) k.
Definition annotation (tr : TaskRun) (k : string) : string := map_get (tr_Annotations tr) k.
(** [delete(tr.Labels, k)] and [delete(tr.Annotations, k)] *)
Definition delete_label (tr : TaskRun) (k : string) : TaskRun :=
  with_labels tr (map_delete (tr_Labels tr) k).
Definition delete_annotation (tr : TaskRun) (k : string) : TaskRun :=
  with_annotations tr (map_delete (tr_Annotations tr) k).
(** [tr.Labels[k] = v] and [tr.Annotations[k] = v] *)
Definition set_label {E} (tr : TaskRun) (k v : string) : prog E TaskRun :=
  l ← map_assign (tr_Labels tr) k v; mret (with_labels tr l).
Definition set_annotation {E} (tr : TaskRun) (k v : string) : prog E TaskRun :=
  a ← map_assign (tr_Annotations tr) k v; mret (with_annotations tr a).
(** [if m == nil { m = map[string]string{} }] *)
Definition make_if_nil (m : gomap) : gomap := Some (default ∅ m).

(** [t.IsZero()] on a [*metav1.Time] *)
Definition time_IsZero (t : option Z) : bool :=
  match t with None => true | Some t => bool_decide (t = zero_time) end.

(** ** List selectors *)

Inductive ListOption :=
| HasLabels (keys : list string)
| MatchingLabels (labels : smap)
| InNamespace (namespace : string).

(** The objects a selector selects. *)
Definition selects (o : ListOption) (m : ObjectMeta) : Prop :=
  match o with
  | HasLabels ks => Forall (λ k, is_Some (map_lookup (Labels m) k)) ks
  | MatchingLabels ls => ∀ k v, ls !! k = Some v → map_lookup (Labels m) k = Some v
  | InNamespace ns => Namespace m = ns
  end.

(** ** The client interface: the requests of [client.Client] and [client.Reader] the
    code makes. A successful create or update returns the server's version, which the Go
    client writes back into the object it was given. *)

Inductive clientE : Type → Type :=
| Get_TaskRun (key : NamespacedName) : clientE (result TaskRun)
| Get_Secret (key : NamespacedName) : clientE (result Secret)
| Get_ConfigMap (key : NamespacedName) : clientE (result ConfigMap)
| List_TaskRuns (o : ListOption) : clientE (result (list TaskRun))
| List_Pods (o : ListOption) : clientE (result (list Pod))
| Create_TaskRun (tr : TaskRun) : clientE (result TaskRun)
| Create_Secret (s : Secret) : clientE (result Secret)
| Update_TaskRun (tr : TaskRun) : clientE (result TaskRun)
| Update_Pod (p : Pod) : clientE (result Pod)
| Delete_TaskRun (tr : TaskRun) : clientE (result unit)
| Delete_Secret (s : Secret) : clientE (result unit).

(** What every Kubernetes API server promises of these requests' answers: a get returns
    the object it was asked for, a list returns objects its selector selects, and an
    update stores the labels, annotations and finalizers it was given (no admission
    webhook rewrites them). *)
Definition client_answer_ok {X} (e : clientE X) : X → Prop :=
  match e in clientE X return X → Prop with
  | Get_TaskRun key => λ r, ∀ tr, r = Ok tr → ObjectKeyFromObject tr = key
  | List_TaskRuns o => λ r, ∀ trs, r = Ok trs → Forall (λ tr, selects o (tr_meta tr)) trs
  | Update_TaskRun tr => λ r, ∀ tr', r = Ok tr' →
      ObjectKeyFromObject tr' = ObjectKeyFromObject tr ∧ tr_Labels tr' = tr_Labels tr ∧
      tr_Annotations tr' = tr_Annotations tr ∧ tr_Finalizers tr' = tr_Finalizers tr ∧
      tr_Spec tr' = tr_Spec tr ∧ tr_Status tr' = tr_Status tr
  | _ => λ _, True
  end.

(** ** Library functions that are not part of the repository *)

(** RFC 1035 labels: at most 63 characters, lower-case letters, digits and hyphens,
    starting with a letter and ending with a letter or digit. *)
Definition dns1035_char (c : ascii) : bool := is_lower c || is_digit c || Ascii.eqb c "-".
Definition last_char_ok (s : string) : bool :=
  match String.rev s with
  | String c _ => is_lower c || is_digit c
  | EmptyString => false
  end.
Definition dns1035 (s : string) : bool :=
  match s with
  | EmptyString => false
  | String c _ => is_lower c && str_forall dns1035_char s && last_char_ok s &&
                  (String.length s <=? 63)%nat
  end.

(** [validation.IsDNS1035Label], [kmeta.ChildName], and the functions of [controllerutil].
    [SetOwnerReference] may fail (a namespace mismatch, an owner that is not in the
    scheme). *)
Class K8s := {
  IsDNS1035Label : string → list string;
  ChildName : string → string → string;
  AddFinalizer : list string → string → list string * bool;
  RemoveFinalizer : list string → string → list string;
  ContainsFinalizer : list string → string → bool;
  SetOwnerReference : TaskRun → Secret → result Secret
}.

Class K8sLaws `{K8s} : Prop := {
  IsDNS1035Label_spec s : IsDNS1035Label s = [] ↔ dns1035 s = true;
  ContainsFinalizer_spec l f : ContainsFinalizer l f = true ↔ f ∈ l;
  AddFinalizer_present l f : f ∈ l → AddFinalizer l f = (l, false);
  AddFinalizer_absent l f : f ∉ l → AddFinalizer l f = (l ++ [f], true);
  RemoveFinalizer_spec l f : RemoveFinalizer l f = filter (λ g, g ≠ f) l;
  SetOwnerReference_meta tr s s' : SetOwnerReference tr s = Ok s' →
    Name (sec_meta s') = Name (sec_meta s) ∧ Namespace (sec_meta s') = Namespace (sec_meta s) ∧
    Labels (sec_meta s') = Labels (sec_meta s) ∧ sec_Data s' = sec_Data s
}.

(** client-go's [retry] package: [OnError(backoff, retriable, fn)] calls [fn], again
    while it returns a retriable error and the back-off's steps are not used up, and
    returns its last error; [RetryOnConflict] retries conflicts. *)
Class Retry := {
  Backoff : Type;
  Steps : Backoff → nat;
  DefaultRetry : Backoff;
  DefaultBackoff : Backoff;
  OnError : ∀ (E : Type → Type) (A : Type), Backoff → (error → bool) →
    prog E (result A) → prog E (result A);
  RetryOnConflict : ∀ (E : Type → Type) (A : Type), Backoff →
    prog E (result A) → prog E (result A)
}.
Arguments OnError {_ E A} _ _ _.
Arguments RetryOnConflict {_ E A} _ _.

Class RetryLaws `{Retry} : Prop := {
  OnError_attempts E A (b : Backoff) p (fn : prog E (result A)) n :
    Steps b = S n → OnError b p fn = attempts n p fn;
  RetryOnConflict_attempts E A (b : Backoff) (fn : prog E (result A)) n :
    Steps b = S n → RetryOnConflict b fn = attempts n IsConflict fn;
  DefaultRetry_steps : 0 < Steps DefaultRetry;
  DefaultBackoff_steps : 0 < Steps DefaultBackoff
}.

Lemma DefaultRetry_S `{RetryLaws} : ∃ n, Steps DefaultRetry = S n.
Proof. pose proof DefaultRetry_steps. destruct (Steps DefaultRetry) as [|n]; [lia|by exists n]. Qed.
Lemma DefaultBackoff_S `{RetryLaws} : ∃ n, Steps DefaultBackoff = S n.
Proof. pose proof DefaultBackoff_steps. destruct (Steps DefaultBackoff) as [|n]; [lia|by exists n]. Qed.
