(* ===== verification/NetIP.v ===== *)
(** * [net.ParseIP]: which strings Go's standard library accepts as IP addresses

    Only acceptance matters to the controller ([config.ValidateIPFormat] tests the result
    for nil). The definitions follow [netip.ParseAddr], restricted to addresses without a
    zone, as [net.ParseIP] does. *)
From S2P Require Import Prelude GoLib GoStrings.

(** One decimal field of an IPv4 address: 0 to 255, no leading zero. *)
Definition ipv4_field (s : string) : bool :=
  match s with
  | EmptyString => false
  | String c rest =>
      str_forall is_digit s &&
      negb (Ascii.eqb c "0" && negb (String.eqb rest EmptyString)) &&
      match digits_value s with Some v => (v <=? 255)%Z | None => false end
  end.

(** [parseIPv4Fields] *)
Definition ipv4_ok (s : string) : bool :=
  let fields := Split s "." in
  (length fields =? 4)%nat && forallb ipv4_field fields.

Definition is_hex (c : ascii) : bool :=
  let n := N_of_ascii c in
  is_digit c || ((97 <=? n)%N && (n <=? 102)%N) || ((65 <=? n)%N && (n <=? 70)%N).

(** The number of leading hexadecimal digits and the rest of the string. *)
Fixpoint hex_run (s : string) : nat * string :=
  match s with
  | String c s' => if is_hex c then let '(n, r) := hex_run s' in (S n, r) else (0, s)
  | EmptyString => (0, EmptyString)
  end.

(** The loop of [parseIPv6]: [i] bytes are filled, [ell] tells whether [::] was seen.
    The result is the bytes filled and whether [::] was seen, when the whole string was
    consumed. Each round fills at least two of the 16 bytes, so 8 rounds are enough. *)
Fixpoint ipv6_groups (fuel : nat) (s : string) (i : nat) (ell : bool) : option (nat * bool) :=
  match fuel with
  | 0 => if String.eqb s EmptyString then Some (i, ell) else None
  | S fuel =>
      if (16 <=? i)%nat then (if String.eqb s EmptyString then Some (i, ell) else None) else
      let '(off, rest) := hex_run s in
      if (off =? 0)%nat || (4 <? off)%nat then None else
      match rest with
      | String "." _ =>
          if (negb ell && negb (i =? 12)%nat) || (16 <? i + 4)%nat then None
          else if ipv4_ok s then Some (i + 4, ell) else None
      | EmptyString => Some (i + 2, ell)
      | String ":" EmptyString => None
      | String ":" (String ":" rest') =>
          if ell then None
          else if String.eqb rest' EmptyString then Some (i + 2, true)
          else ipv6_groups fuel rest' (i + 2) true
      | String ":" rest' => ipv6_groups fuel rest' (i + 2) ell
      | _ => None
      end
  end.

(** [parseIPv6], for a string without a zone *)
Definition ipv6_ok (s : string) : bool :=
  let '(s, ell) := match s with
                   | String ":" (String ":" rest) => (rest, true)
                   | _ => (s, false)
                   end in
  if ell && String.eqb s EmptyString then true else
  match ipv6_groups 8 s 0 ell with
  | None => false
  | Some (i, ell) => if (i <? 16)%nat then ell else negb ell
  end.

(** The first of the bytes [.], [:] and [%] in the string decides the format. *)
Fixpoint ip_kind (s : string) : option ascii :=
  match s with
  | EmptyString => None
  | String c s => if Ascii.eqb c "." || Ascii.eqb c ":" || Ascii.eqb c "%" then Some c else ip_kind s
  end.

(** [net.ParseIP(s) != nil] *)
Definition ParseIP_ok (s : string) : bool :=
  match ip_kind s with
  | Some "."%char => ipv4_ok s
  | Some ":"%char => negb (str_mem "%" s) && ipv6_ok s
  | _ => false
  end.

Example ParseIP_examples :
  map ParseIP_ok ["192.168.1.1"; "10.0.0"; "256.1.1.1"; "01.2.3.4"; "2001:db8::1"; "::"; "::1";
                  "1:2:3:4:5:6:7:8"; "1::2::3"; "::ffff:1.2.3.4"; "fe80::1%eth0"; "1.2.3.4."; ""] =
  [true; false; false; false; true; true; true; true; false; true; false; false; false].
Proof. vm_compute. reflexivity. Qed.
