(* ===== verification/Config.v ===== *)
(** * [pkg/config]: parsing and validation of the host-config ConfigMap *)
From S2P Require Import Prelude GoLib GoStrings NetIP Prog Kube.

(** ** validation.go *)

Section validation.
Context `{K8s}.

(** [validatePlatformFormat]; [None] is the nil error. *)
Definition validatePlatformFormat (platform : string) : option error :=
  if bool_decide (platform = "local" ∨ platform = "localhost" ∨ platform = "linux/x86_64")
  then None
  else
    let parts := Split platform "/" in
    if negb (length parts =? 2)%nat then Some (ErrSentinel errInvalidPlatformFormat)
    else if forallb (λ part, bool_decide (IsDNS1035Label part = [])) parts then None
    else Some (ErrSentinel errInvalidPlatformFormat).

(** [ExtractPlatform] *)
Definition ExtractPlatform (tr : TaskRun) : result string :=
  match find_first (λ p, String.eqb (p_Name p) PlatformParam) (default [] (Params (tr_Spec tr))) with
  | Some p => Ok (p_StringVal p)
  | None => Err (ErrSentinel errMissingPlatformParameter)
  end.

(** [ValidatePlatform] *)
Definition ValidatePlatform (tr : TaskRun) : result string :=
  platform ← ExtractPlatform tr;
  match validatePlatformFormat platform with
  | Some err => Err err
  | None => Ok platform
  end.

(** [validateNonZeroPositiveNumber] *)
Definition validateNonZeroPositiveNumber (value : string) : result Z :=
  match Atoi value with
  | Err err => Err (ErrWrap ("invalid value '" +:+ value +:+ "': must be a valid integer greater than or equal to 1: ") err "")
  | Ok num =>
      if (num <? 1)%Z
      then Err (ErrText ("invalid value '" +:+ value +:+ "': must be greater than or equal to 1"))
      else Ok num
  end.

(** [validateNonZeroPositiveNumberWithMax] *)
Definition validateNonZeroPositiveNumberWithMax (value : string) (maxValue : Z) : result Z :=
  num ← validateNonZeroPositiveNumber value;
  if (maxValue <? num)%Z
  then Err (ErrText ("invalid value '" +:+ value +:+ "': must be between 1 and " +:+ Itoa maxValue))
  else Ok num.

(** [ValidateIPFormat] *)
Definition ValidateIPFormat (value : string) : option error :=
  if ParseIP_ok value then None else Some (ErrSentinel ErrInvalidIPFormat).

(** [validateIBMHostSecret] *)
Definition validateIBMHostSecret (key value : string) : option error :=
  if existsb (λ platform, Contains key platform && Contains value platform) ["s390x"; "ppc64le"]
  then None
  else Some (ErrSentinel errIBMHostSecretPlatformMismatch).

Definition maxStaticConcurrency : Z := 8.
Definition maxPoolHostAge : Z := 1440.
Definition maxInstanceTagLengthPPC : nat := 29.
Definition maxInstanceTagLengthS390x : nat := 45.

(** [parseDynamicHostInstanceTypeKey]: the platform and the normalised instance type. *)
Definition parseDynamicHostInstanceTypeKey (platformConfigName : string) : result (string * string) :=
  match Index platformConfigName "-", LastIndex platformConfigName "-" with
  | Some firstDash, Some lastDash =>
      let platform := slice_from platformConfigName (lastDash + 1) in
      if (firstDash =? lastDash)%nat then Ok (platform, "")
      else
        let instanceType := slice platformConfigName (firstDash + 1) lastDash in
        let instanceParts := Split instanceType "-" in
        let instanceType :=
          if (1 <? length instanceParts)%nat then Join (Strings_sort instanceParts) "-"
          else instanceType in
        Ok (platform, instanceType)
  | _, _ => Err (ErrText ("invalid platform config name: no dashes found in '" +:+ platformConfigName +:+ "'"))
  end.

(** [parseDynamicHostInstanceTypeValue] *)
Definition parseDynamicHostInstanceTypeValue (value : string) : result (string * string) :=
  match Split value "-" with
  | _ :: platform :: [] => Ok (platform, "")
  | _ :: platform :: instanceParts =>
      let instanceParts :=
        if (1 <? length instanceParts)%nat then Strings_sort instanceParts else instanceParts in
      Ok (platform, Join instanceParts "-")
  | _ => Err (ErrText "invalid value format: must be '<prefix>-<platform>' or '<prefix>-<platform>-<instance_type>'")
  end.

(** [validateDynamicInstanceTag] *)
Definition validateDynamicInstanceTag (key value : string) : option error :=
  match parseDynamicHostInstanceTypeKey key with
  | Err err => Some err
  | Ok (keyPlatform, keyInstanceType) =>
      match parseDynamicHostInstanceTypeValue value with
      | Err err => Some err
      | Ok (valuePlatform, valueInstanceType) =>
          if negb (String.eqb keyPlatform valuePlatform)
          then Some (ErrText ("platform mismatch: key has '" +:+ keyPlatform +:+ "', value has '" +:+ valuePlatform +:+ "'"))
          else if negb (String.eqb keyInstanceType valueInstanceType)
          then Some (ErrText ("instance type mismatch: key has '" +:+ keyInstanceType +:+ "', value has '" +:+ valueInstanceType +:+ "'"))
          else if String.eqb keyPlatform "ppc64le" && (maxInstanceTagLengthPPC <? String.length value)%nat
          then Some (ErrText ("instance tag too long for ppc64le platform: " +:+ Itoa (Z.of_nat (String.length value)) +:+ " characters (max 29)"))
          else if String.eqb keyPlatform "s390x" && (maxInstanceTagLengthS390x <? String.length value)%nat
          then Some (ErrText ("instance tag too long for s390x platform: " +:+ Itoa (Z.of_nat (String.length value)) +:+ " characters (max 45)"))
          else None
      end
  end.

(** ** config.go *)

Inductive PlatformType := PlatformTypeLocal | PlatformTypeDynamic | PlatformTypeDynamicPool.
Definition PlatformType_text (t : PlatformType) : string :=
  match t with
  | PlatformTypeLocal => "local"
  | PlatformTypeDynamic => "dynamic"
  | PlatformTypeDynamicPool => "dynamic pool"
  end.

Definition defaultAllocationTimeout : Z := 600.
Definition defaultCheckInterval : Z := 60.
Definition defaultStaticHostsConcurrency : Z := 0.

(** The loop of [ParsePlatformList]: an element is the last when nothing follows it. *)
Fixpoint parse_platforms (pType : PlatformType) (platforms : list string) : result (list string) :=
  match platforms with
  | [] => Ok []
  | platform :: rest =>
      let platform := TrimSpace platform in
      if String.eqb platform "" then
        match rest with
        | [] => Ok []
        | _ => Err (ErrText ("invalid " +:+ PlatformType_text pType +:+ " platform '': empty platform in middle of list"))
        end
      else
        match validatePlatformFormat platform with
        | Some err => Err (ErrWrap ("invalid " +:+ PlatformType_text pType +:+ " platform '" +:+ platform +:+ "': ") err "")
        | None => result ← parse_platforms pType rest; Ok (platform :: result)
        end
  end.

(** [ParsePlatformList] *)
Definition ParsePlatformList (platformList : string) (pType : PlatformType) : result (list string) :=
  if String.eqb platformList "" then Ok [] else parse_platforms pType (Split platformList ",").

Record DynamicPlatformConfig := {
  Type_ : string;
  MaxInstances : Z;
InstanceTag : string;
  AllocationTimeout : Z;
  CheckInterval : Z;
  SSHSecret : string;
  SudoCommands : string
}.

Record DynamicPoolPlatformConfig := {
  pool_Type : string;
  pool_MaxInstances : Z;
  pool_Concurrency : Z;
  pool_MaxAge : Z;
  pool_InstanceTag : string;
  pool_SSHSecret : string
}.

Record StaticHostConfig := {
  host_Address : string;
  host_User : string;
  host_Platform : string;
  host_Secret : string;
  host_Concurrency : Z
}.

(** [parseDynamicRequiredTypeField] *)
Definition parseDynamicRequiredTypeField (data : smap) (prefix platform platformType : string) : result string :=
  let typeName := sget data (prefix +:+ "type") in
  if negb (String.eqb typeName "") then Ok typeName
  else Err (ErrText (platformType +:+ " '" +:+ platform +:+ "': type field is required")).

(** [parseDynamicRequiredMaxInstancesField] *)
Definition parseDynamicRequiredMaxInstancesField (data : smap) (prefix platform platformType : string) : result Z :=
  let maxInstancesStr := sget data (prefix +:+ "max-instances") in
  if negb (String.eqb maxInstancesStr "") then
    map_err (λ err, ErrWrap (platformType +:+ " '" +:+ platform +:+ "': invalid max-instances '" +:+ maxInstancesStr +:+ "': ") err "")
      (validateNonZeroPositiveNumber maxInstancesStr)
  else Err (ErrText (platformType +:+ " '" +:+ platform +:+ "': max-instances field is required")).

(** [parseDynamicOptionalInstanceTagField] *)
Definition parseDynamicOptionalInstanceTagField (data : smap)
    (prefix platformConfigName platform platformType : string) : result string :=
  let instanceTag := sget data (prefix +:+ "instance-tag") in
  if negb (String.eqb instanceTag "") then
    match validateDynamicInstanceTag platformConfigName instanceTag with
    | Some err => Err (ErrWrap (platformType +:+ " '" +:+ platform +:+ "': invalid instance-tag '" +:+ instanceTag +:+ "': ") err "")
    | None => Ok instanceTag
    end
  else Ok "".

(** [parseRequiredSSHSecretField] *)
Definition parseRequiredSSHSecretField (data : smap)
    (prefix platform platformType cloudProviderType : string) : result string :=
  let sshSecret := TrimSpace (sget data (prefix +:+ "ssh-secret")) in
  if String.eqb sshSecret "" then
    Err (ErrText (platformType +:+ " '" +:+ platform +:+ "': ssh-secret field is required"))
  else if String.eqb cloudProviderType "aws" then Ok sshSecret
  else if String.eqb cloudProviderType "ibmz" || String.eqb cloudProviderType "ibmp" then
    match validateIBMHostSecret platform sshSecret with
    | Some err => Err (ErrWrap (platformType +:+ " '" +:+ platform +:+ "': invalid ssh-secret '" +:+ sshSecret +:+ "': ") err "")
    | None => Ok sshSecret
    end
  else Err (ErrText ("invalid type: expect 'aws', 'ibmz', or 'ibmp', got '" +:+ cloudProviderType +:+ "'")).

(** [strings.ReplaceAll(platform, "/", "-")] *)
Definition platform_config_name (platform : string) : string := ReplaceAll platform "/" "-".
(** ["dynamic." + platformConfigName + "."] *)
Definition dynamic_prefix (platform : string) : string := "dynamic." +:+ platform_config_name platform +:+ ".".

(** An optional positive number: the allocation timeout and the check interval of
    [ParseDynamicPlatformConfig]. *)
Definition optional_positive (data : smap) (prefix platform field : string) (dflt : Z) : result Z :=
  let str := sget data (prefix +:+ field) in
  if negb (String.eqb str "") then
    map_err (λ err, ErrWrap ("dynamic platform '" +:+ platform +:+ "': invalid " +:+ field +:+ " '" +:+ str +:+ "': ") err "")
      (validateNonZeroPositiveNumber str)
  else Ok dflt.

(** A required bounded number: the concurrency and the maximum age of
    [ParseDynamicPoolPlatformConfig]. *)
Definition required_bounded (data : smap) (prefix platform field : string) (maxValue : Z) : result Z :=
  let str := sget data (prefix +:+ field) in
  if negb (String.eqb str "") then
    map_err (λ err, ErrWrap ("dynamic pool platform '" +:+ platform +:+ "': invalid " +:+ field +:+ " '" +:+ str +:+ "': ") err "")
      (validateNonZeroPositiveNumberWithMax str maxValue)
  else Err (ErrText ("dynamic pool platform '" +:+ platform +:+ "': " +:+ field +:+ " field is required")).

(** [ParseDynamicPlatformConfig] *)
Definition ParseDynamicPlatformConfig (data : smap) (platform : string) : result DynamicPlatformConfig :=
  let platformConfigName := platform_config_name platform in
  let prefix := dynamic_prefix platform in
  typeName ← parseDynamicRequiredTypeField data prefix platform "dynamic platform";
  maxInstances ← parseDynamicRequiredMaxInstancesField data prefix platform "dynamic platform";
  instanceTag ← parseDynamicOptionalInstanceTagField data prefix platformConfigName platform "dynamic platform";
  timeout ← optional_positive data prefix platform "allocation-timeout" defaultAllocationTimeout;
  interval ← optional_positive data prefix platform "check-interval" defaultCheckInterval;
  sshSecret ← parseRequiredSSHSecretField data prefix platform "dynamic platform" typeName;
  Ok {| Type_ := typeName; MaxInstances := maxInstances; InstanceTag := instanceTag;
        AllocationTimeout := timeout; CheckInterval := interval; SSHSecret := sshSecret;
        SudoCommands := sget data (prefix +:+ "sudo-commands") |}.

(** [ParseDynamicPoolPlatformConfig] *)
Definition ParseDynamicPoolPlatformConfig (data : smap) (platform : string) : result DynamicPoolPlatformConfig :=
  let platformConfigName := platform_config_name platform in
  let prefix := dynamic_prefix platform in
  typeName ← parseDynamicRequiredTypeField data prefix platform "dynamic pool platform";
  maxInstances ← parseDynamicRequiredMaxInstancesField data prefix platform "dynamic pool platform";
  concurrency ← required_bounded data prefix platform "concurrency" maxStaticConcurrency;
  maxAge ← required_bounded data prefix platform "max-age" maxPoolHostAge;
  instanceTag ← parseDynamicOptionalInstanceTagField data prefix platformConfigName platform "dynamic pool platform";
  sshSecret ← parseRequiredSSHSecretField data prefix platform "dynamic pool platform" typeName;
  Ok {| pool_Type := typeName; pool_MaxInstances := maxInstances; pool_Concurrency := concurrency;
        pool_MaxAge := maxAge; pool_InstanceTag := instanceTag; pool_SSHSecret := sshSecret |}.

(** The error of an invalid field of a static host. *)
Definition static_field_error (hostName field value : string) (err : error) : error :=
  ErrWrap ("static host '" +:+ hostName +:+ "': invalid " +:+ field +:+ " '" +:+ value +:+ "': ") err "".

(** [ParseStaticHostConfig] *)
Definition ParseStaticHostConfig (data : smap) (hostName : string) : result StaticHostConfig :=
  let prefix := "host." +:+ hostName +:+ "." in
  let bad := static_field_error hostName in
  let address := TrimSpace (sget data (prefix +:+ "address")) in
  _ ← (if String.eqb address "" then Ok tt
       else check (bad "address" address) (ValidateIPFormat address));
  let user := TrimSpace (sget data (prefix +:+ "user")) in
  let platform := TrimSpace (sget data (prefix +:+ "platform")) in
  _ ← (if String.eqb platform "" then Ok tt
       else check (bad "platform" platform) (validatePlatformFormat platform));
  let secret := TrimSpace (sget data (prefix +:+ "secret")) in
  _ ← (if negb (String.eqb secret "") && (Contains platform "s390x" || Contains platform "ppc64le")
       then check (bad "secret" secret) (validateIBMHostSecret platform secret)
       else Ok tt);
  let concurrencyStr := sget data (prefix +:+ "concurrency") in
  concurrency ← (if String.eqb concurrencyStr "" then Ok defaultStaticHostsConcurrency
       else map_err (bad "concurrency" concurrencyStr)
              (validateNonZeroPositiveNumberWithMax concurrencyStr maxStaticConcurrency));
  if String.eqb address "" then
    Err (ErrText ("static host '" +:+ hostName +:+ "': address field is required"))
  else Ok {| host_Address := address; host_User := user; host_Platform := platform;
             host_Secret := secret; host_Concurrency := concurrency |}.

End validation.
