(* ===== verification/Cloud.v ===== *)
(** * [pkg/cloud]: the cloud provider interface and the validation of TaskRun ids *)
From S2P Require Import Prelude GoLib GoStrings Prog.

(** ** [cloud.go] *)

Definition cloud_InstanceTag := "multi-platform-instance".
Definition TaskRunTagKey := "taskRunID".

(** [VMState] values. The third is the empty string, returned when the state is unknown. *)
Inductive VMState := OKState | FailedState | UnknownState.

#[global] Instance VMState_eq_dec : EqDecision VMState.
Proof. solve_decision. Defined.

(** [InstanceIdentifier] is a string. *)
Record CloudVMInstance := { InstanceId : string; StartTime : Z; Address : string }.

#[global] Instance CloudVMInstance_eq_dec : EqDecision CloudVMInstance.
Proof. solve_decision. Defined.

(** [rfc1123Regex]: lower-case letters, digits and hyphens, with no hyphen at either end. *)
Definition rfc1123_alnum (c : ascii) : bool := is_lower c || is_digit c.
Definition rfc1123_char (c : ascii) : bool := rfc1123_alnum c || Ascii.eqb c "-".
Definition rfc1123_match (s : string) : bool :=
  match s, String.rev s with
  | String c _, String d _ => rfc1123_alnum c && rfc1123_alnum d && str_forall rfc1123_char s
  | _, _ => false
  end.

(** [validateRFC1123] *)
Definition validateRFC1123 (labelType label : string) : option error :=
  if (63 <? String.length label)%nat then
    Some (ErrText (labelType +:+ " part '" +:+ label +:+ "' is too long for a Kubernetes label (max 63 chars)"))
  else if negb (rfc1123_match label) then
    Some (ErrText (labelType +:+ " part '" +:+ label +:+ "' is not a valid RFC 1123 label (must be lowercase alphanumeric characters or '-', and must start and end with an alphanumeric character)"))
  else None.

(** [ValidateTaskRunID] *)
Definition ValidateTaskRunID (taskRunID : string) : option error :=
  if (128 <? String.length taskRunID)%nat then
    Some (ErrText ("taskRunID '" +:+ taskRunID +:+ "' cannot be longer than 128 chars"))
  else if HasPrefix (ToLower taskRunID) "aws:" then
    Some (ErrText ("taskRunID '" +:+ taskRunID +:+ "' cannot start with 'aws:' (case-insensitive) as per AWS tag restrictions"))
  else
    match Split taskRunID ":" with
    | [namespace; name] =>
        if String.eqb namespace "" || String.eqb name "" then
          Some (ErrText ("'" +:+ taskRunID +:+ "' does not follow the correct format: '<TaskRun Namespace>:<TaskRun Name>', neither the namespace nor the name can be empty"))
        else validateRFC1123 "namespace" namespace
    | _ =>
        Some (ErrText ("'" +:+ taskRunID +:+ "' does not follow the correct format: '<TaskRun Namespace>:<TaskRun Name>', neither the namespace nor the name can be empty"))
    end.

(** ** The [CloudProvider] interface as requests

    [LaunchInstance] is given a reference to the additional tags and may write to them:
    its answer carries the tags as it leaves them. The Kubernetes client and the context
    that every method also takes are the environment's. *)
Inductive cloudE : Type → Type :=
| LaunchInstance (taskRunID instanceTag : string) (additionalInstanceTags : smap) :
    cloudE (smap * result string)
| TerminateInstance (instance : string) : cloudE (result unit)
| GetInstanceAddress (instanceId : string) : cloudE (result string)
| CountInstances (instanceTag : string) : cloudE (result Z)
| ListInstances (instanceTag : string) : cloudE (result (list CloudVMInstance))
| GetState (instanceId : string) : cloudE (result VMState).

(** A provider value: the constructor function that made it, with its arguments. *)
Inductive ProviderCtor := CreateEc2CloudConfig_ | CreateIbmZCloudConfig_ | CreateIBMPowerCloudConfig_.

#[global] Instance ProviderCtor_eq_dec : EqDecision ProviderCtor.
Proof. solve_decision. Defined.

Record CloudProvider := {
  cp_ctor : ProviderCtor;
  cp_platform : string;
  cp_config : smap;
  cp_systemNamespace : string
}.

#[global] Instance CloudProvider_eq_dec : EqDecision CloudProvider.
Proof. solve_decision. Defined.

(** [config["dynamic."+platformName+"."+field]] *)
Definition dynamic_field (config : smap) (platformName field : string) : string :=
  sget config ("dynamic." +:+ platformName +:+ "." +:+ field).

(** [SshUser]: the provisioning user of an AWS provider with leading spaces and dashes
    and surrounding white space removed, ["ec2-user"] when nothing is left; ["root"] for
    the IBM providers. *)
Definition aws_defaultSSHUser := "ec2-user".
Definition ibm_defaultSSHUser := "root".
Definition aws_SshUser (ProvisioningUser : string) : string :=
  let user := TrimSpace (TrimLeft ProvisioningUser " -") in
  if String.eqb user "" then aws_defaultSSHUser else user.
Definition SshUser (p : CloudProvider) : string :=
  match cp_ctor p with
  | CreateEc2CloudConfig_ => aws_SshUser (dynamic_field (cp_config p) (cp_platform p) "provisioning-user")
  | CreateIbmZCloudConfig_ | CreateIBMPowerCloudConfig_ => ibm_defaultSSHUser
  end.
