(* ===== verification/Md5.v ===== *)
(** * [crypto/md5] and [encoding/hex] of Go's standard library

    The controller names provisioning tasks, cleanup tasks and IBM instances after the
    MD5 hash of a string. 32-bit words are numbers below [2^32]. *)
From S2P Require Import Prelude GoLib GoStrings.

Open Scope N_scope.

Definition word (n : N) : N := N.land n 0xffffffff.
Definition add32 (a b : N) : N := word (a + b).
Definition not32 (a : N) : N := N.lxor a 0xffffffff.
Definition rotl32 (a s : N) : N := N.lor (word (N.shiftl a s)) (N.shiftr a (32 - s)).

(** The shift amounts and the sine table of RFC 1321. *)
Definition shifts : list N :=
  [7;12;17;22;7;12;17;22;7;12;17;22;7;12;17;22;
   5;9;14;20;5;9;14;20;5;9;14;20;5;9;14;20;
   4;11;16;23;4;11;16;23;4;11;16;23;4;11;16;23;
   6;10;15;21;6;10;15;21;6;10;15;21;6;10;15;21].
Definition sines : list N :=
  [0xd76aa478;0xe8c7b756;0x242070db;0xc1bdceee;0xf57c0faf;0x4787c62a;0xa8304613;0xfd469501;
   0x698098d8;0x8b44f7af;0xffff5bb1;0x895cd7be;0x6b901122;0xfd987193;0xa679438e;0x49b40821;
   0xf61e2562;0xc040b340;0x265e5a51;0xe9b6c7aa;0xd62f105d;0x02441453;0xd8a1e681;0xe7d3fbc8;
   0x21e1cde6;0xc33707d6;0xf4d50d87;0x455a14ed;0xa9e3e905;0xfcefa3f8;0x676f02d9;0x8d2a4c8a;
   0xfffa3942;0x8771f681;0x6d9d6122;0xfde5380c;0xa4beea44;0x4bdecfa9;0xf6bb4b60;0xbebfbc70;
   0x289b7ec6;0xeaa127fa;0xd4ef3085;0x04881d05;0xd9d4d039;0xe6db99e5;0x1fa27cf8;0xc4ac5665;
   0xf4292244;0x432aff97;0xab9423a7;0xfc93a039;0x655b59c3;0x8f0ccc92;0xffeff47d;0x85845dd1;
   0x6fa87e4f;0xfe2ce6e0;0xa3014314;0x4e0811a1;0xf7537e82;0xbd3af235;0x2ad7d2bb;0xeb86d391].

Definition state : Type := N * N * N * N.

(** One of the 64 operations on a block of 16 words. *)
Definition md5_op (block : list N) (s : state) (i : nat) : state :=
  let '(a, b, c, d) := s in
  let n := N.of_nat i in
  let '(f, g) :=
    if n <? 16 then (N.lor (N.land b c) (N.land (not32 b) d), n)
    else if n <? 32 then (N.lor (N.land d b) (N.land (not32 d) c), (5 * n + 1) mod 16)
    else if n <? 48 then (N.lxor (N.lxor b c) d, (3 * n + 5) mod 16)
    else (N.lxor c (N.lor b (not32 d)), (7 * n) mod 16) in
  let f := add32 (add32 (add32 f a) (nth i sines 0)) (nth (N.to_nat g) block 0) in
  (d, add32 b (rotl32 f (nth i shifts 0)), b, c).

Definition md5_block (s : state) (block : list N) : state :=
  let '(a, b, c, d) := s in
  let '(a', b', c', d') := fold_left (md5_op block) (List.seq 0 64) s in
  (add32 a a', add32 b b', add32 c c', add32 d d').

Definition le_bytes (k : nat) (n : N) : list N :=
  map (λ i, N.land (N.shiftr n (8 * N.of_nat i)) 255) (List.seq 0 k).

(** The message, a 1 bit, zeros, and the length in bits, a multiple of 64 bytes. *)
Definition md5_pad (msg : list N) : list N :=
  let len := N.of_nat (length msg) in
  let zeros := N.to_nat ((119 - len mod 64) mod 64) in
  (msg ++ 128 :: replicate zeros 0 ++ le_bytes 8 (8 * len))%list.

Fixpoint words_le (l : list N) : list N :=
  match l with
  | a :: b :: c :: d :: l => (a + 256 * b + 65536 * c + 16777216 * d) :: words_le l
  | _ => []
  end.

Fixpoint md5_blocks (n : nat) (s : state) (ws : list N) : state :=
  match n with
  | 0%nat => s
  | S n => md5_blocks n (md5_block s (take 16 ws)) (drop 16 ws)
  end.

Definition string_bytes (s : string) : list N := map N_of_ascii (String.list_ascii_of_string s).

(** [md5.Sum]: the 16 bytes of the digest. *)
Definition md5_Sum (data : list N) : list N :=
  let p := md5_pad data in
  let '(a, b, c, d) :=
    md5_blocks (Nat.div (length p) 64) (0x67452301, 0xefcdab89, 0x98badcfe, 0x10325476) (words_le p) in
  (le_bytes 4 a ++ le_bytes 4 b ++ le_bytes 4 c ++ le_bytes 4 d)%list.

Definition hex_digit (n : N) : ascii := if n <? 10 then ascii_of_N (48 + n) else ascii_of_N (87 + n).

(** [hex.EncodeToString] *)
Fixpoint hex_EncodeToString (l : list N) : string :=
  match l with
  | [] => EmptyString
  | b :: l => String (hex_digit (b / 16)) (String (hex_digit (b mod 16)) (hex_EncodeToString l))
  end.

(** [hex.EncodeToString(md5.Sum([]byte(s))[:])] *)
Definition md5_hex (s : string) : string := hex_EncodeToString (md5_Sum (string_bytes s)).

Close Scope N_scope.

(** Test vectors of RFC 1321. *)
Example md5_vectors :
  map md5_hex [""; "a"; "message digest"; "12345678901234567890123456789012345678901234567890123456789012345678901234567890"] =
  ["d41d8cd98f00b204e9800998ecf8427e"; "0cc175b9c0f1b6a831c399e269772661";
   "f96b697d7cb7938d525a2f31aaf161d0"; "57edf4a22be3c955ac49da2e2107b67a"].
Proof. vm_compute. reflexivity. Qed.

Lemma length_le_bytes k n : length (le_bytes k n) = k.
Proof. unfold le_bytes. by rewrite length_map, length_seq. Qed.

Lemma length_md5_Sum data : length (md5_Sum data) = 16.
Proof.
  unfold md5_Sum. destruct (md5_blocks _ _ _) as [[[a b] c] d].
  by rewrite !length_app, !length_le_bytes.
Qed.

Lemma length_hex l : String.length (hex_EncodeToString l) = 2 * length l.
Proof. induction l as [|b l IH]; simpl; [done|]. rewrite IH. lia. Qed.

Lemma length_md5_hex s : String.length (md5_hex s) = 32.
Proof. unfold md5_hex. by rewrite length_hex, length_md5_Sum. Qed.

(** Hexadecimal digits are lower-case letters or digits. *)
Definition hex_char (c : ascii) : bool := is_digit c || is_lower c.

Lemma hex_digit_char n : (n < 16)%N → hex_char (hex_digit n) = true.
Proof.
  intros ?. assert (n ∈ [0;1;2;3;4;5;6;7;8;9;10;11;12;13;14;15]%N) as Hn.
  { rewrite list_elem_of_In. simpl. lia. }
  revert Hn. rewrite list_elem_of_In. simpl. intros; intuition subst; done.
Qed.

Lemma hex_chars l : Forall (λ b, (b < 256)%N) l → str_forall hex_char (hex_EncodeToString l) = true.
Proof.
  induction 1 as [|b l Hb Hl IH]; [done|]. cbn [hex_EncodeToString str_forall].
  rewrite !hex_digit_char, IH; [done|..].
  - apply N.mod_lt. lia.
  - apply N.Div0.div_lt_upper_bound. lia.
Qed.

Lemma le_bytes_bounded k n : Forall (λ b, (b < 256)%N) (le_bytes k n).
Proof.
  unfold le_bytes. apply Forall_forall. intros b. rewrite list_elem_of_fmap. intros (i & -> & _).
  change 255%N with (N.ones 8). rewrite N.land_ones. apply N.mod_lt. done.
Qed.

Lemma md5_hex_chars s : str_forall hex_char (md5_hex s) = true.
Proof.
  apply hex_chars. unfold md5_Sum. destruct (md5_blocks _ _ _) as [[[a b] c] d].
  rewrite !Forall_app. repeat split; apply le_bytes_bounded.
Qed.
