(* ===== verification/Effects.v ===== *)
(** * What the controller calls, and what it can rely on

    The platform configurations the controller keeps ([HostPool], [DynamicResolver],
    [DynamicHostPool], [Local]), the signature of the requests its functions make, and
    the contract of the Go run time and of the Kubernetes API they are proved against. *)
From S2P Require Import Prelude GoLib GoStrings Prog Kube Cloud.

(** ** Platform configurations *)

(** [Host] of [taskrun.go] *)
Record Host := {
  h_Address : string;
  h_Name : string;
  h_User : string;
  h_Concurrency : Z;
  h_Platform : string;
  h_Secret : string;
  h_StartTime : option Z
}.

Record HostPool := { hosts : gmap string Host; targetPlatform : string }.

(** A reference to a [map[string]string] that several values share. *)
Abbreviation loc := nat (only parsing).

Record DynamicResolver := {
  dr_CloudProvider : CloudProvider;
  dr_sshSecret : string;
  dr_platform : string;
  dr_maxInstances : Z;
  dr_instanceTag : string;
  dr_timeout : Z;
  dr_checkInterval : Z;
  dr_sudoCommands : string;
  dr_additionalInstanceTags : loc
}.

Record DynamicHostPool := {
  dp_cloudProvider : CloudProvider;
  dp_sshSecret : string;
  dp_platform : string;
  dp_maxInstances : Z;
  dp_concurrency : Z;
  dp_maxAge : Z;
  dp_instanceTag : string;
  dp_additionalInstanceTags : loc
}.

(** The implementations of the [PlatformConfig] interface *)
Inductive PlatformConfig :=
| Local
| Dynamic (r : DynamicResolver)
| DynamicPool (p : DynamicHostPool)
| Static (p : HostPool).

#[global] Instance Host_eq_dec : EqDecision Host.
Proof. solve_decision. Defined.
#[global] Instance HostPool_eq_dec : EqDecision HostPool.
Proof. solve_decision. Defined.
#[global] Instance DynamicResolver_eq_dec : EqDecision DynamicResolver.
Proof. solve_decision. Defined.
#[global] Instance DynamicHostPool_eq_dec : EqDecision DynamicHostPool.
Proof. solve_decision. Defined.
#[global] Instance PlatformConfig_eq_dec : EqDecision PlatformConfig.
Proof. solve_decision. Defined.

(** ** Requests *)

(** The fields of [ReconcileTaskRun] that its methods write, and the maps of instance
    tags that provider calls share. *)
Inductive memE : Type → Type :=
| Get_configMapResourceVersion : memE string
| Set_configMapResourceVersion (v : string) : memE unit
| Get_platformConfig (platform : string) : memE (option PlatformConfig)
| Set_platformConfig (platform : string) (c : PlatformConfig) : memE unit
| Clear_platformConfig : memE unit
| New_tags (m : smap) : memE loc
| Read_tags (l : loc) : memE smap
| Write_tags (l : loc) (m : smap) : memE unit.

(** The metrics: the collectors of a platform ([PlatformMetrics]), and the package's map
    of the platforms that have been registered. *)
Inductive counter := ProvisionFailures | ProvisionSuccesses | CleanupFailures | HostAllocationFailures.
Inductive histogram := AllocationTime | WaitTime | TaskRunTime.

#[global] Instance counter_eq_dec : EqDecision counter.
Proof. solve_decision. Defined.
#[global] Instance histogram_eq_dec : EqDecision histogram.
Proof. solve_decision. Defined.

(** The gauges of [taskrun_exporter.go] *)
Inductive gauge := runningTasksGauge | waitingTasksGauge.

#[global] Instance gauge_eq_dec : EqDecision gauge.
Proof. solve_decision. Defined.

(** An observed time, in seconds or (for [Duration.Seconds()]) in nanoseconds. *)
Inductive observation := InSeconds (s : Z) | InNanoseconds (ns : Z).

Inductive metricE : Type → Type :=
| Has_platform (platform : string) : metricE bool
| Put_platform (platform : string) : metricE unit
| Registry_Register (platform collector : string) : metricE (option error)
| Set_poolSize (platform : string) (size : Z) : metricE unit
| Inc (platform : string) (c : counter) : metricE unit
| Observe (platform : string) (h : histogram) (v : observation) : metricE unit
| Set_gauge (g : gauge) (platform namespace : string) (v : Z) : metricE unit.

Inductive mpcE : Type → Type :=
| Client {X} (c : clientE X) : mpcE X            (* r.client *)
| APIReader {X} (c : clientE X) : mpcE X         (* r.apiReader: reads past the cache *)
| Cloud {X} (p : CloudProvider) (c : cloudE X) : mpcE X
| Mem {X} (m : memE X) : mpcE X
| Metric {X} (m : metricE X) : mpcE X
| Now : mpcE Z                                   (* time.Now() *)
| RangeMap {K} (keys : list K) : mpcE (list K)   (* the order of a range over a map *)
| RandRead (n : nat) : mpcE (result string)      (* crypto/rand.Read of n bytes *)
| RecordEvent (tr : TaskRun) (type reason message : string) : mpcE unit
| Caller : mpcE (string * Z).                    (* runtime.Caller: file and line *)

Abbreviation mpc := (prog mpcE).

Definition client {X} (c : clientE X) : mpc X := trigger (Client c).
Definition apiReader {X} (c : clientE X) : mpc X := trigger (APIReader c).
Definition cloud {X} (p : CloudProvider) (c : cloudE X) : mpc X := trigger (Cloud p c).
Definition mem {X} (m : memE X) : mpc X := trigger (Mem m).
Definition metric {X} (m : metricE X) : mpc X := trigger (Metric m).
Definition now : mpc Z := trigger Now.
(** The keys of a map, in the order a [for range] visits them. *)
Definition range {K A} `{Countable K} (m : gmap K A) : mpc (list K) := trigger (RangeMap (map_to_list m).*1).
Definition recordEvent (tr : TaskRun) (type reason message : string) : mpc unit :=
  trigger (RecordEvent tr type reason message).

(** [reconcile.Result] and what a reconcile method returns. *)
Record Result := { RequeueAfter : Z }.
#[global] Instance Result_eq_dec : EqDecision Result.
Proof. solve_decision. Defined.
Definition no_requeue : Result := {| RequeueAfter := 0 |}.
Definition requeue_after (d : Z) : Result := {| RequeueAfter := d |}.

(** ** The contract *)

(** The memory of the process. *)
Record memory := {
  m_version : string;
  m_cache : gmap string PlatformConfig;
  m_tags : gmap loc smap;
  m_platforms : gset string
}.

Definition mem_effect {X} (e : memE X) : X → memory → memory :=
  match e in memE X return X → memory → memory with
  | Set_configMapResourceVersion v => λ _ m,
      {| m_version := v; m_cache := m_cache m; m_tags := m_tags m; m_platforms := m_platforms m |}
  | Set_platformConfig p c => λ _ m,
      {| m_version := m_version m; m_cache := <[p:=c]> (m_cache m); m_tags := m_tags m;
         m_platforms := m_platforms m |}
  | Clear_platformConfig => λ _ m,
      {| m_version := m_version m; m_cache := ∅; m_tags := m_tags m; m_platforms := m_platforms m |}
  | New_tags t => λ l m,
      {| m_version := m_version m; m_cache := m_cache m; m_tags := <[l:=t]> (m_tags m);
         m_platforms := m_platforms m |}
  | Write_tags l t => λ _ m,
      {| m_version := m_version m; m_cache := m_cache m; m_tags := <[l:=t]> (m_tags m);
         m_platforms := m_platforms m |}
  | _ => λ _ m, m
  end.

Definition mem_answer_ok {X} (m : memory) (e : memE X) : X → Prop :=
  match e in memE X return X → Prop with
  | Get_configMapResourceVersion => λ v, v = m_version m
  | Get_platformConfig p => λ c, c = m_cache m !! p
  | New_tags _ => λ l, m_tags m !! l = None
  | Read_tags l => λ t, t = default ∅ (m_tags m !! l)
  | _ => λ _, True
  end.

Definition event_effect {X} (e : mpcE X) : X → memory → memory :=
  match e in mpcE X return X → memory → memory with
  | Mem c => mem_effect c
  | Metric c =>
      match c in metricE X return X → memory → memory with
      | Put_platform p => λ _ m,
          {| m_version := m_version m; m_cache := m_cache m; m_tags := m_tags m;
             m_platforms := {[p]} ∪ m_platforms m |}
      | _ => λ _ m, m
      end
  | _ => λ _ m, m
  end.

(** The memory after a history, which started in [m0]. *)
Fixpoint mem_of (m0 : memory) (h : hist mpcE) : memory :=
  match h with
  | [] => m0
  | Ev e x :: h => event_effect e x (mem_of m0 h)
  end.

(** What the answers of the environment satisfy: memory holds what was last written to
    it, a range over a map visits every key once in an order of its own, and the
    Kubernetes API answers as [client_answer_ok] says. *)
Definition answer_ok {X} (m : memory) (e : mpcE X) : X → Prop :=
  match e in mpcE X return X → Prop with
  | Client c => client_answer_ok c
  | APIReader c => client_answer_ok c
  | Mem c => mem_answer_ok m c
  | Metric c =>
      match c in metricE X return X → Prop with
      | Has_platform p => λ b, b = bool_decide (p ∈ m_platforms m)
      | _ => λ _, True
      end
  | RangeMap keys => λ order, order ≡ₚ keys
  | _ => λ _, True
  end.

(** An answer that is always within the contract: an error. *)
Definition client_error {X} (c : clientE X) : X :=
  let err {A} : result A := Err (ErrText "") in
  match c in clientE X return X with
  | Get_TaskRun _ => err | Get_Secret _ => err | Get_ConfigMap _ => err
  | List_TaskRuns _ => err | List_Pods _ => err
  | Create_TaskRun _ => err | Create_Secret _ => err
  | Update_TaskRun _ => err | Update_Pod _ => err
  | Delete_TaskRun _ => err | Delete_Secret _ => err
  end.

Definition go_spec (m0 : memory) : contract mpcE := λ h X e x, answer_ok (mem_of m0 h) e x.

(** Every request may be answered. *)
Lemma go_spec_answers m0 h X (e : mpcE X) : ∃ x, go_spec m0 h X e x.
Proof.
  unfold go_spec. set (m := mem_of m0 h). clearbody m. destruct e as [X c|X c|X p c|X c|X c| |K keys|n|tr t r s|].
  - exists (client_error c). by destruct c.
  - exists (client_error c). by destruct c.
  - destruct c as [id tag tags| | | | |]; [by exists (tags, Err (ErrText ""))|by exists (Err (ErrText ""))..].
  - destruct c; try (by exists tt); try (by eexists; reflexivity).
    exists (fresh (dom (m_tags m))). apply not_elem_of_dom, is_fresh.
  - destruct c; [by eexists|by exists tt|by exists None|by exists tt..].
  - by exists 0%Z.
  - exists keys. exact (Permutation_refl keys).
  - by exists (Ok "").
  - by exists tt.
  - by exists ("", 0%Z).
Qed.

Lemma wp_range {K A} `{Countable K} m0 (m : gmap K A) (Q : list K → hist mpcE → Prop) h :
  (∀ keys, keys ≡ₚ (map_to_list m).*1 → Q keys (Ev (RangeMap (map_to_list m).*1) keys :: h)) →
  wp (go_spec m0) (range m) Q h.
Proof. intros HQ. apply wp_trigger. intros keys Hk. by apply HQ. Qed.

Lemma elem_of_range_keys {K A} `{Countable K} (m : gmap K A) keys k :
  keys ≡ₚ (map_to_list m).*1 → k ∈ keys ↔ is_Some (m !! k).
Proof.
  intros ->. rewrite list_elem_of_fmap. split.
  - intros ([k' v] & -> & Hv%elem_of_map_to_list). by exists v.
  - intros [v Hv]. exists (k, v). split; [done|]. by apply elem_of_map_to_list.
Qed.

Lemma NoDup_range_keys {K A} `{Countable K} (m : gmap K A) keys :
  keys ≡ₚ (map_to_list m).*1 → NoDup keys.
Proof. intros ->. apply NoDup_fst_map_to_list. Qed.
