(* ===== verification/Metrics.v ===== *)
(** * [pkg/metrics]: per-platform metrics and the exporter of task counts *)
From S2P Require Import Prelude GoLib GoStrings Prog Kube Cloud Effects.

(** ** platform.go *)

(** [platformLabel], which [pkg/metrics] and [pkg/reconciler/taskrun] both define. *)
Definition platformLabel (platform : string) : string := ReplaceAll platform "/" "-".

(** Register the collectors in turn, stopping at the first error. *)
Fixpoint register_collectors (platform : string) (names : list string) : mpc (option error) :=
  match names with
  | [] => mret None
  | n :: names =>
      err ← metric (Registry_Register platform n);
      match err with
      | Some err => mret (Some err)
      | None => register_collectors platform names
      end
  end.

Definition collector_names : list string :=
  ["host_allocation_time"; "wait_time"; "task_run_time"; "provisioning_failures";
   "provisioning_successes"; "cleanup_failures"; "host_allocation_failures"; "platform_pool_size"].

(** [RegisterPlatformMetrics] *)
Definition RegisterPlatformMetrics (platform : string) (poolSize : Z) : mpc (option error) :=
  let platform := platformLabel platform in
  ok ← metric (Has_platform (platformLabel platform));
  if (ok : bool) then mret None else
  err ← register_collectors platform collector_names;
  match err with
  | Some err => mret (Some err)
  | None =>
      _ ← metric (Set_poolSize platform poolSize);
      _ ← metric (Put_platform platform);
      mret None
  end.

(** [HandleMetrics(platform, f)]: [f] runs when the platform is registered. *)
Definition HandleMetrics (platform : string) (f : string → mpc unit) : mpc unit :=
  let platform := platformLabel platform in
  ok ← metric (Has_platform platform);
  if (ok : bool) then f platform else mret tt.

(** The callbacks that increment a counter. *)
Definition inc (c : counter) (platform : string) : mpc unit := metric (Inc platform c).

(** ** taskrun_exporter.go *)

(** [metricLabels]: the platform and the namespace of a count. *)
Abbreviation metricLabels := (string * string)%type.

(** [if _, ok := rts[k]; !ok { rts[k] = 0 }; rts[k]++] *)
Definition count_up (counts : gmap metricLabels Z) (k : metricLabels) : gmap metricLabels Z :=
  <[k := (default 0 (counts !! k) + 1)%Z]> counts.

(** The key a running task is counted under, if it is counted. *)
Definition running_key (tr : TaskRun) : option metricLabels :=
  match CompletionTime (tr_Status tr) with
  | Some _ => None
  | None =>
      let platform := label tr TargetPlatformLabel in
      if String.eqb platform "" then None else Some (platformLabel platform, tr_Namespace tr)
  end.

(** The key a waiting task is counted under. *)
Definition waiting_key (tr : TaskRun) : option metricLabels :=
  let platform := label tr WaitingForPlatformLabel in
  if String.eqb platform "" then None else Some (platformLabel platform, tr_Namespace tr).

Definition count_tasks (key : TaskRun → option metricLabels) (trs : list TaskRun) : gmap metricLabels Z :=
  foldl (λ counts tr, match key tr with Some k => count_up counts k | None => counts end) ∅ trs.

(** The common body of [exportRunningTasks] and [exportWaitingTasks]. *)
Definition export_tasks (g : gauge) (labelKey : string) (key : TaskRun → option metricLabels) : mpc (option error) :=
  trList ← client (List_TaskRuns (HasLabels [labelKey]));
  match trList with
  | Err err => mret (Some err)
  | Ok items =>
      let counts := count_tasks key items in
      ks ← range counts;
      _ ← foldM (λ _ k, metric (Set_gauge g k.1 k.2 (default 0 (counts !! k))%Z)) tt ks;
      mret None
  end.

Definition exportRunningTasks : mpc (option error) :=
  export_tasks runningTasksGauge AssignedHost running_key.
Definition exportWaitingTasks : mpc (option error) :=
  export_tasks waitingTasksGauge WaitingForPlatformLabel waiting_key.

(** The goroutine of [AddTaskRunMetricsExporter]: what it asks of the manager and of the
    run time, besides what the exporters ask. [Select] waits for the context or the ticker. *)
Inductive wakeup := ContextDone | Tick.

Inductive exporterE : Type → Type :=
| WaitForCacheSync : exporterE bool
| Register_gauge (g : gauge) : exporterE (option error)
| NewTicker (d : Z) : exporterE unit
| Select : exporterE wakeup
| Stop : exporterE unit
| Exports {X} (e : mpcE X) : exporterE X.

(** A call of one of the exporters. *)
Definition exporting (p : mpc (option error)) : prog exporterE (option error) := interp (λ X e, trigger (Exports e)) p.

(** One round of the loop: errors are logged. *)
Definition export_round : prog exporterE bool :=
  w ← trigger Select;
  match w with
  | ContextDone => mret true
  | Tick => _ ← exporting exportRunningTasks; _ ← exporting exportWaitingTasks; mret false
  end.

(** The body that [AddTaskRunMetricsExporter] hands to the manager: its error, or [None]
    when it still runs after [fuel] rounds. *)
Definition AddTaskRunMetricsExporter (fuel : nat) : prog exporterE (option (option error)) :=
  ok ← trigger WaitForCacheSync;
  if negb ok then mret (Some (Some (ErrText "context canceled"))) else
  _ ← trigger (Register_gauge runningTasksGauge);
  _ ← trigger (Register_gauge waitingTasksGauge);
  _ ← trigger (NewTicker (15 * Second));
  ended ← until fuel export_round;
  if (ended : bool) then _ ← trigger Stop; mret (Some None) else mret None.
