(* ===== verification/Update.v ===== *)
(** * The conflict-resilient update of a TaskRun (the end of [taskrun.go]) *)
From S2P Require Import Prelude GoLib GoStrings Prog Kube Cloud Effects.

Definition managedLabels : list string :=
  [AssignedHost; UserTaskName; UserTaskNamespace; TargetPlatformLabel; WaitingForPlatformLabel; TaskTypeLabel].

Definition managedAnnotations : list string :=
  [FailedHosts; CloudInstanceId; ProvisionTaskProcessed; AllocationStartTimeAnnotation].

(** The loop body of [mergeKeysInMaps] *)
Definition merge_key (mutation : smap) (latest : smap) (k : string) : smap :=
  match mutation !! k with
  | Some a => <[k := a]> latest
  | None => delete k latest
  end.

(** [mergeKeysInMaps] *)
Definition mergeKeysInMaps (latest mutation : gomap) (keys : list string) : gomap :=
  Some (foldl (merge_key (default ∅ mutation)) (default ∅ latest) keys).

Section update.
Context `{K8s} `{Retry}.

(** [ensureFinalizerIsUpdated] *)
Definition ensureFinalizerIsUpdated (latest mutated : TaskRun) (finalizer : string) : TaskRun :=
  let lf := ContainsFinalizer (tr_Finalizers latest) finalizer in
  let mf := ContainsFinalizer (tr_Finalizers mutated) finalizer in
  if Bool.eqb mf lf then latest
  else if negb mf then with_finalizers latest (RemoveFinalizer (tr_Finalizers latest) finalizer)
  else with_finalizers latest (AddFinalizer (tr_Finalizers latest) finalizer).1.

(** The object [updateTaskRun] sends: [latest] with the managed keys and the finalizer
    of [tr]. *)
Definition merge_into_latest (latest tr : TaskRun) : TaskRun :=
  let latest := with_annotations latest
    (mergeKeysInMaps (tr_Annotations latest) (tr_Annotations tr) managedAnnotations) in
  let latest := with_labels latest
    (mergeKeysInMaps (tr_Labels latest) (tr_Labels tr) managedLabels) in
  ensureFinalizerIsUpdated latest tr PipelineFinalizer.

(** [updateTaskRun] *)
Definition updateTaskRun (tr : TaskRun) : mpc (result unit) :=
  latest ← apiReader (Get_TaskRun (ObjectKeyFromObject tr));
  match latest with
  | Err err => mret (Err err)
  | Ok latest =>
      r ← client (Update_TaskRun (merge_into_latest latest tr));
      mret (match r with Ok _ => Ok tt | Err err => Err err end)
  end.

(** [UpdateTaskRunWithRetry]: the error, and the object [tr] points to afterwards (a
    successful first update writes the server's version back to it). *)
Definition UpdateTaskRunWithRetry (tr : TaskRun) : mpc (TaskRun * option error) :=
  r ← client (Update_TaskRun tr);
  match r with
  | Ok tr' => mret (tr', None)
  | Err err =>
      if negb (IsConflict err) then mret (tr, Some err)
      else
        r ← RetryOnConflict DefaultRetry (updateTaskRun tr);
        mret (tr, match r with Ok _ => None | Err err => Some err end)
  end.

End update.
