(* ===== verification/Provision.v ===== *)
(** * Error secrets and provisioning tasks ([createErrorSecret] and
    [launchProvisioningTask] of [taskrun.go], [createUserTaskSecret] of [local.go]) *)
From S2P Require Import Prelude GoLib GoStrings Md5 Prog Kube Cloud Effects Metrics.

(** [rawPlatform] *)
Definition rawPlatform (platform : string) : string :=
  let parts := Split (platformLabel platform) "-" in
  match parts with
  | [] => platform
  | [p] => p
  | p :: _ => p +:+ "-" +:+ default "" (last parts)
  end.

Definition newline : string := String "010" EmptyString.

(** The text of an error secret. *)
Definition error_secret_message (msg targetPlatform file : string) (line : Z) : string :=
  msg +:+ newline +:+ newline +:+
  "Context info:" +:+ newline +:+
  "  Platform: " +:+ targetPlatform +:+ newline +:+
  "  File:     " +:+ file +:+ newline +:+
  "  Line:     " +:+ Itoa line +:+ newline +:+
  newline.

(** A secret for the user's task: its name and namespace, and the label that makes it
    visible to the controller's cache. *)
Definition user_task_secret (tr : TaskRun) (secretName : string) (data : smap) : Secret :=
  {| sec_meta := {| Name := secretName; Namespace := tr_Namespace tr; GenerateName := "";
                    Labels := Some {[MultiPlatformSecretLabel := "true"]}; Annotations := None;
                    Finalizers := []; OwnerReferences := []; ResourceVersion := "";
                    CreationTimestamp := zero_time; DeletionTimestamp := None |};
     sec_Data := data |}.

Section provision.
Context `{K8s}.

(** The steps [createErrorSecret] and [createUserTaskSecret] share: create the secret,
    owned by the TaskRun; one that exists already is not an error. *)
Definition create_owned_secret (secret : Secret) : mpc (option error) :=
  r ← client (Create_Secret secret);
  mret (match r with
        | Ok _ => None
        | Err err => if IsAlreadyExists err then None else Some err
        end).

(** [createErrorSecret]: the error, and the TaskRun it may have added the finalizer to.
    The finalizer stays on the object in memory even when the update fails. *)
Definition createErrorSecret (tr : TaskRun) (targetPlatform secretName msg : string) : mpc (TaskRun * option error) :=
  let '(finalizers, added) := AddFinalizer (tr_Finalizers tr) PipelineFinalizer in
  '(tr, err) ← (if (added : bool) then
      let tr := with_finalizers tr finalizers in
      r ← client (Update_TaskRun tr);
      mret (match r with Ok tr' => (tr', None) | Err err => (tr, Some err) end)
    else mret (tr, None));
  match err with
  | Some err => mret (tr, Some err)
  | None =>
      match SetOwnerReference tr (user_task_secret tr secretName ∅) with
      | Err err => mret (tr, Some err)
      | Ok secret =>
          '(file, line) ← trigger Caller;
          let secret := {| sec_meta := sec_meta secret;
                           sec_Data := {["error" := error_secret_message msg targetPlatform file line]} |} in
          err ← create_owned_secret secret;
          mret (tr, err)
      end
  end.

(** [createUserTaskSecret] *)
Definition createUserTaskSecret (tr : TaskRun) (secretName : string) (secretData : smap) : mpc (option error) :=
  match SetOwnerReference tr (user_task_secret tr secretName secretData) with
  | Err err => mret (Some err)
  | Ok secret => create_owned_secret secret
  end.

(** The Tekton task that provisions a host of the platform. *)
Definition provision_task_name (platform : string) : string :=
  if HasPrefix platform "windows" then "provision-host-windows"
  else if HasPrefix platform "macos" then "provision-host-macos"
  else "provision-shared-host".

(** [hex.EncodeToString(md5.Sum([]byte(address))[:])[:5]] *)
Definition short_hash (address : string) : string := slice (md5_hex address) 0 5.

(** The provisioning TaskRun. *)
Definition provision_task (tr : TaskRun) (operatorNamespace secretName sshSecret address user platform sudoCommands instanceTag : string) : TaskRun :=
  {| tr_meta := {| Name := ChildName (tr_Name tr) ("-prov-" +:+ short_hash address);
                   Namespace := operatorNamespace; GenerateName := "";
                   Labels := Some (list_to_map
                     [(TaskTypeLabel, TaskTypeProvision); (TargetPlatformLabel, platformLabel platform);
                      (UserTaskNamespace, tr_Namespace tr); (UserTaskName, tr_Name tr);
                      (AssignedHost, label tr AssignedHost)]);
                   Annotations := None; Finalizers := []; OwnerReferences := [];
                   ResourceVersion := ""; CreationTimestamp := zero_time; DeletionTimestamp := None |};
     tr_Spec := {| Params := Some
                     [{| p_Name := ParamSecretName; p_StringVal := secretName |};
                      {| p_Name := ParamTaskrunName; p_StringVal := tr_Name tr |};
                      {| p_Name := ParamNamespace; p_StringVal := tr_Namespace tr |};
                      {| p_Name := ParamHost; p_StringVal := address |};
                      {| p_Name := ParamUser; p_StringVal := user |};
                      {| p_Name := ParamSudoCommands; p_StringVal := sudoCommands |};
                      {| p_Name := ParamRawPlatform; p_StringVal := rawPlatform platform |};
                      {| p_Name := ParamInstanceTag; p_StringVal := instanceTag |}];
                   TaskRefName := provision_task_name platform;
                   Workspaces := [{| w_Name := "ssh"; w_SecretName := sshSecret |}];
                   s_ComputeResources := Some
                     {| c_Requests := list_to_map [("cpu", "100m"); ("memory", "256Mi")];
                        c_Limits := list_to_map [("cpu", "100m"); ("memory", "512Mi")] |};
                   ServiceAccountName := ProvisionerServiceAccountName;
                   Retries := 0 |};
     tr_Status := zero_status |}.

(** [launchProvisioningTask] *)
Definition launchProvisioningTask (operatorNamespace : string) (tr : TaskRun)
    (secretName sshSecret address user platform sudoCommands : string) : mpc (TaskRun * option error) :=
  secret ← client (Get_Secret (Key operatorNamespace sshSecret));
  match secret with
  | Err _ => createErrorSecret tr platform secretName "failed to get SSH secret, system may not be configured correctly"
  | Ok _ =>
      hostCfg ← client (Get_ConfigMap (Key operatorNamespace HostConfig));
      let instanceTag := match hostCfg with Ok cfg => sget (cm_Data cfg) DefaultInstanceTag | Err _ => "" end in
      r ← client (Create_TaskRun (provision_task tr operatorNamespace secretName sshSecret address user platform sudoCommands instanceTag));
      mret (tr, match r with
                | Ok _ => None
                | Err err => if IsAlreadyExists err then None else Some err
                end)
  end.

End provision.
