(* ===== verification/HostPools.v ===== *)
(** * Static host pools ([pkg/reconciler/taskrun/hostpool.go]) *)
From S2P Require Import Prelude GoLib GoStrings Md5 Prog Kube Cloud Effects Metrics Update Provision.

Module HostPool.

(** [hostCount]: the number of user tasks assigned to each host. A task with a task-type
    label is one of the controller's own. *)
Definition count_assigned (items : list TaskRun) : gmap string Z :=
  foldl (λ hostCount tr,
      if String.eqb (label tr TaskTypeLabel) "" then
        let host := label tr AssignedHost in
        <[host := (default 0 (hostCount !! host) + 1)%Z]> hostCount
      else hostCount) ∅ items.

(** The variables of the selection loop. *)
Record selection := {
  selected : option Host;
  freeSpots : Z;
  platformHostsExists : bool;
  allPlatformHostsFailed : bool
}.
Definition selection_start : selection :=
  {| selected := None; freeSpots := 0; platformHostsExists := false; allPlatformHostsFailed := true |}.

(** The body of the selection loop, for host [v] with key [k]. *)
Definition consider (platform : string) (failed : list string) (hostCount : gmap string Z)
    (s : selection) (k : string) (v : Host) : selection :=
  if negb (String.eqb (h_Platform v) platform) then s
  else if bool_decide (k ∈ failed) then
    {| selected := selected s; freeSpots := freeSpots s; platformHostsExists := true;
       allPlatformHostsFailed := allPlatformHostsFailed s |}
  else
    let free := (h_Concurrency v - default 0 (hostCount !! k))%Z in
    if (freeSpots s <? free)%Z then
      {| selected := Some v; freeSpots := free; platformHostsExists := true; allPlatformHostsFailed := false |}
    else
      {| selected := selected s; freeSpots := freeSpots s; platformHostsExists := true;
         allPlatformHostsFailed := false |}.

(** The selection loop, over the keys in the order the range visits them. *)
Definition select_host (hp : HostPool) (failed : list string) (hostCount : gmap string Z)
    (keys : list string) : selection :=
  foldl (λ s k, match hosts hp !! k with
                | Some v => consider (targetPlatform hp) failed hostCount s k v
                | None => s
                end) selection_start keys.

Section hostpool.
Context `{K8s} `{Retry}.
(** [r.operatorNamespace] *)
Variable operatorNamespace : string.

(** [HostPool.Allocate]: the TaskRun as it is left, the result and the error. *)
Definition Allocate (hp : HostPool) (tr : TaskRun) (secretName : string) : mpc (TaskRun * Result * option error) :=
  if bool_decide (hosts hp = ∅) then mret (tr, no_requeue, Some (ErrText "no hosts configured")) else
  let failedString := annotation tr FailedHosts in
  let failed := Split failedString "," in
  taskList ← client (List_TaskRuns (HasLabels [AssignedHost]));
  match taskList with
  | Err err => mret (tr, no_requeue, Some err)
  | Ok items =>
      let hostCount := count_assigned items in
      keys ← range (hosts hp);
      let s := select_host hp failed hostCount keys in
      if negb (platformHostsExists s) then
        mret (tr, no_requeue, Some (ErrText ("no hosts configured for platform " +:+ targetPlatform hp)))
      else if allPlatformHostsFailed s then
        mret (tr, no_requeue, Some (ErrWrap "" (ErrSentinel ErrAllHostsFailed) (": " +:+ failedString)))
      else
        match selected s with
        | None =>
            if String.eqb (label tr WaitingForPlatformLabel) (platformLabel (targetPlatform hp)) then
              mret (tr, no_requeue, None)
            else
              tr ← set_label tr WaitingForPlatformLabel (platformLabel (targetPlatform hp));
              '(tr, err) ← UpdateTaskRunWithRetry tr;
              match err with
              | Some err => mret (tr, no_requeue, Some err)
              | None => mret (tr, requeue_after Minute, None)
              end
        | Some host =>
            tr ← set_label tr AssignedHost (h_Name host);
            let tr := delete_label tr WaitingForPlatformLabel in
            let tr := with_finalizers tr (AddFinalizer (tr_Finalizers tr) PipelineFinalizer).1 in
            '(tr, err) ← UpdateTaskRunWithRetry tr;
            match err with
            | Some err => mret (tr, no_requeue, Some err)
            | None =>
                '(tr, err) ← launchProvisioningTask operatorNamespace tr secretName
                    (h_Secret host) (h_Address host) (h_User host) (targetPlatform hp) "";
                match err with
                | None => mret (tr, no_requeue, None)
                | Some err =>
                    let tr := delete_label tr AssignedHost in
                    let tr := with_finalizers tr (RemoveFinalizer (tr_Finalizers tr) PipelineFinalizer) in
                    '(tr, updateErr) ← UpdateTaskRunWithRetry tr;
                    match updateErr with
                    | Some _ => mret (tr, no_requeue, Some err)
                    | None => mret (tr, no_requeue, Some (ErrText ("failed to provision host: " +:+ Error err)))
                    end
                end
            end
        end
  end.

(** The labels of a cleanup task, by which an existing one is found. *)
Definition cleanup_labels (hp : HostPool) (tr : TaskRun) : smap :=
  list_to_map [(TaskTypeLabel, TaskTypeClean); (UserTaskName, tr_Name tr);
               (UserTaskNamespace, tr_Namespace tr); (TargetPlatformLabel, platformLabel (targetPlatform hp))].

(** The cleanup TaskRun. *)
Definition cleanup_task (hp : HostPool) (tr : TaskRun) (secretName : string) (host : Host) : TaskRun :=
  {| tr_meta := {| Name := ChildName (tr_Name tr) ("-cleanup-" +:+ short_hash (h_Address host));
                   Namespace := operatorNamespace; GenerateName := "";
                   Labels := Some (cleanup_labels hp tr);
                   Annotations := None; Finalizers := []; OwnerReferences := [];
                   ResourceVersion := ""; CreationTimestamp := zero_time; DeletionTimestamp := None |};
     tr_Spec := {| Params := Some
                     [{| p_Name := "SECRET_NAME"; p_StringVal := secretName |};
                      {| p_Name := "TASKRUN_NAME"; p_StringVal := tr_Name tr |};
                      {| p_Name := "NAMESPACE"; p_StringVal := tr_Namespace tr |};
                      {| p_Name := "HOST"; p_StringVal := h_Address host |};
                      {| p_Name := "USER"; p_StringVal := h_User host |}];
                   TaskRefName := "clean-shared-host";
                   Workspaces := [{| w_Name := "ssh"; w_SecretName := h_Secret host |}];
                   s_ComputeResources := Some
                     {| c_Requests := list_to_map [("cpu", "100m"); ("memory", "128Mi")]; c_Limits := ∅ |};
                   ServiceAccountName := TaskRunnerServiceAccountName;
                   Retries := 3 |};
     tr_Status := zero_status |}.

(** [HostPool.Deallocate] *)
Definition Deallocate (hp : HostPool) (tr : TaskRun) (secretName selectedHost : string) : mpc (option error) :=
  match hosts hp !! selectedHost with
  | None => mret None
  | Some host =>
      list ← client (List_TaskRuns (MatchingLabels (cleanup_labels hp tr)));
      if (match list with Ok (_ :: _) => true | _ => false end) then mret None
      else
        r ← client (Create_TaskRun (cleanup_task hp tr secretName host));
        mret (match r with Ok _ => None | Err err => Some err end)
  end.

End hostpool.
End HostPool.
