(* ===== verification/LocalHost.v ===== *)
(** * The local platform ([pkg/reconciler/taskrun/local.go]) *)
From S2P Require Import Prelude GoLib GoStrings Prog Kube Cloud Effects Provision.

Module LocalHost.
Section local.
Context `{K8s}.

(** [Local.Allocate] *)
Definition Allocate (tr : TaskRun) (secretName : string) : mpc (TaskRun * Result * option error) :=
  tr ← set_label tr AssignedHost "localhost";
  let tr := with_finalizers tr (AddFinalizer (tr_Finalizers tr) PipelineFinalizer).1 in
  r ← client (Update_TaskRun tr);
  match r with
  | Err err => mret (tr, no_requeue, Some err)
  | Ok tr =>
      err ← createUserTaskSecret tr secretName {["host" := "localhost"]};
      mret (tr, no_requeue, err)
  end.

(** [Local.Deallocate] *)
Definition Deallocate (tr : TaskRun) (secretName selectedHost : string) : mpc (option error) := mret None.

End local.
End LocalHost.
