(* ===== verification/Dynamics.v ===== *)
(** * Dynamic platforms: one cloud instance per task ([pkg/reconciler/taskrun/dynamic.go]) *)
From S2P Require Import Prelude GoLib GoStrings Prog Kube Cloud Effects Metrics Update Provision.

Module DynamicResolver.

Section dynamic.
Context `{K8s} `{Retry}.
(** [taskRun.operatorNamespace] *)
Variable operatorNamespace : string.

(** [removeInstanceFromTask] *)
Definition removeInstanceFromTask (tr : TaskRun) : mpc (TaskRun * option error) :=
  let tr := delete_label tr AssignedHost in
  let tr := delete_annotation tr CloudDynamicPlatform in
  UpdateTaskRunWithRetry tr.

(** The step the error paths of [Allocate] share: terminate the instance of the task
    (dropping its annotation when that succeeds, reporting otherwise) and unassign it. *)
Definition terminate_and_unassign (r : DynamicResolver) (tr : TaskRun) (report : TaskRun → mpc unit) : mpc TaskRun :=
  terr ← cloud (dr_CloudProvider r) (TerminateInstance (annotation tr CloudInstanceId));
  tr ← (match terr with
        | Err _ => _ ← report tr; mret tr
        | Ok _ => mret (delete_annotation tr CloudInstanceId)
        end);
  '(tr, _) ← removeInstanceFromTask tr;
  mret tr.

Definition report_terminate_failed (r : DynamicResolver) (tr : TaskRun) : mpc unit :=
  recordEvent tr "Normal" "TerminateFailed"
    ("failed to terminate " +:+ dr_instanceTag r +:+ " instance for " +:+ tr_Name tr).
Definition report_nothing (tr : TaskRun) : mpc unit := mret tt.

(** [DynamicResolver.Deallocate] *)
Definition Deallocate (r : DynamicResolver) (tr : TaskRun) (secretName selectedHost : string) : mpc (TaskRun * option error) :=
  let instance := annotation tr CloudInstanceId in
  err ← cloud (dr_CloudProvider r) (TerminateInstance instance);
  match err with
  | Err err =>
      _ ← recordEvent tr "Error" "TerminateFailed" (Error err);
      mret (tr, Some err)
  | Ok _ =>
      let tr := delete_annotation tr CloudInstanceId in
      let tr := delete_label tr AssignedHost in
      let tr := delete_label tr CloudDynamicPlatform in
      mret (tr, None)
  end.

(** The test at the head of [Allocate]: an instance was launched for the task, and its
    allocation time has run out. *)
Definition allocation_timed_out (r : DynamicResolver) (tr : TaskRun) : mpc bool :=
  if String.eqb (annotation tr AllocationStartTimeAnnotation) "" || String.eqb (annotation tr CloudInstanceId) ""
  then mret false
  else
    match ParseInt (annotation tr AllocationStartTimeAnnotation) 64 with
    | Err _ => mret false
    | Ok startTime => t ← now; mret (wrap64 (startTime + dr_timeout r) <? Unix t)%Z
    end.

(** The branch of [Allocate] in which the instance has an address. *)
Definition provision_instance (r : DynamicResolver) (tr : TaskRun) (secretName address : string) : mpc (TaskRun * Result * option error) :=
  tr ← set_label tr AssignedHost (annotation tr CloudInstanceId);
  tr ← set_annotation tr CloudAddress address;
  '(tr, err) ← UpdateTaskRunWithRetry tr;
  match err with
  | Some err => mret (tr, no_requeue, Some err)
  | None =>
      _ ← recordEvent tr "Normal" "Provisioning"
            ("starting " +:+ dr_instanceTag r +:+ " provisioning task for " +:+ tr_Name tr);
      '(tr, err) ← launchProvisioningTask operatorNamespace tr secretName (dr_sshSecret r) address
            (SshUser (dr_CloudProvider r)) (dr_platform r) (dr_sudoCommands r);
      match err with
      | None => mret (tr, no_requeue, None)
      | Some err =>
          tr ← terminate_and_unassign r tr report_nothing;
          mret (tr, no_requeue, Some err)
      end
  end.

(** The branch of [Allocate] in which the instance has no address yet. *)
Definition await_address (r : DynamicResolver) (tr : TaskRun) : mpc (TaskRun * Result * option error) :=
  state ← cloud (dr_CloudProvider r) (GetState (annotation tr CloudInstanceId));
  let requeueTime := wrap64 (dr_checkInterval r * Second) in
  match state with
  | Err _ => mret (tr, requeue_after (10 * Second), None)
  | Ok FailedState =>
      tr ← terminate_and_unassign r tr (report_terminate_failed r);
      mret (tr, requeue_after requeueTime, None)
  | Ok _ => mret (tr, requeue_after requeueTime, None)
  end.

(** The branch of [Allocate] for a task that has an instance. *)
Definition continue_instance (r : DynamicResolver) (tr : TaskRun) (secretName : string) : mpc (TaskRun * Result * option error) :=
  address ← cloud (dr_CloudProvider r) (GetInstanceAddress (annotation tr CloudInstanceId));
  match address with
  | Err err =>
      tr ← terminate_and_unassign r tr (report_terminate_failed r);
      mret (tr, no_requeue, Some err)
  | Ok address =>
      if negb (String.eqb address "") then provision_instance r tr secretName address
      else await_address r tr
  end.

(** What [Allocate] does when [LaunchInstance] fails. *)
Definition launch_failed (tr : TaskRun) (launchErr : error) : mpc (TaskRun * Result * option error) :=
  let existingFailureString := annotation tr CloudFailures in
  match (if String.eqb existingFailureString "" then Ok 0%Z else Atoi existingFailureString) with
  | Err err => mret (tr, no_requeue, Some err)
  | Ok failureCount =>
      if (failureCount =? 2)%Z then mret (tr, no_requeue, Some launchErr)
      else
        tr ← set_annotation tr CloudFailures (Itoa (wrap64 (failureCount + 1)));
        '(tr, _) ← UpdateTaskRunWithRetry tr;
        mret (tr, requeue_after (20 * Second), None)
  end.

(** [r.LaunchInstance(…, r.additionalInstanceTags)], which may write to the shared tags. *)
Definition launch (r : DynamicResolver) (tr : TaskRun) : mpc (result string) :=
  let taskRunID := tr_Namespace tr +:+ ":" +:+ tr_Name tr in
  tags ← mem (Read_tags (dr_additionalInstanceTags r));
  '(tags, instance) ← cloud (dr_CloudProvider r) (LaunchInstance taskRunID (dr_instanceTag r) tags);
  _ ← mem (Write_tags (dr_additionalInstanceTags r) tags);
  mret instance.

(** The rest of [Allocate], once there is room for an instance: launch one and record it. *)
Definition launch_instance (r : DynamicResolver) (tr : TaskRun) (instanceCount : Z) : mpc (TaskRun * Result * option error) :=
  let tr := delete_label tr WaitingForPlatformLabel in
  t ← now;
  tr ← set_annotation tr AllocationStartTimeAnnotation (Itoa (Unix t));
  _ ← recordEvent tr "Normal" "Launching"
        (Itoa instanceCount +:+ " instances are running for " +:+ dr_instanceTag r +:+ ", creating a new instance " +:+ tr_Name tr);
  instance ← launch r tr;
  match instance with
  | Err launchErr => launch_failed tr launchErr
  | Ok instance =>
      _ ← recordEvent tr "Normal" "Launched" ("launched " +:+ dr_instanceTag r +:+ " instance for " +:+ tr_Name tr);
      tr ← set_annotation tr CloudInstanceId instance;
      tr ← set_label tr CloudDynamicPlatform (platformLabel (dr_platform r));
      let tr := with_finalizers tr (AddFinalizer (tr_Finalizers tr) PipelineFinalizer).1 in
      '(tr, err) ← UpdateTaskRunWithRetry tr;
      match err with
      | Some err =>
          _ ← cloud (dr_CloudProvider r) (TerminateInstance instance);
          mret (tr, no_requeue, Some err)
      | None => mret (tr, requeue_after (2 * Minute), None)
      end
  end.

(** What [Allocate] does when the platform is at its maximum of instances. *)
Definition wait_for_capacity (r : DynamicResolver) (tr : TaskRun) (instanceCount : Z) : mpc (TaskRun * Result * option error) :=
  _ ← recordEvent tr "Warning" "Pending"
        (Itoa instanceCount +:+ " of " +:+ Itoa (dr_maxInstances r) +:+ " maxInstances running for " +:+
         dr_instanceTag r +:+ ", waiting for existing tasks to finish before provisioning for ");
  if String.eqb (label tr WaitingForPlatformLabel) (platformLabel (dr_platform r)) then
    mret (tr, requeue_after Minute, None)
  else
    tr ← set_label tr WaitingForPlatformLabel (platformLabel (dr_platform r));
    '(tr, _) ← UpdateTaskRunWithRetry tr;
    mret (tr, requeue_after Minute, None).

(** [DynamicResolver.Allocate] *)
Definition Allocate (r : DynamicResolver) (tr : TaskRun) (secretName : string) : mpc (TaskRun * Result * option error) :=
  if negb (String.eqb (annotation tr FailedHosts) "") then
    mret (tr, no_requeue, Some (ErrText "failed to provision host"))
  else
    let tr := with_annotations tr (make_if_nil (tr_Annotations tr)) in
    timed_out ← allocation_timed_out r tr;
    if (timed_out : bool) then
      tr ← terminate_and_unassign r tr report_nothing;
      mret (tr, no_requeue, Some (ErrText "timed out waiting for instance address"))
    else if negb (String.eqb (annotation tr CloudInstanceId) "") then
      continue_instance r tr secretName
    else
      count ← cloud (dr_CloudProvider r) (CountInstances (dr_instanceTag r));
      match count with
      | Err err => mret (tr, no_requeue, Some err)
      | Ok instanceCount =>
          if (dr_maxInstances r <=? instanceCount)%Z then wait_for_capacity r tr instanceCount
          else launch_instance r tr instanceCount
      end.

End dynamic.
End DynamicResolver.
