(* ===== verification/DynamicPools.v ===== *)
(** * Dynamic host pools: cloud instances that several tasks share
      ([pkg/reconciler/taskrun/dynamicpool.go]) *)
From S2P Require Import Prelude GoLib GoStrings Md5 Prog Kube Cloud Effects Metrics Update Provision HostPools.

Module DynamicHostPool.

Section dynamicpool.
Context `{K8s} `{Retry}.
(** [r.operatorNamespace] *)
Variable operatorNamespace : string.

(** [isHostIdle] *)
Definition isHostIdle (selectedHost : string) : mpc (result bool) :=
  trs ← client (List_TaskRuns (MatchingLabels {[AssignedHost := selectedHost]}));
  mret (match trs with
        | Err err => Err err
        | Ok items => Ok (match items with [] => true | _ => false end)
        end).

(** The host of an instance that is young enough. *)
Definition instance_host (a : DynamicHostPool) (inst : CloudVMInstance) : Host :=
  {| h_Address := Address inst; h_Name := InstanceId inst; h_User := SshUser (dp_cloudProvider a);
     h_Concurrency := dp_concurrency a; h_Platform := dp_platform a; h_Secret := dp_sshSecret a;
     h_StartTime := Some (StartTime inst) |}.

(** The loop body of [buildHostPool]: the hosts so far and the count of old instances. *)
Definition visit_instance (a : DynamicHostPool) (acc : gmap string Host * Z) (inst : CloudVMInstance) :
    mpc (gmap string Host * Z) :=
  let '(ret, oldInstanceCount) := acc in
  t ← now;
  if (StartTime inst + dp_maxAge a <? t)%Z then
    idle ← isHostIdle (InstanceId inst);
    _ ← (match idle with
         | Ok true => cloud (dp_cloudProvider a) (TerminateInstance (InstanceId inst))
         | _ => mret (Ok tt)
         end);
    mret (ret, oldInstanceCount + 1)%Z
  else mret (<[InstanceId inst := instance_host a inst]> ret, oldInstanceCount).

(** [buildHostPool] *)
Definition buildHostPool (a : DynamicHostPool) (instanceTag : string) : mpc (result (HostPool * Z)) :=
  instances ← cloud (dp_cloudProvider a) (ListInstances instanceTag);
  match instances with
  | Err err => mret (Err err)
  | Ok instances =>
      '(ret, oldInstanceCount) ← foldM (visit_instance a) (∅, 0%Z) instances;
      mret (Ok ({| hosts := ret; targetPlatform := dp_platform a |}, oldInstanceCount))
  end.

(** [DynamicHostPool.Deallocate] *)
Definition Deallocate (a : DynamicHostPool) (tr : TaskRun) (secretName selectedHost : string) : mpc (option error) :=
  pool ← buildHostPool a (dp_instanceTag a);
  match pool with
  | Err err => mret (Some err)
  | Ok (hostPool, oldInstanceCount) =>
      err ← HostPool.Deallocate operatorNamespace hostPool tr secretName selectedHost;
      match err with
      | Some err => mret (Some err)
      | None =>
          if (0 <? oldInstanceCount)%Z && bool_decide (hosts hostPool !! selectedHost = None) then
            idle ← isHostIdle selectedHost;
            match idle with
            | Err err => mret (Some err)
            | Ok true =>
                r ← cloud (dp_cloudProvider a) (TerminateInstance selectedHost);
                mret (match r with Ok _ => None | Err err => Some err end)
            | Ok false => mret None
            end
          else mret None
      end
  end.

(** [getRandomString] *)
Definition getRandomString (len : nat) : mpc (result string) :=
  r ← trigger (RandRead (Nat.div len 2 + 1));
  mret (match r with
        | Err err => Err err
        | Ok bytes => Ok (slice (hex_EncodeToString (string_bytes bytes)) 0 len)
        end).

(** The second half of [Allocate]: start a new instance unless the pool is at capacity. *)
Definition start_instance (a : DynamicHostPool) (tr : TaskRun) (oldInstanceCount : Z) (allocationErr : option error) :
    mpc (TaskRun * Result * option error) :=
  count ← cloud (dp_cloudProvider a) (CountInstances (dp_instanceTag a));
  match count with
  | Err err => mret (tr, no_requeue, Some err)
  | Ok count =>
      if (dp_maxInstances a <=? count - oldInstanceCount)%Z then
        mret (tr, requeue_after Minute, allocationErr)
      else
        name ← getRandomString 8;
        match name with
        | Err err => mret (tr, no_requeue, Some err)
        | Ok _ =>
            let tr := delete_label tr WaitingForPlatformLabel in
            let taskRunID := tr_Namespace tr +:+ ":" +:+ tr_Name tr in
            tags ← mem (Read_tags (dp_additionalInstanceTags a));
            '(tags, inst) ← cloud (dp_cloudProvider a) (LaunchInstance taskRunID (dp_instanceTag a) tags);
            _ ← mem (Write_tags (dp_additionalInstanceTags a) tags);
            match inst with
            | Err err => mret (tr, no_requeue, Some err)
            | Ok _ => mret (tr, requeue_after Minute, None)
            end
        end
  end.

(** [DynamicHostPool.Allocate] *)
Definition Allocate (a : DynamicHostPool) (tr : TaskRun) (secretName : string) : mpc (TaskRun * Result * option error) :=
  pool ← buildHostPool a (dp_instanceTag a);
  match pool with
  | Err err => mret (tr, no_requeue, Some err)
  | Ok (hostPool, oldInstanceCount) =>
      if bool_decide (hosts hostPool = ∅) then start_instance a tr oldInstanceCount None
      else
        '(tr, _, allocationErr) ← HostPool.Allocate operatorNamespace hostPool tr secretName;
        match allocationErr with
        | Some err =>
            if errors_Is err ErrAllHostsFailed then start_instance a tr oldInstanceCount allocationErr
            else mret (tr, no_requeue, Some err)
        | None =>
            if String.eqb (label tr WaitingForPlatformLabel) "" then mret (tr, no_requeue, None)
            else start_instance a tr oldInstanceCount None
        end
  end.

End dynamicpool.
End DynamicHostPool.
