(* ===== verification/Platforms.v ===== *)
(** * The resolution of a platform to its configuration ([getPlatformConfig] and its
      helpers in [pkg/reconciler/taskrun/taskrun.go]) *)
From S2P Require Import Prelude GoLib GoStrings Prog Kube NetIP Config Cloud Effects Metrics Update Provision.
From S2P Require Import HostPools LocalHost Dynamics DynamicPools.

(** One element of the additional tags: [key=value], further equal signs and what follows
    them dropped; an element without one is skipped. *)
Definition add_tag (tags : smap) (tag : string) : smap :=
  match Split tag "=" with
  | k :: v :: _ => <[k := v]> tags
  | _ => tags
  end.

(** The additional instance tags of the ConfigMap. *)
Definition parse_additional_tags (data : smap) : smap :=
  match data !! AdditionalInstanceTags with
  | None => ∅
  | Some val => foldl add_tag ∅ (Split val ",")
  end.

(** [r.cloudProviders] *)
Definition cloudProviders : gmap string ProviderCtor :=
  list_to_map [("aws", CreateEc2CloudConfig_); ("ibmz", CreateIbmZCloudConfig_);
               ("ibmp", CreateIBMPowerCloudConfig_)].

(** The name of the static host that a key [host.<name>.<field>] is about. *)
Definition static_host_name (key : string) : option string :=
  if negb (HasPrefix key "host.") then None
  else
    let k := slice_from key (String.length "host.") in
    match LastIndex k "." with
    | None => None
    | Some pos => Some (slice k 0 pos)
    end.

(** [hostNames], over the keys in the order the range visits them. *)
Definition static_host_names (keys : list string) : gmap string bool :=
  foldl (λ names key, match static_host_name key with
                      | Some name => <[name := true]> names
                      | None => names
                      end) ∅ keys.

Section platforms.
Context `{K8s}.
(** [r.operatorNamespace] *)
Variable operatorNamespace : string.

(** A call of the constructor that [r.cloudProviders] has for a type: calling a nil
    function panics. *)
Definition new_provider (type platformConfigName : string) (data : smap) : mpc CloudProvider :=
  match cloudProviders !! type with
  | None => Panic "invalid memory address or nil pointer dereference"
  | Some ctor => mret {| cp_ctor := ctor; cp_platform := platformConfigName; cp_config := data;
                         cp_systemNamespace := operatorNamespace |}
  end.

(** The instance tag of the configuration, or the default one. *)
Definition instance_tag_or_default (instanceTag : string) (data : smap) : string :=
  if String.eqb instanceTag "" then sget data DefaultInstanceTag else instanceTag.

(** [buildDynamicResolver] *)
Definition buildDynamicResolver (dynamicConfig : DynamicPlatformConfig)
    (platform platformConfigName : string) (additionalInstanceTags : loc) (data : smap) : mpc (result DynamicResolver) :=
  provider ← new_provider (Type_ dynamicConfig) platformConfigName data;
  err ← RegisterPlatformMetrics platform (MaxInstances dynamicConfig);
  mret (match err with
        | Some err => Err err
        | None => Ok
            {| dr_CloudProvider := provider; dr_sshSecret := SSHSecret dynamicConfig;
               dr_platform := platform; dr_maxInstances := MaxInstances dynamicConfig;
               dr_instanceTag := instance_tag_or_default (InstanceTag dynamicConfig) data;
               dr_timeout := AllocationTimeout dynamicConfig;
               dr_checkInterval := CheckInterval dynamicConfig;
               dr_sudoCommands := SudoCommands dynamicConfig;
               dr_additionalInstanceTags := additionalInstanceTags |}
        end).

(** [buildDynamicHostPool] *)
Definition buildDynamicHostPool (poolConfig : DynamicPoolPlatformConfig)
    (platform platformConfigName : string) (additionalInstanceTags : loc) (data : smap) : mpc (result DynamicHostPool) :=
  provider ← new_provider (pool_Type poolConfig) platformConfigName data;
  err ← RegisterPlatformMetrics platform (pool_MaxInstances poolConfig);
  mret (match err with
        | Some err => Err err
        | None => Ok
            {| dp_cloudProvider := provider; dp_sshSecret := pool_SSHSecret poolConfig;
               dp_platform := platform; dp_maxInstances := pool_MaxInstances poolConfig;
               dp_concurrency := pool_Concurrency poolConfig;
               dp_maxAge := wrap64 (Minute * pool_MaxAge poolConfig);
               dp_instanceTag := instance_tag_or_default (pool_InstanceTag poolConfig) data;
               dp_additionalInstanceTags := additionalInstanceTags |}
        end).

(** The host of the pool that a static host's configuration makes. *)
Definition static_host (hostName : string) (c : StaticHostConfig) : Host :=
  {| h_Address := host_Address c; h_Name := hostName; h_User := host_User c;
     h_Concurrency := host_Concurrency c; h_Platform := host_Platform c;
     h_Secret := host_Secret c; h_StartTime := None |}.

(** The loop over the static hosts: every host is parsed, those of the platform are kept. *)
Fixpoint parse_static_hosts (data : smap) (targetPlatform : string) (ret : gmap string Host)
    (names : list string) : result (gmap string Host) :=
  match names with
  | [] => Ok ret
  | hostName :: names =>
      hostConfig ← map_err (λ err, ErrWrap ("failed to parse static host '" +:+ hostName +:+ "': ") err "")
                     (ParseStaticHostConfig data hostName);
      let ret := if String.eqb (host_Platform hostConfig) targetPlatform
                 then <[hostName := static_host hostName hostConfig]> ret else ret in
      parse_static_hosts data targetPlatform ret names
  end.

(** [platformCapacity] *)
Definition pool_capacity (hosts : gmap string Host) (keys : list string) : Z :=
  foldl (λ capacity k, match hosts !! k with
                       | Some h => wrap64 (capacity + h_Concurrency h)
                       | None => capacity
                       end) 0%Z keys.

(** The static part of [getPlatformConfig]. *)
Definition static_platform (data : smap) (targetPlatform : string) : mpc (result PlatformConfig) :=
  keys ← range data;
  names ← range (static_host_names keys);
  match parse_static_hosts data targetPlatform ∅ names with
  | Err err => mret (Err err)
  | Ok hosts =>
      order ← range hosts;
      let ret := Static {| hosts := hosts; targetPlatform := targetPlatform |} in
      _ ← mem (Set_platformConfig targetPlatform ret);
      err ← RegisterPlatformMetrics targetPlatform (pool_capacity hosts order);
      mret (match err with Some err => Err err | None => Ok ret end)
  end.

(** The dynamic part: the resolver is cached once it is built. *)
Definition dynamic_platform (data : smap) (targetPlatform : string) (tags : loc) : mpc (result PlatformConfig) :=
  match ParseDynamicPlatformConfig data targetPlatform with
  | Err err => mret (Err err)
  | Ok dynamicConfig =>
      ret ← buildDynamicResolver dynamicConfig targetPlatform (platform_config_name targetPlatform) tags data;
      match ret with
      | Err err => mret (Err err)
      | Ok ret =>
          _ ← mem (Set_platformConfig targetPlatform (Dynamic ret));
          mret (Ok (Dynamic ret))
      end
  end.

(** The dynamic-pool part. *)
Definition dynamic_pool_platform (data : smap) (targetPlatform : string) (tags : loc) : mpc (result PlatformConfig) :=
  match ParseDynamicPoolPlatformConfig data targetPlatform with
  | Err err => mret (Err err)
  | Ok poolConfig =>
      ret ← buildDynamicHostPool poolConfig targetPlatform (platform_config_name targetPlatform) tags data;
      match ret with
      | Err err => mret (Err err)
      | Ok ret =>
          _ ← mem (Set_platformConfig targetPlatform (DynamicPool ret));
          mret (Ok (DynamicPool ret))
      end
  end.

(** The resolution order: local, dynamic, dynamic pool, static. *)
Definition resolve_platform (data : smap) (targetPlatform : string) (tags : loc) : mpc (result PlatformConfig) :=
  match ParsePlatformList (sget data LocalPlatforms) PlatformTypeLocal with
  | Err err => mret (Err (ErrWrap "could not parse local platforms: " err ""))
  | Ok localPlatforms =>
      if bool_decide (targetPlatform ∈ localPlatforms) then mret (Ok Local) else
      match ParsePlatformList (sget data DynamicPlatforms) PlatformTypeDynamic with
      | Err err => mret (Err (ErrWrap "could not parse dynamic platforms: " err ""))
      | Ok dynamicPlatforms =>
          if bool_decide (targetPlatform ∈ dynamicPlatforms) then dynamic_platform data targetPlatform tags else
          match ParsePlatformList (sget data DynamicPoolPlatforms) PlatformTypeDynamicPool with
          | Err err => mret (Err (ErrWrap "could not parse dynamic pool platforms: " err ""))
          | Ok dynamicPoolPlatforms =>
              if bool_decide (targetPlatform ∈ dynamicPoolPlatforms)
              then dynamic_pool_platform data targetPlatform tags
              else static_platform data targetPlatform
          end
      end
  end.

(** The cache: emptied when the ConfigMap has changed. *)
Definition refresh_cache (resourceVersion : string) : mpc unit :=
  v ← mem Get_configMapResourceVersion;
  if negb (String.eqb v resourceVersion) then
    _ ← mem (Set_configMapResourceVersion resourceVersion);
    mem Clear_platformConfig
  else mret tt.

(** [getPlatformConfig] *)
Definition getPlatformConfig (targetPlatform targetNamespace : string) : mpc (result PlatformConfig) :=
  cm ← client (Get_ConfigMap (Key operatorNamespace HostConfig));
  match cm with
  | Err err => mret (Err err)
  | Ok cm =>
      _ ← refresh_cache (ResourceVersion (cm_meta cm));
      existing ← mem (Get_platformConfig targetPlatform);
      match existing with
      | Some c => mret (Ok c)
      | None =>
          tags ← mem (New_tags (parse_additional_tags (cm_Data cm)));
          resolve_platform (cm_Data cm) targetPlatform tags
      end
  end.

(** ** The [PlatformConfig] interface *)

Context `{Retry}.

(** [hosts.Allocate(r, ctx, tr, secretName)] *)
Definition Allocate (c : PlatformConfig) (tr : TaskRun) (secretName : string) : mpc (TaskRun * Result * option error) :=
  match c with
  | Local => LocalHost.Allocate tr secretName
  | Dynamic r => DynamicResolver.Allocate operatorNamespace r tr secretName
  | DynamicPool a => DynamicHostPool.Allocate operatorNamespace a tr secretName
  | Static hp => HostPool.Allocate operatorNamespace hp tr secretName
  end.

(** [platformConfig.Deallocate(r, ctx, tr, secretName, assignedHost)]: the TaskRun as it
    is left, and the error. *)
Definition Deallocate (c : PlatformConfig) (tr : TaskRun) (secretName selectedHost : string) : mpc (TaskRun * option error) :=
  match c with
  | Local => err ← LocalHost.Deallocate tr secretName selectedHost; mret (tr, err)
  | Dynamic r => DynamicResolver.Deallocate r tr secretName selectedHost
  | DynamicPool a => err ← DynamicHostPool.Deallocate operatorNamespace a tr secretName selectedHost; mret (tr, err)
  | Static hp => err ← HostPool.Deallocate operatorNamespace hp tr secretName selectedHost; mret (tr, err)
  end.

End platforms.
