(* ===== verification/Reconciler.v ===== *)
(** * The TaskRun reconciler (the handlers of [pkg/reconciler/taskrun/taskrun.go]) *)
From S2P Require Import Prelude GoLib GoStrings Prog Kube NetIP Config Cloud Effects Metrics Update Provision.
From S2P Require Import Platforms.

(** [tr.Status.GetCondition(apis.ConditionSucceeded).IsTrue()] *)
Definition succeeded (tr : TaskRun) : bool :=
  match Succeeded (tr_Status tr) with Some ConditionTrue => true | _ => false end.

(** [time.Since(t)]: a duration saturates at the ends of the 64-bit range. *)
Definition Since (now t : Z) : Z := Z.max min_int64 (Z.min max_int64 (now - t)).

(** The message of a provision task's event. *)
Definition provision_message (assigned userNamespace userTaskName outcome : string) : string :=
  "provision task for host " +:+ assigned +:+ " for user task " +:+ userNamespace +:+ "/" +:+ userTaskName +:+ " " +:+ outcome.

(** The hosts that have failed for a task, with one more: an annotation that is empty or
    starts with a comma is dropped. *)
Definition add_failed_host (failedHosts assigned : string) : string :=
  let failed := match Split failedHosts "," with
                | "" :: _ => []
                | failed => failed
                end in
  Join (failed ++ [assigned]) ",".

(** The user's task after its provisioning failed: the host is recorded as failed, and
    the task is unassigned. *)
Definition unassign_failed_host (userTr : TaskRun) (assigned : string) : TaskRun :=
  let annotations := default ∅ (tr_Annotations userTr) in
  let failed := add_failed_host (sget annotations FailedHosts) assigned in
  delete_label (with_annotations userTr (Some (<[FailedHosts := failed]> annotations))) AssignedHost.

(** The oldest of the tasks: the first among those created first. *)
Definition older (oldest : option TaskRun) (tr : TaskRun) : option TaskRun :=
  match oldest with
  | None => Some tr
  | Some o => if (CreationTimestamp (tr_meta tr) <? CreationTimestamp (tr_meta o))%Z then Some tr else Some o
  end.
Definition oldest_of (trs : list TaskRun) : option TaskRun := foldl older None trs.

Section reconciler.
Context `{K8s} `{Retry}.
(** [r.operatorNamespace] *)
Variable operatorNamespace : string.

(** ** The controller's own tasks *)

(** [handleCleanTask] *)
Definition handleCleanTask (tr : TaskRun) : mpc (Result * option error) :=
  if negb (time_IsZero (DeletionTimestamp (tr_meta tr))) then mret (no_requeue, None) else
  match CompletionTime (tr_Status tr) with
  | None => mret (no_requeue, None)
  | Some completion =>
      let success := succeeded tr in
      _ ← (if negb success && negb (String.eqb (label tr TargetPlatformLabel) "")
           then HandleMetrics (label tr TargetPlatformLabel) (inc CleanupFailures)
           else mret tt);
      expired ← (if success then mret true else t ← now; mret (completion + Hour <? t)%Z);
      if (expired : bool) then
        r ← client (Delete_TaskRun tr);
        mret (no_requeue, match r with Ok _ => None | Err err => Some err end)
      else mret (requeue_after Hour, None)
  end.

(** A provision task that failed: record the host as failed and unassign the user's
    task, which makes it try again. The error makes the reconcile return. *)
Definition provision_failed (tr : TaskRun) (assigned targetPlatform userNamespace userTaskName : string) : mpc (option error) :=
  _ ← HandleMetrics targetPlatform (inc ProvisionFailures);
  _ ← recordEvent tr "Error" "ProvisioningFailed" (provision_message assigned userNamespace userTaskName "failed");
  if String.eqb assigned "" then mret None
  else
    userTr ← client (Get_TaskRun (Key userNamespace userTaskName));
    match userTr with
    | Err _ => mret None
    | Ok userTr =>
        '(_, err) ← UpdateTaskRunWithRetry (unassign_failed_host userTr assigned);
        mret err
    end.

(** A provision task must have made the secret: otherwise the user's task gets an error
    secret, if it still exists. *)
Definition verify_secret (targetPlatform secretName userNamespace userTaskName : string) : mpc (option error) :=
  secret ← client (Get_Secret (Key userNamespace secretName));
  match secret with
  | Ok _ => mret None
  | Err err =>
      if IsNotFound err then
        userTr ← client (Get_TaskRun (Key userNamespace userTaskName));
        match userTr with
        | Err err => mret (if IsNotFound err then None else Some err)
        | Ok userTr =>
            '(_, err) ← createErrorSecret userTr targetPlatform secretName "provision task failed to create a secret";
            mret err
        end
      else mret (Some err)
  end.

(** A pod of the user's task with the host's annotation. *)
Definition bumped_pod (pod : Pod) (assigned : string) : Pod :=
  let m := pod_meta pod in
  {| pod_meta := meta_with_annotations m (Some (<[AssignedHost := assigned]> (default ∅ (Annotations m)))) |}.

(** Annotate the pods of the user's task, which makes their kubelet look for the secret. *)
Definition bump_pods (assigned userNamespace userTaskName : string) : mpc unit :=
  pods ← client (List_Pods (InNamespace userNamespace));
  match pods with
  | Err _ => mret tt
  | Ok pods =>
      foldM (λ _ pod,
        if bool_decide (userTaskName ∈ OwnerReferences (pod_meta pod)) then
          _ ← client (Update_Pod (bumped_pod pod assigned)); mret tt
        else mret tt) tt pods
  end.

(** A provision task that succeeded. *)
Definition provision_succeeded (tr : TaskRun) (secretName assigned targetPlatform userNamespace userTaskName : string) : mpc (option error) :=
  _ ← recordEvent tr "Normal" "Provisioned" (provision_message assigned userNamespace userTaskName "succeeded");
  err ← verify_secret targetPlatform secretName userNamespace userTaskName;
  match err with
  | Some err => mret (Some err)
  | None => _ ← bump_pods assigned userNamespace userTaskName; mret None
  end.

(** A provision task that was processed before: a failed one is kept for an hour. *)
Definition retire_provision_task (tr : TaskRun) (completion : Z) : mpc (Result * option error) :=
  expired ← (if succeeded tr then mret true else t ← now; mret (completion + Hour <? t)%Z);
  if (expired : bool) then
    r ← client (Delete_TaskRun tr);
    mret (no_requeue, match r with Ok _ => None | Err err => Some err end)
  else mret (requeue_after Hour, None).

(** The name of the secret: the first parameter of that name. *)
Definition secret_param (tr : TaskRun) : string :=
  match find_first (λ p, String.eqb (p_Name p) "SECRET_NAME") (default [] (Params (tr_Spec tr))) with
  | Some p => p_StringVal p
  | None => ""
  end.

(** [handleProvisionTask] *)
Definition handleProvisionTask (tr : TaskRun) : mpc (Result * option error) :=
  if negb (time_IsZero (DeletionTimestamp (tr_meta tr))) then mret (no_requeue, None) else
  match CompletionTime (tr_Status tr) with
  | None => mret (no_requeue, None)
  | Some completion =>
      let tr := with_annotations tr (make_if_nil (tr_Annotations tr)) in
      if String.eqb (annotation tr ProvisionTaskProcessed) "true" then retire_provision_task tr completion
      else
        tr ← set_annotation tr ProvisionTaskProcessed "true";
        let secretName := secret_param tr in
        let userNamespace := label tr UserTaskNamespace in
        let userTaskName := label tr UserTaskName in
        let assigned := label tr AssignedHost in
        let targetPlatform := label tr TargetPlatformLabel in
        err ← (if negb (succeeded tr)
               then provision_failed tr assigned targetPlatform userNamespace userTaskName
               else provision_succeeded tr secretName assigned targetPlatform userNamespace userTaskName);
        match err with
        | Some err => mret (no_requeue, Some err)
        | None =>
            '(_, err) ← UpdateTaskRunWithRetry tr;
            match err with
            | Some err => mret (no_requeue, Some err)
            | None =>
                _ ← HandleMetrics targetPlatform (inc ProvisionSuccesses);
                mret (no_requeue, None)
            end
        end
  end.

(** ** User tasks *)

(** [handleWaitingTasks]: mark the oldest task that waits for the platform. *)
Definition handleWaitingTasks (platform : string) : mpc (Result * option error) :=
  taskList ← client (List_TaskRuns (MatchingLabels {[WaitingForPlatformLabel := platformLabel platform]}));
  match taskList with
  | Err err => mret (no_requeue, Some (ErrWrap "failed to list waiting tasks: " err ""))
  | Ok items =>
      match oldest_of items with
      | None => mret (no_requeue, None)
      | Some oldest =>
          oldest ← set_label oldest FinishedWaitingLabel "true";
          r ← client (Update_TaskRun oldest);
          mret (no_requeue, match r with
            | Ok _ => None
            | Err err => Some (ErrWrap ("failed to update waiting task " +:+ tr_Namespace oldest +:+ "/" +:+ tr_Name oldest +:+ ": ") err "")
            end)
      end
  end.

(** The secret of a finished task: it is deleted, whether that succeeds or not; only an
    unexpected answer of the get is an error. *)
Definition cleanup_secret (tr : TaskRun) (secretName : string) : mpc (option error) :=
  secret ← client (Get_Secret (Key (tr_Namespace tr) secretName));
  match secret with
  | Err err => mret (if IsNotFound err then None else Some (ErrWrap "error checking secret: " err ""))
  | Ok secret => _ ← client (Delete_Secret secret); mret None
  end.

(** The part of [handleHostAssigned] after the platform's configuration is known. *)
Definition release_host (platformConfig : PlatformConfig) (tr : TaskRun) (secretName platform assignedHost : string) : mpc (Result * option error) :=
  '(tr, _) ← Deallocate operatorNamespace platformConfig tr secretName assignedHost;
  let tr := with_finalizers tr (RemoveFinalizer (tr_Finalizers tr) PipelineFinalizer) in
  let tr := delete_label tr AssignedHost in
  '(tr, err) ← UpdateTaskRunWithRetry tr;
  match err with
  | Some err => mret (no_requeue, Some (ErrWrap "failed to update TaskRun: " err ""))
  | None =>
      t ← now;
      let taskRunDuration := Since t (CreationTimestamp (tr_meta tr)) in
      _ ← HandleMetrics platform (λ p, metric (Observe p TaskRunTime (InNanoseconds taskRunDuration)));
      err ← cleanup_secret tr secretName;
      match err with
      | Some err => mret (no_requeue, Some err)
      | None =>
          '(result, err) ← handleWaitingTasks platform;
          match err with
          | Some _ => mret (no_requeue, None)
          | None => mret (result, None)
          end
      end
  end.

(** [tr.Status.CompletionTime != nil || tr.GetDeletionTimestamp() != nil] *)
Definition finished (tr : TaskRun) : bool :=
  bool_decide (CompletionTime (tr_Status tr) ≠ None ∨ DeletionTimestamp (tr_meta tr) ≠ None).

(** [handleHostAssigned]. Its test for a nil configuration is dead code: with a nil
    error, [getPlatformConfig] returns a configuration. *)
Definition handleHostAssigned (tr : TaskRun) (secretName : string) : mpc (Result * option error) :=
  let assignedHost := label tr AssignedHost in
  if negb (finished tr) then mret (no_requeue, None) else
  match ExtractPlatform tr with
  | Err err => mret (no_requeue, Some (ErrWrap "failed to extract platform: " err ""))
  | Ok platform =>
      platformConfig ← getPlatformConfig operatorNamespace platform (tr_Namespace tr);
      match platformConfig with
      | Err err => mret (no_requeue, Some (ErrWrap "failed to read configuration: " err ""))
      | Ok platformConfig => release_host platformConfig tr secretName platform assignedHost
      end
  end.

(** [time.Now().Unix()], or the start time of an allocation that took more than one call. *)
Definition allocation_start (tr : TaskRun) : mpc Z :=
  t ← now;
  mret (let alternateStartStr := annotation tr AllocationStartTimeAnnotation in
        if String.eqb alternateStartStr "" then Unix t
        else match ParseInt alternateStartStr 64 with
             | Ok alternateStart => alternateStart
             | Err _ => Unix t
             end).

(** The part of [handleHostAllocation] after the platform's configuration is known. *)
Definition allocate_host (hosts : PlatformConfig) (tr : TaskRun) (secretName targetPlatform : string) : mpc (TaskRun * Result * option error) :=
  let tr := with_annotations tr (make_if_nil (tr_Annotations tr)) in
  let wasWaiting := negb (String.eqb (label tr WaitingForPlatformLabel) "") in
  startTime ← allocation_start tr;
  '(tr, ret, err) ← Allocate operatorNamespace hosts tr secretName;
  let isWaiting := negb (String.eqb (label tr WaitingForPlatformLabel) "") in
  match err with
  | Some err =>
      _ ← HandleMetrics targetPlatform (inc HostAllocationFailures);
      mret (tr, ret, Some err)
  | None =>
      _ ← (if negb (String.eqb (label tr AssignedHost) "") then
             HandleMetrics targetPlatform (λ p, t ← now;
               metric (Observe p AllocationTime (InSeconds (wrap64 (Unix t - startTime)))))
           else mret tt);
      _ ← (if wasWaiting && negb isWaiting then
             HandleMetrics targetPlatform (λ p, t ← now;
               metric (Observe p WaitTime (InSeconds (wrap64 (Unix t - Unix (CreationTimestamp (tr_meta tr)))))))
           else mret tt);
      mret (tr, ret, None)
  end.

(** [handleHostAllocation]: an existing secret ends the allocation. *)
Definition handleHostAllocation (tr : TaskRun) (secretName targetPlatform : string) : mpc (TaskRun * Result * option error) :=
  secret ← client (Get_Secret (Key (tr_Namespace tr) secretName));
  match secret with
  | Ok _ => mret (tr, no_requeue, None)
  | Err err =>
      if negb (IsNotFound err) then mret (tr, no_requeue, Some err)
      else
        hosts ← getPlatformConfig operatorNamespace targetPlatform (tr_Namespace tr);
        match hosts with
        | Err err =>
            _ ← HandleMetrics targetPlatform (inc HostAllocationFailures);
            '(tr, err) ← createErrorSecret tr targetPlatform secretName ("failed to read host config: " +:+ Error err);
            mret (tr, no_requeue, err)
        | Ok hosts => allocate_host hosts tr secretName targetPlatform
        end
  end.

(** The part of [handleUserTask] that asks for a host for the platform of the task. *)
Definition request_host (tr : TaskRun) (secretName targetPlatform : string) : mpc (Result * option error) :=
  let tr := with_labels tr (make_if_nil (tr_Labels tr)) in
  tr ← (if String.eqb (label tr TargetPlatformLabel) ""
        then set_label tr TargetPlatformLabel (platformLabel targetPlatform)
        else mret tr);
  '(tr, res, err) ← handleHostAllocation tr secretName targetPlatform;
  _ ← (match err with
       | Some err' =>
           if IsConflict err' then mret tt
           else
             _ ← HandleMetrics targetPlatform (inc HostAllocationFailures);
             _ ← createErrorSecret tr targetPlatform secretName ("Error allocating host: " +:+ Error err');
             mret tt
       | None => mret tt
       end);
  mret (res, err).

(** [handleUserTask] *)
Definition handleUserTask (tr : TaskRun) : mpc (Result * option error) :=
  let secretName := SecretPrefix +:+ tr_Name tr in
  if negb (String.eqb (label tr AssignedHost) "") then handleHostAssigned tr secretName
  else if finished tr then
    if ContainsFinalizer (tr_Finalizers tr) PipelineFinalizer then handleHostAssigned tr secretName
    else mret (no_requeue, None)
  else
    match ValidatePlatform tr with
    | Err err =>
        _ ← createErrorSecret tr "[UNKNOWN]" secretName (Error err);
        mret (no_requeue, None)
    | Ok targetPlatform => request_host tr secretName targetPlatform
    end.

(** The checks that single out the user's tasks that want a host: parameters, volumes, a
    volume with a multi-platform secret and a platform parameter. *)
Definition wants_host (tr : TaskRun) : bool :=
  match Params (tr_Spec tr), st_TaskSpec (tr_Status tr) with
  | Some params, Some spec =>
      match Volumes spec with
      | Some volumes =>
          existsb (λ v, match v_Secret v with Some s => HasPrefix s SecretPrefix | None => false end) volumes &&
          existsb (λ p, String.eqb (p_Name p) PlatformParam) params
      | None => false
      end
  | _, _ => false
  end.

(** [handleTaskRunReceived] *)
Definition handleTaskRunReceived (tr : TaskRun) : mpc (Result * option error) :=
  let taskType := label tr TaskTypeLabel in
  if negb (String.eqb taskType "") then
    if String.eqb taskType TaskTypeClean then handleCleanTask tr
    else if String.eqb taskType TaskTypeProvision then handleProvisionTask tr
    else mret (no_requeue, None)
  else if wants_host tr then handleUserTask tr
  else mret (no_requeue, None).

(** [Reconcile]: a TaskRun that is gone is no error. *)
Definition Reconcile (request : NamespacedName) : mpc (Result * option error) :=
  tr ← apiReader (Get_TaskRun request);
  match tr with
  | Err err =>
      mret (no_requeue, if IsNotFound err then None
                        else Some (ErrWrap "failed to get a TaskRun: " err ""))
  | Ok tr => handleTaskRunReceived tr
  end.

End reconciler.
