(* ===== verification/HostUpdate.v ===== *)
(** * The periodic update of the static hosts ([pkg/reconciler/taskrun/updates.go]) *)
From S2P Require Import Prelude GoLib GoStrings Prog Kube Cloud Effects Platforms.

(** The hosts of the ConfigMap, and the concurrency of those that set one. *)
Record update_hosts := { u_hosts : gmap string Host; hostsConcurrency : smap }.
Definition no_update_hosts : update_hosts := {| u_hosts := ∅; hostsConcurrency := ∅ |}.

(** [&Host{Name: name}] *)
Definition fresh_host (name : string) : Host :=
  {| h_Address := ""; h_Name := name; h_User := ""; h_Concurrency := 0; h_Platform := "";
     h_Secret := ""; h_StartTime := None |}.

(** The [switch] on the field's name, but for the concurrency. *)
Definition set_host_field (h : Host) (key v : string) : Host :=
  if String.eqb key "address" then
    {| h_Address := v; h_Name := h_Name h; h_User := h_User h; h_Concurrency := h_Concurrency h;
       h_Platform := h_Platform h; h_Secret := h_Secret h; h_StartTime := h_StartTime h |}
  else if String.eqb key "user" then
    {| h_Address := h_Address h; h_Name := h_Name h; h_User := v; h_Concurrency := h_Concurrency h;
       h_Platform := h_Platform h; h_Secret := h_Secret h; h_StartTime := h_StartTime h |}
  else if String.eqb key "platform" then
    {| h_Address := h_Address h; h_Name := h_Name h; h_User := h_User h; h_Concurrency := h_Concurrency h;
       h_Platform := v; h_Secret := h_Secret h; h_StartTime := h_StartTime h |}
  else if String.eqb key "secret" then
    {| h_Address := h_Address h; h_Name := h_Name h; h_User := h_User h; h_Concurrency := h_Concurrency h;
       h_Platform := h_Platform h; h_Secret := v; h_StartTime := h_StartTime h |}
  else h.

(** The name and the field of a key [host.<name>.<field>]. *)
Definition host_key (k : string) : option (string * string) :=
  if negb (HasPrefix k "host.") then None
  else
    let k := slice_from k (String.length "host.") in
    match LastIndex k "." with
    | None => None
    | Some pos => Some (slice k 0 pos, slice_from k (pos + 1))
    end.

(** The body of the loop over the ConfigMap. *)
Definition visit_key (data : smap) (acc : update_hosts) (k : string) : update_hosts :=
  match host_key k with
  | None => acc
  | Some (name, key) =>
      let v := sget data k in
      let host := default (fresh_host name) (u_hosts acc !! name) in
      {| u_hosts := <[name := set_host_field host key v]> (u_hosts acc);
         hostsConcurrency :=
           if String.eqb key "concurrency" && negb (String.eqb v "")
           then <[name := v]> (hostsConcurrency acc) else hostsConcurrency acc |}
  end.

(** The update task of a host. *)
Definition update_task (operatorNamespace : string) (hostName : string) (host : Host) (concurrency : string) : TaskRun :=
  {| tr_meta := {| Name := ""; Namespace := operatorNamespace; GenerateName := "update-task";
                   Labels := Some (list_to_map [(TaskTypeLabel, TaskTypeUpdate); (AssignedHost, hostName)]);
                   Annotations := None; Finalizers := []; OwnerReferences := [];
                   ResourceVersion := ""; CreationTimestamp := zero_time; DeletionTimestamp := None |};
     tr_Spec := {| Params := Some
                     [{| p_Name := "HOST"; p_StringVal := h_Address host |};
                      {| p_Name := "USER"; p_StringVal := h_User host |};
                      {| p_Name := "PLATFORM"; p_StringVal := h_Platform host |};
                      {| p_Name := "CONCURRENCY"; p_StringVal := concurrency |}];
                   TaskRefName := "update-host";
                   Workspaces := [{| w_Name := "ssh"; w_SecretName := h_Secret host |}];
                   s_ComputeResources := Some
                     {| c_Requests := list_to_map [("cpu", "100m"); ("memory", "256Mi")];
                        c_Limits := list_to_map [("cpu", "100m"); ("memory", "256Mi")] |};
                   ServiceAccountName := TaskRunnerServiceAccountName;
                   Retries := 0 |};
     tr_Status := zero_status |}.

(** A goroutine that waits for its timer and then creates the task. *)
Record scheduled_update := { su_delay : Z; su_task : TaskRun }.

(** The loop over the hosts, which starts a goroutine for each. *)
Fixpoint schedule (operatorNamespace : string) (acc : update_hosts) (delay : Z) (names : list string) : list scheduled_update :=
  match names with
  | [] => []
  | name :: names =>
      let host := default (fresh_host name) (u_hosts acc !! name) in
      {| su_delay := wrap64 (wrap64 (Minute * delay) * 10);
         su_task := update_task operatorNamespace name host (sget (hostsConcurrency acc) (h_Name host)) |}
      :: schedule operatorNamespace acc (wrap64 (delay + 1)) names
  end.

(** [UpdateHostPools]: the goroutines it starts. *)
Definition UpdateHostPools (operatorNamespace : string) : mpc (list scheduled_update) :=
  cm ← client (Get_ConfigMap (Key operatorNamespace HostConfig));
  match cm with
  | Err _ => mret []
  | Ok cm =>
      keys ← range (cm_Data cm);
      let acc := foldl (visit_key (cm_Data cm)) no_update_hosts keys in
      names ← range (u_hosts acc);
      mret (schedule operatorNamespace acc 0 names)
  end.

(** What a goroutine does when its timer fires. *)
Definition fire (u : scheduled_update) : mpc (option error) :=
  r ← client (Create_TaskRun (su_task u));
  mret (match r with Ok _ => None | Err err => Some err end).
