(* ===== verification/RetryClient.v ===== *)
(** * The retrying Kubernetes client ([pkg/util])

    The [client.Client] interface as a record of operations, over types of objects and
    options it does not look into. An operation that fills in the object it is given
    answers with it. *)
From S2P Require Import Prelude GoLib Prog Kube Cloud Effects.

Section interface.
Context (E : Type → Type) (Object ObjectList Key Opt Patch Kind Mapper Scheme : Type).

Record SubResourceWriter := {
  sw_Create : Object → Object → list Opt → prog E (result (Object * Object));
  sw_Patch : Object → Patch → list Opt → prog E (result Object);
  sw_Update : Object → list Opt → prog E (result Object)
}.

Record SubResourceClient := {
  sc_Create : Object → Object → list Opt → prog E (result (Object * Object));
  sc_Get : Object → Object → list Opt → prog E (result (Object * Object));
  sc_Patch : Object → Patch → list Opt → prog E (result Object);
  sc_Update : Object → list Opt → prog E (result Object)
}.

Record Client_ := {
  cl_Create : Object → list Opt → prog E (result Object);
  cl_Delete : Object → list Opt → prog E (result unit);
  cl_DeleteAllOf : Object → list Opt → prog E (result unit);
  cl_Get : Key → Object → list Opt → prog E (result Object);
  cl_GroupVersionKindFor : Object → prog E (result Kind);
  cl_IsObjectNamespaced : Object → prog E (result bool);
  cl_List : ObjectList → list Opt → prog E (result ObjectList);
  cl_Patch : Object → Patch → list Opt → prog E (result Object);
  cl_RESTMapper : Mapper;
  cl_Scheme : Scheme;
  cl_Status : SubResourceWriter;
  cl_SubResource : string → SubResourceClient;
  cl_Update : Object → list Opt → prog E (result Object)
}.

Context `{Retry}.

(** [retrySubResourceWriter] *)
Definition retrySubResourceWriter (inner : SubResourceWriter) (backoff : Backoff) : SubResourceWriter := {|
  sw_Create obj subResource opts := OnError backoff IsInternalError (sw_Create inner obj subResource opts);
  sw_Patch obj patch opts := OnError backoff IsInternalError (sw_Patch inner obj patch opts);
  sw_Update obj opts := OnError backoff IsInternalError (sw_Update inner obj opts)
|}.

(** [retrySubresourceClient] *)
Definition retrySubresourceClient (inner : SubResourceClient) (backoff : Backoff) : SubResourceClient := {|
  sc_Create obj subResource opts := OnError backoff IsInternalError (sc_Create inner obj subResource opts);
  sc_Get obj subResource opts := OnError backoff IsInternalError (sc_Get inner obj subResource opts);
  sc_Patch obj patch opts := OnError backoff IsInternalError (sc_Patch inner obj patch opts);
  sc_Update obj opts := OnError backoff IsInternalError (sc_Update inner obj opts)
|}.

(** [NewRetryClient]: the requests to the API server are retried; the operations that
    do not reach it are passed through. *)
Definition NewRetryClient (inner : Client_) (backoff : Backoff) : Client_ := {|
  cl_Create obj opts := OnError backoff IsInternalError (cl_Create inner obj opts);
  cl_Delete obj opts := OnError backoff IsInternalError (cl_Delete inner obj opts);
  cl_DeleteAllOf obj opts := OnError backoff IsInternalError (cl_DeleteAllOf inner obj opts);
  cl_Get key obj opts := OnError backoff IsInternalError (cl_Get inner key obj opts);
  cl_GroupVersionKindFor obj := cl_GroupVersionKindFor inner obj;
  cl_IsObjectNamespaced obj := cl_IsObjectNamespaced inner obj;
  cl_List list opts := OnError backoff IsInternalError (cl_List inner list opts);
  cl_Patch obj patch opts := OnError backoff IsInternalError (cl_Patch inner obj patch opts);
  cl_RESTMapper := cl_RESTMapper inner;
  cl_Scheme := cl_Scheme inner;
  cl_Status := retrySubResourceWriter (cl_Status inner) backoff;
  cl_SubResource subResource := retrySubresourceClient (cl_SubResource inner subResource) backoff;
  cl_Update obj opts := OnError backoff IsInternalError (cl_Update inner obj opts)
|}.
End interface.

Arguments sw_Create {_ _ _ _}.
Arguments sw_Patch {_ _ _ _}.
Arguments sw_Update {_ _ _ _}.
Arguments sc_Create {_ _ _ _}.
Arguments sc_Get {_ _ _ _}.
Arguments sc_Patch {_ _ _ _}.
Arguments sc_Update {_ _ _ _}.
Arguments cl_Create {_ _ _ _ _ _ _ _ _}.
Arguments cl_Delete {_ _ _ _ _ _ _ _ _}.
Arguments cl_DeleteAllOf {_ _ _ _ _ _ _ _ _}.
Arguments cl_Get {_ _ _ _ _ _ _ _ _}.
Arguments cl_GroupVersionKindFor {_ _ _ _ _ _ _ _ _}.
Arguments cl_IsObjectNamespaced {_ _ _ _ _ _ _ _ _}.
Arguments cl_List {_ _ _ _ _ _ _ _ _}.
Arguments cl_Patch {_ _ _ _ _ _ _ _ _}.
Arguments cl_RESTMapper {_ _ _ _ _ _ _ _ _}.
Arguments cl_Scheme {_ _ _ _ _ _ _ _ _}.
Arguments cl_Status {_ _ _ _ _ _ _ _ _}.
Arguments cl_SubResource {_ _ _ _ _ _ _ _ _}.
Arguments cl_Update {_ _ _ _ _ _ _ _ _}.
Arguments NewRetryClient {_ _ _ _ _ _ _ _ _ _} inner backoff.

(** ** The controller's client is a retrying one

    [newReconciler] gives the controller [NewRetryClient(mgr.GetClient(), DefaultBackoff)]:
    each request of [r.client] is a loop of requests of the manager's client. *)
Section handler.
Context `{Retry}.

(** The requests of [r.client], carried out by the manager's client. *)
Definition retry_request {X} (c : clientE X) : mpc X :=
  match c in clientE X return mpc X with
  | Get_TaskRun key => OnError DefaultBackoff IsInternalError (client (Get_TaskRun key))
  | Get_Secret key => OnError DefaultBackoff IsInternalError (client (Get_Secret key))
  | Get_ConfigMap key => OnError DefaultBackoff IsInternalError (client (Get_ConfigMap key))
  | List_TaskRuns o => OnError DefaultBackoff IsInternalError (client (List_TaskRuns o))
  | List_Pods o => OnError DefaultBackoff IsInternalError (client (List_Pods o))
  | Create_TaskRun tr => OnError DefaultBackoff IsInternalError (client (Create_TaskRun tr))
  | Create_Secret s => OnError DefaultBackoff IsInternalError (client (Create_Secret s))
  | Update_TaskRun tr => OnError DefaultBackoff IsInternalError (client (Update_TaskRun tr))
  | Update_Pod p => OnError DefaultBackoff IsInternalError (client (Update_Pod p))
  | Delete_TaskRun tr => OnError DefaultBackoff IsInternalError (client (Delete_TaskRun tr))
  | Delete_Secret s => OnError DefaultBackoff IsInternalError (client (Delete_Secret s))
  end.

Definition with_retries {X} (e : mpcE X) : mpc X :=
  match e in mpcE X return mpc X with
  | Client c => retry_request c
  | e => trigger e
  end.
End handler.
