(* ===== verification/Otp.v ===== *)
(** * The one-time-password server ([cmd/otp/otp.go])

    Each request runs on a goroutine of its own and touches the shared map between
    [mutex.Lock] and [mutex.Unlock] only: [Lock] answers with the map as the other
    requests left it, [Unlock] publishes it. The server that calls the two handlers is
    modelled in [OtpServer]. *)
From S2P Require Import Prelude GoLib GoStrings Prog.

Inductive httpE : Type → Type :=
| ReadAll : httpE (result string)                  (* io.ReadAll(request.Body) *)
| WriteHeader (code : Z) : httpE unit
| Write (data : string) : httpE (option error)     (* writer.Write: the error *)
| RandInt (max : Z) : httpE (result Z)             (* rand.Int(rand.Reader, max) *)
| Lock : httpE smap
| Unlock (globalMap : smap) : httpE unit.

Abbreviation http := (prog httpE).

Definition letters : string := "0123456789ABCDEFGHIJKLMNOPQRSTUVWXYZabcdefghijklmnopqrstuvwxyz-".

(** [letters[i]], which panics out of range. *)
Definition letter (i : Z) : http ascii :=
  if (i <? 0)%Z then Panic "index out of range" else
  match String.get (Z.to_nat i) letters with
  | Some c => mret c
  | None => Panic "index out of range"
  end.

(** [GenerateRandomString]: the loop that fills the last [n] bytes. *)
Fixpoint GenerateRandomString (n : nat) : http (result string) :=
  match n with
  | 0 => mret (Ok "")
  | S n =>
      num ← trigger (RandInt (Z.of_nat (String.length letters)));
      match num with
      | Err err => mret (Err err)
      | Ok num =>
          c ← letter num;
          rest ← GenerateRandomString n;
          mret (match rest with Err err => Err err | Ok s => Ok (String c s) end)
      end
  end.

(** [storekey.ServeHTTP] *)
Definition storekey_ServeHTTP : http unit :=
  body ← trigger ReadAll;
  match body with
  | Err _ => trigger (WriteHeader 500)
  | Ok body =>
      globalMap ← trigger Lock;
      otp ← GenerateRandomString 20;
      match otp with
      | Err _ => _ ← trigger (WriteHeader 500); trigger (Unlock globalMap)
      | Ok otp =>
          let globalMap := <[otp := body]> globalMap in
          err ← trigger (Write otp);
          match err with
          | Some _ => trigger (Unlock (delete otp globalMap))
          | None => trigger (Unlock globalMap)
          end
      end
  end.

(** [otp.ServeHTTP] *)
Definition otp_ServeHTTP : http unit :=
  body ← trigger ReadAll;
  match body with
  | Err _ => trigger (WriteHeader 500)
  | Ok token =>
      globalMap ← trigger Lock;
      let res := globalMap !! token in
      let globalMap := delete token globalMap in
      match res with
      | None => _ ← trigger (WriteHeader 400); trigger (Unlock globalMap)
      | Some res => _ ← trigger (Write res); trigger (Unlock globalMap)
      end
  end.
