(* ===== verification/OtpServer.v ===== *)
(** * The process of the one-time-password server ([cmd/otp/main.go])

    The two handlers behind Go's [http.ServeMux], and [main], which serves them over TLS.
    The mux is the standard library's: a path that is not clean is redirected, and a
    pattern without a trailing slash matches a path of its own segments. *)
From S2P Require Import Prelude GoLib GoStrings Prog Kube Otp.

Module OtpServer.

(** ** The mux *)

(** The handlers that [main] makes. *)
Inductive Handler := Store | Otp.

#[global] Instance Handler_eq_dec : EqDecision Handler.
Proof. solve_decision. Defined.

(** [mux.Handle]: the patterns, each of one segment, with their handlers. *)
Definition patterns : list (string * Handler) := [("store-key", Store); ("otp", Otp)].

(** The part of an [http.Request] that the mux looks at: [EscapedPath] is
    [r.URL.EscapedPath()]. *)
Record Request := {
  Method : string;
  RequestURI : string;
  EscapedPath : string
}.

Definition unhex (c : ascii) : option N :=
  let n := N_of_ascii c in
  if is_digit c then Some (n - 48)%N else
  if (97 <=? n)%N && (n <=? 102)%N then Some (n - 87)%N else
  if (65 <=? n)%N && (n <=? 70)%N then Some (n - 55)%N else None.

(** [url.PathUnescape] *)
Fixpoint PathUnescape (s : string) : option string :=
  match s with
  | EmptyString => Some EmptyString
  | String "%" s =>
      match s with
      | String a (String b s) =>
          match unhex a, unhex b with
          | Some x, Some y => String (ascii_of_N (16 * x + y)) <$> PathUnescape s
          | _, _ => None
          end
      | _ => None
      end
  | String c s => String c <$> PathUnescape s
  end.
Definition pathUnescape (s : string) : string := default s (PathUnescape s).

(** [path.Clean] of a path that starts with a slash. *)
Definition clean_element (stack : list string) (elem : string) : list string :=
  if decide (elem = "" ∨ elem = ".") then stack else
  if decide (elem = "..") then tail stack else elem :: stack.
Definition Clean (path : string) : string :=
  String "/" (Join (rev (foldl clean_element [] (Split path "/"))) "/").

Definition ends_in_slash (s : string) : bool :=
  match String.get (String.length s - 1) s with Some c => Ascii.eqb c "/" | None => false end.

Definition cleanPath (p : string) : string :=
  if decide (p = "") then "/" else
  let p := if HasPrefix p "/" then p else String "/" p in
  let np := Clean p in
  if ends_in_slash p && negb (String.eqb np "/") then np +:+ "/" else np.

Definition firstSegment (path : string) : string * string :=
  if String.eqb path "/" then ("/", "") else
  let path := slice_from path 1 in
  let i := default (String.length path) (Index path "/") in
  (pathUnescape (slice path 0 i), slice_from path i).

(** The tree of the two patterns: a root whose children are leaves. *)
Definition matchPath (path : string) : option Handler :=
  if String.eqb path "" then None else
  let (seg, rest) := firstSegment path in
  if String.eqb rest "" then snd <$> find_first (λ p, String.eqb (fst p) seg) patterns else None.

(** [mux.findHandler]. No pattern ends in a slash or names a method: nothing is redirected
    to a path with a slash, and no method is refused. *)
Inductive route := Handle (h : Handler) | Redirect (path : string) | NotFound.
Definition findHandler (r : Request) : route :=
  let matched path := match matchPath path with Some h => Handle h | None => NotFound end in
  if String.eqb (Method r) "CONNECT" then matched (EscapedPath r) else
  let path := cleanPath (EscapedPath r) in
  if String.eqb path (EscapedPath r) then matched path else Redirect path.

(** ** Serving requests *)

Definition run_handler (h : Handler) : http unit :=
  match h with Store => storekey_ServeHTTP | Otp => otp_ServeHTTP end.

(** The server's handler, [mux.ServeHTTP] but for [OPTIONS *]; the headers and the body of
    an answer that is not a handler's are left out. *)
Definition serve (r : Request) : http unit :=
  if String.eqb (RequestURI r) "*" then
    if String.eqb (Method r) "OPTIONS" then mret tt else trigger (WriteHeader 400)
  else match findHandler r with
  | Handle h => run_handler h
  | Redirect _ => trigger (WriteHeader 301)
  | NotFound => trigger (WriteHeader 404)
  end.

(** Requests in the order they take the lock. *)
Definition serve_all (rs : list Request) : http unit := foldM (λ _ r, serve r) tt rs.

(** ** The process *)

Definition CertFilePath := "/tls/tls.crt".
Definition KeyFilePath := "/tls/tls.key".

Record Certificate := { cert_of : string; key_of : string }.
Inductive TLSVersion := VersionTLS12 | VersionTLS13.

(** [http.Server], whose handler is the mux. *)
Record Server := {
  Addr : string;
  MinVersion : TLSVersion;
  ReadHeaderTimeout : Z
}.

(** [log.Fatal] exits: nothing comes back from it. *)
Inductive serverE : Type → Type :=
| LoadX509KeyPair (certFile keyFile : string) : serverE (result Certificate)
| ListenAndServeTLS (s : Server) (certFile keyFile : string) : serverE (option error)
| Close : serverE (option error)
| Fatal (err : option error) : serverE Empty_set.

(** [tls.Config.GetCertificate]: the certificate of every handshake. *)
Definition GetCertificate : prog serverE (result Certificate) :=
  cert ← trigger (LoadX509KeyPair CertFilePath KeyFilePath);
  mret (map_err (λ err, ErrWrap "could not load TLS certs: " err "") cert).

(** [main], whose deferred call is made when its body is done. *)
Definition main : prog serverE unit :=
  _ ← (err ← trigger (ListenAndServeTLS
               {| Addr := ":8443"; MinVersion := VersionTLS12; ReadHeaderTimeout := 3 * Second |} "" "");
       exited ← trigger (Fatal err);
       match (exited : Empty_set) return prog serverE unit with end);
  _ ← trigger Close;
  mret tt.

End OtpServer.
