(* ===== verification/Aws.v ===== *)
(** * The AWS EC2 provider ([pkg/aws])

    The provider's methods as programs over the EC2 API, the Kubernetes client, the
    network and the process environment. [handle] carries out the requests of the
    [CloudProvider] interface. *)
From S2P Require Import Prelude GoLib GoStrings Prog Kube Cloud.

Module Ec2.

(** ** base64.StdEncoding *)

Definition base64_alphabet : string := "ABCDEFGHIJKLMNOPQRSTUVWXYZabcdefghijklmnopqrstuvwxyz0123456789+/".
Definition base64_digit (n : Z) : string :=
  match String.get (Z.to_nat n) base64_alphabet with
  | Some c => String c EmptyString
  | None => ""
  end.
Definition byte (c : ascii) : Z := Z.of_nat (nat_of_ascii c).
Fixpoint EncodeToString (s : string) : string :=
  match s with
  | EmptyString => ""
  | String a EmptyString =>
      let n := Z.shiftl (byte a) 4 in
      base64_digit (Z.shiftr n 6) +:+ base64_digit (Z.land n 63) +:+ "=="
  | String a (String b EmptyString) =>
      let n := Z.shiftl (Z.lor (Z.shiftl (byte a) 8) (byte b)) 2 in
      base64_digit (Z.shiftr n 12) +:+ base64_digit (Z.land (Z.shiftr n 6) 63) +:+
      base64_digit (Z.land n 63) +:+ "="
  | String a (String b (String c s)) =>
      let n := Z.lor (Z.lor (Z.shiftl (byte a) 16) (Z.shiftl (byte b) 8)) (byte c) in
      base64_digit (Z.shiftr n 18) +:+ base64_digit (Z.land (Z.shiftr n 12) 63) +:+
      base64_digit (Z.land (Z.shiftr n 6) 63) +:+ base64_digit (Z.land n 63) +:+ EncodeToString s
  end.

(** ** The configuration *)

Definition MultiPlatformManaged := "MultiPlatformManaged".

Record AWSEc2DynamicConfig := {
  Region : string;
  Ami : string;
  InstanceType : string;
  KeyName : string;
  aws_Secret : string;
  SystemNamespace : string;
  SecurityGroup : string;
  SecurityGroupId : string;
  SubnetId : string;
  Disk : Z;
  InstanceProfileName : string;
  InstanceProfileArn : string;
  Throughput : option Z;
  Iops : option Z;
  UserData : option string;
  Tenancy : string;
  HostResourceGroupArn : string;
  LicenseConfigurationArn : string;
  StrictPublicAddress : bool;
  ProvisioningUser : string
}.

(** [strconv.ParseInt(s, 10, 32)], when the string is there and is a number. *)
Definition optional_int32 (s : string) : option Z :=
  if String.eqb s "" then None
  else match ParseInt s 32 with Ok n => Some n | Err _ => None end.

(** [CreateEc2CloudConfig] *)
Definition CreateEc2CloudConfig (platformName : string) (config : smap) (systemNamespace : string) : AWSEc2DynamicConfig :=
  let field := dynamic_field config platformName in
  {| Region := field "region";
     Ami := field "ami";
     InstanceType := field "instance-type";
     KeyName := field "key-name";
     aws_Secret := field "aws-secret";
     SystemNamespace := systemNamespace;
     SecurityGroup := field "security-group";
     SecurityGroupId := field "security-group-id";
     SubnetId := field "subnet-id";
     Disk := match ParseInt (field "disk") 32 with Ok disk => disk | Err _ => 40 end;
     InstanceProfileName := field "instance-profile-name";
     InstanceProfileArn := field "instance-profile-arn";
     Throughput := optional_int32 (field "throughput");
     Iops := optional_int32 (field "iops");
     UserData := if String.eqb (field "user-data") "" then None
                 else Some (EncodeToString (field "user-data"));
     Tenancy := field "tenancy";
     HostResourceGroupArn := field "host-resource-group-arn";
     LicenseConfigurationArn := field "license-configuration-arn";
     StrictPublicAddress := String.eqb (field "strict-public-address") "true";
     ProvisioningUser := field "provisioning-user" |}.

(** ** The EC2 API *)

Record Instance := {
  ec2_InstanceId : option string;
  ec2_InstanceType : string;
  ec2_State : option string;                (* the name of the state *)
  PublicDnsName : option string;
  PublicIpAddress : option string;
  PrivateIpAddress : option string;
  LaunchTime : option Z
}.

Record Tag := { tag_Key : string; tag_Value : string }.
Record Filter := { filter_Name : string; filter_Values : list string }.
Record Placement := { pl_Tenancy : string; pl_HostResourceGroupArn : string }.

(** [ec2.RunInstancesInput]; the settings that are always the same are not listed. *)
Record RunInstancesInput := {
  ri_KeyName : string;
  ri_ImageId : string;
  ri_InstanceType : string;
  ri_MinCount : Z;
  ri_MaxCount : Z;
  ri_SecurityGroups : list string;
  ri_SecurityGroupIds : list string;
  ri_IamInstanceProfile : option (option string * option string);   (* name, ARN *)
  ri_SubnetId : option string;
  ri_UserData : option string;
  ri_VolumeSize : Z;
  ri_Iops : option Z;
  ri_Throughput : option Z;
  ri_Placement : option Placement;
  ri_LicenseSpecifications : list string;
  ri_Tags : list Tag
}.

Record Credentials := { AccessKeyID : string; SecretAccessKey : string; SessionToken : string }.
Record SecretCredentialsProvider := { scp_Name : string; scp_Namespace : string }.

Inductive ec2E : Type → Type :=
| LoadDefaultConfig (credentials : SecretCredentialsProvider) (region : string) : ec2E (result unit)
| RunInstances (input : RunInstancesInput) : ec2E (result (list Instance))
| DescribeInstances (filters : list Filter) (ids : list string) : ec2E (result (list (list Instance)))
| TerminateInstances (ids : list string) : ec2E (result unit)
| pingIPAddress (ip : string) : ec2E (option error)
| RangeTags (keys : list string) : ec2E (list string)
| Kube_GetSecret (key : NamespacedName) : ec2E (result Secret)
| Getenv (name : string) : ec2E string.

Abbreviation ec2 := (prog ec2E).

(** ** ec2_helpers.go *)

(** [Retrieve]: credentials from the environment, or from a secret when there is a
    Kubernetes client. *)
Definition Retrieve (r : SecretCredentialsProvider) (has_client : bool) : ec2 (result Credentials) :=
  if negb has_client then
    key ← trigger (Getenv "MULTI_ARCH_ACCESS_KEY");
    secret ← trigger (Getenv "MULTI_ARCH_SECRET_KEY");
    token ← trigger (Getenv "MULTI_ARCH_SESSION_TOKEN");
    mret (Ok {| AccessKeyID := key; SecretAccessKey := secret; SessionToken := token |})
  else
    s ← trigger (Kube_GetSecret (Key (scp_Namespace r) (scp_Name r)));
    mret (match s with
          | Err err => Err (ErrWrap ("failed to retrieve the secret " +:+ scp_Namespace r +:+ "/" +:+ scp_Name r +:+ " from the Kubernetes client: ") err "")
          | Ok s => Ok {| AccessKeyID := sget (sec_Data s) "access-key-id";
                          SecretAccessKey := sget (sec_Data s) "secret-access-key";
                          SessionToken := sget (sec_Data s) "session-token" |}
          end).

(** A string that a pointer refers to, when it is not empty. *)
Definition non_empty (s : option string) : option string :=
  match s with
  | Some s => if String.eqb s "" then None else Some s
  | None => None
  end.

(** The address of an instance: its public DNS name, its public IP address, or its
    private IP address unless the address must be public. *)
Definition instance_ip (ec : AWSEc2DynamicConfig) (i : Instance) : string :=
  match non_empty (PublicDnsName i), non_empty (PublicIpAddress i), non_empty (PrivateIpAddress i) with
  | Some dns, _, _ => dns
  | None, Some ip, _ => ip
  | None, None, Some ip => if StrictPublicAddress ec then "" else ip
  | None, None, None => ""
  end.

(** [validateIPAddress] *)
Definition validateIPAddress (ec : AWSEc2DynamicConfig) (i : Instance) : ec2 (result string) :=
  let ip := instance_ip ec i in
  if String.eqb ip "" then
    mret (Err (ErrText ("instance " +:+ default "" (ec2_InstanceId i) +:+ " has no accessible IP address")))
  else
    err ← trigger (pingIPAddress ip);
    mret (match err with
          | Some err => Err (ErrWrap ("failed to resolve IP address " +:+ ip +:+ ": ") err "")
          | None => Ok ip
          end).

(** [getEC2Client], with no client injected by a test. *)
Definition getEC2Client (ec : AWSEc2DynamicConfig) : ec2 (result unit) :=
  r ← trigger (LoadDefaultConfig {| scp_Name := aws_Secret ec; scp_Namespace := SystemNamespace ec |} (Region ec));
  mret (map_err (λ err, ErrWrap "failed to create an AWS config for an EC2 client: " err "") r).

(** [configureInstance], with the additional tags in the order the range visits them. *)
Definition mac_fields_mismatch (ec : AWSEc2DynamicConfig) : bool :=
  let tenancySet := negb (String.eqb (Tenancy ec) "") in
  let hostResourceGroupSet := negb (String.eqb (HostResourceGroupArn ec) "") in
  let licenseConfigSet := negb (String.eqb (LicenseConfigurationArn ec) "") in
  (tenancySet || hostResourceGroupSet || licenseConfigSet) &&
  (negb tenancySet || negb hostResourceGroupSet || negb licenseConfigSet).

Definition mac_error : string :=
  "MacOS dedicated host configuration requires all three fields: Tenancy, HostResourceGroupArn, and LicenseConfigurationArn must be set together".

(** The tags every instance gets. *)
Definition fixed_tags (taskRunName instanceTag : string) : list Tag :=
  [{| tag_Key := MultiPlatformManaged; tag_Value := "true" |};
   {| tag_Key := cloud_InstanceTag; tag_Value := instanceTag |};
   {| tag_Key := "Name"; tag_Value := "multi-platform-builder-" +:+ taskRunName |}].

Definition set_if (s : string) : option string := if String.eqb s "" then None else Some s.

Definition configureInstance (ec : AWSEc2DynamicConfig) (taskRunName instanceTag : string)
    (additionalInstanceTags : smap) : ec2 (result RunInstancesInput) :=
  if mac_fields_mismatch ec then mret (Err (ErrText mac_error))
  else
    keys ← trigger (RangeTags (map_to_list additionalInstanceTags).*1);
    mret (Ok
      {| ri_KeyName := KeyName ec; ri_ImageId := Ami ec; ri_InstanceType := InstanceType ec;
         ri_MinCount := 1; ri_MaxCount := 1;
         ri_SecurityGroups := match set_if (SecurityGroup ec) with Some g => [g] | None => [] end;
         ri_SecurityGroupIds := match set_if (SecurityGroupId ec) with Some g => [g] | None => [] end;
         ri_IamInstanceProfile :=
           match set_if (InstanceProfileName ec), set_if (InstanceProfileArn ec) with
           | None, None => None
           | name, arn => Some (name, arn)
           end;
         ri_SubnetId := set_if (SubnetId ec);
         ri_UserData := UserData ec;
         ri_VolumeSize := Disk ec; ri_Iops := Iops ec; ri_Throughput := Throughput ec;
         ri_Placement :=
           if String.eqb (Tenancy ec) "" then None
           else Some {| pl_Tenancy := Tenancy ec; pl_HostResourceGroupArn := HostResourceGroupArn ec |};
         ri_LicenseSpecifications :=
           if String.eqb (Tenancy ec) "" then [] else [LicenseConfigurationArn ec];
         ri_Tags := fixed_tags taskRunName instanceTag ++
           ((λ k, {| tag_Key := k; tag_Value := sget additionalInstanceTags k |}) <$> keys) |}).

(** ** ec2.go *)

(** [strings.Split(taskRunID, ":")[1]], which panics without a second part. *)
Definition taskrun_name (taskRunID : string) : ec2 string :=
  match Split taskRunID ":" with
  | _ :: name :: _ => mret name
  | _ => Panic "index out of range"
  end.

Definition client_error (err : error) : error := ErrWrap "failed to create an EC2 client: " err "".

(** The part of [LaunchInstance] that has a client. *)
Definition run_instance (ec : AWSEc2DynamicConfig) (taskRunName instanceTag : string) (tags : smap) : ec2 (result string) :=
  launchInput ← configureInstance ec taskRunName instanceTag tags;
  match launchInput with
  | Err err =>
      mret (Err (if Contains (Error err) "MacOS"
                 then ErrWrap "missing configuration fields mandatory for MacOS instances: " err ""
                 else ErrWrap ("failed to configure EC2 instance for " +:+ taskRunName +:+ ": ") err ""))
  | Ok launchInput =>
      output ← trigger (RunInstances launchInput);
      match output with
      | Err err => mret (Err (ErrWrap ("failed to launch EC2 instance for " +:+ taskRunName +:+ ": ") err ""))
      | Ok (i :: _) => id ← deref (ec2_InstanceId i); mret (Ok id)
      | Ok [] => mret (Err (ErrText "no EC2 instances were created"))
      end
  end.

(** [LaunchInstance]: the tags as it leaves them, and the instance. *)
Definition LaunchInstance (ec : AWSEc2DynamicConfig) (taskRunID instanceTag : string)
    (additionalInstanceTags : smap) : ec2 (smap * result string) :=
  match ValidateTaskRunID taskRunID with
  | Some err => mret (additionalInstanceTags, Err (ErrWrap "invalid TaskRun ID: " err ""))
  | None =>
      taskRunName ← taskrun_name taskRunID;
      let tags := <[TaskRunTagKey := taskRunID]> additionalInstanceTags in
      c ← getEC2Client ec;
      match c with
      | Err err => mret (tags, Err (client_error err))
      | Ok _ => r ← run_instance ec taskRunName instanceTag tags; mret (tags, r)
      end
  end.

(** The filters that find the instances of a tag. *)
Definition tag_filters (instanceTag : string) : list Filter :=
  [{| filter_Name := "tag:" +:+ cloud_InstanceTag; filter_Values := [instanceTag] |};
   {| filter_Name := "tag:" +:+ MultiPlatformManaged; filter_Values := ["true"] |}].

(** The instances of a tag, or the error of [CountInstances] and [ListInstances]. *)
Definition describe_tagged (ec : AWSEc2DynamicConfig) (instanceTag : string) : ec2 (result (list (list Instance))) :=
  c ← getEC2Client ec;
  match c with
  | Err err => mret (Err (client_error err))
  | Ok _ =>
      out ← trigger (DescribeInstances (tag_filters instanceTag) []);
      mret (map_err (λ err, ErrWrap ("failed to retrieve EC2 instances starting with " +:+ instanceTag +:+ ": ") err "") out)
  end.

(** Whether an instance counts: it is not terminated, and of the platform's type. *)
Definition counts (ec : AWSEc2DynamicConfig) (i : Instance) : ec2 bool :=
  state ← deref (ec2_State i);
  mret (negb (String.eqb state "terminated") && String.eqb (ec2_InstanceType i) (InstanceType ec)).

(** The body of the loop of [CountInstances]; the log line dereferences the id. *)
Definition count_instance (ec : AWSEc2DynamicConfig) (count : Z) (i : Instance) : ec2 Z :=
  c ← counts ec i;
  if (c : bool) then _ ← deref (ec2_InstanceId i); mret (count + 1)%Z
  else mret count.

(** [CountInstances] *)
Definition CountInstances (ec : AWSEc2DynamicConfig) (instanceTag : string) : ec2 (result Z) :=
  out ← describe_tagged ec instanceTag;
  match out with
  | Err err => mret (Err err)
  | Ok reservations =>
      count ← foldM (foldM (count_instance ec)) 0%Z reservations;
      mret (Ok count)
  end.

(** [GetInstanceAddress]: errors that may be transient give the empty address. *)
Definition GetInstanceAddress (ec : AWSEc2DynamicConfig) (instanceID : string) : ec2 (result string) :=
  c ← getEC2Client ec;
  match c with
  | Err err => mret (Err (client_error err))
  | Ok _ =>
      out ← trigger (DescribeInstances [] [instanceID]);
      match out with
      | Ok ((i :: _) :: _) =>
          ip ← validateIPAddress ec i;
          mret (Ok (match ip with Ok ip => ip | Err _ => "" end))
      | _ => mret (Ok "")
      end
  end.

(** [TerminateInstance] *)
Definition TerminateInstance (ec : AWSEc2DynamicConfig) (instanceID : string) : ec2 (result unit) :=
  if String.eqb instanceID "" then mret (Err (ErrText "cannot terminate instance: empty instance ID"))
  else
    c ← getEC2Client ec;
    match c with
    | Err err => mret (Err (client_error err))
    | Ok _ => trigger (TerminateInstances [instanceID])
    end.

(** The body of the loop of [ListInstances]. *)
Definition list_instance (ec : AWSEc2DynamicConfig) (vms : list CloudVMInstance) (i : Instance) : ec2 (list CloudVMInstance) :=
  c ← counts ec i;
  if (c : bool) then
    ip ← validateIPAddress ec i;
    match ip with
    | Err _ => mret vms
    | Ok ip =>
        id ← deref (ec2_InstanceId i);
        t ← deref (LaunchTime i);
        mret (vms ++ [{| InstanceId := id; StartTime := t; Address := ip |}])
    end
  else mret vms.

(** [ListInstances] *)
Definition ListInstances (ec : AWSEc2DynamicConfig) (instanceTag : string) : ec2 (result (list CloudVMInstance)) :=
  out ← describe_tagged ec instanceTag;
  match out with
  | Err err => mret (Err err)
  | Ok reservations =>
      vms ← foldM (foldM (list_instance ec)) [] reservations;
      mret (Ok vms)
  end.

Definition okStates : list string := ["pending"; "running"; "shutting-down"; "terminated"; "stopping"; "stopped"].

(** [GetState] *)
Definition GetState (ec : AWSEc2DynamicConfig) (instanceId : string) : ec2 (result VMState) :=
  c ← getEC2Client ec;
  match c with
  | Err err => mret (Err (client_error err))
  | Ok _ =>
      out ← trigger (DescribeInstances [] [instanceId]);
      match out with
      | Err _ => mret (Ok UnknownState)
      | Ok ((i :: _) :: _) =>
          state ← deref (ec2_State i);
          mret (Ok (if bool_decide (state ∈ okStates) then OKState else FailedState))
      | Ok _ => mret (Ok FailedState)
      end
  end.

(** The [CloudProvider] interface, implemented by EC2. *)
Definition handle (ec : AWSEc2DynamicConfig) {X} (c : cloudE X) : ec2 X :=
  match c in cloudE X return ec2 X with
  | Cloud.LaunchInstance taskRunID instanceTag tags => LaunchInstance ec taskRunID instanceTag tags
  | Cloud.TerminateInstance instance => TerminateInstance ec instance
  | Cloud.GetInstanceAddress instance => GetInstanceAddress ec instance
  | Cloud.CountInstances instanceTag => CountInstances ec instanceTag
  | Cloud.ListInstances instanceTag => ListInstances ec instanceTag
  | Cloud.GetState instance => GetState ec instance
  end.

Example base64_vectors :
  EncodeToString "f" = "Zg==" ∧ EncodeToString "fo" = "Zm8=" ∧ EncodeToString "foobar" = "Zm9vYmFy".
Proof. repeat split; vm_compute; reflexivity. Qed.

End Ec2.
