(* ===== verification/IbmZ.v ===== *)
(** * The IBM System Z provider ([pkg/ibm/ibmz.go] and [ibmz_helpers.go])

    The provider's methods as programs over the VPC API, the Kubernetes client, the
    network and the clock. The background deletion that [TerminateInstance] starts is
    [terminate_loop], one round of it [terminate_round]. *)
From S2P Require Import Prelude GoLib GoStrings Md5 Prog Kube Cloud.

Module IbmZ.

(** ** The configuration *)

Record IBMZDynamicConfig := {
  SystemNamespace : string;
  z_Secret : string;
  Region : string;
  z_Key : string;
  z_Subnet : string;
  Vpc : string;
  ImageId : string;
  Url : string;
  Profile : string;
  Disk : Z;
  PrivateIP : bool
}.

(** [CreateIbmZCloudConfig] *)
Definition CreateIbmZCloudConfig (arch : string) (config : smap) (systemNamespace : string) : IBMZDynamicConfig :=
  let field := dynamic_field config arch in
  {| SystemNamespace := systemNamespace;
     z_Secret := field "secret";
     Region := field "region";
     z_Key := field "key";
     z_Subnet := field "subnet";
     Vpc := field "vpc";
     ImageId := field "image-id";
     Url := field "url";
     Profile := field "profile";
     Disk := match Atoi (field "disk") with Ok volumeSize => volumeSize | Err _ => 100 end;
     PrivateIP := match ParseBool (field "private-ip") with Ok b => b | Err _ => false end |}.

(** ** The VPC API *)

(** The named instance statuses of the SDK, and any other. *)
Inductive InstanceStatus :=
| StatusDeleting | StatusFailed | StatusPending | StatusRestarting | StatusStarting
| StatusStopped | StatusStopping | StatusOther (name : string).

#[global] Instance InstanceStatus_eq_dec : EqDecision InstanceStatus.
Proof. solve_decision. Defined.

Record Named := { n_ID : string; n_Name : option string }.    (* a subnet or an SSH key *)
Record VPC := { vpc_ID : string; vpc_Name : option string; vpc_ResourceGroup : string; vpc_DefaultSecurityGroup : string }.

Record VpcInstance := {
  vi_ID : option string;
  vi_Name : option string;
  vi_Status : option InstanceStatus;
  vi_LifecycleState : option string;
  vi_CreatedAt : option Z;
  vi_ResourceGroup : string;
  vi_PrimaryNetworkInterface : option (option string);   (* its ID, when there is one *)
  vi_NetworkInterfaces : list (option string)            (* the address of the primary IP *)
}.

Record FloatingIP := { fip_ID : option string; fip_Address : option string; fip_Available : bool }.

(** The parts of the instance prototype that depend on the configuration or the request. *)
Record InstancePrototype := {
  ip_Name : string;
  ip_Zone : string;
  ip_ResourceGroup : string;
  ip_VPC : string;
  ip_Profile : string;
  ip_KeyID : string;
  ip_VolumeName : string;
  ip_VolumeCapacity : Z;
  ip_UserTags : list string;
  ip_Subnet : string;
  ip_SecurityGroup : string;
  ip_Image : string
}.

Inductive vpcE : Type → Type :=
| Kube_GetSecret (key : NamespacedName) : vpcE (result Secret)
| Getenv (name : string) : vpcE string
| NewVpcV1 (url apiKey : string) : vpcE (result unit)
| ListSubnets : vpcE (result (list Named))
| ListKeys : vpcE (result (list Named))
| ListVpcs : vpcE (result (list VPC))
| Vpc_ListInstances (resourceGroup vpcName : string) : vpcE (result (list VpcInstance))
| CreateInstance (p : InstancePrototype) : vpcE (result VpcInstance)
| GetInstance (id : string) : vpcE (result VpcInstance)
| DeleteInstance (id : option string) : vpcE (result unit)
| ListInstanceNetworkInterfaceFloatingIps (id : option string) (nic : string) : vpcE (result (option (list FloatingIP)))
| ListFloatingIps (resourceGroup : string) : vpcE (result (list FloatingIP))
| AddInstanceNetworkInterfaceFloatingIP (id : option string) (nic ip : option string) : vpcE (result unit)
| CreateFloatingIP (zone resourceGroup : string) : vpcE (result FloatingIP)
| checkIfIpIsLive (ip : string) : vpcE (option error)
| Vpc_Now : vpcE Z
| Sleep (d : Z) : vpcE unit
| Go (instanceId : string) (timeout : Z) : vpcE unit.    (* go func() { the deletion loop }() *)

Abbreviation vpc := (prog vpcE).

(** ** ibmz_helpers.go *)

(** [validInstanceNamePattern]: letters, digits, underscores and hyphens, the first not a
    hyphen. *)
Definition name_start (c : ascii) : bool := is_lower c || is_upper c || is_digit c || Ascii.eqb c "_".
Definition name_char (c : ascii) : bool := name_start c || Ascii.eqb c "-".
Definition validInstanceNamePattern (s : string) : bool :=
  match s with
  | EmptyString => false
  | String c s => name_start c && str_forall name_char s
  end.

Definition hashLength : nat := 16.

(** The name [createInstanceName] makes of a tag at a time. *)
Definition instance_name (instanceTag : string) (t : Z) : string :=
  let timestamp := Itoa (Unix t) +:+ "-" +:+ Itoa (t mod Second) in
  let hashInput := instanceTag +:+ "-" +:+ timestamp in
  let shortHash := slice (md5_hex hashInput) 0 hashLength in
  ReplaceAll (ToLower (instanceTag +:+ "-" +:+ shortHash +:+ "x")) "_" "-".

(** [createInstanceName], at a time. *)
Definition createInstanceName (instanceTag : string) (t : Z) : result string :=
  if negb (validInstanceNamePattern instanceTag) then
    Err (ErrText ("instance tag contains invalid characters, only alphanumeric characters, hyphens, and underscores are allowed, got: " +:+ instanceTag))
  else Ok (instance_name instanceTag t).

(** The search loops of the [lookUp] functions; a nil name panics. *)
Fixpoint find_named {A} (name : A → option string) (wanted : string) (l : list A) : vpc (option A) :=
  match l with
  | [] => mret None
  | x :: l =>
      n ← deref (name x);
      if String.eqb n wanted then mret (Some x) else find_named name wanted l
  end.

Definition look_up {A} (what wanted : string) (name : A → option string) (listed : result (list A)) (many : string) : vpc (result A) :=
  match listed with
  | Err err => mret (Err (ErrWrap ("failed to list VPC " +:+ many +:+ ": ") err ""))
  | Ok l =>
      x ← find_named name wanted l;
      mret (match x with
            | Some x => Ok x
            | None => Err (ErrText ("failed to find " +:+ what +:+ " " +:+ wanted))
            end)
  end.

(** [lookUpSubnet], [lookUpSSHKey] and [lookUpVpc] *)
Definition lookUpSubnet (iz : IBMZDynamicConfig) : vpc (result Named) :=
  l ← trigger ListSubnets; look_up "subnet" (z_Subnet iz) n_Name l "subnets".
Definition lookUpSSHKey (iz : IBMZDynamicConfig) : vpc (result Named) :=
  l ← trigger ListKeys; look_up "SSH key" (z_Key iz) n_Name l "keys".
Definition lookUpVpc (iz : IBMZDynamicConfig) : vpc (result VPC) :=
  l ← trigger ListVpcs; look_up "VPC network" (Vpc iz) vpc_Name l "networks".

(** [createAuthenticatedVpcService] *)
Definition createAuthenticatedVpcService (iz : IBMZDynamicConfig) (has_client : bool) : vpc (result unit) :=
  apiKey ← (if negb has_client then
      k ← trigger (Getenv "IBM_CLOUD_API_KEY");
      mret (if String.eqb k "" then Err (ErrText "the API key from the IBM_CLOUD_API_KEY environment variable was empty") else Ok k)
    else
      let name := SystemNamespace iz +:+ "/" +:+ z_Secret iz in
      secret ← trigger (Kube_GetSecret (Key (SystemNamespace iz) (z_Secret iz)));
      mret (match secret with
            | Err err => Err (ErrWrap ("failed to retrieve the secret " +:+ name +:+ " from the Kubernetes client: ") err "")
            | Ok secret =>
                match sec_Data secret !! "api-key" with
                | None => Err (ErrText ("the secret " +:+ name +:+ " did not have an API key field"))
                | Some k => Ok k
                end
            end));
  match apiKey with
  | Err err => mret (Err err)
  | Ok apiKey => trigger (NewVpcV1 (Url iz) apiKey)
  end.

(** [getVpcClient], with no client injected by a test: the controller always passes a
    Kubernetes client. *)
Definition getVpcClient (iz : IBMZDynamicConfig) : vpc (result unit) :=
  r ← createAuthenticatedVpcService iz true;
  mret (map_err (λ err, ErrWrap "failed to create an authenticated VPC service: " err "") r).

(** [assignNetworkInterfaceFloatingIP] *)
Definition assignNetworkInterfaceFloatingIP (i : VpcInstance) : vpc string :=
  match vi_PrimaryNetworkInterface i with
  | Some (Some nic) =>
      ips ← trigger (ListInstanceNetworkInterfaceFloatingIps (vi_ID i) nic);
      match ips with
      | Ok (Some (ip :: _)) => deref (fip_Address ip)
      | _ => mret ""
      end
  | _ => mret ""
  end.

(** The loop of [assignFloatingIP]: the first available address is attached. *)
Fixpoint attach_available (i : VpcInstance) (ips : list FloatingIP) : vpc (result string) :=
  match ips with
  | [] => mret (Ok "")
  | ip :: ips =>
      if fip_Available ip then
        nic ← deref (vi_PrimaryNetworkInterface i);
        r ← trigger (AddInstanceNetworkInterfaceFloatingIP (vi_ID i) nic (fip_ID ip));
        match r with
        | Err err =>
            id ← deref (fip_ID ip); n ← deref nic;
            mret (Err (ErrWrap ("failed to assign the floating IP " +:+ id +:+ " to the instance network interface " +:+ n +:+ ": ") err ""))
        | Ok _ => a ← deref (fip_Address ip); mret (Ok a)
        end
      else attach_available i ips
  end.

(** [assignFloatingIP] *)
Definition assignFloatingIP (i : VpcInstance) : vpc (result string) :=
  ips ← trigger (ListFloatingIps (vi_ResourceGroup i));
  match ips with
  | Err err => mret (Err (ErrWrap "failed to retrieve any floating IP addresses: " err ""))
  | Ok ips => attach_available i ips
  end.

(** [assignNewlyAllocatedIP] *)
Definition assignNewlyAllocatedIP (i : VpcInstance) : vpc (result string) :=
  ip ← trigger (CreateFloatingIP "us-east-2" (vi_ResourceGroup i));
  match ip with
  | Err err =>
      id ← deref (vi_ID i);
      mret (Err (ErrWrap ("failed to create a floating IP address for instance " +:+ id +:+ ": ") err ""))
  | Ok ip =>
      nic ← deref (vi_PrimaryNetworkInterface i);
      r ← trigger (AddInstanceNetworkInterfaceFloatingIP (vi_ID i) nic (fip_ID ip));
      a ← deref (fip_Address ip);
      match r with
      | Err err =>
          n ← deref nic;
          mret (Err (ErrWrap ("failed to assign the floating IP address " +:+ a +:+ " to the instance network interface " +:+ n +:+ ": ") err ""))
      | Ok _ => mret (Ok a)
      end
  end.

(** The address of the first network interface that has one, for a private platform. *)
Definition private_ip (i : VpcInstance) : string :=
  match find_first (λ a, match a with Some a => negb (String.eqb a "0.0.0.0") | None => false end) (vi_NetworkInterfaces i) with
  | Some (Some a) => a
  | _ => ""
  end.

(** What the status of an instance without an address of its own means: wait, give up,
    or look for an address. *)
Inductive ip_decision := WaitForIP | NoIP (err : error) | LookForIP.
Definition status_decision (s : InstanceStatus) : ip_decision :=
  match s with
  | StatusDeleting => NoIP (ErrText "instance was deleted")
  | StatusFailed => NoIP (ErrText "instance failed")
  | StatusPending | StatusRestarting | StatusStarting => WaitForIP
  | StatusStopped => NoIP (ErrText "instance was stopped")
  | StatusStopping => NoIP (ErrText "instance was stopping")
  | StatusOther _ => LookForIP
  end.

(** [assignIPToInstance] *)
Definition assignIPToInstance (iz : IBMZDynamicConfig) (i : VpcInstance) : vpc (result string) :=
  if PrivateIP iz then mret (Ok (private_ip i))
  else
    ip ← assignNetworkInterfaceFloatingIP i;
    if negb (String.eqb ip "") then mret (Ok ip)
    else
      status ← deref (vi_Status i);
      match status_decision status with
      | NoIP err => mret (Err err)
      | WaitForIP => mret (Ok "")
      | LookForIP =>
          r ← assignFloatingIP i;
          match r with
          | Ok "" => assignNewlyAllocatedIP i
          | r => mret r
          end
      end.

(** ** ibmz.go *)

(** The prototype of a new instance. *)
Definition instance_prototype (iz : IBMZDynamicConfig) (name taskRunID : string) (v : VPC) (key subnet : Named) : InstancePrototype :=
  {| ip_Name := name; ip_Zone := Region iz; ip_ResourceGroup := vpc_ResourceGroup v; ip_VPC := vpc_ID v;
     ip_Profile := Profile iz; ip_KeyID := n_ID key; ip_VolumeName := name +:+ "-volume";
     ip_VolumeCapacity := Disk iz; ip_UserTags := [taskRunID]; ip_Subnet := n_ID subnet;
     ip_SecurityGroup := vpc_DefaultSecurityGroup v; ip_Image := ImageId iz |}.

(** The creation of the instance, once its name and the task's id are known to be good. *)
Definition create_instance (iz : IBMZDynamicConfig) (name taskRunID : string) : vpc (result string) :=
  v ← lookUpVpc iz;
  match v with Err err => mret (Err err) | Ok v =>
  key ← lookUpSSHKey iz;
  match key with Err err => mret (Err err) | Ok key =>
  subnet ← lookUpSubnet iz;
  match subnet with Err err => mret (Err err) | Ok subnet =>
  i ← trigger (CreateInstance (instance_prototype iz name taskRunID v key subnet));
  match i with
  | Err err => mret (Err (ErrWrap ("failed to create the System Z virtual server instance " +:+ name +:+ ": ") err ""))
  | Ok i => id ← deref (vi_ID i); mret (Ok id)
  end end end end.

(** [LaunchInstance] *)
Definition LaunchInstance (iz : IBMZDynamicConfig) (taskRunID instanceTag : string) : vpc (result string) :=
  c ← getVpcClient iz;
  match c with Err err => mret (Err err) | Ok _ =>
  t ← trigger Vpc_Now;
  match createInstanceName instanceTag t with
  | Err err => mret (Err (ErrWrap "failed to create an instance name: " err ""))
  | Ok name =>
      match ValidateTaskRunID taskRunID with
      | Some err => mret (Err (ErrWrap "invalid TaskRun ID: " err ""))
      | None => create_instance iz name taskRunID
      end
  end end.

(** The steps [CountInstances] and [ListInstances] share: the VPC and its instances. *)
Definition vpc_instances (iz : IBMZDynamicConfig) (list_err : VPC → error → error) : vpc (result (list VpcInstance)) :=
  c ← getVpcClient iz;
  match c with Err err => mret (Err err) | Ok _ =>
  v ← lookUpVpc iz;
  match v with Err err => mret (Err err) | Ok v =>
  l ← trigger (Vpc_ListInstances (vpc_ResourceGroup v) (Vpc iz));
  mret (map_err (list_err v) l)
  end end.

Definition count_instance (instanceTag : string) (count : Z) (i : VpcInstance) : vpc Z :=
  n ← deref (vi_Name i);
  mret (if HasPrefix n instanceTag then count + 1 else count)%Z.

(** [CountInstances] *)
Definition CountInstances (iz : IBMZDynamicConfig) (instanceTag : string) : vpc (result Z) :=
  l ← vpc_instances iz (λ _ err, ErrWrap ("failed to list virtual server instances in VPC network " +:+ Vpc iz +:+ ": ") err "");
  match l with
  | Err err => mret (Err err)
  | Ok l => n ← foldM (count_instance instanceTag) 0%Z l; mret (Ok n)
  end.

(** The body of the loop of [ListInstances]: an instance is listed when it has an
    address that answers. Every log line dereferences the id. *)
Definition list_instance (iz : IBMZDynamicConfig) (instanceTag : string) (vms : list CloudVMInstance) (i : VpcInstance) : vpc (list CloudVMInstance) :=
  n ← deref (vi_Name i);
  if negb (HasPrefix n instanceTag) then mret vms
  else
    addr ← assignIPToInstance iz i;
    match addr with
    | Err _ => _ ← deref (vi_ID i); mret vms
    | Ok addr =>
        err ← trigger (checkIfIpIsLive addr);
        match err with
        | Some _ => _ ← deref (vi_ID i); mret vms
        | None =>
            id ← deref (vi_ID i); t ← deref (vi_CreatedAt i);
            mret (vms ++ [{| InstanceId := id; StartTime := t; Address := addr |}])
        end
    end.

(** [ListInstances] *)
Definition ListInstances (iz : IBMZDynamicConfig) (instanceTag : string) : vpc (result (list CloudVMInstance)) :=
  l ← vpc_instances iz (λ v err, ErrWrap ("failed to list VPC instances in the VPC network " +:+ vpc_ID v +:+ ": ") err "");
  match l with
  | Err err => mret (Err err)
  | Ok l => vms ← foldM (list_instance iz instanceTag) [] l; mret (Ok vms)
  end.

(** [GetInstanceAddress] *)
Definition GetInstanceAddress (iz : IBMZDynamicConfig) (instanceId : string) : vpc (result string) :=
  c ← getVpcClient iz;
  match c with Err err => mret (Err err) | Ok _ =>
  i ← trigger (GetInstance instanceId);
  match i with
  | Err _ => mret (Ok "")
  | Ok i =>
      ip ← assignIPToInstance iz i;
      match ip with
      | Err err => mret (Err (ErrWrap ("failed to look up/assign an IP address for instance " +:+ instanceId +:+ ": ") err ""))
      | Ok "" => mret (Ok "")
      | Ok ip =>
          err ← trigger (checkIfIpIsLive ip);
          mret (Ok (match err with Some _ => "" | None => ip end))
      end
  end end.

(** One round of the deletion loop: [true] when it is the last. *)
Definition terminate_round (instanceId : string) (timeout : Z) : vpc bool :=
  i ← trigger (GetInstance instanceId);
  match i with
  | Err _ => mret true
  | Ok i =>
      status ← deref (vi_Status i);
      match status with
      | StatusDeleting => mret true
      | StatusPending => _ ← trigger (Sleep (10 * Second)); mret false
      | _ =>
          r ← trigger (DeleteInstance (vi_ID i));
          _ ← (match r with Err _ => _ ← deref (vi_ID i); mret tt | Ok _ => mret tt end);
          t ← trigger Vpc_Now;
          if (timeout <? t)%Z then mret true
          else _ ← trigger (Sleep (10 * Second)); mret false
      end
  end.

(** At most [fuel] rounds: [true] when the loop has returned. *)
Fixpoint terminate_loop (fuel : nat) (instanceId : string) (timeout : Z) : vpc bool :=
  match fuel with
  | 0 => mret false
  | S fuel =>
      done ← terminate_round instanceId timeout;
      if (done : bool) then mret true else terminate_loop fuel instanceId timeout
  end.

(** [TerminateInstance]: the deletion itself runs in the background. *)
Definition TerminateInstance (iz : IBMZDynamicConfig) (instanceId : string) : vpc (result unit) :=
  c ← getVpcClient iz;
  match c with Err err => mret (Err err) | Ok _ =>
  t ← trigger Vpc_Now;
  _ ← trigger (Go instanceId (t + 10 * Minute));
  mret (Ok tt)
  end.

Definition okStates : list string := ["deleting"; "pending"; "stable"; "suspended"; "updating"; "waiting"].

(** [GetState] *)
Definition GetState (iz : IBMZDynamicConfig) (instanceID : string) : vpc (result VMState) :=
  c ← getVpcClient iz;
  match c with Err err => mret (Err err) | Ok _ =>
  i ← trigger (GetInstance instanceID);
  match i with
  | Err _ => mret (Ok UnknownState)
  | Ok i =>
      s ← deref (vi_LifecycleState i);
      mret (Ok (if bool_decide (s ∈ okStates) then OKState else FailedState))
  end end.

(** The [CloudProvider] interface, implemented by System Z: it ignores the additional tags. *)
Definition handle (iz : IBMZDynamicConfig) {X} (c : cloudE X) : vpc X :=
  match c in cloudE X return vpc X with
  | Cloud.LaunchInstance taskRunID instanceTag tags => r ← LaunchInstance iz taskRunID instanceTag; mret (tags, r)
  | Cloud.TerminateInstance instance => TerminateInstance iz instance
  | Cloud.GetInstanceAddress instance => GetInstanceAddress iz instance
  | Cloud.CountInstances instanceTag => CountInstances iz instanceTag
  | Cloud.ListInstances instanceTag => ListInstances iz instanceTag
  | Cloud.GetState instance => GetState iz instance
  end.

End IbmZ.
