(* ===== verification/IbmPower.v ===== *)
(** * The IBM Power Systems provider ([pkg/ibm/ibmp.go], [ibmp_helpers.go] and
      [ibmp_client.go])

    The provider's methods as programs over the HTTP requests of its client, the
    Kubernetes client, the network and the clock. The two background loops, the deletion
    that [TerminateInstance] starts and the resize of a new instance's volume, are
    [delete_loop] and [resize_loop], with a bound on the rounds. *)
From S2P Require Import Prelude GoLib GoStrings GoFloat Prog Kube NetIP Config Cloud Aws IbmZ.

Module Power.

(** ** The configuration *)

Record IBMPowerDynamicConfig := {
  SystemNamespace : string;
  p_Secret : string;
  p_Key : string;
  ImageId : string;
  Url : string;
  CRN : string;
  Network : string;
  Cores : float64;
  Memory : float64;
  Disk : float64;
  System : string;
  UserData : string;
  ProcType : string
}.

(** [ParseFloat] of a field, or the default. *)
Definition float_or (s : string) (dflt : float64) : float64 :=
  match ParseFloat s with Ok f => f | Err _ => dflt end.

(** [0.25] *)
Definition quarter : float64 := S754_finite false 4503599627370496 (-54).

(** The size of the volume: at least 100. *)
Definition volume_size (disk : string) : float64 :=
  match ParseFloat disk with
  | Err _ => float_of_Z 100
  | Ok volumeSize => if float_ltb volumeSize (float_of_Z 100) then float_of_Z 100 else volumeSize
  end.

(** [CreateIBMPowerCloudConfig] *)
Definition CreateIBMPowerCloudConfig (platform : string) (config : smap) (systemNamespace : string) : IBMPowerDynamicConfig :=
  let field := dynamic_field config platform in
  {| p_Key := field "key";
     ImageId := field "image";
     p_Secret := field "secret";
     Url := field "url";
     CRN := field "crn";
     Network := field "network";
     System := field "system";
     Cores := float_or (field "cores") quarter;
     Memory := float_or (field "memory") (float_of_Z 2);
     Disk := volume_size (field "disk");
     SystemNamespace := systemNamespace;
     UserData := if String.eqb (field "user-data") "" then "" else Ec2.EncodeToString (field "user-data");
     ProcType := "shared" |}.

(** ** The Power API *)

Record PVMInstanceNetwork := { ExternalIP : string; IPAddress : string }.

(** The fields of [models.PVMInstance] and [models.PVMInstanceReference] that are read. *)
Record PVMInstance := {
  PvmInstanceID : option string;
  ServerName : option string;
  CreationDate : Z;
  Networks : list (option PVMInstanceNetwork);
  Status : option string;
  Health : option string;                  (* the status of the health, when there is one *)
  VolumeIDs : list string;
  DiskSize : option float64
}.

(** [models.PVMInstanceCreate], and [models.UpdateVolume] *)
Inductive body :=
| PVMInstanceCreate (serverName imageID : string) (processors : float64) (procType : string)
    (memory : float64) (networkIDs : list string) (keyPairName sysType userData : string) (userTags : list string)
| UpdateVolume (size : float64).

Inductive method := GET | POST | DELETE | PUT.

(** A request as [core.RequestBuilder] collects it. *)
Record http_request := {
  rq_method : method;
  rq_url : string;
  rq_path : string;
  rq_params : smap;
  rq_query : smap;
  rq_headers : smap;
  rq_body : option body
}.

(** What the provider calls: the SDK's request builder and service, the Kubernetes
    client, the environment, the network, the clock, and [go] statements. *)
Inductive powE : Type → Type :=
| Kube_GetSecret (key : NamespacedName) : powE (result Secret)
| Getenv (name : string) : powE string
| NewBaseService (url apiKey : string) : powE (result unit)
| ResolveRequestURL (url path : string) (params : smap) : powE (option error)
| SetBodyContentJSON (b : body) : powE (option error)
| Build (r : http_request) : powE (option error)
| Request_instances (r : http_request) : powE (result (list PVMInstance))
| Request_launched (r : http_request) : powE (result (list PVMInstance))
| Request_instance (r : http_request) : powE (result PVMInstance)
| Request_deleted (r : http_request) : powE (result unit)
| Request_volume (r : http_request) : powE (result unit)
| checkIfIpIsLive (ip : string) : powE (option error)
| Pow_Now : powE Z
| Sleep (d : Z) : powE unit
| Go_delete (instanceID : string) (timeout : Z) : powE unit
| Go_resize (id : string) (timeout : Z) : powE unit.

Abbreviation pow := (prog powE).

(** ** ibmp_helpers.go *)

Definition serviceNameIndex : nat := 4.
Definition locationIndex : nat := 5.
Definition serviceInstanceIndex : nat := 7.

(** [retrieveInstanceIp]: the address of the first network. *)
Definition retrieveInstanceIp (instanceID : string) (networks : list (option PVMInstanceNetwork)) : result string :=
  match networks with
  | [] => Err (ErrText ("no networks found for Power Systems VM " +:+ instanceID))
  | None :: _ => Err (ErrText ("network entry is nil for Power Systems VM " +:+ instanceID))
  | Some network :: _ =>
      let ip := if negb (String.eqb (ExternalIP network) "") then ExternalIP network else IPAddress network in
      if String.eqb ip "" then Err (ErrText ("no IP address found for Power Systems VM " +:+ instanceID))
      else match ValidateIPFormat ip with
           | Some err => Err (ErrWrap ("invalid IP address format for Power Systems VM " +:+ instanceID +:+ ": ") err "")
           | None => Ok ip
           end
  end.

(** [createAuthenticatedBaseService] *)
Definition createAuthenticatedBaseService (pw : IBMPowerDynamicConfig) (has_client : bool) : pow (result unit) :=
  apiKey ← (if negb has_client then
      k ← trigger (Getenv "IBM_CLOUD_API_KEY"); mret (Ok k)
    else
      let name := SystemNamespace pw +:+ "/" +:+ p_Secret pw in
      secret ← trigger (Kube_GetSecret (Key (SystemNamespace pw) (p_Secret pw)));
      mret (match secret with
            | Err err => Err (ErrWrap ("failed to retrieve the secret " +:+ name +:+ " from the Kubernetes client: ") err "")
            | Ok secret =>
                match sec_Data secret !! "api-key" with
                | None => Err (ErrText ("the secret " +:+ name +:+ " did not have an API key field"))
                | Some k => Ok k
                end
            end));
  match apiKey with
  | Err err => mret (Err err)
  | Ok apiKey => trigger (NewBaseService (Url pw) apiKey)
  end.

(** [crnSegments[i]], within the ten segments. *)
Definition segment (segments : list string) (i : nat) : string := default "" (segments !! i).

(** [parseCRN]: the service instance of a Cloud Resource Name. *)
Definition parseCRN (pw : IBMPowerDynamicConfig) : result string :=
  if negb (HasPrefix (CRN pw) "crn:") then Err (ErrText "invalid CRN: must start with 'crn:'")
  else
    let crnSegments := Split (CRN pw) ":" in
    if negb (length crnSegments =? 10)%nat then
      Err (ErrText ("invalid CRN format: expected 10 segments, but got " +:+ Itoa (Z.of_nat (length crnSegments))))
    else if negb (String.eqb (segment crnSegments serviceNameIndex) "power-iaas") then
      Err (ErrText ("invalid CRN service name: expected 'power-iaas', but got '" +:+ segment crnSegments serviceNameIndex +:+ "'"))
    else if String.eqb (segment crnSegments locationIndex) "global" then
      Err (ErrText "this resource is global and has no service instance")
    else
      let serviceInstance := segment crnSegments serviceInstanceIndex in
      if String.eqb serviceInstance "" then Err (ErrText "the service instance is null")
      else Ok serviceInstance.

(** ** ibmp_client.go *)

Definition acceptHeader := "application/json".
Definition crnHeader := "CRN".
Definition pvmBasePath := "/pcloud/v1/cloud-instances/{cloud}/pvm-instances".
Definition pvmByIDPath := pvmBasePath +:+ "/{pvm_instance_id}".
Definition volumeByIDPath := "/pcloud/v1/cloud-instances/{cloud}/volumes/{volume}".

Section client.
Variable pw : IBMPowerDynamicConfig.

(** The headers of a request; one with a body has a content type. *)
Definition headers (with_body : bool) : smap :=
  let h : smap := <["Accept" := acceptHeader]> {[crnHeader := CRN pw]} in
  if with_body then <["Content-Type" := acceptHeader]> h else h.

(** How every method starts its request: the cloud's id and the URL. *)
Definition resolve (path : string) (params : string → smap) : pow (result smap) :=
  match parseCRN pw with
  | Err err => mret (Err (ErrWrap "failed to retrieve cloud service instance ID: " err ""))
  | Ok cloudId =>
      err ← trigger (ResolveRequestURL (Url pw) path (params cloudId));
      mret (match err with
            | Some err => Err (ErrWrap "failed to encode the request with parameters: " err "")
            | None => Ok (params cloudId)
            end)
  end.

(** How it ends it: the body, if there is one, the query and the headers. *)
Definition build (m : method) (path : string) (params query : smap) (b : option body)
    (body_error : error → error) : pow (result http_request) :=
  err ← (match b with Some b => trigger (SetBodyContentJSON b) | None => mret None end);
  match err with
  | Some err => mret (Err (body_error err))
  | None =>
      let r := {| rq_method := m; rq_url := Url pw; rq_path := path; rq_params := params; rq_query := query;
                  rq_headers := headers (match b with Some _ => true | None => false end); rq_body := b |} in
      err ← trigger (Build r);
      mret (match err with
            | Some err => Err (ErrWrap "failed to build the HTTP request: " err "")
            | None => Ok r
            end)
  end.

(** A method without checks in between. *)
Definition build_request (m : method) (path : string) (params : string → smap) (query : smap)
    (b : option body) : pow (result http_request) :=
  ps ← resolve path params;
  match ps with
  | Err err => mret (Err err)
  | Ok ps => build m path ps query b id
  end.

(** [listInstances] *)
Definition listInstances : pow (result (list PVMInstance)) :=
  r ← build_request GET pvmBasePath (λ cloudId, {["cloud" := cloudId]}) ∅ None;
  match r with
  | Err err => mret (Err err)
  | Ok r =>
      l ← trigger (Request_instances r);
      mret (map_err (λ err, ErrWrap ("failed to list all Power Systems VM instances on cloud " +:+
              sget (rq_params r) "cloud" +:+ ": ") err "") l)
  end.

(** [getInstance] *)
Definition getInstance (pvmId : string) : pow (result PVMInstance) :=
  r ← build_request GET pvmByIDPath (λ cloudId, {["cloud" := cloudId; "pvm_instance_id" := pvmId]}) ∅ None;
  match r with
  | Err err => mret (Err err)
  | Ok r =>
      i ← trigger (Request_instance r);
      mret (map_err (λ err, ErrWrap ("failed to get the Power Systems VM instance " +:+ pvmId +:+ ": ") err "") i)
  end.

(** [deleteInstance] *)
Definition deleteInstance (pvmId : string) : pow (result unit) :=
  r ← build_request DELETE pvmByIDPath (λ cloudId, {["cloud" := cloudId; "pvm_instance_id" := pvmId]})
        {["delete_data_volumes" := "true"]} None;
  match r with
  | Err err => mret (Err err)
  | Ok r =>
      d ← trigger (Request_deleted r);
      mret (map_err (λ err, ErrWrap ("failed to delete the Power System VM instance " +:+ pvmId +:+ ": ") err "") d)
  end.

(** [updateVolume] *)
Definition updateVolume (volumeID : string) : pow (result unit) :=
  r ← build_request PUT volumeByIDPath (λ cloudID, {["cloud" := cloudID; "volume" := volumeID]}) ∅
        (Some (UpdateVolume (Disk pw)));
  match r with
  | Err err => mret (Err err)
  | Ok r =>
      v ← trigger (Request_volume r);
      mret (map_err (λ err, ErrWrap ("failed to update volume " +:+ volumeID +:+ ": ") err "") v)
  end.

(** One round of [resizeInstanceVolume]'s loop: [true] when it is the last. *)
Definition resize_round (id : string) (timeout : Z) : pow bool :=
  _ ← trigger (Sleep (10 * Second));
  t ← trigger Pow_Now;
  if (timeout <? t)%Z then mret true
  else
    instance ← getInstance id;
    match instance with
    | Err _ => mret false
    | Ok instance =>
        match VolumeIDs instance with
        | [] => mret false
        | volumeID :: _ =>
            size ← deref (DiskSize instance);
            if float_eqb size (Disk pw) then mret true
            else
              r ← updateVolume volumeID;
              mret (match r with Ok _ => true | Err _ => false end)
        end
    end.

(** The loop of [resizeInstanceVolume]. *)
Definition resize_loop (fuel : nat) (id : string) (timeout : Z) : pow bool := until fuel (resize_round id timeout).

(** [resizeInstanceVolume], which resizes in the background; the loop dereferences the id. *)
Definition resizeInstanceVolume (id : option string) : pow unit :=
  t ← trigger Pow_Now;
  id ← deref id;
  trigger (Go_resize id (t + 10 * Minute)).

(** [launchInstance]; an answer without an instance panics. *)
Definition launchInstance (additionalInfo : smap) : pow (result string) :=
  ps ← resolve pvmBasePath (λ cloudId, {["cloud" := cloudId]});
  match ps with
  | Err err => mret (Err err)
  | Ok ps =>
      match additionalInfo !! "name" with
      | None => mret (Err (ErrText "failed to find the server instance's name"))
      | Some name =>
          match additionalInfo !! TaskRunTagKey with
          | None => mret (Err (ErrText "failed to find the server instance's full TaskRun ID"))
          | Some taskRunTag =>
              let b := PVMInstanceCreate name (ImageId pw) (Cores pw) (ProcType pw) (Memory pw)
                         (Split (Network pw) ",") (p_Key pw) (System pw) (UserData pw) [taskRunTag] in
              r ← build POST pvmBasePath ps ∅ (Some b) (λ err, ErrWrap "failed to set the body of the request: " err "");
              match r with
              | Err err => mret (Err err)
              | Ok r =>
                  instances ← trigger (Request_launched r);
                  match instances with
                  | Err err => mret (Err (ErrWrap "failed to launch a Power Systems VM instance: " err ""))
                  | Ok [] => Panic "index out of range"
                  | Ok (instance :: _) =>
                      let instanceID := PvmInstanceID instance in
                      _ ← resizeInstanceVolume instanceID;
                      id ← deref instanceID;
                      mret (Ok id)
                  end
              end
          end
      end
  end.

(** ** ibmp.go *)

(** [getPowerClient], with no client injected by a test: the controller always passes a
    Kubernetes client. *)
Definition getPowerClient : pow (result unit) :=
  r ← createAuthenticatedBaseService pw true;
  mret (map_err (λ err, ErrWrap "failed to create an authenticated base service: " err "") r).

(** [LaunchInstance] *)
Definition LaunchInstance (taskRunID instanceTag : string) : pow (result string) :=
  c ← getPowerClient;
  match c with Err err => mret (Err err) | Ok _ =>
  t ← trigger Pow_Now;
  match IbmZ.createInstanceName instanceTag t with
  | Err err => mret (Err (ErrWrap "failed to create an instance name: " err ""))
  | Ok instanceName =>
      match ValidateTaskRunID taskRunID with
      | Some err => mret (Err (ErrWrap "invalid TaskRun ID: " err ""))
      | None =>
          instance ← launchInstance {["name" := instanceName; TaskRunTagKey := taskRunID]};
          mret (map_err (λ err, ErrWrap "failed to create a Power Systems instance: " err "") instance)
      end
  end end.

(** The step [CountInstances] and [ListInstances] share. *)
Definition fetch_instances : pow (result (list PVMInstance)) :=
  c ← getPowerClient;
  match c with Err err => mret (Err err) | Ok _ =>
  l ← listInstances;
  mret (map_err (λ err, ErrWrap "failed to fetch Power Systems instances: " err "") l)
  end.

Definition count_instance (instanceTag : string) (count : Z) (i : PVMInstance) : pow Z :=
  n ← deref (ServerName i);
  mret (if HasPrefix n instanceTag then count + 1 else count)%Z.

(** [CountInstances] *)
Definition CountInstances (instanceTag : string) : pow (result Z) :=
  l ← fetch_instances;
  match l with
  | Err err => mret (Err err)
  | Ok l => n ← foldM (count_instance instanceTag) 0%Z l; mret (Ok n)
  end.

(** [GetInstanceAddress] *)
Definition GetInstanceAddress (instanceID : string) : pow (result string) :=
  c ← getPowerClient;
  match c with Err err => mret (Err err) | Ok _ =>
  instance ← getInstance instanceID;
  match instance with
  | Err _ => mret (Ok "")
  | Ok instance =>
      id ← deref (PvmInstanceID instance);
      match retrieveInstanceIp id (Networks instance) with
      | Err _ => mret (Ok "")
      | Ok ip =>
          err ← trigger (checkIfIpIsLive ip);
          mret (Ok (match err with Some _ => "" | None => ip end))
      end
  end end.

(** The body of the loop of [ListInstances]; the age of an instance is only logged. *)
Definition list_instance (instanceTag : string) (vms : list CloudVMInstance) (i : PVMInstance) : pow (list CloudVMInstance) :=
  n ← deref (ServerName i);
  if negb (HasPrefix n instanceTag) then mret vms
  else
    identifier ← deref (PvmInstanceID i);
    _ ← trigger Pow_Now;
    match retrieveInstanceIp identifier (Networks i) with
    | Err _ => mret vms
    | Ok ip =>
        err ← trigger (checkIfIpIsLive ip);
        match err with
        | Some _ => mret vms
        | None => mret (vms ++ [{| InstanceId := identifier; StartTime := CreationDate i; Address := ip |}])
        end
    end.

(** [ListInstances] *)
Definition ListInstances (instanceTag : string) : pow (result (list CloudVMInstance)) :=
  l ← fetch_instances;
  match l with
  | Err err => mret (Err err)
  | Ok l => vms ← foldM (list_instance instanceTag) [] l; mret (Ok vms)
  end.

(** One round of the deletion loop: [true] when it is the last. *)
Definition delete_round (instanceID : string) (timeout : Z) : pow bool :=
  i ← getInstance instanceID;
  match i with
  | Err _ => mret true
  | Ok _ =>
      _ ← deleteInstance instanceID;
      t ← trigger Pow_Now;
      if (timeout <? t)%Z then mret true
      else _ ← trigger (Sleep (10 * Second)); mret false
  end.

(** The loop of [TerminateInstance]. *)
Definition delete_loop (fuel : nat) (instanceID : string) (timeout : Z) : pow bool := until fuel (delete_round instanceID timeout).

(** [TerminateInstance]: a first request, whose error is dropped, and the loop in the
    background. *)
Definition TerminateInstance (instanceID : string) : pow (result unit) :=
  c ← getPowerClient;
  match c with Err err => mret (Err err) | Ok _ =>
  _ ← deleteInstance instanceID;
  t ← trigger Pow_Now;
  _ ← trigger (Go_delete instanceID (t + 10 * Minute));
  mret (Ok tt)
  end.

(** [GetState]: the health is looked at only when the status is ["ERROR"]. *)
Definition GetState (instanceID : string) : pow (result VMState) :=
  c ← getPowerClient;
  match c with Err err => mret (Err err) | Ok _ =>
  instance ← getInstance instanceID;
  match instance with
  | Err _ => mret (Ok UnknownState)
  | Ok instance =>
      status ← deref (Status instance);
      if String.eqb status "ERROR" then
        health ← deref (Health instance);
        mret (Ok (if String.eqb health "CRITICAL" then FailedState else OKState))
      else mret (Ok OKState)
  end end.

(** The [CloudProvider] interface, implemented by Power Systems: it ignores the additional
    tags. *)
Definition handle {X} (c : cloudE X) : pow X :=
  match c in cloudE X return pow X with
  | Cloud.LaunchInstance taskRunID instanceTag tags => r ← LaunchInstance taskRunID instanceTag; mret (tags, r)
  | Cloud.TerminateInstance instance => TerminateInstance instance
  | Cloud.GetInstanceAddress instance => GetInstanceAddress instance
  | Cloud.CountInstances instanceTag => CountInstances instanceTag
  | Cloud.ListInstances instanceTag => ListInstances instanceTag
  | Cloud.GetState instance => GetState instance
  end.

End client.
End Power.
