(* ===== verification/System.v ===== *)
(** * The controller, put together ([newReconciler] in [pkg/reconciler/taskrun/taskrun.go])

    The reconciler with the retrying client, and with the methods of its cloud providers
    carried out by the three implementations: a program over the requests of the
    reconciler that are not for a cloud, and those of the clouds' own clients. *)
From S2P Require Import Prelude GoLib Prog Kube Cloud Effects Reconciler RetryClient Aws IbmZ IbmPower.

Inductive sysE : Type → Type :=
| Base {X} (e : mpcE X) : sysE X
| OnEc2 {X} (e : Ec2.ec2E X) : sysE X
| OnVpc {X} (e : IbmZ.vpcE X) : sysE X
| OnPower {X} (e : Power.powE X) : sysE X.

Abbreviation sys := (prog sysE).

(** A method of a provider: the constructor that [cloudProviders] has for its type makes
    the configuration, whose methods are called. *)
Definition provide {X} (p : CloudProvider) (c : cloudE X) : sys X :=
  match cp_ctor p with
  | CreateEc2CloudConfig_ =>
      interp (λ Y e, trigger (OnEc2 e))
        (Ec2.handle (Ec2.CreateEc2CloudConfig (cp_platform p) (cp_config p) (cp_systemNamespace p)) c)
  | CreateIbmZCloudConfig_ =>
      interp (λ Y e, trigger (OnVpc e))
        (IbmZ.handle (IbmZ.CreateIbmZCloudConfig (cp_platform p) (cp_config p) (cp_systemNamespace p)) c)
  | CreateIBMPowerCloudConfig_ =>
      interp (λ Y e, trigger (OnPower e))
        (Power.handle (Power.CreateIBMPowerCloudConfig (cp_platform p) (cp_config p) (cp_systemNamespace p)) c)
  end.

(** The requests of the reconciler. *)
Definition carry_out {X} (e : mpcE X) : sys X :=
  match e in mpcE X return sys X with
  | Cloud p c => provide p c
  | Client c => trigger (Base (Client c))
  | APIReader c => trigger (Base (APIReader c))
  | Mem c => trigger (Base (Mem c))
  | Metric c => trigger (Base (Metric c))
  | Now => trigger (Base Now)
  | RangeMap keys => trigger (Base (RangeMap keys))
  | RandRead n => trigger (Base (RandRead n))
  | RecordEvent tr t r m => trigger (Base (RecordEvent tr t r m))
  | Caller => trigger (Base Caller)
  end.

(** [newReconciler]: the client is wrapped in the retrying one, and the providers are
    those of the package's table. *)
Definition newReconciler `{K8s} `{Retry} (operatorNamespace : string) (request : NamespacedName) : sys (Result * option error) :=
  interp (λ X, carry_out) (interp (λ X, with_retries) (Reconcile operatorNamespace request)).
