(* ===== verification/Manager.v ===== *)
(** * The process ([pkg/controller/controller.go] and [cmd/controller/main.go])

    [NewManager] waits for the TaskRun CRD, makes the manager with its caches, sets the
    reconciler up and starts the background work; [main] runs it. What they call of
    controller-runtime, client-go and the run time are requests; the library's polling
    loop is a parameter. *)
From S2P Require Import Prelude GoLib Prog Kube Cloud Effects.

Definition ConfigMapLabel := "build.appstudio.redhat.com/multi-platform-config".
Definition TaskRunLabel := "tekton.dev/taskRun".

(** The functions that add a group of types to a scheme. *)
Inductive scheme := k8sscheme | pipelinev1.
(** The types of objects with a cache of their own. *)
Inductive kind := TaskRunKind | SecretKind | ConfigMapKind | PodKind.

#[global] Instance kind_eq_dec : EqDecision kind.
Proof. solve_decision. Defined.

(** A label selector: the labels that must exist. *)
Abbreviation selector := (list string).

(** [ctrl.Options], with [cache.Options.ByObject]: the selector of each type, if any. *)
Record Options := {
  HealthProbeBindAddress : string;
  LeaderElection : bool;
  LeaderElectionID : string;
  MetricsBindAddress : string;
  SecureServing : bool;
  ByObject : list (kind * option selector)
}.

(** The goroutines that [NewManager] starts: host updates at every tick, and one when the
    timer fires. *)
Inductive goroutine :=
| UpdateOnTicks (operatorNamespace : string)
| UpdateOnTimer (operatorNamespace : string).

(** A reconciler, by what it was made of: its requests are [System.newReconciler]'s for
    this namespace. *)
Record Reconciler := newReconciler { operatorNamespace_of : string }.

Inductive managerE : Type → Type :=
| Getenv (name : string) : managerE string
| Get_CRD (name : string) : managerE (result unit)
| AddToScheme (s : scheme) : managerE (option error)
| NewRequirement (key : string) : managerE (result string)   (* labels.NewRequirement(key, Exists, nil) *)
| CtrlNewManager (o : Options) : managerE (option error)
| Complete (For : kind) (r : Reconciler) (maxConcurrentReconciles : Z) : managerE (option error)
                                                              (* NewControllerManagedBy(mgr).….Complete(r) *)
| NewTicker (d : Z) : managerE unit
| NewTimer (d : Z) : managerE unit
| Go (g : goroutine) : managerE unit
| AddExporter : managerE (option error)                       (* AddTaskRunMetricsExporter(mgr) *)
| AddHealthzCheck (name : string) : managerE (option error)
| AddReadyzCheck (name : string) : managerE (option error)
| Start : managerE (option error).                            (* mgr.Start(ctx) *)

Abbreviation setup := (prog managerE).

(** [wait.PollUntilContextTimeout(interval, timeout, immediate, condition)]: tests the
    condition, again and again, until it holds or fails or the time is over. *)
Class Wait := {
  PollUntilContextTimeout : ∀ E : Type → Type, Z → Z → bool → prog E (result bool) → prog E (option error)
}.

(** At most [n] tests. *)
Fixpoint polls {E} (n : nat) (condition : prog E (result bool)) : prog E (option error) :=
  match n with
  | 0 => mret (Some (ErrText "context deadline exceeded"))
  | S n =>
      r ← condition;
      match r with
      | Ok true => mret None
      | Ok false => polls n condition
      | Err err => mret (Some err)
      end
  end.

Class WaitLaws `{Wait} : Prop := {
  Poll_polls E interval timeout (condition : prog E (result bool)) :
    (0 < interval)%Z → ∃ n, PollUntilContextTimeout E interval timeout true condition = polls n condition
}.

(** The condition that [NewManager] polls: an error is logged. *)
Definition crd_exists : setup (result bool) :=
  r ← trigger (Get_CRD "taskruns.tekton.dev");
  mret (match r with Ok _ => Ok true | Err _ => Ok false end).

(** [SetupNewReconcilerWithManager] of [pkg/reconciler/taskrun/controller.go] *)
Definition SetupNewReconcilerWithManager (operatorNamespace : string) (maxConcurrentReconciles : Z) : setup (option error) :=
  let r := newReconciler operatorNamespace in
  trigger (Complete TaskRunKind r maxConcurrentReconciles).

(** [NewManager] after the CRD exists: its error. *)
Definition set_up (managerOptions : Options) (maxConcurrentReconciles : Z) : setup (option error) :=
  err ← trigger (AddToScheme k8sscheme);
  match err with Some err => mret (Some err) | None =>
  err ← trigger (AddToScheme pipelinev1);
  match err with Some err => mret (Some err) | None =>
  configMapLabels ← trigger (NewRequirement ConfigMapLabel);
  match configMapLabels with Err err => mret (Some err) | Ok configMapLabels =>
  secretLabels ← trigger (NewRequirement MultiPlatformSecretLabel);
  match secretLabels with Err err => mret (Some err) | Ok secretLabels =>
  podLabels ← trigger (NewRequirement TaskRunLabel);
  match podLabels with Err err => mret (Some err) | Ok podLabels =>
  let managerOptions :=
    {| HealthProbeBindAddress := HealthProbeBindAddress managerOptions;
       LeaderElection := LeaderElection managerOptions; LeaderElectionID := LeaderElectionID managerOptions;
       MetricsBindAddress := MetricsBindAddress managerOptions; SecureServing := SecureServing managerOptions;
       ByObject := [(TaskRunKind, None); (SecretKind, Some [secretLabels]);
                    (ConfigMapKind, Some [configMapLabels]); (PodKind, Some [podLabels])] |} in
  operatorNamespace ← trigger (Getenv "POD_NAMESPACE");
  err ← trigger (CtrlNewManager managerOptions);
  match err with Some err => mret (Some err) | None =>
  err ← SetupNewReconcilerWithManager operatorNamespace maxConcurrentReconciles;
  match err with Some err => mret (Some err) | None =>
  _ ← trigger (NewTicker (Hour * 24));
  _ ← trigger (Go (UpdateOnTicks operatorNamespace));
  _ ← trigger (NewTimer Minute);
  _ ← trigger (Go (UpdateOnTimer operatorNamespace));
  trigger AddExporter
  end end end end end end end.

(** [NewManager]: its error; without one the manager is returned. *)
Definition NewManager `{Wait} (managerOptions : Options) (maxConcurrentReconciles : Z) : setup (option error) :=
  err ← PollUntilContextTimeout _ (5 * Second) (5 * Minute) true crd_exists;
  match err with
  | Some err => mret (Some err)
  | None => set_up managerOptions maxConcurrentReconciles
  end.

(** The flags of [main] that the manager depends on, and their defaults. *)
Record flags := {
  metricsAddr : string;
  secureMetrics : bool;
  probeAddr : string;
  enableLeaderElection : bool;
  concurrentReconciles : Z
}.
Definition default_flags : flags :=
  {| metricsAddr := ":8080"; secureMetrics := true; probeAddr := ":8081"; enableLeaderElection := false;
     concurrentReconciles := 10 |}.

(** [main]: the exit code. *)
Definition main `{Wait} (f : flags) : setup Z :=
  let managerOptions :=
    {| HealthProbeBindAddress := probeAddr f; LeaderElection := enableLeaderElection f;
       LeaderElectionID := "5483be8f.redhat.com"; MetricsBindAddress := metricsAddr f;
       SecureServing := secureMetrics f; ByObject := [] |} in
  err ← NewManager managerOptions (concurrentReconciles f);
  match err with Some _ => mret 1%Z | None =>
  err ← trigger (AddHealthzCheck "healthz");
  match err with Some _ => mret 1%Z | None =>
  err ← trigger (AddReadyzCheck "readyz");
  match err with Some _ => mret 1%Z | None =>
  err ← trigger Start;
  mret (match err with Some _ => 1%Z | None => 0%Z end)
  end end end.
