(* ===== verification/DevSetup.v ===== *)
(** * The development set-up tool ([cmd/devsetup/main.go])

    The commands as programs over the environment variables, the file system, [kubectl]
    and the EC2, S3 and STS clients. What they print is left out. *)
From S2P Require Import Prelude GoLib GoStrings Md5 Prog Kube Cloud Aws.

Module DevSetup.

(** ** [strings] and [path/filepath] of Go's standard library *)

(** [strings.Replace(s, old, new, n)] for an [old] that is not empty: a match is copied as
    [new] and its bytes are skipped. *)
Fixpoint replace_from (n : option nat) (old new : string) (skip : nat) (s : string) : string :=
  match s with
  | EmptyString => EmptyString
  | String c s' =>
      match skip with
      | S skip => replace_from n old new skip s'
      | 0 =>
          if HasPrefix s old && (match n with Some 0 => false | _ => true end)
          then new +:+ replace_from (pred <$> n) old new (String.length old - 1) s'
          else String c (replace_from n old new 0 s')
      end
  end.
Definition Replace1 (s old new : string) : string := replace_from (Some 1) old new 0 s.
Definition ReplaceEvery (s old new : string) : string := replace_from None old new 0 s.

Definition HasSuffix (s suffix : string) : bool := HasPrefix (String.rev s) (String.rev suffix).

(** [filepath.Clean] on Unix: the elements that are left, the last one first. *)
Definition clean_element (rooted : bool) (out : list string) (element : string) : list string :=
  if String.eqb element "" || String.eqb element "." then out
  else if String.eqb element ".." then
    match out with
    | [] => if rooted then [] else [".."]
    | e :: out' => if String.eqb e ".." then ".." :: out else out'
    end
  else element :: out.
Definition Clean (path : string) : string :=
  let rooted := HasPrefix path "/" in
  let elements := reverse (foldl (clean_element rooted) [] (Split path "/")) in
  let cleaned := (if rooted then "/" else "") +:+ Join elements "/" in
  if String.eqb cleaned "" then "." else cleaned.
(** [filepath.Join] *)
Definition path_Join (elements : list string) : string :=
  let elements := filter (λ e, e ≠ "") elements in
  match elements with [] => "" | _ => Clean (Join elements "/") end.

(** ** What the tool calls *)

Record command := { c_args : list string; c_stdin : option string }.

(** An entry of a directory tree, as [filepath.WalkDir] visits it. *)
Record entry := { e_path : string; e_IsDir : bool; e_err : option error }.

(** A page of [ListObjectsV2]: the keys of its objects, and whether there are more pages. *)
Record page := { Contents : list (option string); more : bool }.

Inductive devE : Type → Type :=
| Getenv (name : string) : devE string
| Getwd : devE (result string)
| NotExist (path : string) : devE bool                                (* os.IsNotExist of os.Stat *)
| Exec (c : command) : devE (result string)                           (* its output *)
| LoadDefaultConfig : devE (option error)
| DeleteKeyPair (name : string) : devE (option error)
| CreateKeyPair (name : string) (tags : list Ec2.Tag) : devE (result (option string))
| DescribeInstances (filters : list Ec2.Filter) : devE (result (list (list (option string))))
| TerminateInstances (ids : list string) : devE (option error)
| GetCallerIdentity : devE (result (option string))
| NextPage (bucket pre : string) : devE (result page)
| DeleteObjects (bucket : string) (keys : list string) : devE (result (list string))
| RandRead (n : nat) : devE (result string)
| WriteFile (path data : string) : devE (option error)
| ReadFile (path : string) : devE (result string)
| RemoveAll (path : string) : devE (option error)
| CopyFS (dst src : string) : devE (option error)
| WalkDir (dir : string) : devE (list entry).

Abbreviation dev := (prog devE).

Definition getenv (name : string) : dev string := trigger (Getenv name).

(** A command that runs without input, and its error. *)
Definition run_command (args : list string) : dev (option error) :=
  r ← trigger (Exec {| c_args := args; c_stdin := None |});
  mret (match r with Ok _ => None | Err err => Some err end).
(** [kubectl apply -f -] with the input given. *)
Definition kubectl_apply (stdin : string) : dev (option error) :=
  r ← trigger (Exec {| c_args := ["kubectl"; "apply"; "-f"; "-"]; c_stdin := Some stdin |});
  mret (match r with Ok _ => None | Err err => Some err end).

(** Steps in turn, until one fails. *)
Definition and_then (p q : dev (option error)) : dev (option error) :=
  err ← p; match err with Some err => mret (Some err) | None => q end.
(** [fmt.Errorf("…: %w", err)] *)
Definition wrapped (what : string) (p : dev (option error)) : dev (option error) :=
  err ← p; mret (match err with Some err => Some (ErrWrap (what +:+ ": ") err "") | None => None end).

(** [validateAWSCredentials] *)
Definition validateAWSCredentials : dev (option error) :=
  id ← getenv "AWS_ACCESS_KEY_ID";
  if String.eqb id "" then mret (Some (ErrText "AWS_ACCESS_KEY_ID is not set")) else
  key ← getenv "AWS_SECRET_ACCESS_KEY";
  if String.eqb key "" then mret (Some (ErrText "AWS_SECRET_ACCESS_KEY is not set")) else
  token ← getenv "AWS_SESSION_TOKEN";
  mret (if String.eqb token "" then Some (ErrText "AWS_SESSION_TOKEN is not set") else None).

(** ** The clean-up commands *)

(** [runCleanupKeypair] *)
Definition runCleanupKeypair (suffix : string) : dev (option error) :=
  and_then validateAWSCredentials
  (and_then (wrapped "loading AWS config" (trigger LoadDefaultConfig))
  (wrapped "deleting key pair" (trigger (DeleteKeyPair ("multi-platform-controller-" +:+ suffix))))).

Definition cleanup_filters (instanceTag : string) : list Ec2.Filter :=
  [{| Ec2.filter_Name := "tag:multi-platform-instance"; Ec2.filter_Values := [instanceTag] |};
   {| Ec2.filter_Name := "tag:MultiPlatformManaged"; Ec2.filter_Values := ["true"] |};
   {| Ec2.filter_Name := "instance-state-name"; Ec2.filter_Values := ["running"; "pending"; "stopped"; "stopping"] |}].

(** The ids of the instances of the reservations that have one. *)
Definition instance_ids (reservations : list (list (option string))) : list string := omap id (concat reservations).

(** [runCleanupInstances]: a termination that fails is reported and skipped. *)
Definition runCleanupInstances (instanceTag : string) : dev (option error) :=
  and_then validateAWSCredentials
  (and_then (wrapped "loading AWS config" (trigger LoadDefaultConfig))
  (reservations ← trigger (DescribeInstances (cleanup_filters instanceTag));
   match reservations with
   | Err err => mret (Some (ErrWrap "describing instances: " err ""))
   | Ok reservations =>
       _ ← foldM (λ _ i, _ ← trigger (TerminateInstances [i]); mret tt) tt (instance_ids reservations);
       mret None
   end)).

(** [logsBucketName] *)
Definition logsBucketName : dev (result string) :=
  value ← getenv "S3_LOGS_BUCKET";
  let value := TrimSpace value in
  mret (if String.eqb value "" then Err (ErrText "S3_LOGS_BUCKET is required for cleanup-s3-logs") else Ok value).

(** [resolveRunID] *)
Definition resolveRunID (input : string) : dev string :=
  let i := TrimSpace input in
  if negb (String.eqb i "") then mret i
  else
    tag ← getenv "INSTANCE_TAG";
    let tag := TrimSpace tag in
    mret (if negb (String.eqb tag "") then TrimSuffix tag "-development" else "local").

(** One page of [cleanupS3LogsPrefix]: the error, when it ends the loop, or whether there
    are more pages. *)
Definition cleanup_page (bucket pre : string) : dev (result bool) :=
  p ← trigger (NextPage bucket pre);
  match p with
  | Err err => mret (Err (ErrWrap ("listing S3 objects with prefix " +:+ pre +:+ ": ") err ""))
  | Ok p =>
      match omap id (Contents p) with
      | [] => mret (Ok (more p))
      | objects =>
          output ← trigger (DeleteObjects bucket objects);
          mret (match output with
                | Err err => Err (ErrWrap ("deleting S3 objects with prefix " +:+ pre +:+ ": ") err "")
                | Ok (_ :: _) => Err (ErrText ("failed deleting some S3 objects with prefix " +:+ pre))
                | Ok [] => Ok (more p)
                end)
      end
  end.

(** [cleanupS3LogsPrefix]: its error, or [None] when there are pages left after [fuel]. *)
Fixpoint cleanupS3LogsPrefix (fuel : nat) (bucket pre : string) : dev (option (option error)) :=
  match fuel with
  | 0 => mret None
  | S fuel =>
      r ← cleanup_page bucket pre;
      match r with
      | Err err => mret (Some (Some err))
      | Ok true => cleanupS3LogsPrefix fuel bucket pre
      | Ok false => mret (Some None)
      end
  end.

(** [runCleanupS3Logs] *)
Definition runCleanupS3Logs (fuel : nat) (githubRunId : string) : dev (option (option error)) :=
  err ← validateAWSCredentials;
  match err with Some err => mret (Some (Some err)) | None =>
  runID ← resolveRunID githubRunId;
  err ← wrapped "loading AWS config" (trigger LoadDefaultConfig);
  match err with Some err => mret (Some (Some err)) | None =>
  logsBucket ← logsBucketName;
  match logsBucket with
  | Err err => mret (Some (Some err))
  | Ok logsBucket => cleanupS3LogsPrefix fuel logsBucket ("mpc/" +:+ runID +:+ "/")
  end end end.

(** ** [deploy] *)

(** [Config] *)
Record Config := {
  QuayUsername : string;
  InstanceTag : string;
  AWSSSHKeyName : string;
  IDRSAKeyPath : string;
  AWSAccessKeyID : string;
  AWSSecretAccessKey : string;
  AWSSessionToken : string;
  IBMCloudAPIKey : string;
  GithubRunID : string;
  DeployDir : string
}.
Definition with_key (cfg : Config) (name path : string) : Config :=
  {| QuayUsername := QuayUsername cfg; InstanceTag := InstanceTag cfg; AWSSSHKeyName := name; IDRSAKeyPath := path;
     AWSAccessKeyID := AWSAccessKeyID cfg; AWSSecretAccessKey := AWSSecretAccessKey cfg;
     AWSSessionToken := AWSSessionToken cfg; IBMCloudAPIKey := IBMCloudAPIKey cfg; GithubRunID := GithubRunID cfg;
     DeployDir := DeployDir cfg |}.

(** [loadConfig] *)
Definition loadConfig : dev (result Config) :=
  wd ← trigger Getwd;
  match wd with
  | Err err => mret (Err (ErrWrap "getting working directory: " err ""))
  | Ok wd =>
      let deployDir := path_Join [wd; "deploy"] in
      missing ← trigger (NotExist deployDir);
      if (missing : bool) then mret (Err (ErrText ("deploy directory not found: " +:+ deployDir))) else
      quay ← getenv "QUAY_USERNAME"; tag ← getenv "INSTANCE_TAG"; name ← getenv "AWS_SSH_KEY_NAME";
      path ← getenv "ID_RSA_KEY_PATH"; keyID ← getenv "AWS_ACCESS_KEY_ID"; key ← getenv "AWS_SECRET_ACCESS_KEY";
      token ← getenv "AWS_SESSION_TOKEN"; ibm ← getenv "IBM_CLOUD_API_KEY"; run ← getenv "GITHUB_RUN_ID";
      mret (Ok {| QuayUsername := quay; InstanceTag := tag; AWSSSHKeyName := name; IDRSAKeyPath := path;
                  AWSAccessKeyID := keyID; AWSSecretAccessKey := key; AWSSessionToken := token;
                  IBMCloudAPIKey := ibm; GithubRunID := run; DeployDir := deployDir |})
  end.

(** [validatePrerequisites] *)
Definition validatePrerequisites (cfg : Config) : dev (option error) :=
  if String.eqb (QuayUsername cfg) "" then mret (Some (ErrText "QUAY_USERNAME is not set")) else validateAWSCredentials.

(** [setupNamespace] *)
Definition setupNamespace : dev (option error) :=
  output ← trigger (Exec {| c_args := ["kubectl"; "create"; "namespace"; "-o"; "yaml"; "--dry-run=client"; "multi-platform-controller"];
                            c_stdin := None |});
  match output with
  | Err err => mret (Some (ErrWrap "generating namespace yaml: " err ""))
  | Ok output =>
      and_then (wrapped "applying namespace" (kubectl_apply output))
        (run_command ["kubectl"; "config"; "set-context"; "--current"; "--namespace=multi-platform-controller"])
  end.

(** The role's ARN of an assumed role's, the second half of [getCreatorRoleARN]. *)
Definition role_arn (arn : string) : string :=
  if negb (Contains arn ":assumed-role/") then arn
  else
    let arn := Replace1 arn ":sts:" ":iam:" in
    match Split arn "/" with
    | first :: second :: _ => Replace1 first ":assumed-role" ":role" +:+ "/" +:+ second
    | _ => arn
    end.

(** [getCreatorRoleARN]: a failure is a warning; an answer without an ARN panics. *)
Definition getCreatorRoleARN : dev string :=
  r ← trigger GetCallerIdentity;
  match r with
  | Err _ => mret ""
  | Ok arn => arn ← deref arn; mret (role_arn arn)
  end.

(** [setupSSHKey]: the configuration with the key that is created, and the error. *)
Definition setupSSHKey (cfg : Config) : dev (Config * option error) :=
  if negb (String.eqb (IDRSAKeyPath cfg) "") then mret (cfg, None) else
  err ← wrapped "loading AWS config" (trigger LoadDefaultConfig);
  match err with Some err => mret (cfg, Some err) | None =>
  suffix ← (if negb (String.eqb (GithubRunID cfg) "") then mret (Ok (GithubRunID cfg)) else
    r ← trigger (RandRead 4);
    mret (match r with
          | Ok bytes => Ok (hex_EncodeToString (string_bytes bytes))
          | Err err => Err (ErrWrap "generating random bytes: " err "")
          end));
  match suffix with
  | Err err => mret (cfg, Some err)
  | Ok suffix =>
      let name := "multi-platform-controller-" +:+ suffix in
      let cfg := with_key cfg name ("/tmp/" +:+ name +:+ ".pem") in
      arn ← getCreatorRoleARN;
      let tags := if negb (String.eqb arn "") then [{| Ec2.tag_Key := "CreatorRole"; Ec2.tag_Value := arn |}] else [] in
      key ← trigger (CreateKeyPair name tags);
      match key with
      | Err err => mret (cfg, Some (ErrWrap "creating key pair: " err ""))
      | Ok material =>
          material ← deref material;
          err ← wrapped "writing key file" (trigger (WriteFile (IDRSAKeyPath cfg) material));
          mret (cfg, err)
      end
  end end.

(** The Kubernetes secret that is written as JSON. *)
Record opaque_secret := { os_APIVersion : string; os_Kind : string; os_Name : string; os_Type : string; StringData : smap }.

(** [json.Marshal], which writes the library's type. *)
Class JSON := { Marshal : opaque_secret → result string }.

Section deploy.
Context `{JSON}.

(** [generateSecretJSON] *)
Definition generateSecretJSON (name : string) (data : smap) : result string :=
  map_err (λ err, ErrWrap "marshaling secret to json: " err "")
    (Marshal {| os_APIVersion := "v1"; os_Kind := "Secret"; os_Name := name; os_Type := "Opaque"; StringData := data |}).

(** [createSecretFromLiterals] *)
Definition createSecretFromLiterals (name : string) (data : smap) : dev (option error) :=
  match generateSecretJSON name data with
  | Err err => mret (Some err)
  | Ok secretJSON => kubectl_apply secretJSON
  end.

Definition secret_label : string := "build.appstudio.redhat.com/multi-platform-secret=true".

(** The loop that labels the secrets. *)
Fixpoint label_secrets (names : list string) : dev (option error) :=
  match names with
  | [] => mret None
  | secret :: names =>
      and_then (wrapped ("labeling secret " +:+ secret) (run_command ["kubectl"; "label"; "secrets"; secret; secret_label]))
        (label_secrets names)
  end.

(** [createKubernetesSecrets]: the error of the deletion is dropped. *)
Definition createKubernetesSecrets (cfg : Config) : dev (option error) :=
  if String.eqb (IDRSAKeyPath cfg) "" then mret (Some (ErrText "ID_RSA_KEY_PATH is not set")) else
  _ ← run_command ["kubectl"; "delete"; "--ignore-not-found"; "secret"; "awskeys"; "awsiam"; "ibmiam"];
  and_then (wrapped "creating awskeys secret"
    (run_command ["kubectl"; "create"; "secret"; "generic"; "awskeys"; "--from-file=id_rsa=" +:+ IDRSAKeyPath cfg]))
  (and_then (wrapped "creating awsiam secret" (createSecretFromLiterals "awsiam"
    (list_to_map [("access-key-id", AWSAccessKeyID cfg); ("secret-access-key", AWSSecretAccessKey cfg);
                  ("session-token", AWSSessionToken cfg)])))
  (and_then (wrapped "creating ibmiam secret" (createSecretFromLiterals "ibmiam" {["api-key" := IBMCloudAPIKey cfg]}))
  (label_secrets ["awsiam"; "ibmiam"; "awskeys"]))).

(** The function [replaceInFiles] walks with, over the entries in turn. *)
Fixpoint replace_entries (old new : string) (entries : list entry) : dev (option error) :=
  match entries with
  | [] => mret None
  | e :: entries =>
      and_then
        (match e_err e with
         | Some err => mret (Some err)
         | None =>
             if e_IsDir e || negb (HasSuffix (e_path e) ".yaml") then mret None
             else
               data ← trigger (ReadFile (e_path e));
               match data with
               | Err err => mret (Some err)
               | Ok data =>
                   let newData := ReplaceEvery data old new in
                   if negb (String.eqb newData data) then trigger (WriteFile (e_path e) newData) else mret None
               end
         end)
        (replace_entries old new entries)
  end.

(** [replaceInFiles] *)
Definition replaceInFiles (dir old new : string) : dev (option error) :=
  entries ← trigger (WalkDir dir);
  replace_entries old new entries.

(** The instance tag of the overlay. *)
Definition overlay_tag (cfg : Config) : string :=
  if String.eqb (InstanceTag cfg) "" then
    (if negb (String.eqb (GithubRunID cfg) "") then GithubRunID cfg else QuayUsername cfg) +:+ "-development"
  else InstanceTag cfg.

(** [prepareDeploymentOverlays] *)
Definition prepareDeploymentOverlays (cfg : Config) : dev (option error) :=
  let developmentDir := path_Join [DeployDir cfg; "overlays"; "development"] in
  let devTemplateDir := path_Join [DeployDir cfg; "overlays"; "dev-template"] in
  let pull_policy subdir := wrapped ("replacing imagePullPolicy in " +:+ subdir)
    (replaceInFiles (path_Join [DeployDir cfg; subdir]) "imagePullPolicy: Always" "imagePullPolicy: IfNotPresent") in
  and_then (wrapped "removing development overlay" (trigger (RemoveAll developmentDir)))
  (and_then (wrapped "copying dev-template" (trigger (CopyFS developmentDir devTemplateDir)))
  (and_then (wrapped "replacing QUAY_USERNAME" (replaceInFiles developmentDir "QUAY_USERNAME" (QuayUsername cfg)))
  (and_then (pull_policy "operator")
  (and_then (pull_policy "otp")
  (and_then (wrapped "replacing INSTANCE_TAG" (replaceInFiles developmentDir "INSTANCE_TAG" (overlay_tag cfg)))
  (githubRunID ← resolveRunID (GithubRunID cfg);
   and_then (wrapped "replacing GITHUB_RUN_ID" (replaceInFiles developmentDir "GITHUB_RUN_ID" githubRunID))
   (if String.eqb (AWSSSHKeyName cfg) "" then mret (Some (ErrText "AWS_SSH_KEY_NAME is not set"))
    else wrapped "replacing AWS_SSH_KEY_NAME" (replaceInFiles developmentDir "AWS_SSH_KEY_NAME" (AWSSSHKeyName cfg))))))))).

(** [deployOperator] *)
Definition deployOperator (cfg : Config) : dev (option error) :=
  and_then (wrapped "applying kustomization"
    (run_command ["kubectl"; "apply"; "-k"; path_Join [DeployDir cfg; "overlays"; "development"]]))
  (run_command ["kubectl"; "rollout"; "restart"; "deployment"; "-n"; "multi-platform-controller"; "multi-platform-controller"]).

(** [runDeploy] *)
Definition runDeploy : dev (option error) :=
  cfg ← loadConfig;
  match cfg with
  | Err err => mret (Some err)
  | Ok cfg =>
      and_then (validatePrerequisites cfg)
      (and_then (wrapped "setting up namespace" setupNamespace)
      ('(cfg, err) ← setupSSHKey cfg;
       match err with
       | Some err => mret (Some (ErrWrap "setting up SSH key: " err ""))
       | None =>
           and_then (wrapped "creating kubernetes secrets" (createKubernetesSecrets cfg))
           (and_then (wrapped "preparing deployment overlays" (prepareDeploymentOverlays cfg))
           (wrapped "deploying operator" (deployOperator cfg)))
       end))
  end.

(** ** The commands *)

(** A command line that cobra accepts. *)
Inductive invocation :=
| deploy
| cleanup_keypair (suffix : string)
| cleanup_instances (instanceTag : string)
| cleanup_s3_logs (githubRunId : option string).

(** [main]: the exit code, or [None] when the logs have more pages than [fuel]. *)
Definition main (fuel : nat) (args : invocation) : dev (option Z) :=
  err ← (match args with
         | deploy => (r ← runDeploy; mret (Some r))
         | cleanup_keypair suffix => (r ← runCleanupKeypair suffix; mret (Some r))
         | cleanup_instances instanceTag => (r ← runCleanupInstances instanceTag; mret (Some r))
         | cleanup_s3_logs override => runCleanupS3Logs fuel (default "" override)
         end);
  mret (match err with Some (Some _) => Some 1%Z | Some None => Some 0%Z | None => None end).
End deploy.
End DevSetup.
