(* ===== verification/Trace.v ===== *)
(** * What a run did: the calls of a history that the properties speak about, the rule
      for calling a function that has a specification, and concrete instances of the
      library interfaces for the examples *)
From S2P Require Import Prelude GoLib GoStrings Prog Kube Cloud Effects.

(** ** Actions *)

(** The calls with an effect outside the process, with their answers, and the
    questions whose answers license them. *)
Inductive action :=
| A_Launch (p : CloudProvider) (taskRunID instanceTag : string) (r : result string)
| A_Terminate (p : CloudProvider) (instance : string) (r : result unit)
| A_Count (p : CloudProvider) (instanceTag : string) (r : result Z)
| A_Instances (p : CloudProvider) (instanceTag : string) (r : result (list CloudVMInstance))
| A_Config (key : NamespacedName) (r : result ConfigMap)
| A_Get (key : NamespacedName) (r : result TaskRun)
| A_GetSecret (key : NamespacedName) (r : result Secret)
| A_List (o : ListOption) (r : result (list TaskRun))
| A_Create (tr : TaskRun) (r : result TaskRun)
| A_Update (tr : TaskRun) (r : result TaskRun)
| A_Delete (tr : TaskRun) (r : result unit)
| A_CreateSecret (s : Secret) (r : result Secret)
| A_DeleteSecret (s : Secret) (r : result unit)
| A_UpdatePod (p : Pod) (r : result Pod)
| A_Now (t : Z)
| A_Inc (platform : string) (c : counter)
| A_Cache (platform : string) (c : PlatformConfig)
| A_Register (platform collector : string) (r : option error)
| A_Other.

Definition client_action {X} (c : clientE X) : X → action :=
  match c in clientE X return X → action with
  | Get_TaskRun key => λ r, A_Get key r
  | Get_Secret key => λ r, A_GetSecret key r
  | Get_ConfigMap key => λ r, A_Config key r
  | List_TaskRuns o => λ r, A_List o r
  | Create_TaskRun tr => λ r, A_Create tr r
  | Update_TaskRun tr => λ r, A_Update tr r
  | Delete_TaskRun tr => λ r, A_Delete tr r
  | Create_Secret s => λ r, A_CreateSecret s r
  | Delete_Secret s => λ r, A_DeleteSecret s r
  | Update_Pod p => λ r, A_UpdatePod p r
  | _ => λ _, A_Other
  end.

Definition action_of (ev : event mpcE) : action :=
  (match ev_req ev in mpcE X return X → action with
   | Client c => client_action c
   | Cloud p c =>
       match c in cloudE X return X → action with
       | LaunchInstance id tag _ => λ r, A_Launch p id tag r.2
       | TerminateInstance i => λ r, A_Terminate p i r
       | CountInstances tag => λ r, A_Count p tag r
       | ListInstances tag => λ r, A_Instances p tag r
       | _ => λ _, A_Other
       end
   | Metric c =>
       match c in metricE X return X → action with
       | Inc p c => λ _, A_Inc p c
       | Registry_Register p n => λ r, A_Register p n r
       | _ => λ _, A_Other
       end
   | Mem c =>
       match c in memE X return X → action with
       | Set_platformConfig p c => λ _, A_Cache p c
       | _ => λ _, A_Other
       end
   | Now => λ t, A_Now t
   | _ => λ _, A_Other
   end) (ev_ans ev).

(** The actions of a history, the last one first. *)
Definition actions (h : hist mpcE) : list action := action_of <$> h.

Lemma actions_app l h : actions (l ++ h) = actions l ++ actions h.
Proof. apply fmap_app. Qed.
Lemma elem_of_actions_app a l h : a ∈ actions (l ++ h) ↔ a ∈ actions l ∨ a ∈ actions h.
Proof. rewrite actions_app. apply elem_of_app. Qed.

(** No call launches an instance, terminates one, creates a TaskRun or caches a platform. *)
Definition plain (a : action) : Prop :=
  match a with
  | A_Launch _ _ _ _ | A_Terminate _ _ _ | A_Create _ _ | A_Cache _ _ => False
  | _ => True
  end.
(** No call but to update TaskRuns and to create secrets has an effect. *)
Definition quiet (h : hist mpcE) : Prop := Forall plain (actions h).

Lemma quiet_nil : quiet [].
Proof. constructor. Qed.
Lemma quiet_cons ev h : plain (action_of ev) → quiet h → quiet (ev :: h).
Proof. by constructor. Qed.
Lemma quiet_app l h : quiet l → quiet h → quiet (l ++ h).
Proof. unfold quiet. rewrite actions_app. apply Forall_app_2. Qed.
Lemma quiet_not a h : quiet h → ¬ plain a → a ∉ actions h.
Proof. intros Hq Ha Hin. by apply Ha, (proj1 (Forall_forall _ _) Hq). Qed.

#[export] Hint Resolve quiet_nil quiet_app : mpc.
#[export] Hint Extern 1 (quiet (_ :: _)) => apply quiet_cons; [exact I|] : mpc.

(** ** Calling a function *)

Lemma mem_of_app m l h : mem_of m (l ++ h) = mem_of (mem_of m h) l.
Proof. induction l as [|[X e x] l IH]; simpl; [done|]. by rewrite IH. Qed.

(** A program's behaviour after some calls is its behaviour in the memory they leave. *)
Lemma wp_at {A} m (p : mpc A) (Q : A → hist mpcE → Prop) h :
  wp (go_spec (mem_of m h)) p (λ a l, Q a (l ++ h)) [] → wp (go_spec m) p Q h.
Proof.
  change (λ a l, Q a (l ++ h)) with (λ a l, (λ l, Q a (l ++ h)) l).
  assert (∀ l, wp (go_spec (mem_of m h)) p (λ a l, Q a (l ++ h)) l → wp (go_spec m) p Q (l ++ h)) as Hgen;
    [|by intros ?%(Hgen [])].
  induction p as [a|w|X e k IH]; intros l; simpl; [done..|].
  intros Hp x Hx. apply (IH x (Ev e x :: l)), Hp. unfold go_spec in *. by rewrite <- mem_of_app.
Qed.

(** A specification of [p] that holds in any memory and speaks about the calls [p] makes. *)
Definition spec {A} (p : mpc A) (Q : A → hist mpcE → Prop) : Prop := ∀ m, wp (go_spec m) p Q [].

Lemma wp_call {A B} m (p : mpc A) (f : A → mpc B) Q1 Q h :
  spec p Q1 → (∀ a l, Q1 a l → wp (go_spec m) (f a) Q (l ++ h)) → wp (go_spec m) (p ≫= f) Q h.
Proof.
  intros Hp Hf. apply wp_bind, wp_at. eapply wp_mono; [|apply Hp]. intros a l HQ1. by apply Hf.
Qed.

Lemma wp_tailcall {A} m (p : mpc A) Q1 (Q : A → hist mpcE → Prop) h :
  spec p Q1 → (∀ a l, Q1 a l → Q a (l ++ h)) → wp (go_spec m) p Q h.
Proof. intros Hp HQ. apply wp_at. eapply wp_mono; [|apply Hp]. done. Qed.

Lemma spec_mono {A} (p : mpc A) (Q Q' : A → hist mpcE → Prop) :
  spec p Q → (∀ a l, Q a l → Q' a l) → spec p Q'.
Proof. intros Hp HQ m. eapply wp_mono; [|apply Hp]. done. Qed.

Lemma spec_and {A} (p : mpc A) (Q1 Q2 : A → hist mpcE → Prop) :
  spec p Q1 → spec p Q2 → spec p (λ a l, Q1 a l ∧ Q2 a l).
Proof. intros H1 H2 m. by apply wp_and. Qed.

(** ** Labels and annotations *)

Lemma label_with_labels tr g k : label (with_labels tr (Some g)) k = sget g k.
Proof. done. Qed.

Lemma map_get_delete m k k' : map_get (map_delete m k) k' = if decide (k = k') then "" else map_get m k'.
Proof.
  unfold map_get, map_delete. destruct m as [g|]; simpl; [|by case_decide].
  case_decide; simplify_eq; [by rewrite lookup_delete_eq|by rewrite lookup_delete_ne].
Qed.

Lemma label_delete_label tr k k' : label (delete_label tr k) k' = if decide (k = k') then "" else label tr k'.
Proof. apply map_get_delete. Qed.
Lemma annotation_delete_annotation tr k k' :
  annotation (delete_annotation tr k) k' = if decide (k = k') then "" else annotation tr k'.
Proof. apply map_get_delete. Qed.

Lemma annotations_delete tr k : is_Some (tr_Annotations tr) → is_Some (tr_Annotations (delete_annotation tr k)).
Proof. intros Hs. by apply fmap_is_Some. Qed.
Lemma labels_delete tr k : is_Some (tr_Labels tr) → is_Some (tr_Labels (delete_label tr k)).
Proof. intros Hs. by apply fmap_is_Some. Qed.

Lemma sget_insert (g : smap) k v k' : sget (<[k:=v]> g) k' = if decide (k = k') then v else sget g k'.
Proof. unfold sget. case_decide; simplify_eq; [by rewrite lookup_insert_eq|by rewrite lookup_insert_ne]. Qed.

Lemma map_get_make_if_nil m k : map_get (make_if_nil m) k = map_get m k.
Proof. destruct m as [g|]; [done|]. unfold map_get. simpl. by rewrite lookup_empty. Qed.

Lemma label_same tr tr' k : tr_Labels tr' = tr_Labels tr → label tr' k = label tr k.
Proof. unfold label. by intros ->. Qed.
Lemma annotation_same tr tr' k : tr_Annotations tr' = tr_Annotations tr → annotation tr' k = annotation tr k.
Proof. unfold annotation. by intros ->. Qed.

(** ** Assigning to maps *)

Lemma wp_set_label m tr k v (Q : TaskRun → hist mpcE → Prop) h :
  is_Some (tr_Labels tr) →
  (∀ g, tr_Labels tr = Some g → Q (with_labels tr (Some (<[k:=v]> g))) h) →
  wp (go_spec m) (set_label tr k v) Q h.
Proof. intros [g Hg] HQ. unfold set_label, map_assign. rewrite Hg. simpl. by apply HQ. Qed.

Lemma wp_set_annotation m tr k v (Q : TaskRun → hist mpcE → Prop) h :
  is_Some (tr_Annotations tr) →
  (∀ g, tr_Annotations tr = Some g → Q (with_annotations tr (Some (<[k:=v]> g))) h) →
  wp (go_spec m) (set_annotation tr k v) Q h.
Proof. intros [g Hg] HQ. unfold set_annotation, map_assign. rewrite Hg. simpl. by apply HQ. Qed.

(** ** Example instances of the library interfaces *)

Definition add_owner (tr : TaskRun) (s : Secret) : Secret :=
  let m := sec_meta s in
  {| sec_meta := {| Name := Name m; Namespace := Namespace m; GenerateName := GenerateName m;
                    Labels := Labels m; Annotations := Annotations m; Finalizers := Finalizers m;
                    OwnerReferences := tr_Name tr :: OwnerReferences m;
                    ResourceVersion := ResourceVersion m; CreationTimestamp := CreationTimestamp m;
                    DeletionTimestamp := DeletionTimestamp m |};
     sec_Data := sec_Data s |}.

Definition example_k8s : K8s := {|
  IsDNS1035Label s := if dns1035 s then [] else ["invalid"];
  ChildName parent suffix := parent +:+ suffix;
  AddFinalizer l f := if bool_decide (f ∈ l) then (l, false) else (l ++ [f], true);
  RemoveFinalizer l f := filter (λ g, g ≠ f) l;
  ContainsFinalizer l f := bool_decide (f ∈ l);
  SetOwnerReference tr s := Ok (add_owner tr s)
|}.

Lemma example_k8s_laws : @K8sLaws example_k8s.
Proof.
  split; simpl; intros.
  - by destruct (dns1035 s).
  - apply bool_decide_eq_true.
  - by rewrite bool_decide_true.
  - by rewrite bool_decide_false.
  - done.
  - by simplify_eq.
Qed.

Definition steps_or_timeout {E A} (n : nat) (retriable : error → bool) (fn : prog E (result A)) : prog E (result A) :=
  match n with
  | 0 => mret (Err (ErrText "timed out waiting for the condition"))
  | S n => attempts n retriable fn
  end.

Definition example_retry : Retry := {|
  Backoff := nat; Steps := id; DefaultRetry := 5; DefaultBackoff := 4;
  OnError E A b p fn := steps_or_timeout b p fn;
  RetryOnConflict E A b fn := steps_or_timeout b IsConflict fn
|}.

Lemma example_retry_laws : @RetryLaws example_retry.
Proof. split; simpl; intros; subst; simpl; try done; lia. Qed.

(** A TaskRun of a user, with labels and without annotations. *)
Definition example_task : TaskRun := {|
  tr_meta := {| Name := "build"; Namespace := "team"; GenerateName := ""; Labels := Some ∅; Annotations := None;
                Finalizers := []; OwnerReferences := []; ResourceVersion := "1"; CreationTimestamp := 0;
                DeletionTimestamp := None |};
  tr_Spec := {| Params := Some [{| p_Name := PlatformParam; p_StringVal := "linux/arm64" |}]; TaskRefName := "";
                Workspaces := []; s_ComputeResources := None; ServiceAccountName := ""; Retries := 0 |};
  tr_Status := zero_status
|}.

(** A memory in which nothing is cached. *)
Definition empty_memory : memory := {| m_version := ""; m_cache := ∅; m_tags := ∅; m_platforms := ∅ |}.
