(* ===== verification/UpdateFacts.v ===== *)
(** * What the update of a TaskRun guarantees: the merge of the managed fields, and the
      retries of [UpdateTaskRunWithRetry] *)
From S2P Require Import Prelude GoLib GoStrings Prog Kube Cloud Effects Update Trace.

(** ** The merge *)

Lemma lookup_merge_keys mutation latest keys k :
  foldl (merge_key mutation) latest keys !! k = if decide (k ∈ keys) then mutation !! k else latest !! k.
Proof.
  induction keys as [|k' keys IH] using rev_ind; simpl; [done|].
  rewrite foldl_app. cbn [foldl]. unfold merge_key at 1.
  destruct (decide (k = k')) as [->|Hk].
  - rewrite decide_True by (apply elem_of_snoc; by right).
    destruct (mutation !! k') eqn:Hm; [apply lookup_insert_eq|apply lookup_delete_eq].
  - rewrite (decide_ext (k ∈ keys ++ [k']) (k ∈ keys)) by (rewrite elem_of_snoc; naive_solver).
    rewrite <- IH. destruct (mutation !! k') eqn:Hm;
      [by apply lookup_insert_ne|by apply lookup_delete_ne].
Qed.

Lemma lookup_mergeKeysInMaps latest mutation keys k :
  map_lookup (mergeKeysInMaps latest mutation keys) k =
  if decide (k ∈ keys) then map_lookup mutation k else map_lookup latest k.
Proof.
  unfold mergeKeysInMaps, map_lookup. simpl. rewrite lookup_merge_keys.
  case_decide; [by destruct mutation|by destruct latest].
Qed.

(** [sent] carries what the controller manages of [tr]. *)
Record carries (tr sent : TaskRun) : Prop := {
  carries_key : ObjectKeyFromObject sent = ObjectKeyFromObject tr;
  carries_label k : k ∈ managedLabels → map_lookup (tr_Labels sent) k = map_lookup (tr_Labels tr) k;
  carries_annotation k : k ∈ managedAnnotations →
    map_lookup (tr_Annotations sent) k = map_lookup (tr_Annotations tr) k;
  carries_finalizer : PipelineFinalizer ∈ tr_Finalizers sent ↔ PipelineFinalizer ∈ tr_Finalizers tr
}.

(** [sent] keeps everything else of [latest]. *)
Record keeps (latest sent : TaskRun) : Prop := {
  keeps_label k : k ∉ managedLabels → map_lookup (tr_Labels sent) k = map_lookup (tr_Labels latest) k;
  keeps_annotation k : k ∉ managedAnnotations →
    map_lookup (tr_Annotations sent) k = map_lookup (tr_Annotations latest) k;
  keeps_finalizer f : f ≠ PipelineFinalizer → f ∈ tr_Finalizers sent ↔ f ∈ tr_Finalizers latest;
  keeps_spec : tr_Spec sent = tr_Spec latest;
  keeps_status : tr_Status sent = tr_Status latest;
  keeps_version : ResourceVersion (tr_meta sent) = ResourceVersion (tr_meta latest)
}.

(** Two TaskRuns that agree on what an update stores. *)
Record same_object (tr tr' : TaskRun) : Prop := {
  same_key : ObjectKeyFromObject tr' = ObjectKeyFromObject tr;
  same_labels : tr_Labels tr' = tr_Labels tr;
  same_annotations : tr_Annotations tr' = tr_Annotations tr;
  same_finalizers : tr_Finalizers tr' = tr_Finalizers tr;
  same_spec : tr_Spec tr' = tr_Spec tr;
  same_status : tr_Status tr' = tr_Status tr
}.

#[global] Instance same_object_refl : Reflexive same_object.
Proof. by split. Qed.

Lemma carries_refl tr : carries tr tr.
Proof. by split. Qed.

Section laws.
Context `{K8sLaws}.

Lemma elem_of_AddFinalizer l f g : g ∈ (AddFinalizer l f).1 ↔ g ∈ l ∨ g = f.
Proof.
  destruct (decide (f ∈ l)) as [Hin|Hin].
  - rewrite (AddFinalizer_present _ _ Hin). naive_solver.
  - rewrite (AddFinalizer_absent _ _ Hin). apply elem_of_snoc.
Qed.

Lemma elem_of_RemoveFinalizer l f g : g ∈ RemoveFinalizer l f ↔ g ∈ l ∧ g ≠ f.
Proof. rewrite RemoveFinalizer_spec, list_elem_of_filter. naive_solver. Qed.

Lemma ContainsFinalizer_bool l f : ContainsFinalizer l f = bool_decide (f ∈ l).
Proof.
  case_bool_decide as Hf; [by apply ContainsFinalizer_spec|].
  destruct (ContainsFinalizer l f) eqn:Hc; [by apply ContainsFinalizer_spec in Hc|done].
Qed.

(** [ensureFinalizerIsUpdated] changes the finalizers only. *)
Lemma ensureFinalizer_only latest mutated f :
  ∃ fs, ensureFinalizerIsUpdated latest mutated f = with_finalizers latest fs ∧
  (f ∈ fs ↔ f ∈ tr_Finalizers mutated) ∧ (∀ g, g ≠ f → g ∈ fs ↔ g ∈ tr_Finalizers latest).
Proof.
  unfold ensureFinalizerIsUpdated. rewrite !ContainsFinalizer_bool.
  repeat case_bool_decide; simpl.
  - exists (tr_Finalizers latest). split; [by destruct latest as [[]]|naive_solver].
  - eexists; split; [done|]. rewrite elem_of_AddFinalizer.
    split; [naive_solver|]. intros g ?. rewrite elem_of_AddFinalizer. naive_solver.
  - eexists; split; [done|]. rewrite elem_of_RemoveFinalizer.
    split; [naive_solver|]. intros g ?. rewrite elem_of_RemoveFinalizer. naive_solver.
  - exists (tr_Finalizers latest). split; [by destruct latest as [[]]|naive_solver].
Qed.

(** What [updateTaskRun] sends carries the managed fields of [tr], and keeps
    everything else of the latest version. *)
Lemma merge_carries latest tr :
  ObjectKeyFromObject latest = ObjectKeyFromObject tr → carries tr (merge_into_latest latest tr).
Proof.
  intros Hk. unfold merge_into_latest.
  edestruct ensureFinalizer_only as (fs & -> & Hf & _). split; [done| | |done].
  - intros k Hin. etrans; [apply lookup_mergeKeysInMaps|]. by rewrite decide_True.
  - intros k Hin. etrans; [apply lookup_mergeKeysInMaps|]. by rewrite decide_True.
Qed.

Lemma merge_keeps latest tr : keeps latest (merge_into_latest latest tr).
Proof.
  unfold merge_into_latest.
  edestruct ensureFinalizer_only as (fs & -> & _ & Hf). split; [| |done..].
  - intros k Hin. etrans; [apply lookup_mergeKeysInMaps|]. by rewrite decide_False.
  - intros k Hin. etrans; [apply lookup_mergeKeysInMaps|]. by rewrite decide_False.
Qed.
End laws.

(** ** [UpdateTaskRunWithRetry] *)

(** The object [tr] was stored: an update that carries its managed fields was accepted. *)
Definition stored (tr : TaskRun) (l : hist mpcE) : Prop :=
  ∃ sent ans, A_Update sent (Ok ans) ∈ actions l ∧ carries tr sent.

(** Every object sent carries the managed fields of [tr]. *)
Definition sends_only (tr : TaskRun) (l : hist mpcE) : Prop :=
  ∀ sent r, A_Update sent r ∈ actions l → carries tr sent.

(** Nothing but updates of [tr] and reads. *)
Definition updates_or_reads (tr : TaskRun) (a : action) : Prop :=
  match a with A_Update sent _ => carries tr sent | A_Other => True | _ => False end.
Definition update_only (tr : TaskRun) (l : hist mpcE) : Prop := Forall (updates_or_reads tr) (actions l).

Lemma update_only_nil tr : update_only tr [].
Proof. constructor. Qed.
Lemma update_only_cons tr ev l : updates_or_reads tr (action_of ev) → update_only tr l → update_only tr (ev :: l).
Proof. by constructor. Qed.
Lemma update_only_app tr l h : update_only tr l → update_only tr h → update_only tr (l ++ h).
Proof. unfold update_only. rewrite actions_app. apply Forall_app_2. Qed.
#[export] Hint Resolve update_only_nil update_only_cons update_only_app carries_refl : mpc.
#[export] Hint Extern 1 (updates_or_reads _ _) => (exact I || (simpl; assumption) || (simpl; apply carries_refl)) : mpc.

Lemma update_only_quiet tr l : update_only tr l → quiet l.
Proof. intros Hu. eapply Forall_impl; [exact Hu|]. by intros []. Qed.
Lemma update_only_sends tr l : update_only tr l → sends_only tr l.
Proof. intros Hu sent r Hin. exact (proj1 (Forall_forall _ _) Hu _ Hin). Qed.
Lemma stored_app tr l h : stored tr l → stored tr (l ++ h).
Proof. intros (s & a & ? & ?). exists s, a. rewrite elem_of_actions_app. auto. Qed.
Lemma stored_app_r tr l h : stored tr h → stored tr (l ++ h).
Proof. intros (s & a & ? & ?). exists s, a. rewrite elem_of_actions_app. auto. Qed.

(** How many updates were sent. *)
Fixpoint updates (l : list action) : nat :=
  match l with
  | [] => 0
  | A_Update _ _ :: l => S (updates l)
  | _ :: l => updates l
  end.
Lemma updates_app l l' : updates (l ++ l') = updates l + updates l'.
Proof. induction l as [|[] l IH]; simpl; lia. Qed.

Section retry.
Context `{K8sLaws} `{RetryLaws}.

Lemma wp_updateTaskRun tr :
  spec (updateTaskRun tr) (λ r l, update_only tr l ∧ updates (actions l) ≤ 1 ∧
    (r = Ok tt → ∃ sent ans, head (actions l) = Some (A_Update sent (Ok ans)) ∧ carries tr sent)).
Proof.
  intros m. unfold updateTaskRun, apiReader, client.
  apply wp_bind, wp_trigger. intros [latest|err] Hl; [|apply wp_ret; by split_and!; [apply update_only_cons, update_only_nil|simpl; lia|]].
  apply wp_bind, wp_trigger. intros r Hr. apply wp_ret.
  pose proof (merge_carries latest tr (Hl _ eq_refl)).
  split; [by auto with mpc|]. split; [simpl; lia|].
  destruct r; [|done]. intros _. by eexists _, _.
Qed.

(** The whole of it: the retries stop at the first update that is accepted, or that
    fails with another error than a conflict, and at the last step of the back-off. *)
Lemma wp_UpdateTaskRunWithRetry_full tr :
  spec (UpdateTaskRunWithRetry tr) (λ '(tr', err) l,
    same_object tr tr' ∧ update_only tr l ∧ updates (actions l) ≤ 1 + Steps DefaultRetry ∧
    (err = None → ∃ sent ans, head (actions l) = Some (A_Update sent (Ok ans)) ∧ carries tr sent)).
Proof.
  intros m. unfold UpdateTaskRunWithRetry, client.
  apply wp_bind, wp_trigger. intros r Hr.
  assert (∀ r, update_only tr [Ev (Client (Update_TaskRun tr)) r]) as Hfirst.
  { auto with mpc. }
  destruct r as [tr'|err].
  - apply wp_ret. destruct (Hr tr' eq_refl) as (?&?&?&?&?&?).
    split_and!; [by split|done|simpl; lia|]. intros _. eexists _, _. by split; [|apply carries_refl].
  - destruct (IsConflict err); simpl; [|by split_and!; [..|done]; simpl; try lia].
    destruct DefaultRetry_S as [n Hn]. rewrite (RetryOnConflict_attempts _ _ _ _ _ Hn), Hn.
    apply wp_bind.
    apply (wp_attempts_nat _ n IsConflict _
      (λ i h, update_only tr h ∧ updates (actions h) ≤ 1 + i) _ 0); [by split; [|simpl; lia]|].
    intros j h Hj [Hu Hc]. eapply wp_tailcall; [apply wp_updateTaskRun|].
    intros r l (Hul & Hcl & Hok).
    assert (update_only tr (l ++ h)) as Hu' by auto with mpc.
    assert (updates (actions (l ++ h)) ≤ 1 + S j) as Hc' by (rewrite actions_app, updates_app; lia).
    split; [done|]. intros _. apply wp_ret. split_and!; [done..|lia|].
    destruct r as [[]|]; [|done]. intros _. destruct (Hok eq_refl) as (sent & ans & Hh & ?).
    exists sent, ans. split; [|done]. rewrite actions_app. by destruct (actions l).
Qed.

(** ** What is sent, call by call *)

(** One attempt to send the managed fields of [tr] with the latest version. *)
Inductive attempted (tr : TaskRun) : result unit → hist mpcE → Prop :=
| not_read err : attempted tr (Err err) [Ev (APIReader (Get_TaskRun (ObjectKeyFromObject tr))) (Err err)]
| merge_sent latest r :
    ObjectKeyFromObject latest = ObjectKeyFromObject tr →
    attempted tr (match r with Ok _ => Ok tt | Err err => Err err end)
      [Ev (Client (Update_TaskRun (merge_into_latest latest tr))) r;
       Ev (APIReader (Get_TaskRun (ObjectKeyFromObject tr))) (Ok latest)].

(** Attempts, of which all but the last end in a conflict, and [n] more at most. *)
Inductive retried (tr : TaskRun) : nat → result unit → hist mpcE → Prop :=
| last_attempt n r l :
    attempted tr r l → (∀ err, r = Err err → IsConflict err = true → n = 0) → retried tr n r l
| next_attempt n err r l l' :
    attempted tr (Err err) l → IsConflict err = true → retried tr n r l' → retried tr (S n) r (l' ++ l).

(** [tr] is sent; when that ends in a conflict, so are its managed fields, with the
    latest version. The TaskRun as it is left, the error, and the calls. *)
Inductive updates_to (tr : TaskRun) : TaskRun → option error → hist mpcE → Prop :=
| update_accepted tr' : same_object tr tr' → updates_to tr tr' None [Ev (Client (Update_TaskRun tr)) (Ok tr')]
| update_refused err : IsConflict err = false →
    updates_to tr tr (Some err) [Ev (Client (Update_TaskRun tr)) (Err err)]
| update_merged err n r l :
    IsConflict err = true → Steps DefaultRetry = S n → retried tr n r l →
    updates_to tr tr (match r with Ok _ => None | Err err => Some err end)
      (l ++ [Ev (Client (Update_TaskRun tr)) (Err err)]).

Lemma wp_attempted tr m h : wp (go_spec m) (updateTaskRun tr) (λ r h', ∃ l, h' = l ++ h ∧ attempted tr r l) h.
Proof.
  unfold updateTaskRun, apiReader, client. apply wp_bind, wp_trigger. intros [latest|err] Hl.
  - apply wp_bind, wp_trigger. intros r _. apply wp_ret.
    exists [Ev (Client (Update_TaskRun (merge_into_latest latest tr))) r; Ev (APIReader (Get_TaskRun (ObjectKeyFromObject tr))) (Ok latest)].
    split; [done|]. by apply merge_sent, Hl.
  - apply wp_ret. exists [Ev (APIReader (Get_TaskRun (ObjectKeyFromObject tr))) (Err err)]. split; [done|apply not_read].
Qed.

Lemma wp_retried tr n m h :
  wp (go_spec m) (attempts n IsConflict (updateTaskRun tr)) (λ r h', ∃ l, h' = l ++ h ∧ retried tr n r l) h.
Proof.
  revert h. induction n as [|n IH]; intros h; cbn [attempts].
  - eapply wp_mono; [|apply wp_attempted]. intros r h' (l & -> & Hl). exists l. split; [done|]. by apply last_attempt.
  - apply wp_bind. eapply wp_mono; [|apply wp_attempted]. intros [u|err] h' (l & -> & Hl).
    + apply wp_ret. exists l. split; [done|]. by apply last_attempt.
    + destruct (IsConflict err) eqn:He.
      * eapply wp_mono; [|apply IH]. intros r h' (l' & -> & Hl'). exists (l' ++ l). rewrite app_assoc.
        split; [done|]. by eapply next_attempt.
      * apply wp_ret. exists l. split; [done|]. apply last_attempt; [done|]. intros err' [= <-]. congruence.
Qed.

Lemma wp_updates_to tr : spec (UpdateTaskRunWithRetry tr) (λ '(tr', err) l, updates_to tr tr' err l).
Proof.
  intros m. unfold UpdateTaskRunWithRetry, client. apply wp_bind, wp_trigger. intros [tr'|err] Hr.
  - apply wp_ret, update_accepted. destruct (Hr tr' eq_refl) as (?&?&?&?&?&?). by split.
  - destruct (IsConflict err) eqn:He; cbn [negb]; [|by apply wp_ret, update_refused].
    destruct DefaultRetry_S as [n Hn]. rewrite (RetryOnConflict_attempts _ _ _ _ _ Hn). apply wp_bind.
    eapply wp_mono; [|apply wp_retried]. intros r h' (l & -> & Hl). apply wp_ret. by eapply update_merged.
Qed.

(** *** What follows *)

Lemma attempted_facts tr r l : attempted tr r l → update_only tr l ∧ (r = Ok tt → stored tr l).
Proof.
  intros [err|latest x Hk]; (split; [|intros Hr]); [by auto with mpc|done| |].
  - pose proof (merge_carries latest tr Hk). by auto with mpc.
  - destruct x as [ans|]; [|done]. exists (merge_into_latest latest tr), ans. split; [left|by apply merge_carries].
Qed.
Lemma retried_facts tr n r l : retried tr n r l → update_only tr l ∧ (r = Ok tt → stored tr l).
Proof.
  induction 1 as [n r l Hl _|n err r l l' [Hl _]%attempted_facts _ _ [IH Hst]]; [by apply attempted_facts|].
  split; [by apply update_only_app|]. intros Hr. by apply stored_app, Hst.
Qed.

Lemma updates_to_same tr tr' err l : updates_to tr tr' err l → same_object tr tr'.
Proof. by intros []. Qed.
Lemma updates_to_only tr tr' err l : updates_to tr tr' err l → update_only tr l.
Proof. intros [| |err' n r l' _ _ [Hl _]%retried_facts]; auto with mpc. Qed.
Lemma updates_to_quiet tr tr' err l : updates_to tr tr' err l → quiet l.
Proof. intros Hu. by eapply update_only_quiet, updates_to_only. Qed.
Lemma updates_to_stored tr tr' l : updates_to tr tr' None l → stored tr l.
Proof.
  inversion 1 as [tr'' Hs|?|e n r l' _ _ [_ Hst]%retried_facts]; subst.
  - exists tr, tr'. split; [left|apply carries_refl].
  - destruct r as [[]|]; [|done]. by apply stored_app, Hst.
Qed.

(** The shape the callers need. *)
Lemma wp_UpdateTaskRunWithRetry tr :
  spec (UpdateTaskRunWithRetry tr) (λ '(tr', err) l,
    same_object tr tr' ∧ update_only tr l ∧ (err = None → stored tr l)).
Proof.
  eapply spec_mono; [apply wp_updates_to|]. intros [tr' err] l Hu.
  split_and!; [by eapply updates_to_same|by eapply updates_to_only|]. intros ->. by eapply updates_to_stored.
Qed.
End retry.

(** ** Properties *)

(** C19. The object that a conflicting update sends again has the managed labels, the
    managed annotations and the controller's finalizer of the TaskRun, and everything else
    (other labels, annotations and finalizers, the spec, the status and the resource
    version) of the latest version on the API server. *)
Theorem merge_into_latest_frame `{K8sLaws} latest tr :
  ObjectKeyFromObject latest = ObjectKeyFromObject tr →
  carries tr (merge_into_latest latest tr) ∧ keeps latest (merge_into_latest latest tr).
Proof. split; [by apply merge_carries|apply merge_keeps]. Qed.

(** C18. [UpdateTaskRunWithRetry] sends nothing but versions of the TaskRun that carry its
    managed fields, one more at most than the retries allow; when it reports success the
    last call was such an update, and was accepted. It leaves the TaskRun in memory as it
    was. *)
Theorem UpdateTaskRunWithRetry_stores `{K8sLaws} `{RetryLaws} tr :
  spec (UpdateTaskRunWithRetry tr) (λ '(tr', err) l,
    same_object tr tr' ∧ update_only tr l ∧ updates (actions l) ≤ 1 + Steps DefaultRetry ∧
    (err = None → ∃ sent ans, head (actions l) = Some (A_Update sent (Ok ans)) ∧ carries tr sent)).
Proof. exact (wp_UpdateTaskRunWithRetry_full tr). Qed.

#[local] Existing Instances example_k8s example_k8s_laws example_retry example_retry_laws.

(** The version another client left: it has a label and a finalizer of its own. *)
Definition example_latest : TaskRun :=
  with_finalizers (with_labels example_task (Some {["team" := "blue"]})) ["other/finalizer"].

Lemma merge_into_latest_frame_witness :
  let tr := with_labels example_task (Some {[AssignedHost := "a"]}) in
  ObjectKeyFromObject example_latest = ObjectKeyFromObject tr ∧
  carries tr (merge_into_latest example_latest tr) ∧ keeps example_latest (merge_into_latest example_latest tr).
Proof. split; [reflexivity|]. apply merge_into_latest_frame. reflexivity. Defined.

Lemma UpdateTaskRunWithRetry_stores_witness :
  spec (UpdateTaskRunWithRetry example_task) (λ '(tr', err) l,
    same_object example_task tr' ∧ update_only example_task l ∧ updates (actions l) ≤ 6 ∧
    (err = None → ∃ sent ans, head (actions l) = Some (A_Update sent (Ok ans)) ∧ carries example_task sent)).
Proof. exact (UpdateTaskRunWithRetry_stores example_task). Defined.
