(* ===== verification/ProvisionFacts.v ===== *)
(** * What error secrets and provisioning tasks guarantee *)
From S2P Require Import Prelude GoLib GoStrings Md5 Prog Kube Cloud Effects Metrics Update Provision Trace UpdateFacts.

(** Two TaskRuns that differ in their finalizers at most. *)
Record same_but_finalizers (tr tr' : TaskRun) : Prop := {
  sbf_key : ObjectKeyFromObject tr' = ObjectKeyFromObject tr;
  sbf_labels : tr_Labels tr' = tr_Labels tr;
  sbf_annotations : tr_Annotations tr' = tr_Annotations tr;
  sbf_spec : tr_Spec tr' = tr_Spec tr;
  sbf_status : tr_Status tr' = tr_Status tr
}.

#[global] Instance same_but_finalizers_refl : Reflexive same_but_finalizers.
Proof. by split. Qed.
#[global] Instance same_but_finalizers_trans : Transitive same_but_finalizers.
Proof. intros x y z [] []. split; by etrans. Qed.
#[global] Instance same_object_trans : Transitive same_object.
Proof. intros x y z [] []. split; by etrans. Qed.

Lemma same_object_but tr tr' : same_object tr tr' → same_but_finalizers tr tr'.
Proof. intros []. by split. Qed.

Lemma key_eq tr tr' :
  ObjectKeyFromObject tr' = ObjectKeyFromObject tr →
  tr_Name tr' = tr_Name tr ∧ tr_Namespace tr' = tr_Namespace tr.
Proof. intros Heq. by inversion Heq. Qed.

Section facts.
Context `{K8sLaws}.
Variable operatorNamespace : string.

(** The error secret that the user's task waits for. *)
Record error_secret (tr : TaskRun) (secretName : string) (s : Secret) : Prop := {
  es_name : Name (sec_meta s) = secretName;
  es_namespace : Namespace (sec_meta s) = tr_Namespace tr;
  es_label : map_lookup (Labels (sec_meta s)) MultiPlatformSecretLabel = Some "true";
  es_error : is_Some (sec_Data s !! "error")
}.
(** It was requested. *)
Definition secret_requested (tr : TaskRun) (secretName : string) (l : hist mpcE) : Prop :=
  ∃ s r, A_CreateSecret s r ∈ actions l ∧ error_secret tr secretName s.

(** [tr] with the controller's finalizer. *)
Definition finalized (tr : TaskRun) : TaskRun := with_finalizers tr (AddFinalizer (tr_Finalizers tr) PipelineFinalizer).1.

(** The TaskRun has the finalizer, or it was stored with it. *)
Inductive finalizes (tr : TaskRun) : TaskRun → hist mpcE → Prop :=
| has_finalizer : PipelineFinalizer ∈ tr_Finalizers tr → finalizes tr tr []
| adds_finalizer tr' :
    PipelineFinalizer ∉ tr_Finalizers tr → same_object (finalized tr) tr' →
    finalizes tr tr' [Ev (Client (Update_TaskRun (finalized tr))) (Ok tr')].

(** What was created, or existed. *)
Definition created_err {A} (r : result A) : option error :=
  match r with Ok _ => None | Err err => if IsAlreadyExists err then None else Some err end.

(** The outcome of [createErrorSecret]: the update that adds the finalizer is refused, the
    secret cannot be owned by the TaskRun, or the secret is requested. *)
Inductive error_secret_outcome (tr : TaskRun) (secretName : string) : TaskRun → option error → hist mpcE → Prop :=
| finalizer_refused err :
    PipelineFinalizer ∉ tr_Finalizers tr →
    error_secret_outcome tr secretName (finalized tr) (Some err) [Ev (Client (Update_TaskRun (finalized tr))) (Err err)]
| not_owned tr' err l :
    finalizes tr tr' l → SetOwnerReference tr' (user_task_secret tr' secretName ∅) = Err err →
    error_secret_outcome tr secretName tr' (Some err) l
| error_told tr' s at_line r l :
    finalizes tr tr' l → error_secret tr secretName s →
    error_secret_outcome tr secretName tr' (created_err r) (Ev (Client (Create_Secret s)) r :: Ev Caller at_line :: l).

Lemma finalizes_same tr tr' l : finalizes tr tr' l → same_but_finalizers tr tr' ∧ PipelineFinalizer ∈ tr_Finalizers tr'.
Proof.
  intros [Hin|tr0 Hn Hs]; [done|]. split.
  - destruct Hs. by split.
  - rewrite (same_finalizers _ _ Hs). apply elem_of_AddFinalizer. by right.
Qed.

Lemma wp_createErrorSecret_outcome tr targetPlatform secretName msg :
  spec (createErrorSecret tr targetPlatform secretName msg) (λ '(tr', err) l, error_secret_outcome tr secretName tr' err l).
Proof.
  intros m. unfold createErrorSecret.
  destruct (AddFinalizer (tr_Finalizers tr) PipelineFinalizer) as [fs added] eqn:Hadd.
  assert (with_finalizers tr fs = finalized tr) as Hfin by (unfold finalized; by rewrite Hadd).
  apply wp_bind. eapply (wp_mono _ _ (λ '(tr', err) l, match err with
    | Some err => error_secret_outcome tr secretName tr' (Some err) l | None => finalizes tr tr' l end)).
  - intros [tr' [err|]] l Hl; [by apply wp_ret|].
    destruct (SetOwnerReference tr' _) as [s|err] eqn:Ho; [|by apply wp_ret, (not_owned _ _ _ err)].
    apply SetOwnerReference_meta in Ho as (Hn & Hns & Hlab & _).
    apply wp_bind, wp_trigger. intros [file line] _.
    unfold create_owned_secret, client. apply wp_bind, wp_bind, wp_trigger.
    intros r _. do 2 apply wp_ret. apply error_told; [done|].
    destruct (finalizes_same _ _ _ Hl) as [Hs _].
    split; cbn; [done|rewrite Hns; by apply key_eq, sbf_key|by rewrite Hlab|by rewrite lookup_singleton_eq].
  - destruct (decide (PipelineFinalizer ∈ tr_Finalizers tr)) as [Hin|Hin].
    + rewrite (AddFinalizer_present _ _ Hin) in Hadd. simplify_eq. by apply wp_ret, has_finalizer.
    + rewrite (AddFinalizer_absent _ _ Hin) in Hadd. injection Hadd as <- <-. rewrite Hfin. unfold client.
      apply wp_bind, wp_trigger. intros [tr'|err] Hr; apply wp_ret; [|by apply finalizer_refused].
      apply adds_finalizer; [done|]. destruct (Hr tr' eq_refl) as (?&?&?&?&?&?). by split.
Qed.

Lemma error_secret_outcome_facts tr secretName tr' err l :
  error_secret_outcome tr secretName tr' err l →
  quiet l ∧ same_but_finalizers tr tr' ∧ PipelineFinalizer ∈ tr_Finalizers tr' ∧
  (err = None → secret_requested tr secretName l).
Proof.
  assert (∀ tr' l, finalizes tr tr' l → quiet l) as Hq by (intros ? ? []; auto with mpc).
  intros [err' Hn|tr0 err' l' Hfin _|tr0 s c r l' Hfin Hs].
  - split_and!; [auto with mpc|by split| |done]. apply elem_of_AddFinalizer. by right.
  - destruct (finalizes_same _ _ _ Hfin). split_and!; [by eapply Hq|done..].
  - destruct (finalizes_same _ _ _ Hfin) as [Hb Hf]. apply Hq in Hfin. split_and!; [auto with mpc|done..|].
    intros _. exists s, r. split; [left|done].
Qed.

Lemma wp_createErrorSecret tr targetPlatform secretName msg :
  spec (createErrorSecret tr targetPlatform secretName msg) (λ '(tr', err) l,
    quiet l ∧ same_but_finalizers tr tr' ∧ PipelineFinalizer ∈ tr_Finalizers tr' ∧
    (err = None → secret_requested tr secretName l)).
Proof.
  eapply spec_mono; [apply wp_createErrorSecret_outcome|]. intros [tr' err] l. apply error_secret_outcome_facts.
Qed.

Lemma wp_createUserTaskSecret tr secretName data :
  spec (createUserTaskSecret tr secretName data) (λ err l, quiet l).
Proof.
  intros m. unfold createUserTaskSecret, create_owned_secret, client.
  destruct (SetOwnerReference _ _); [|by apply wp_ret, quiet_nil].
  apply wp_bind, wp_trigger. intros r _. apply wp_ret. auto with mpc.
Qed.

(** The tag of the instances, from the configuration of the hosts. *)
Definition default_tag (cfg : result ConfigMap) : string :=
  match cfg with Ok cfg => sget (cm_Data cfg) DefaultInstanceTag | Err _ => "" end.

(** What a provisioning task says: the parameters of the Tekton task, the platform's SSH
    secret as its workspace, and whom it is for. *)
Record provisions (tr : TaskRun) (secretName sshSecret address user platform sudoCommands instanceTag : string) (t : TaskRun) : Prop := {
  pt_name : tr_Name t = ChildName (tr_Name tr) ("-prov-" +:+ slice (md5_hex address) 0 5);
  pt_namespace : tr_Namespace t = operatorNamespace;
  pt_labels : tr_Labels t = Some (list_to_map
    [("build.appstudio.redhat.com/task-type", "provision");
     ("build.appstudio.redhat.com/target-platform", platformLabel platform);
     ("build.appstudio.redhat.com/user-task-namespace", tr_Namespace tr);
     ("build.appstudio.redhat.com/user-task-name", tr_Name tr);
     ("build.appstudio.redhat.com/assigned-host", label tr "build.appstudio.redhat.com/assigned-host")]);
  pt_params : Params (tr_Spec t) = Some
    [{| p_Name := "SECRET_NAME"; p_StringVal := secretName |};
     {| p_Name := "TASKRUN_NAME"; p_StringVal := tr_Name tr |};
     {| p_Name := "NAMESPACE"; p_StringVal := tr_Namespace tr |};
     {| p_Name := "HOST"; p_StringVal := address |};
     {| p_Name := "USER"; p_StringVal := user |};
     {| p_Name := "SUDO_COMMANDS"; p_StringVal := sudoCommands |};
     {| p_Name := "RAW_PLATFORM"; p_StringVal := rawPlatform platform |};
     {| p_Name := "INSTANCE_TAG"; p_StringVal := instanceTag |}];
  pt_task : TaskRefName (tr_Spec t) =
    (if HasPrefix platform "windows" then "provision-host-windows"
     else if HasPrefix platform "macos" then "provision-host-macos" else "provision-shared-host");
  pt_secret : Workspaces (tr_Spec t) = [{| w_Name := "ssh"; w_SecretName := sshSecret |}];
  pt_account : ServiceAccountName (tr_Spec t) = "multi-platform-controller-provisioner"
}.

Lemma provision_task_provisions tr sn ssh a u p sudo it :
  provisions tr sn ssh a u p sudo it (provision_task tr operatorNamespace sn ssh a u p sudo it).
Proof. by split. Qed.

(** The outcome of [launchProvisioningTask]: when the platform's SSH secret cannot be had
    there is no task, and an error secret instead; otherwise the task is requested. *)
Inductive provision_outcome (tr : TaskRun) (secretName sshSecret address user platform sudoCommands : string) :
    TaskRun → option error → hist mpcE → Prop :=
| no_ssh_secret e tr' err l :
    error_secret_outcome tr secretName tr' err l →
    provision_outcome tr secretName sshSecret address user platform sudoCommands tr' err
      (l ++ [Ev (Client (Get_Secret (Key operatorNamespace sshSecret))) (Err e)])
| provision_requested s cfg r :
    provision_outcome tr secretName sshSecret address user platform sudoCommands tr (created_err r)
      [Ev (Client (Create_TaskRun (provision_task tr operatorNamespace secretName sshSecret address user
                                     platform sudoCommands (default_tag cfg)))) r;
       Ev (Client (Get_ConfigMap (Key operatorNamespace HostConfig))) cfg;
       Ev (Client (Get_Secret (Key operatorNamespace sshSecret))) (Ok s)].

Lemma wp_launchProvisioningTask tr secretName sshSecret address user platform sudoCommands :
  spec (launchProvisioningTask operatorNamespace tr secretName sshSecret address user platform sudoCommands)
    (λ '(tr', err) l, provision_outcome tr secretName sshSecret address user platform sudoCommands tr' err l).
Proof.
  intros m. unfold launchProvisioningTask, client.
  apply wp_bind, wp_trigger. intros [s|err] _.
  - apply wp_bind, wp_trigger. intros cfg _. apply wp_bind, wp_trigger. intros r _.
    apply wp_ret. apply provision_requested.
  - eapply wp_tailcall; [apply wp_createErrorSecret_outcome|]. intros [tr' err'] l. apply no_ssh_secret.
Qed.

Lemma provision_outcome_same tr sn ssh a u p sudo tr' err l :
  provision_outcome tr sn ssh a u p sudo tr' err l → same_but_finalizers tr tr'.
Proof. intros [e tr0 err' l' (_ & Hs & _)%error_secret_outcome_facts|]; [done|reflexivity]. Qed.

(** What the provisioning task says about its TaskRun. *)
Lemma provision_task_same tr tr' sn ssh a u p sudo it :
  same_but_finalizers tr tr' →
  provision_task tr' operatorNamespace sn ssh a u p sudo it = provision_task tr operatorNamespace sn ssh a u p sudo it.
Proof.
  intros [Hk%key_eq Hl _ _ _]. destruct Hk as [Hn Hns].
  unfold provision_task. by rewrite Hn, Hns, (label_same _ _ _ Hl).
Qed.

(** No other TaskRun is created, and no instance touched. *)
Lemma provision_outcome_actions tr sn ssh a u p sudo tr' err l x :
  provision_outcome tr sn ssh a u p sudo tr' err l → x ∈ actions l →
  plain x ∨ ∃ it r, x = A_Create (provision_task tr operatorNamespace sn ssh a u p sudo it) r.
Proof.
  intros [e tr0 err' l' (Hq & _)%error_secret_outcome_facts|s cfg r].
  - intros [Hin|Hx%list_elem_of_singleton]%elem_of_actions_app; left; [|by subst x]. exact (proj1 (Forall_forall _ _) Hq _ Hin).
  - intros [Hx|[Hx|Hx%list_elem_of_singleton]%elem_of_cons]%elem_of_cons; subst x; [right; by eexists _, _|by left..].
Qed.
End facts.

(** ** Properties *)

(** C22. The platform's SSH secret is looked up first. When the look-up fails no
    provisioning task is created: the TaskRun gets the controller's finalizer, if it has
    not got it, and an error secret, labelled and named as the user's task expects, unless
    the update is refused or the secret cannot be owned by the TaskRun. When it succeeds
    exactly one provisioning task is requested, the last of the calls, and one that exists
    already is no error. The task names the host's address and user, the secret to make and
    the TaskRun it is for, and has the platform's SSH secret. *)
Theorem launchProvisioningTask_outcome `{K8sLaws} operatorNamespace tr secretName sshSecret address user platform sudoCommands :
  spec (launchProvisioningTask operatorNamespace tr secretName sshSecret address user platform sudoCommands)
    (λ '(tr', err) l,
      provision_outcome operatorNamespace tr secretName sshSecret address user platform sudoCommands tr' err l) ∧
  ∀ instanceTag, provisions operatorNamespace tr secretName sshSecret address user platform sudoCommands instanceTag
    (provision_task tr operatorNamespace secretName sshSecret address user platform sudoCommands instanceTag).
Proof. split; [apply wp_launchProvisioningTask|intros; apply provision_task_provisions]. Qed.

#[local] Existing Instances example_k8s example_k8s_laws.

Lemma launchProvisioningTask_outcome_witness :
  spec (launchProvisioningTask "mpc" example_task "ssh" "awskeys" "10.0.0.1" "ec2-user" "linux/arm64" "")
    (λ '(tr', err) l, provision_outcome "mpc" example_task "ssh" "awskeys" "10.0.0.1" "ec2-user" "linux/arm64" "" tr' err l).
Proof. apply launchProvisioningTask_outcome. Defined.
