(* ===== verification/HostPoolFacts.v ===== *)
(** * The allocation of static hosts: the selection loop against its specification, and
      [HostPool.Allocate] as a refinement of the relation [allocates] *)
From S2P Require Import Prelude GoLib GoStrings Md5 Prog Kube Cloud Effects Metrics Update Provision HostPools.
From S2P Require Import Trace UpdateFacts ProvisionFacts.
Import HostPool.

(** ** Counting *)

(** Whether a TaskRun occupies a spot of a host: it is a user's task assigned to it. *)
Definition occupies (host : string) (tr : TaskRun) : bool :=
  String.eqb (label tr TaskTypeLabel) "" && String.eqb (label tr AssignedHost) host.

Lemma count_assigned_snoc items tr :
  count_assigned (items ++ [tr]) =
  if String.eqb (label tr TaskTypeLabel) ""
  then <[label tr AssignedHost := (default 0 (count_assigned items !! label tr AssignedHost) + 1)%Z]> (count_assigned items)
  else count_assigned items.
Proof. unfold count_assigned. by rewrite foldl_app. Qed.

Lemma count_assigned_spec items host :
  default 0%Z (count_assigned items !! host) = Z.of_nat (length (filter (λ tr, occupies host tr = true) items)).
Proof.
  induction items as [|tr items IH] using rev_ind; [done|].
  rewrite count_assigned_snoc, filter_app, length_app, Nat2Z.inj_add, <- IH.
  rewrite filter_cons, filter_nil. unfold occupies.
  destruct (String.eqb (label tr TaskTypeLabel) ""), (String.eqb (label tr AssignedHost) host) eqn:Hh;
    cbn [andb]; [rewrite decide_True by done|rewrite decide_False by done..];
    cbn [length]; try lia.
  - apply String.eqb_eq in Hh as ->. rewrite lookup_insert_eq. simpl. lia.
  - apply String.eqb_neq in Hh. rewrite lookup_insert_ne by done. lia.
Qed.

(** ** Selection *)

Section selection.
Variables (hp : HostPool) (failed : list string) (hostCount : gmap string Z).

(** Host [v] of the pool, with key [k], is of the pool's platform. *)
Definition candidate (k : string) (v : Host) : Prop :=
  hosts hp !! k = Some v ∧ h_Platform v = targetPlatform hp.
(** It has not failed for the task. *)
Definition eligible (k : string) (v : Host) : Prop := candidate k v ∧ k ∉ failed.
Definition free_spots (k : string) (v : Host) : Z := (h_Concurrency v - default 0 (hostCount !! k))%Z.

(** [v] is an eligible host with a free spot, and none has more. *)
Definition best (k : string) (v : Host) : Prop :=
  eligible k v ∧ (0 < free_spots k v)%Z ∧ ∀ k' v', eligible k' v' → (free_spots k' v' ≤ free_spots k v)%Z.

Record selection_ok (keys : list string) (s : selection) : Prop := {
  sel_exists : platformHostsExists s = true ↔ ∃ k v, k ∈ keys ∧ candidate k v;
  sel_failed : allPlatformHostsFailed s = true ↔ ∀ k v, k ∈ keys → candidate k v → k ∈ failed;
  sel_max k v : k ∈ keys → eligible k v → (free_spots k v ≤ freeSpots s)%Z;
  sel_found : match selected s with
              | Some v => (0 < freeSpots s)%Z ∧ ∃ k, k ∈ keys ∧ eligible k v ∧ free_spots k v = freeSpots s
              | None => freeSpots s = 0%Z
              end
}.

Lemma selection_start_ok : selection_ok [] selection_start.
Proof.
  split; simpl; [split; [done|]|split; [|done]| |done].
  - intros (? & ? & []%not_elem_of_nil & _).
  - by intros _ ? ? ?%not_elem_of_nil.
  - by intros ? ? ?%not_elem_of_nil.
Qed.

(** A key that is not a host of the platform changes nothing. *)
Lemma skip_ok keys s k :
  selection_ok keys s → (∀ v, ¬ candidate k v) → selection_ok (keys ++ [k]) s.
Proof.
  intros [He Hf Hm Hs] Hc. split; try setoid_rewrite elem_of_snoc.
  - rewrite He. naive_solver.
  - rewrite Hf. naive_solver.
  - intros k' v' [?| ->] [??]; [by apply Hm|naive_solver].
  - destruct (selected s); [|done]. destruct Hs as (? & k' & ? & ?). split; [done|]. exists k'. rewrite elem_of_snoc. auto.
Qed.

(** One host more. *)
Lemma consider_ok keys s k v :
  selection_ok keys s → hosts hp !! k = Some v →
  selection_ok (keys ++ [k]) (consider (targetPlatform hp) failed hostCount s k v).
Proof.
  intros [He Hf Hm Hs] Hk. unfold consider.
  assert (∀ v', hosts hp !! k = Some v' → v' = v) as Hv by (intros; by simplify_eq).
  assert (∀ s', (∃ k', k' ∈ keys ∧ s' k') → ∃ k', (k' ∈ keys ∨ k' = k) ∧ s' k') as Hw by naive_solver.
  destruct (String.eqb (h_Platform v) (targetPlatform hp)) eqn:Hp; simpl.
  - apply String.eqb_eq in Hp. assert (candidate k v) as Hc by done.
    case_bool_decide as Hkf; [|
      change (h_Concurrency v - default 0 (hostCount !! k))%Z with (free_spots k v);
      destruct (freeSpots s <? free_spots k v)%Z eqn:Hfree;
      [apply Z.ltb_lt in Hfree|apply Z.ltb_ge in Hfree]];
    split; simpl; try setoid_rewrite elem_of_snoc.
    + split; [|done]. intros _. exists k, v. auto.
    + rewrite Hf. naive_solver.
    + intros k' v' [?| ->] [??]; [by apply Hm|done].
    + destruct (selected s); [|done]. destruct Hs as (? & k' & ? & ?). split; [done|]. exists k'. rewrite ?elem_of_snoc. auto.
    + split; [|done]. intros _. exists k, v. auto.
    + split; [done|]. intros Hall. destruct Hkf. apply (Hall k v); auto.
    + intros k' v' [?| ->] [[??]?]; [|by rewrite (Hv v')].
      assert (free_spots k' v' ≤ freeSpots s)%Z by (by apply Hm). lia.
    + split; [destruct (selected s); lia|]. exists k. split_and!; auto. by split.
    + split; [|done]. intros _. exists k, v. auto.
    + split; [done|]. intros Hall. destruct Hkf. apply (Hall k v); auto.
    + intros k' v' [?| ->] [[??]?]; [by apply Hm|by rewrite (Hv v')].
    + destruct (selected s); [|done]. destruct Hs as (? & k' & ? & ?). split; [done|]. exists k'. rewrite ?elem_of_snoc. auto.
  - apply String.eqb_neq in Hp.
    assert (∀ v', ¬ candidate k v') as Hc by (intros v' []; by simplify_eq).
    by apply skip_ok.
Qed.

Lemma select_host_ok keys : selection_ok keys (select_host hp failed hostCount keys).
Proof.
  induction keys as [|k keys IH] using rev_ind; [apply selection_start_ok|].
  unfold select_host in *. rewrite foldl_app. cbn [foldl].
  destruct (hosts hp !! k) eqn:Hk; [by apply consider_ok|].
  apply skip_ok; [done|]. intros v []. by simplify_eq.
Qed.

(** The three outcomes of the loop, when it visits every host in some order. *)
Lemma select_host_cases keys :
  keys ≡ₚ (map_to_list (hosts hp)).*1 →
  let s := select_host hp failed hostCount keys in
  (platformHostsExists s = true ↔ ∃ k v, candidate k v) ∧
  (allPlatformHostsFailed s = true ↔ ∀ k v, candidate k v → k ∈ failed) ∧
  match selected s with
  | Some v => ∃ k, best k v
  | None => ∀ k v, eligible k v → (free_spots k v ≤ 0)%Z
  end.
Proof.
  intros Hkeys s. subst s. destruct (select_host_ok keys) as [He Hf Hm Hs].
  assert (∀ k v, candidate k v → k ∈ keys) as Hin.
  { intros k v [Hk _]. by apply (elem_of_range_keys _ _ _ Hkeys). }
  split_and!.
  - rewrite He. naive_solver.
  - rewrite Hf. naive_solver.
  - destruct (selected _) as [v|].
    + destruct Hs as (Hpos & k & ? & Hel & Hfree). exists k. split_and!; [done|lia|].
      intros k' v' Hel'. rewrite Hfree. apply Hm; [by eapply Hin, Hel'|done].
    + intros k v Hel. rewrite <- Hs. apply Hm; [by eapply Hin, Hel|done].
Qed.
End selection.

(** ** [HostPool.Allocate] *)

(** [tr] assigned to a host, and [tr] waiting for a platform. *)
Definition assigned `{K8s} (tr : TaskRun) (host : string) : TaskRun :=
  with_finalizers
    (delete_label (with_labels tr (Some (<[AssignedHost := host]> (default ∅ (tr_Labels tr))))) WaitingForPlatformLabel)
    (AddFinalizer (tr_Finalizers tr) PipelineFinalizer).1.
Definition waiting (tr : TaskRun) (platform : string) : TaskRun :=
  with_labels tr (Some (<[WaitingForPlatformLabel := platformLabel platform]> (default ∅ (tr_Labels tr)))).
(** [tr] unassigned again. *)
Definition unassigned `{K8s} (tr : TaskRun) : TaskRun :=
  with_finalizers (delete_label tr AssignedHost) (RemoveFinalizer (tr_Finalizers tr) PipelineFinalizer).

Section allocate.
Context `{K8sLaws} `{RetryLaws}.
Variable operatorNamespace : string.

Lemma label_assigned tr host : label (assigned tr host) AssignedHost = host.
Proof.
  unfold assigned, label, map_get. simpl.
  rewrite lookup_delete_ne by differ. by rewrite lookup_insert_eq.
Qed.
Lemma waiting_label_assigned tr host : label (assigned tr host) WaitingForPlatformLabel = "".
Proof. unfold assigned, label, map_get. simpl. by rewrite lookup_delete_eq. Qed.
Lemma finalizer_assigned tr host : PipelineFinalizer ∈ tr_Finalizers (assigned tr host).
Proof. apply elem_of_AddFinalizer. by right. Qed.
Lemma label_waiting tr platform : label (waiting tr platform) WaitingForPlatformLabel = platformLabel platform.
Proof. unfold waiting. rewrite label_with_labels. unfold sget. by rewrite lookup_insert_eq. Qed.
Lemma assigned_label_waiting tr platform : label (waiting tr platform) AssignedHost = label tr AssignedHost.
Proof.
  unfold waiting. rewrite label_with_labels. unfold sget. rewrite lookup_insert_ne by differ.
  unfold label, map_get. by destruct (tr_Labels tr).
Qed.
Lemma label_unassigned tr : label (unassigned tr) AssignedHost = "".
Proof.
  etrans; [apply (label_delete_label tr)|]. by rewrite decide_True.
Qed.

(** The tasks that the API server listed as assigned, and an order of the hosts. *)
Definition surveyed (hp : HostPool) (items : list TaskRun) (l : hist mpcE) : Prop :=
  ∃ order, l = [Ev (RangeMap (map_to_list (hosts hp)).*1) order; Ev (Client (List_TaskRuns (HasLabels [AssignedHost]))) (Ok items)].

(** No host that has not failed for the task has a free spot. *)
Definition full (hp : HostPool) (tr : TaskRun) (items : list TaskRun) : Prop :=
  ∀ k v, eligible hp (Split (annotation tr FailedHosts) ",") k v → (free_spots (count_assigned items) k v ≤ 0)%Z.
(** A host that has, and as many as any other. *)
Definition chosen (hp : HostPool) (tr : TaskRun) (items : list TaskRun) (host : Host) : Prop :=
  ∃ k, best hp (Split (annotation tr FailedHosts) ",") (count_assigned items) k host.

(** The specification of an allocation, with every call: the TaskRun as it is left, the
    result, the error and the calls, the last one first. *)
Inductive allocates (hp : HostPool) (tr : TaskRun) (secretName : string) :
    TaskRun → Result → option error → hist mpcE → Prop :=
| no_hosts : hosts hp = ∅ →
    allocates hp tr secretName tr no_requeue (Some (ErrText "no hosts configured")) []
| list_failed err : hosts hp ≠ ∅ →
    allocates hp tr secretName tr no_requeue (Some err) [Ev (Client (List_TaskRuns (HasLabels [AssignedHost]))) (Err err)]
| no_platform_hosts items l : surveyed hp items l → (∀ k v, ¬ candidate hp k v) →
    allocates hp tr secretName tr no_requeue
      (Some (ErrText ("no hosts configured for platform " +:+ targetPlatform hp))) l
| all_failed items l :
    surveyed hp items l → (∃ k v, candidate hp k v) →
    (∀ k v, candidate hp k v → k ∈ Split (annotation tr FailedHosts) ",") →
    allocates hp tr secretName tr no_requeue
      (Some (ErrWrap "" (ErrSentinel ErrAllHostsFailed) (": " +:+ annotation tr FailedHosts))) l
| still_waiting items l :
    surveyed hp items l → full hp tr items →
    label tr WaitingForPlatformLabel = platformLabel (targetPlatform hp) →
    allocates hp tr secretName tr no_requeue None l
| starts_waiting items tr' err l1 l :
    surveyed hp items l → full hp tr items →
    label tr WaitingForPlatformLabel ≠ platformLabel (targetPlatform hp) →
    updates_to (waiting tr (targetPlatform hp)) tr' err l1 →
    allocates hp tr secretName tr' (match err with None => requeue_after Minute | Some _ => no_requeue end) err (l1 ++ l)
| assign_failed items host tr' err l1 l :
    surveyed hp items l → chosen hp tr items host →
    updates_to (assigned tr (h_Name host)) tr' (Some err) l1 →
    allocates hp tr secretName tr' no_requeue (Some err) (l1 ++ l)
| assigns items host tr1 tr' l2 l1 l :
    surveyed hp items l → chosen hp tr items host →
    updates_to (assigned tr (h_Name host)) tr1 None l1 →
    provision_outcome operatorNamespace tr1 secretName (h_Secret host)
      (h_Address host) (h_User host) (targetPlatform hp) "" tr' None l2 →
    allocates hp tr secretName tr' no_requeue None (l2 ++ l1 ++ l)
| rolls_back items host tr1 tr2 tr' err err' l3 l2 l1 l :
    surveyed hp items l → chosen hp tr items host →
    updates_to (assigned tr (h_Name host)) tr1 None l1 →
    provision_outcome operatorNamespace tr1 secretName (h_Secret host)
      (h_Address host) (h_User host) (targetPlatform hp) "" tr2 (Some err) l2 →
    updates_to (unassigned tr2) tr' err' l3 →
    allocates hp tr secretName tr' no_requeue
      (Some (match err' with None => ErrText ("failed to provision host: " +:+ Error err) | Some _ => err end))
      (l3 ++ l2 ++ l1 ++ l).

(** The calls before the first update. *)
Lemma surveyed_list hp items l : surveyed hp items l → A_List (HasLabels [AssignedHost]) (Ok items) ∈ actions l.
Proof. intros [order ->]. right. left. Qed.
Lemma surveyed_quiet hp items l : surveyed hp items l → quiet l.
Proof. intros [order ->]. auto with mpc. Qed.

Lemma some_labels tr : is_Some (tr_Labels tr) → tr_Labels tr = Some (default ∅ (tr_Labels tr)).
Proof. by intros [g ->]. Qed.

(** The two branches of [HostPool.Allocate] that change the TaskRun: no host has a free
    spot, and a host was selected. *)
Definition waits_branch (hp : HostPool) (tr : TaskRun) : mpc (TaskRun * Result * option error) :=
  if String.eqb (label tr WaitingForPlatformLabel) (platformLabel (targetPlatform hp)) then
     mret (tr, no_requeue, None)
   else
     tr ← set_label tr WaitingForPlatformLabel (platformLabel (targetPlatform hp));
     '(tr, err) ← UpdateTaskRunWithRetry tr;
     match err with
     | Some err => mret (tr, no_requeue, Some err)
     | None => mret (tr, requeue_after Minute, None)
     end.
Definition assigns_branch (hp : HostPool) (tr : TaskRun) (secretName : string) (host : Host) : mpc (TaskRun * Result * option error) :=
  tr ← set_label tr AssignedHost (h_Name host);
  let tr := delete_label tr WaitingForPlatformLabel in
  let tr := with_finalizers tr (AddFinalizer (tr_Finalizers tr) PipelineFinalizer).1 in
  '(tr, err) ← UpdateTaskRunWithRetry tr;
  match err with
  | Some err => mret (tr, no_requeue, Some err)
  | None =>
      '(tr, err) ← launchProvisioningTask operatorNamespace tr secretName
          (h_Secret host) (h_Address host) (h_User host) (targetPlatform hp) "";
      match err with
      | None => mret (tr, no_requeue, None)
      | Some err =>
          let tr := delete_label tr AssignedHost in
          let tr := with_finalizers tr (RemoveFinalizer (tr_Finalizers tr) PipelineFinalizer) in
          '(tr, updateErr) ← UpdateTaskRunWithRetry tr;
          match updateErr with
          | Some _ => mret (tr, no_requeue, Some err)
          | None => mret (tr, no_requeue, Some (ErrText ("failed to provision host: " +:+ Error err)))
          end
      end
  end.

(** The branch that marks the task as waiting. *)
Lemma allocate_waits hp tr secretName items m h :
  is_Some (tr_Labels tr) → surveyed hp items h → full hp tr items →
  wp (go_spec m) (waits_branch hp tr) (λ '(tr', res, err) l, allocates hp tr secretName tr' res err l) h.
Proof.
  intros Hl Hh Hfull. unfold waits_branch.
  destruct (String.eqb _ _) eqn:Hw; [apply String.eqb_eq in Hw|apply String.eqb_neq in Hw].
  - apply wp_ret. by eapply still_waiting.
  - apply wp_bind, wp_set_label; [done|]. intros g Hg.
    replace (with_labels tr _) with (waiting tr (targetPlatform hp))
      by (unfold waiting; by rewrite Hg).
    eapply wp_call; [apply wp_updates_to|]. intros [tr' err] l Hu.
    pose proof (starts_waiting hp tr secretName items tr' err l h Hh Hfull Hw Hu) as Hc.
    destruct err; by apply wp_ret.
Qed.

(** The branch that assigns the task to a host. *)
Lemma allocate_assigns hp tr secretName items host m h :
  is_Some (tr_Labels tr) → surveyed hp items h → chosen hp tr items host →
  wp (go_spec m) (assigns_branch hp tr secretName host)
    (λ '(tr', res, err) l, allocates hp tr secretName tr' res err l) h.
Proof.
  intros Hl Hh Hbest. unfold assigns_branch. apply wp_bind, wp_set_label; [done|]. intros g Hg. cbv zeta.
  replace (with_finalizers (delete_label (with_labels tr _) _) _) with (assigned tr (h_Name host))
    by (unfold assigned; by rewrite Hg).
  eapply wp_call; [apply wp_updates_to|]. intros [tr1 err] l Hu.
  destruct err as [err|]; [apply wp_ret; by eapply assign_failed|].
  eapply wp_call; [apply wp_launchProvisioningTask|]. intros [tr2 err] l1 Hp.
  destruct err as [err|]; [|apply wp_ret; by eapply assigns].
  cbv zeta. fold (unassigned tr2). eapply wp_call; [apply wp_updates_to|]. intros [tr3 err'] l0 Hu'.
  pose proof (rolls_back _ _ secretName _ _ _ _ _ _ _ _ _ _ _ Hh Hbest Hu Hp Hu') as Hc.
  destruct err'; by apply wp_ret.
Qed.

(** [HostPool.Allocate] refines its specification. *)
Lemma wp_HostPool_Allocate hp tr secretName :
  is_Some (tr_Labels tr) →
  spec (Allocate operatorNamespace hp tr secretName)
    (λ '(tr', res, err) l, allocates hp tr secretName tr' res err l).
Proof.
  intros Hl m. unfold Allocate. case_bool_decide as Hh; [apply wp_ret; by apply no_hosts|].
  unfold client. apply wp_bind, wp_trigger. intros [items|err] _; [|by apply wp_ret, list_failed].
  apply wp_bind, wp_range. intros keys Hkeys. cbv zeta.
  destruct (select_host_cases hp (Split (annotation tr FailedHosts) ",") (count_assigned items) keys Hkeys)
    as (He & Hf & Hs).
  set (s := select_host _ _ _ _) in *.
  assert (surveyed hp items [Ev (RangeMap (map_to_list (hosts hp)).*1) keys;
                 Ev (Client (List_TaskRuns (HasLabels [AssignedHost]))) (Ok items)]) as Hsur by by exists keys.
  destruct (platformHostsExists s); cbn [negb];
    [|apply wp_ret; eapply no_platform_hosts; [done|intros k v Hc; discriminate (proj2 He ltac:(by exists k, v))]].
  destruct (allPlatformHostsFailed s);
    [apply wp_ret; eapply all_failed; [done|by apply He|by apply Hf]|].
  destruct (selected s) as [host|].
  - by eapply allocate_assigns.
  - by eapply allocate_waits.
Qed.
(** An allocation keeps the TaskRun's name and namespace. *)
Lemma static_allocates_key hp tr sn tr' res err l :
  allocates hp tr sn tr' res err l → ObjectKeyFromObject tr' = ObjectKeyFromObject tr.
Proof.
  destruct 1 as [| | | | |items tr' err l1 l _ _ _ Hs%updates_to_same|items host tr' err l1 l _ _ Hs%updates_to_same
    |items host tr1 tr' l2 l1 l _ _ Hs%updates_to_same Hp%provision_outcome_same
    |items host tr1 tr2 tr' err err' l3 l2 l1 l _ _ Hs%updates_to_same Hp%provision_outcome_same Hs'%updates_to_same]; try done.
  - exact (same_key _ _ Hs).
  - exact (same_key _ _ Hs).
  - etrans; [exact (sbf_key _ _ Hp)|exact (same_key _ _ Hs)].
  - etrans; [exact (same_key _ _ Hs')|]. etrans; [exact (sbf_key _ _ Hp)|exact (same_key _ _ Hs)].
Qed.
End allocate.

(** ** Properties *)

Section assignment.
Context `{K8sLaws} `{RetryLaws}.
Variable operatorNamespace : string.

(** The TaskRun is on a host of the platform that had not failed for it, had fewer of the
    listed tasks than it may run, and as many free spots as any other; this is stored. *)
Definition on_free_host (hp : HostPool) (tr tr' : TaskRun) (l : hist mpcE) : Prop :=
  ∃ items k host, A_List (HasLabels [AssignedHost]) (Ok items) ∈ actions l ∧
    hosts hp !! k = Some host ∧ h_Platform host = targetPlatform hp ∧
    k ∉ Split (annotation tr FailedHosts) "," ∧
    (Z.of_nat (length (filter (λ t, occupies k t = true) items)) < h_Concurrency host)%Z ∧
    (∀ k' host', eligible hp (Split (annotation tr FailedHosts) ",") k' host' →
       (h_Concurrency host' - Z.of_nat (length (filter (λ t, occupies k' t = true) items)) ≤
        h_Concurrency host - Z.of_nat (length (filter (λ t, occupies k t = true) items)))%Z) ∧
    label tr' AssignedHost = h_Name host ∧ stored (assigned tr (h_Name host)) l.

Lemma allocates_on_free_host hp tr secretName tr' res l :
  label tr AssignedHost = "" → label tr' AssignedHost ≠ "" →
  allocates operatorNamespace hp tr secretName tr' res None l → on_free_host hp tr tr' l.
Proof.
  intros Htr Htr' Ha. inversion Ha as [| | | |items l' Hsur|items tr'' err l1 l2 Hsur Hfull Hw Hu%updates_to_same|
    |items host tr1 tr'' l3 l2 l1 Hsur [k [[[Hk Hp] Hf] [Hfree Hmax]]] Hu Hprov%provision_outcome_same|]; subst; [done|..].
  - destruct Htr'. rewrite (label_same _ _ _ (same_labels _ _ Hu)). by rewrite assigned_label_waiting.
  - exists items, k, host. unfold free_spots in *. setoid_rewrite count_assigned_spec in Hmax. rewrite count_assigned_spec in Hfree.
    split_and!; [do 2 (apply elem_of_actions_app; right); by eapply surveyed_list|done..|lia|done| |].
    + rewrite (label_same _ _ _ (sbf_labels _ _ Hprov)), (label_same _ _ _ (same_labels _ _ (updates_to_same _ _ _ _ Hu))).
      apply label_assigned.
    + by eapply stored_app_r, stored_app, updates_to_stored.
Qed.
End assignment.


(** C5. A TaskRun that an allocation puts on a static host is on a host of its platform
    that has not failed for it, on which fewer of the tasks that the API server listed
    run than it may run at once, and no eligible host has more free spots; the assignment
    was accepted by the API server. *)
Theorem HostPool_assigns_free_host `{K8sLaws} `{RetryLaws} operatorNamespace hp tr secretName :
  is_Some (tr_Labels tr) → label tr AssignedHost = "" →
  spec (HostPool.Allocate operatorNamespace hp tr secretName) (λ '(tr', res, err) l,
    err = None → label tr' AssignedHost ≠ "" → on_free_host hp tr tr' l).
Proof.
  intros Hl Ha m. eapply wp_mono; [|by apply wp_HostPool_Allocate].
  intros [[tr' res] err] l Hall -> Htr'. by eapply allocates_on_free_host.
Qed.

(** A pool of two hosts, for the examples. *)
Definition example_host (name : string) (concurrency : Z) : Host :=
  {| h_Address := "10.0.0.1"; h_Name := name; h_User := "ec2-user"; h_Concurrency := concurrency;
     h_Platform := "linux/arm64"; h_Secret := "awskeys"; h_StartTime := None |}.
Definition example_pool : HostPool :=
  {| hosts := {["a" := example_host "a" 2; "b" := example_host "b" 4]}; targetPlatform := "linux/arm64" |}.

#[local] Existing Instances example_k8s example_k8s_laws example_retry example_retry_laws.


Lemma HostPool_assigns_free_host_witness :
  spec (HostPool.Allocate "mpc" example_pool example_task "ssh") (λ '(tr', res, err) l,
    err = None → label tr' AssignedHost ≠ "" → on_free_host example_pool example_task tr' l).
Proof. apply HostPool_assigns_free_host; [by eexists|reflexivity]. Defined.
