(* ===== verification/DynamicFacts.v ===== *)
(** * The allocation of cloud instances: [DynamicResolver.Allocate] as a refinement of the
      relation [allocates], and what follows for the instances *)
From S2P Require Import Prelude GoLib GoStrings Prog Kube Cloud Effects Metrics Update Provision Dynamics.
From S2P Require Import Trace UpdateFacts ProvisionFacts.
Import DynamicResolver.

(** Of the calls that are not [plain], [a] is the only one, and [before] holds of those
    made before it. *)
Definition does (a : action) (before : list action → Prop) (l : hist mpcE) : Prop :=
  ∃ l1 l2, actions l = l1 ++ a :: l2 ∧ Forall plain l1 ∧ Forall plain l2 ∧ before l2.
Definition whatever (l : list action) : Prop := True.

Lemma does_after a before l h : quiet l → does a before h → does a before (l ++ h).
Proof.
  intros Hl (l1 & l2 & Hh & ? & ? & ?). exists (actions l ++ l1), l2.
  rewrite actions_app, Hh, <- app_assoc. split_and!; [done|by apply Forall_app_2|done..].
Qed.

Lemma does_now ev before h : quiet h → before (actions h) → does (action_of ev) before (ev :: h).
Proof. intros. exists [], (actions h). by repeat constructor. Qed.

Lemma does_before a (P Q : list action → Prop) l h :
  does a P l → quiet h → (∀ l2, P l2 → Q (l2 ++ actions h)) → does a Q (l ++ h).
Proof.
  intros (l1 & l2 & Hl & ? & ? & ?) Hh HQ. exists l1, (l2 ++ actions h).
  rewrite actions_app, Hl, <- app_assoc. split_and!; [done..|by apply Forall_app_2|by apply HQ].
Qed.

Lemma does_whatever a l h : does a whatever l → quiet h → does a whatever (l ++ h).
Proof. intros Hd Hh. by eapply does_before; [..|intros; exact I]. Qed.

(** With any call that is not plain before it. *)
Lemma does_elem a before l b : does a before l → b ∈ actions l → ¬ plain b → b = a.
Proof.
  intros (l1 & l2 & -> & H1 & H2 & _) Hin Hb.
  apply elem_of_app in Hin as [Hin|[->|Hin]%elem_of_cons]; [|done|].
  - destruct Hb. exact (proj1 (Forall_forall _ _) H1 _ Hin).
  - destruct Hb. exact (proj1 (Forall_forall _ _) H2 _ Hin).
Qed.

Section dynamic.
Context `{K8sLaws} `{RetryLaws}.
Variable operatorNamespace : string.
Variable r : DynamicResolver.

(** [tr] with annotations. *)
Definition annotated (tr : TaskRun) : TaskRun := with_annotations tr (make_if_nil (tr_Annotations tr)).
Definition annotate (tr : TaskRun) (k v : string) : TaskRun :=
  with_annotations tr (Some (<[k := v]> (default ∅ (tr_Annotations tr)))).
Definition mark (tr : TaskRun) (k v : string) : TaskRun :=
  with_labels tr (Some (<[k := v]> (default ∅ (tr_Labels tr)))).

(** [tr] assigned to the instance it has, at an address. *)
Definition assigned_at (tr : TaskRun) (address : string) : TaskRun :=
  annotate (mark tr AssignedHost (annotation tr CloudInstanceId)) CloudAddress address.

(** [tr] when an instance is asked for, at time [t]. *)
Definition launching (tr : TaskRun) (t : Z) : TaskRun :=
  annotate (delete_label tr WaitingForPlatformLabel) AllocationStartTimeAnnotation (Itoa (Unix t)).
(** [tr] with the instance it got. *)
Definition recorded (tr : TaskRun) (instance : string) : TaskRun :=
  let tr := mark (annotate tr CloudInstanceId instance) CloudDynamicPlatform (platformLabel (dr_platform r)) in
  with_finalizers tr (AddFinalizer (tr_Finalizers tr) PipelineFinalizer).1.
Definition taskRunID (tr : TaskRun) : string := tr_Namespace tr +:+ ":" +:+ tr_Name tr.

(** The instance of [tr] was asked to terminate, and [tr] unassigned; it keeps the
    instance when the request failed. *)
Record released (tr tr' : TaskRun) (l : hist mpcE) : Prop := {
  rel_key : ObjectKeyFromObject tr' = ObjectKeyFromObject tr;
  rel_labels : tr_Labels tr' = map_delete (tr_Labels tr) AssignedHost;
  rel_annotations : is_Some (tr_Annotations tr) → is_Some (tr_Annotations tr');
  rel_instance : ∃ res, does (A_Terminate (dr_CloudProvider r) (annotation tr CloudInstanceId) res) whatever l ∧
    annotation tr' CloudInstanceId = match res with Ok _ => "" | Err _ => annotation tr CloudInstanceId end
}.

Lemma released_before tr tr' l h : released tr tr' l → quiet h → released tr tr' (l ++ h).
Proof.
  intros [Hk Hl Ha (res & Hd & Hi)] Hq. split; [done..|]. exists res. split; [|done]. by apply does_whatever.
Qed.

(** An event that is recorded for the user. *)
Definition remark (ev : event mpcE) : Prop := match ev_req ev with RecordEvent _ _ _ _ => True | _ => False end.

Lemma remark_quiet ev l : remark ev → quiet l → quiet (ev :: l).
Proof. destruct ev as [X e x]. intros He. destruct e; try done. by apply quiet_cons. Qed.
Lemma remarks_quiet l : Forall remark l → quiet l.
Proof. induction 1; [apply quiet_nil|by apply remark_quiet]. Qed.

(** [tr] without its assignment, and without its instance when that terminates. *)
Definition given_up (tr : TaskRun) (res : result unit) : TaskRun :=
  delete_annotation
    (delete_label (match res with Ok _ => delete_annotation tr CloudInstanceId | Err _ => tr end) AssignedHost)
    CloudDynamicPlatform.

(** The instance of [tr] is asked to terminate, and what is left of the TaskRun is sent. *)
Inductive gives_up (tr tr' : TaskRun) : hist mpcE → Prop :=
| given_up_at res err lr l :
    Forall remark lr → updates_to (given_up tr res) tr' err l →
    gives_up tr tr' (l ++ lr ++ [Ev (Cloud (dr_CloudProvider r) (TerminateInstance (annotation tr CloudInstanceId))) res]).

Lemma wp_terminate_and_unassign tr report :
  spec (report tr) (λ _ l, Forall remark l) →
  spec (terminate_and_unassign r tr report) (λ tr' l, gives_up tr tr' l).
Proof.
  intros Hrep m. unfold terminate_and_unassign, cloud. apply wp_bind, wp_trigger. intros res _.
  set (ev := Ev _ res). apply wp_bind.
  eapply (wp_mono _ _ (λ tr1 l, ∃ lr, Forall remark lr ∧ l = lr ++ [ev] ∧
    tr1 = match res with Ok _ => delete_annotation tr CloudInstanceId | Err _ => tr end)).
  - intros tr1 l (lr & Hlr & -> & ->). eapply wp_call; [apply wp_updates_to|].
    intros [tr' err] l Hu. apply wp_ret. by apply (given_up_at _ _ res err lr l).
  - destruct res; [apply wp_ret; by exists []|].
    eapply wp_call; [apply Hrep|]. intros [] lr Hlr. apply wp_ret. by exists lr.
Qed.

Lemma gives_up_released tr tr' l : gives_up tr tr' l → released tr tr' l.
Proof.
  intros [res err lr l' Hlr Hu]. pose proof (updates_to_quiet _ _ _ _ Hu) as Hq. apply remarks_quiet in Hlr.
  apply updates_to_same in Hu as [Hk Hl Ha _ _ _]. set (ev := Ev _ res).
  assert (does (action_of ev) whatever (l' ++ lr ++ [ev])) as Hd.
  { do 2 (apply does_after; [done|]). apply does_now; [apply quiet_nil|exact I]. }
  unfold given_up in *. destruct res as [u|e]; (split; [by rewrite Hk|by rewrite Hl|rewrite Ha|]).
  - intros Hs. do 2 apply (annotations_delete). done.
  - exists (Ok u). split; [done|]. rewrite (annotation_same _ _ _ Ha).
    rewrite !annotation_delete_annotation. rewrite decide_False by differ.
    etrans; [apply (annotation_delete_annotation tr)|]. by rewrite decide_True.
  - intros Hs. by apply (annotations_delete).
  - exists (Err e). split; [done|]. rewrite (annotation_same _ _ _ Ha).
    rewrite annotation_delete_annotation. by rewrite decide_False by differ.
Qed.

Lemma wp_report_nothing tr : spec (report_nothing tr) (λ _ l, Forall remark l).
Proof. intros m. apply wp_ret. constructor. Qed.
Lemma wp_report_terminate_failed tr : spec (report_terminate_failed r tr) (λ _ l, Forall remark l).
Proof. intros m. apply wp_trigger. intros u _. by repeat constructor. Qed.

(** The number of failures an annotation records, as [Allocate] reads it. *)
Definition failures (tr : TaskRun) : result Z :=
  if String.eqb (annotation tr CloudFailures) "" then Ok 0%Z else Atoi (annotation tr CloudFailures).

(** An instance was launched, for this task, after a count below the maximum. *)
Definition launches (tr : TaskRun) (res : result string) (l : hist mpcE) : Prop :=
  does (A_Launch (dr_CloudProvider r) (taskRunID tr) (dr_instanceTag r) res)
    (λ before, ∃ n, A_Count (dr_CloudProvider r) (dr_instanceTag r) (Ok n) ∈ before ∧ (n < dr_maxInstances r)%Z) l.

(** The test of the allocation's deadline: whether the clock has passed it. *)
Inductive clock_checked (tr : TaskRun) : bool → hist mpcE → Prop :=
| no_deadline :
    annotation tr AllocationStartTimeAnnotation = "" ∨ annotation tr CloudInstanceId = "" ∨
    (∃ err, ParseInt (annotation tr AllocationStartTimeAnnotation) 64 = Err err) →
    clock_checked tr false []
| deadline start t :
    annotation tr AllocationStartTimeAnnotation ≠ "" → annotation tr CloudInstanceId ≠ "" →
    ParseInt (annotation tr AllocationStartTimeAnnotation) 64 = Ok start →
    clock_checked tr (wrap64 (start + dr_timeout r) <? Unix t)%Z [Ev Now t].

(** In time, the provider was asked for the address of the TaskRun's instance. *)
Definition asked_address (tr : TaskRun) (answer : result string) (l : hist mpcE) : Prop :=
  annotation tr CloudInstanceId ≠ "" ∧
  ∃ l0, clock_checked tr false l0 ∧
    l = Ev (Cloud (dr_CloudProvider r) (GetInstanceAddress (annotation tr CloudInstanceId))) answer :: l0.
(** It was then asked for its state. *)
Definition asked_state (tr : TaskRun) (answer : result VMState) (l : hist mpcE) : Prop :=
  ∃ l0, asked_address tr (Ok "") l0 ∧
    l = Ev (Cloud (dr_CloudProvider r) (GetState (annotation tr CloudInstanceId))) answer :: l0.
(** For a TaskRun without an instance, the instances of the platform were counted. *)
Definition counted (tr : TaskRun) (answer : result Z) (l : hist mpcE) : Prop :=
  annotation tr CloudInstanceId = "" ∧ l = [Ev (Cloud (dr_CloudProvider r) (CountInstances (dr_instanceTag r))) answer].
(** There were fewer than the maximum, and one was asked for at time [t]. *)
Definition asked_instance (tr : TaskRun) (t : Z) (answer : result string) (l : hist mpcE) : Prop :=
  ∃ n ev tags tags' l0, counted tr (Ok n) l0 ∧ (n < dr_maxInstances r)%Z ∧ remark ev ∧
    l = [Ev (Mem (Write_tags (dr_additionalInstanceTags r) tags')) tt;
         Ev (Cloud (dr_CloudProvider r) (LaunchInstance (taskRunID tr) (dr_instanceTag r) tags)) (tags', answer);
         Ev (Mem (Read_tags (dr_additionalInstanceTags r))) tags; ev; Ev Now t] ++ l0.

(** The provisioning of the instance at an address, when [tr1] was stored. *)
Abbreviation instance_provisioned tr1 secretName address :=
  (provision_outcome operatorNamespace tr1 secretName (dr_sshSecret r) address
     (SshUser (dr_CloudProvider r)) (dr_platform r) (dr_sudoCommands r)).

(** The specification of an allocation of [tr], which has annotations, with every call:
    the TaskRun as it is left, the result, the error and the calls, the last one first. *)
Inductive allocates (tr : TaskRun) (secretName : string) :
    TaskRun → Result → option error → hist mpcE → Prop :=
| timed_out tr' l l0 :
    clock_checked tr true l0 → gives_up tr tr' l →
    allocates tr secretName tr' no_requeue (Some (ErrText "timed out waiting for instance address")) (l ++ l0)
| address_error err tr' l l0 :
    asked_address tr (Err err) l0 → gives_up tr tr' l →
    allocates tr secretName tr' no_requeue (Some err) (l ++ l0)
| assign_failed address err tr' l l0 :
    asked_address tr (Ok address) l0 → address ≠ "" →
    updates_to (assigned_at tr address) tr' (Some err) l →
    allocates tr secretName tr' no_requeue (Some err) (l ++ l0)
| provisions address tr1 tr' ev l2 l1 l0 :
    asked_address tr (Ok address) l0 → address ≠ "" →
    updates_to (assigned_at tr address) tr1 None l1 → remark ev →
    instance_provisioned tr1 secretName address tr' None l2 →
    allocates tr secretName tr' no_requeue None (l2 ++ ev :: l1 ++ l0)
| provisioning_failed address tr1 tr2 tr' err ev l3 l2 l1 l0 :
    asked_address tr (Ok address) l0 → address ≠ "" →
    updates_to (assigned_at tr address) tr1 None l1 → remark ev →
    instance_provisioned tr1 secretName address tr2 (Some err) l2 → gives_up tr2 tr' l3 →
    allocates tr secretName tr' no_requeue (Some err) (l3 ++ l2 ++ ev :: l1 ++ l0)
| state_unknown err l :
    asked_state tr (Err err) l →
    allocates tr secretName tr (requeue_after (10 * Second)) None l
| awaits_address s l :
    asked_state tr (Ok s) l → s ≠ FailedState →
    allocates tr secretName tr (requeue_after (wrap64 (dr_checkInterval r * Second))) None l
| instance_failed tr' l l0 :
    asked_state tr (Ok FailedState) l0 → gives_up tr tr' l →
    allocates tr secretName tr' (requeue_after (wrap64 (dr_checkInterval r * Second))) None (l ++ l0)
| count_failed err l :
    counted tr (Err err) l → allocates tr secretName tr no_requeue (Some err) l
| still_waiting n ev l :
    counted tr (Ok n) l → (dr_maxInstances r ≤ n)%Z → remark ev →
    label tr WaitingForPlatformLabel = platformLabel (dr_platform r) →
    allocates tr secretName tr (requeue_after Minute) None (ev :: l)
| starts_waiting n ev tr' err l1 l :
    counted tr (Ok n) l → (dr_maxInstances r ≤ n)%Z → remark ev →
    label tr WaitingForPlatformLabel ≠ platformLabel (dr_platform r) →
    updates_to (mark tr WaitingForPlatformLabel (platformLabel (dr_platform r))) tr' err l1 →
    allocates tr secretName tr' (requeue_after Minute) None (l1 ++ ev :: l)
| launch_failures_unread t err err' l :
    asked_instance tr t (Err err) l → failures tr = Err err' →
    allocates tr secretName (launching tr t) no_requeue (Some err') l
| launch_fails_again t err l :
    asked_instance tr t (Err err) l → failures tr = Ok 2%Z →
    allocates tr secretName (launching tr t) no_requeue (Some err) l
| launch_fails t err f tr' err' l1 l :
    asked_instance tr t (Err err) l → failures tr = Ok f → f ≠ 2%Z →
    updates_to (annotate (launching tr t) CloudFailures (Itoa (wrap64 (f + 1)))) tr' err' l1 →
    allocates tr secretName tr' (requeue_after (20 * Second)) None (l1 ++ l)
| launches_instance t instance tr' ev l1 l :
    asked_instance tr t (Ok instance) l → remark ev →
    updates_to (recorded (launching tr t) instance) tr' None l1 →
    allocates tr secretName tr' (requeue_after (2 * Minute)) None (l1 ++ ev :: l)
| launch_unrecorded t instance tr' err res ev l1 l :
    asked_instance tr t (Ok instance) l → remark ev →
    updates_to (recorded (launching tr t) instance) tr' (Some err) l1 →
    allocates tr secretName tr' no_requeue (Some err)
      ([Ev (Cloud (dr_CloudProvider r) (TerminateInstance instance)) res] ++ l1 ++ ev :: l).

(** What these say of the calls. *)
Lemma clock_checked_quiet tr b l : clock_checked tr b l → quiet l.
Proof. intros []; auto with mpc. Qed.
Lemma asked_address_quiet tr a l : asked_address tr a l → quiet l.
Proof. intros (_ & l0 & Hl%clock_checked_quiet & ->). auto with mpc. Qed.
Lemma asked_state_quiet tr a l : asked_state tr a l → quiet l.
Proof. intros (l0 & Hl%asked_address_quiet & ->). auto with mpc. Qed.
Lemma asked_state_instance tr a l : asked_state tr a l → annotation tr CloudInstanceId ≠ "".
Proof. by intros (l0 & [Hi _] & _). Qed.
Lemma counted_quiet tr a l : counted tr a l → quiet l.
Proof. intros [_ ->]. auto with mpc. Qed.
Lemma clock_passed tr l : clock_checked tr true l → annotation tr CloudInstanceId ≠ "".
Proof. by inversion 1. Qed.

Lemma asked_instance_launches tr t a l : asked_instance tr t a l → annotation tr CloudInstanceId = "" ∧ launches tr a l.
Proof.
  intros (n & ev & tags & tags' & l0 & [Hi ->] & Hn & Hev & ->). split; [done|].
  assert (quiet [ev]) as Hq by (apply remark_quiet; [done|apply quiet_nil]).
  exists [A_Other], ([A_Other] ++ actions [ev] ++ [A_Now t; A_Count (dr_CloudProvider r) (dr_instanceTag r) (Ok n)]).
  split_and!; [done|by repeat constructor| |].
  - apply Forall_app_2; [by repeat constructor|]. apply Forall_app_2; [exact Hq|by repeat constructor].
  - exists n. split; [|done]. do 2 (apply elem_of_app; right). right. left.
Qed.

Lemma wp_allocation_timed_out tr : spec (allocation_timed_out r tr) (λ b l, clock_checked tr b l).
Proof.
  intros m. unfold allocation_timed_out.
  destruct (_ || _) eqn:Hb.
  - apply wp_ret, no_deadline. apply orb_true_iff in Hb as [Hb%String.eqb_eq|Hb%String.eqb_eq]; auto.
  - apply orb_false_iff in Hb as [Hs%String.eqb_neq Hi%String.eqb_neq].
    destruct (ParseInt _ _) as [start|err] eqn:Hp; [|apply wp_ret, no_deadline; eauto].
    unfold now. apply wp_bind, wp_trigger. intros t _. by apply wp_ret, deadline.
Qed.

Lemma mark_eq tr k v g : tr_Labels tr = Some g → with_labels tr (Some (<[k:=v]> g)) = mark tr k v.
Proof. unfold mark. by intros ->. Qed.
Lemma annotate_eq tr k v g : tr_Annotations tr = Some g → with_annotations tr (Some (<[k:=v]> g)) = annotate tr k v.
Proof. unfold annotate. by intros ->. Qed.

(** The branch in which the instance has an address. *)
Lemma allocate_provisions tr secretName address m h :
  is_Some (tr_Labels tr) → is_Some (tr_Annotations tr) → asked_address tr (Ok address) h → address ≠ "" →
  wp (go_spec m) (provision_instance operatorNamespace r tr secretName address)
    (λ '(tr', res, err) l, allocates tr secretName tr' res err l) h.
Proof.
  intros Hl Ha Hh Had. unfold provision_instance.
  apply wp_bind, wp_set_label; [done|]. intros g Hg. rewrite (mark_eq _ _ _ _ Hg).
  apply wp_bind, wp_set_annotation; [done|]. intros g' Hg'. rewrite (annotate_eq _ _ _ _ Hg').
  fold (assigned_at tr address).
  eapply wp_call; [apply wp_updates_to|]. intros [tr1 err] l Hu.
  destruct err as [err|]; [apply wp_ret; by eapply assign_failed|].
  unfold recordEvent. apply wp_bind, wp_trigger. intros u _. set (ev := Ev _ u).
  eapply wp_call; [apply wp_launchProvisioningTask|]. intros [tr2 err] l1 Hp.
  destruct err as [err|]; [|apply wp_ret; by eapply provisions].
  eapply wp_call; [apply wp_terminate_and_unassign, wp_report_nothing|].
  intros tr3 l0 Hr. apply wp_ret. by eapply provisioning_failed.
Qed.

(** The branch for a task that has an instance. *)
Lemma allocate_continues tr secretName m h :
  is_Some (tr_Labels tr) → is_Some (tr_Annotations tr) → annotation tr CloudInstanceId ≠ "" → clock_checked tr false h →
  wp (go_spec m) (continue_instance operatorNamespace r tr secretName)
    (λ '(tr', res, err) l, allocates tr secretName tr' res err l) h.
Proof.
  intros Hl Ha Hi Hh. unfold continue_instance, cloud. apply wp_bind, wp_trigger. intros a _.
  set (h' := Ev _ a :: h). assert (asked_address tr a h') as Hasked by (split; [done|by exists h]).
  clearbody h'. clear h Hh. destruct a as [address|err].
  - destruct (String.eqb address "") eqn:Had; cbn [negb];
      [apply String.eqb_eq in Had as ->|apply String.eqb_neq in Had; by apply allocate_provisions].
    unfold await_address, cloud. apply wp_bind, wp_trigger. intros s _.
    set (h := Ev _ s :: h'). assert (asked_state tr s h) as Hs by by exists h'. clearbody h.
    destruct s as [s|err]; [destruct s|]; try by apply wp_ret; eapply awaits_address.
    + eapply wp_call; [apply wp_terminate_and_unassign, wp_report_terminate_failed|].
      intros tr' l Hr. by apply wp_ret, instance_failed.
    + by apply wp_ret, (state_unknown _ _ err).
  - eapply wp_call; [apply wp_terminate_and_unassign, wp_report_terminate_failed|].
    intros tr' l Hr. by apply wp_ret, address_error.
Qed.

(** What happens when the launch fails. *)
Lemma allocate_launch_failed tr t secretName err m h :
  is_Some (tr_Annotations tr) → asked_instance tr t (Err err) h →
  wp (go_spec m) (launch_failed (launching tr t) err)
    (λ '(tr', res, err) l, allocates tr secretName tr' res err l) h.
Proof.
  intros Ha Hd. unfold launch_failed.
  assert (annotation (launching tr t) CloudFailures = annotation tr CloudFailures) as Hf.
  { unfold launching, annotate, annotation at 1. change (tr_Annotations (delete_label _ _)) with (tr_Annotations tr).
    etrans; [apply sget_insert|]. rewrite decide_False by differ.
    unfold annotation, map_get. by destruct (tr_Annotations tr). }
  rewrite Hf. fold (failures tr).
  destruct (failures tr) as [f|e] eqn:Hfail; [|by eapply wp_ret, launch_failures_unread].
  destruct (Z.eqb_spec f 2) as [->|Hne]; [by apply wp_ret; eapply launch_fails_again|].
  apply wp_bind, wp_set_annotation; [by eexists|]. intros g Hg. rewrite (annotate_eq _ _ _ _ Hg).
  eapply wp_call; [apply wp_updates_to|]. intros [tr1 err'] l Hu.
  apply wp_ret. by eapply launch_fails.
Qed.

(** The branch that asks for an instance. *)
Lemma allocate_launches tr secretName n m h :
  is_Some (tr_Labels tr) → is_Some (tr_Annotations tr) → counted tr (Ok n) h → (n < dr_maxInstances r)%Z →
  wp (go_spec m) (launch_instance r tr n) (λ '(tr', res, err) l, allocates tr secretName tr' res err l) h.
Proof.
  intros Hl Ha Hh Hn. unfold launch_instance, now, recordEvent. cbv zeta.
  apply wp_bind, wp_trigger. intros t _.
  apply wp_bind, wp_set_annotation; [done|]. intros g Hg. rewrite (annotate_eq _ _ _ _ Hg).
  fold (launching tr t). apply wp_bind, wp_trigger. intros u _.
  unfold launch, mem, cloud. do 2 apply wp_bind. apply wp_trigger. intros tags _. apply wp_bind, wp_trigger.
  intros [tags' instance] _. apply wp_bind, wp_trigger. intros [] _. apply wp_ret.
  match goal with |- wp _ _ _ ?h' => assert (asked_instance tr t instance h') as Hd end.
  { eexists n, (Ev (RecordEvent _ _ _ _) u), tags, tags', h. by split_and!. }
  revert Hd. generalize (Ev (Mem (Write_tags (dr_additionalInstanceTags r) tags')) tt). intros ev0 Hd.
  match goal with |- wp _ _ _ ?h' => generalize dependent h' end. clear h Hh ev0 Hn. intros h Hd.
  destruct instance as [instance|err]; [|by apply allocate_launch_failed].
  apply wp_bind, wp_trigger. intros u' _. set (ev := Ev _ u').
  apply wp_bind, wp_set_annotation; [by eexists|]. intros g1 Hg1. rewrite (annotate_eq _ _ _ _ Hg1).
  apply wp_bind, wp_set_label; [by apply fmap_is_Some|]. intros g2 Hg2. rewrite (mark_eq _ _ _ _ Hg2).
  cbv zeta. fold (recorded (launching tr t) instance).
  eapply wp_call; [apply wp_updates_to|]. intros [tr1 err] l1 Hu.
  destruct err as [err|]; [|apply wp_ret; by eapply launches_instance].
  apply wp_bind, wp_trigger. intros res _. apply wp_ret. by eapply (launch_unrecorded _ _ _ _ _ _ res ev).
Qed.

(** The branch at the maximum of instances. *)
Lemma allocate_at_capacity tr secretName n m h :
  is_Some (tr_Labels tr) → counted tr (Ok n) h → (dr_maxInstances r ≤ n)%Z →
  wp (go_spec m) (wait_for_capacity r tr n) (λ '(tr', res, err) l, allocates tr secretName tr' res err l) h.
Proof.
  intros Hl Hh Hn. unfold wait_for_capacity, recordEvent. apply wp_bind, wp_trigger. intros u _.
  destruct (String.eqb _ _) eqn:Hw; [apply String.eqb_eq in Hw|apply String.eqb_neq in Hw].
  - apply wp_ret. by eapply still_waiting.
  - apply wp_bind, wp_set_label; [done|]. intros g Hg. rewrite (mark_eq _ _ _ _ Hg).
    eapply wp_call; [apply wp_updates_to|]. intros [tr1 err] l Hu. apply wp_ret. by eapply starts_waiting.
Qed.

(** [DynamicResolver.Allocate] refines its specification. *)
Lemma wp_Dynamic_Allocate tr secretName :
  is_Some (tr_Labels tr) →
  spec (Allocate operatorNamespace r tr secretName) (λ '(tr', res, err) l,
    if String.eqb (annotation tr FailedHosts) "" then allocates (annotated tr) secretName tr' res err l
    else tr' = tr ∧ res = no_requeue ∧ err = Some (ErrText "failed to provision host") ∧ l = []).
Proof.
  intros Hl m. unfold Allocate. destruct (String.eqb (annotation tr FailedHosts) ""); cbn [negb]; [|by apply wp_ret].
  cbv zeta. fold (annotated tr).
  assert (is_Some (tr_Labels (annotated tr))) as Hl' by done.
  assert (is_Some (tr_Annotations (annotated tr))) as Ha by by eexists.
  generalize dependent (annotated tr). clear tr Hl. intros tr Hl Ha.
  eapply wp_call; [apply wp_allocation_timed_out|]. intros b l Hb. rewrite app_nil_r.
  destruct b.
  { eapply wp_call; [apply wp_terminate_and_unassign, wp_report_nothing|]. intros tr' l' Hr.
    by apply wp_ret, timed_out. }
  destruct (String.eqb (annotation tr CloudInstanceId) "") eqn:Hi; cbn [negb];
    [apply String.eqb_eq in Hi|apply String.eqb_neq in Hi; by apply allocate_continues].
  assert (l = []) as -> by by inversion Hb.
  unfold cloud. apply wp_bind, wp_trigger. intros a _.
  set (h := [Ev _ a]). assert (counted tr a h) as Hc by done. clearbody h.
  destruct a as [n|err]; [|by apply wp_ret, count_failed].
  destruct (dr_maxInstances r <=? n)%Z eqn:Hn; [apply Z.leb_le in Hn|apply Z.leb_gt in Hn].
  - by apply allocate_at_capacity.
  - by apply allocate_launches.
Qed.
End dynamic.

(** ** Properties *)

(** The number of instances that were asked for. *)
Fixpoint launch_count (l : list action) : nat :=
  match l with
  | [] => 0
  | A_Launch _ _ _ _ :: l => S (launch_count l)
  | _ :: l => launch_count l
  end.

Lemma launch_count_app l l' : launch_count (l ++ l') = launch_count l + launch_count l'.
Proof. induction l as [|[] l IH]; simpl; auto. Qed.
Lemma launch_count_plain l : Forall plain l → launch_count l = 0.
Proof. induction 1 as [|[] l Ha _ IH]; simpl in *; done. Qed.
Lemma launch_count_does a before l : does a before l → launch_count (actions l) = launch_count [a].
Proof.
  intros (l1 & l2 & -> & H1 & H2 & _). rewrite launch_count_app, (launch_count_plain l1) by done.
  destruct a; simpl; by rewrite (launch_count_plain l2).
Qed.

(** Of the calls [l], only [a] may be other than plain. *)
Definition only (P : action → Prop) (l : hist mpcE) : Prop := ∀ a, a ∈ actions l → plain a ∨ P a.

Lemma only_quiet P l : quiet l → only P l.
Proof. intros Hq a Hin. left. exact (proj1 (Forall_forall _ _) Hq a Hin). Qed.
Lemma only_does (P : action → Prop) a before l : does a before l → P a → only P l.
Proof.
  intros (l1 & l2 & Hl & H1 & H2 & _) Ha b. rewrite Hl, elem_of_app, elem_of_cons.
  intros [Hb|[->|Hb]]; [left|by right|left]; by eapply Forall_forall in Hb; [..|eassumption].
Qed.
Lemma only_app P l h : only P l → only P h → only P (l ++ h).
Proof. intros Hl Hh a [?|?]%elem_of_actions_app; auto. Qed.
Lemma only_mono (P Q : action → Prop) l : only P l → (∀ a, P a → Q a) → only Q l.
Proof. intros Hl HPQ a Hin. destruct (Hl a Hin); auto. Qed.

Section launches.
Context `{K8sLaws} `{RetryLaws}.
Variables (operatorNamespace : string) (r : DynamicResolver).

(** A provisioning task is created, and nothing else. *)
Definition creates (a : action) : Prop := ∃ t res, a = A_Create t res.
(** The instance a TaskRun has is terminated. *)
Definition terminates (instance : string) (a : action) : Prop :=
  ∃ res, a = A_Terminate (dr_CloudProvider r) instance res.

Lemma provision_outcome_only tr sn ssh a u p sudo tr' err l :
  provision_outcome operatorNamespace tr sn ssh a u p sudo tr' err l → only creates l.
Proof.
  intros Hp x Hin. destruct (provision_outcome_actions _ _ _ _ _ _ _ _ _ _ _ x Hp Hin) as [?|(it & res & ->)];
    [by left|right; by eexists _, _].
Qed.
Lemma released_only tr tr' l : released r tr tr' l → only (terminates (annotation tr CloudInstanceId)) l.
Proof. intros [_ _ _ (res & Hd & _)]. eapply only_does; [done|]. by exists res. Qed.

(** Calls that ask for no instance. *)
Definition no_launch (a : action) : Prop := creates a ∨ ∃ i, terminates i a.

Lemma provision_no_launch tr sn ssh a u p sudo tr' err l :
  provision_outcome operatorNamespace tr sn ssh a u p sudo tr' err l → only no_launch l.
Proof. intros Hp. eapply only_mono; [by eapply provision_outcome_only|]. by left. Qed.
Lemma released_no_launch tr tr' l : released r tr tr' l → only no_launch l.
Proof. intros Hr. eapply only_mono; [by eapply released_only|]. right. by eexists. Qed.

Lemma launch_count_no_launch a : no_launch a → launch_count [a] = 0.
Proof. by intros [(? & ? & ->)|(? & ? & ->)]. Qed.

Lemma launch_count_only l : only no_launch l → launch_count (actions l) = 0.
Proof.
  unfold only. induction (actions l) as [|a al IH]; intros Ho; [done|].
  change (a :: al) with ([a] ++ al). rewrite launch_count_app, IH by (intros b Hb; apply Ho; by right).
  destruct (Ho a) as [Ha|Ha]; [left|by rewrite (launch_count_plain [a]); [|repeat constructor]|by rewrite launch_count_no_launch].
Qed.

Lemma no_launch_only p id tag res l : only no_launch l → A_Launch p id tag res ∉ actions l.
Proof. intros Ho Hin. by destruct (Ho _ Hin) as [[]|Hp%launch_count_no_launch]. Qed.

Lemma annotation_assigned_at tr address : annotation (assigned_at tr address) CloudInstanceId = annotation tr CloudInstanceId.
Proof.
  unfold assigned_at, annotate, annotation at 1, map_get. simpl. rewrite lookup_insert_ne by differ.
  unfold annotation, map_get. change (tr_Annotations (mark tr _ _)) with (tr_Annotations tr). by destruct (tr_Annotations tr).
Qed.

(** What an allocation that asks for an instance does, and what becomes of the instance. *)
Record launch_accounted (tr : TaskRun) (l : hist mpcE) (p : CloudProvider) (id tag : string) (res : result string) : Prop := {
  la_request : p = dr_CloudProvider r ∧ id = taskRunID tr ∧ tag = dr_instanceTag r;
  la_no_instance : annotation tr CloudInstanceId = "";
  la_capacity : ∃ n, A_Count (dr_CloudProvider r) (dr_instanceTag r) (Ok n) ∈ actions l ∧ (n < dr_maxInstances r)%Z;
  la_kept : ∀ instance, res = Ok instance →
    (∃ t, stored (recorded r (launching tr t) instance) l) ∨
    ∃ res', A_Terminate (dr_CloudProvider r) instance res' ∈ actions l
}.

Lemma launches_accounted tr res l0 l l1 p id tag res' :
  annotation tr CloudInstanceId = "" → launches r tr res l0 → l = l1 ++ l0 → only (λ a, ∀ p i t x, a ≠ A_Launch p i t x) l1 →
  A_Launch p id tag res' ∈ actions l →
  (∀ instance, res = Ok instance → (∃ t, stored (recorded r (launching tr t) instance) l) ∨
     ∃ res', A_Terminate (dr_CloudProvider r) instance res' ∈ actions l) →
  launch_accounted tr l p id tag res'.
Proof.
  intros Hi Hl -> Ho Hin Hk.
  assert (A_Launch p id tag res' = A_Launch (dr_CloudProvider r) (taskRunID tr) (dr_instanceTag r) res) as Heq.
  { apply elem_of_actions_app in Hin as [Hin|Hin]; [by destruct (Ho _ Hin) as [?|Hx]; [|destruct (Hx p id tag res')]|].
    eapply does_elem; [exact Hl|done|by intros []]. }
  injection Heq as -> -> -> ->. split; [done|done| |done].
  destruct Hl as (h1 & h2 & Heq & _ & _ & n & Hn & Hlt). exists n. split; [|done].
  apply elem_of_actions_app. right. rewrite Heq. apply elem_of_app. right. by right.
Qed.

Lemma allocates_accounted tr secretName tr' res err l :
  allocates operatorNamespace r tr secretName tr' res err l →
  launch_count (actions l) ≤ 1 ∧ ∀ p id tag x, A_Launch p id tag x ∈ actions l → launch_accounted tr l p id tag x.
Proof.
  assert (∀ l, only no_launch l →
    launch_count (actions l) ≤ 1 ∧ ∀ p id tag x, A_Launch p id tag x ∈ actions l → launch_accounted tr l p id tag x) as Hnone.
  { intros l' Ho. split; [rewrite (launch_count_only l'); [lia|done]|].
    intros p id tag x Hin. by destruct (no_launch_only p id tag x l' Ho). }
  assert (∀ tr1 tr2 l, gives_up r tr1 tr2 l → only no_launch l) as Hup
    by (intros ? ? ? ?%gives_up_released; by eapply released_no_launch).
  assert (∀ t res l1 l, asked_instance r tr t res l → only (λ a, ∀ p i t x, a ≠ A_Launch p i t x) l1 →
    launch_count (actions l1) = 0 →
    (∀ instance, res = Ok instance → (∃ t, stored (recorded r (launching tr t) instance) (l1 ++ l)) ∨
       ∃ res', A_Terminate (dr_CloudProvider r) instance res' ∈ actions (l1 ++ l)) →
    launch_count (actions (l1 ++ l)) ≤ 1 ∧
    ∀ p id tag x, A_Launch p id tag x ∈ actions (l1 ++ l) → launch_accounted tr (l1 ++ l) p id tag x) as Hone.
  { intros t rs l1 l' [Hi Hl]%asked_instance_launches Ho Hz Hk. split.
    - rewrite actions_app, launch_count_app, Hz, (launch_count_does _ _ _ Hl). done.
    - intros p id tag x Hin. by eapply launches_accounted. }
  assert (∀ ev l, remark ev → quiet l → only (λ a, ∀ p i t x, a ≠ A_Launch p i t x) (l ++ [ev]) ∧
    launch_count (actions (l ++ [ev])) = 0) as Hq.
  { intros ev l' Hev Hl. assert (quiet (l' ++ [ev])) as Hq by (apply quiet_app; [done|by apply remark_quiet; [|apply quiet_nil]]).
    split; [by apply only_quiet|by apply launch_count_plain]. }
  destruct 1 as [tr' l l0 Hc%clock_checked_quiet Hr%Hup|e tr' l l0 Hc%asked_address_quiet Hr%Hup
    |a e tr' l l0 Hc%asked_address_quiet _ Hu%updates_to_quiet
    |a tr1 tr' ev l2 l1 l0 Hc%asked_address_quiet _ Hu%updates_to_quiet Hev Hp%provision_no_launch
    |a tr1 tr2 tr' e ev l3 l2 l1 l0 Hc%asked_address_quiet _ Hu%updates_to_quiet Hev Hp%provision_no_launch Hr%Hup
    |e l Hc%asked_state_quiet|s l Hc%asked_state_quiet _|tr' l l0 Hc%asked_state_quiet Hr%Hup|e l Hc%counted_quiet
    |n ev l Hc%counted_quiet _ Hev _|n ev tr' e l1 l Hc%counted_quiet _ Hev _ Hu%updates_to_quiet
    |t e e' l Hl _|t e l Hl _|t e f tr' e' l1 l Hl _ _ Hu%updates_to_quiet|t i tr' ev l1 l Hl Hev Hu|t i tr' e rs ev l1 l Hl Hev Hu].
  - by apply Hnone, only_app, only_quiet.
  - by apply Hnone, only_app, only_quiet.
  - by apply Hnone, only_quiet, quiet_app.
  - apply Hnone, only_app, only_quiet; [done|]. by apply remark_quiet, quiet_app.
  - apply Hnone. do 2 (apply only_app; [done|]). by apply only_quiet, remark_quiet, quiet_app.
  - apply Hnone, only_quiet. auto with mpc.
  - apply Hnone, only_quiet. auto with mpc.
  - by apply Hnone, only_app, only_quiet.
  - by apply Hnone, only_quiet.
  - by apply Hnone, only_quiet, remark_quiet.
  - by apply Hnone, only_quiet, quiet_app, remark_quiet.
  - by apply (Hone t (Err e) [] l); [|intros ? ?%elem_of_nil| |].
  - by apply (Hone t (Err e) [] l); [|intros ? ?%elem_of_nil| |].
  - by apply (Hone t (Err e) l1 l); [|apply only_quiet|apply launch_count_plain|].
  - rewrite cons_middle, app_assoc. destruct (Hq ev l1 Hev (updates_to_quiet _ _ _ _ Hu)).
    eapply Hone; [done..|]. intros instance [= <-]. left. exists t. by do 2 apply stored_app; eapply updates_to_stored.
  - rewrite (cons_middle ev), (app_assoc l1), app_assoc. destruct (Hq ev l1 Hev (updates_to_quiet _ _ _ _ Hu)) as [Ho Hz].
    eapply Hone; [done|apply only_app; [|done]|by rewrite actions_app, launch_count_app, Hz|].
    + intros b ->%list_elem_of_singleton. by right.
    + intros instance [= <-]. right. exists rs. left.
Qed.

Lemma allocates_terminates tr secretName tr' res err l p i x :
  allocates operatorNamespace r tr secretName tr' res err l → A_Terminate p i x ∈ actions l →
  p = dr_CloudProvider r ∧
  (i = annotation tr CloudInstanceId ∧ i ≠ "" ∨ ∃ id tag, A_Launch p id tag (Ok i) ∈ actions l).
Proof.
  assert (∀ l, quiet l → A_Terminate p i x ∉ actions l) as Hquiet by (intros l' Hq; apply quiet_not; [done|by intros []]).
  assert (∀ tr1 tr2 l, gives_up r tr1 tr2 l → A_Terminate p i x ∈ actions l →
    p = dr_CloudProvider r ∧ i = annotation tr1 CloudInstanceId) as Hrel.
  { intros tr1 tr2 l' Hr%gives_up_released Hin. destruct (released_only _ _ _ Hr _ Hin) as [[]|[rs [= -> -> _]]]. done. }
  assert (∀ sn ssh a u pl sudo tr1 tr2 e l, provision_outcome operatorNamespace tr1 sn ssh a u pl sudo tr2 e l →
    A_Terminate p i x ∉ actions l) as Hprov.
  { intros sn ssh a u pl sudo tr1 tr2 e l' Hp Hin.
    by destruct (provision_outcome_only _ _ _ _ _ _ _ _ _ _ Hp _ Hin) as [[]|(? & ? & ?)]. }
  assert (∀ t res l, asked_instance r tr t res l → A_Terminate p i x ∉ actions l) as Hla.
  { intros t rs l' [_ Hl]%asked_instance_launches Hin. by assert (A_Terminate p i x = _) by (eapply does_elem; [exact Hl|done|by intros []]). }
  assert (∀ ev l, remark ev → quiet l → A_Terminate p i x ∉ actions (ev :: l)) as Hrem
    by (intros ev l' Hev Hl; apply Hquiet; by apply remark_quiet).
  destruct 1 as [tr' l l0 Hc Hr|e tr' l l0 Hc Hr
    |a e tr' l l0 Hc%asked_address_quiet _ Hu%updates_to_quiet
    |a tr1 tr' ev l2 l1 l0 Hc%asked_address_quiet _ Hu%updates_to_quiet Hev Hp
    |a tr1 tr2 tr' e ev l3 l2 l1 l0 Hc _ Hu Hev Hp Hr
    |e l Hc%asked_state_quiet|s l Hc%asked_state_quiet _|tr' l l0 Hc Hr|e l Hc%counted_quiet
    |n ev l Hc%counted_quiet _ Hev _|n ev tr' e l1 l Hc%counted_quiet _ Hev _ Hu%updates_to_quiet
    |t e e' l Hl _|t e l Hl _|t e f tr' e' l1 l Hl _ _ Hu%updates_to_quiet|t j tr' ev l1 l Hl Hev Hu%updates_to_quiet
    |t j tr' e rs ev l1 l Hl Hev Hu%updates_to_quiet]; rewrite ?elem_of_actions_app; intros Hin.
  - destruct Hin as [Hin|Hin]; [|by destruct (Hquiet l0); [eapply clock_checked_quiet|]].
    apply clock_passed in Hc. destruct (Hrel _ _ _ Hr Hin) as [-> ->]. auto.
  - destruct Hin as [Hin|Hin]; [|by destruct (Hquiet l0); [eapply asked_address_quiet|]].
    destruct Hc as [Hi _], (Hrel _ _ _ Hr Hin) as [-> ->]. auto.
  - by destruct Hin; [destruct (Hquiet l)|destruct (Hquiet l0)].
  - destruct Hin; [by destruct (Hprov _ _ _ _ _ _ _ _ _ _ Hp)|]. by destruct (Hrem ev (l1 ++ l0)); [|apply quiet_app|].
  - destruct Hin as [Hin|[Hin|Hin]]; [|by destruct (Hprov _ _ _ _ _ _ _ _ _ _ Hp)|].
    2: { by destruct (Hrem ev (l1 ++ l0)); [|apply quiet_app; [by eapply updates_to_quiet|by eapply asked_address_quiet]|]. }
    destruct (Hrel _ _ _ Hr Hin) as [-> Heq]. split; [done|]. left.
    apply provision_outcome_same in Hp. apply updates_to_same in Hu.
    rewrite Heq, (annotation_same _ _ _ (sbf_annotations _ _ Hp)), (annotation_same _ _ _ (same_annotations _ _ Hu)).
    rewrite annotation_assigned_at. split; [done|by destruct Hc].
  - by destruct (Hquiet l).
  - by destruct (Hquiet l).
  - destruct Hin as [Hin|Hin]; [|by destruct (Hquiet l0); [eapply asked_state_quiet|]].
    apply asked_state_instance in Hc. destruct (Hrel _ _ _ Hr Hin) as [-> ->]. auto.
  - by destruct (Hquiet l).
  - by destruct (Hrem ev l).
  - by destruct Hin; [destruct (Hquiet l1)|destruct (Hrem ev l)].
  - by destruct (Hla _ _ _ Hl).
  - by destruct (Hla _ _ _ Hl).
  - by destruct Hin; [destruct (Hquiet l1)|destruct (Hla _ _ _ Hl)].
  - destruct Hin as [Hin|Hin]; [by destruct (Hquiet l1)|]. change (ev :: l) with ([ev] ++ l) in Hin.
    apply elem_of_actions_app in Hin as [Hin|Hin]; [by destruct (Hrem ev []); [|apply quiet_nil|]|by destruct (Hla _ _ _ Hl)].
  - destruct Hin as [Hin|[Hin|Hin]]; [| |].
    + apply list_elem_of_singleton in Hin. injection Hin as -> -> ->. split; [done|right].
      apply asked_instance_launches in Hl as [_ (h1 & h2 & Heq & _)]. eexists _, _.
      change (?a ++ l1 ++ ev :: l) with (a ++ l1 ++ [ev] ++ l).
      do 3 (apply elem_of_actions_app; right). rewrite Heq. apply elem_of_app. right. left.
    + by destruct (Hquiet l1).
    + change (ev :: l) with ([ev] ++ l) in Hin. apply elem_of_actions_app in Hin as [Hin|Hin];
        [by destruct (Hrem ev []); [|apply quiet_nil|]|by destruct (Hla _ _ _ Hl)].
Qed.
End launches.

(** C7. Every allocation of a cloud instance does what its specification [allocates] says,
    call by call: for a TaskRun without an instance it counts the instances and asks for one
    when there are fewer than the maximum; for one with an instance it gives the instance
    up exactly when the clock has passed its deadline, when the provider fails to tell the
    address, when it tells no address and the state is failed, and when the provisioning
    cannot be started; it provisions the address that the provider told, and otherwise
    waits. Each outcome is tied to the answers of its calls, and what is sent to the API
    server is in it. A TaskRun whose host failed before is refused. *)
Theorem Dynamic_Allocate_refines `{K8sLaws} `{RetryLaws} operatorNamespace r tr secretName :
  is_Some (tr_Labels tr) →
  spec (DynamicResolver.Allocate operatorNamespace r tr secretName) (λ '(tr', res, err) l,
    if String.eqb (annotation tr FailedHosts) ""
    then allocates operatorNamespace r (annotated tr) secretName tr' res err l
    else tr' = tr ∧ res = no_requeue ∧ err = Some (ErrText "failed to provision host") ∧ l = []).
Proof. intros Hl m. by apply wp_Dynamic_Allocate. Qed.

(** C8. An allocation asks for one instance at most, only for a TaskRun without one, with
    the TaskRun's id, and only after the provider counted fewer instances than the
    platform's maximum; an instance that it gets is recorded in the stored TaskRun, or
    was asked to terminate. *)
Theorem Dynamic_launch_accounted `{K8sLaws} `{RetryLaws} operatorNamespace r tr secretName :
  is_Some (tr_Labels tr) →
  spec (DynamicResolver.Allocate operatorNamespace r tr secretName) (λ _ l,
    launch_count (actions l) ≤ 1 ∧
    ∀ p id tag res, A_Launch p id tag res ∈ actions l → launch_accounted r (annotated tr) l p id tag res).
Proof.
  intros Hl m. eapply wp_mono; [|by apply wp_Dynamic_Allocate]. intros [[tr' res] err] l.
  destruct (String.eqb _ _); [by apply allocates_accounted|]. intros (_ & _ & _ & ->).
  split; [simpl; lia|]. by intros p id tag x ?%elem_of_nil.
Qed.

(** The only instances that an allocation terminates are the one the TaskRun has, and
    the one it was given just before. *)
Theorem Dynamic_terminates_own `{K8sLaws} `{RetryLaws} operatorNamespace r tr secretName :
  is_Some (tr_Labels tr) →
  spec (DynamicResolver.Allocate operatorNamespace r tr secretName) (λ _ l,
    ∀ p i x, A_Terminate p i x ∈ actions l → p = dr_CloudProvider r ∧
      (i = annotation tr CloudInstanceId ∧ i ≠ "" ∨ ∃ id tag, A_Launch p id tag (Ok i) ∈ actions l)).
Proof.
  intros Hl m. eapply wp_mono; [|by apply wp_Dynamic_Allocate]. intros [[tr' res] err] l.
  destruct (String.eqb _ _).
  - intros Ha p i x Hin. replace (annotation tr CloudInstanceId) with (annotation (annotated tr) CloudInstanceId)
      by apply map_get_make_if_nil. by eapply allocates_terminates.
  - intros (_ & _ & _ & ->) p i x ?%elem_of_nil. done.
Qed.

(** A dynamic platform, for the examples. *)
Definition example_provider : CloudProvider :=
  {| cp_ctor := CreateEc2CloudConfig_; cp_platform := "linux-arm64"; cp_config := ∅; cp_systemNamespace := "mpc" |}.
Definition example_resolver : DynamicResolver :=
  {| dr_CloudProvider := example_provider; dr_sshSecret := "awskeys"; dr_platform := "linux/arm64";
     dr_maxInstances := 2; dr_instanceTag := "prod-arm64"; dr_timeout := 600; dr_checkInterval := 60;
     dr_sudoCommands := ""; dr_additionalInstanceTags := 0 |}.

#[local] Existing Instances example_k8s example_k8s_laws example_retry example_retry_laws.

Lemma Dynamic_Allocate_refines_witness :
  spec (DynamicResolver.Allocate "mpc" example_resolver example_task "ssh") (λ '(tr', res, err) l,
    if String.eqb (annotation example_task FailedHosts) ""
    then allocates "mpc" example_resolver (annotated example_task) "ssh" tr' res err l
    else tr' = example_task ∧ res = no_requeue ∧ err = Some (ErrText "failed to provision host") ∧ l = []).
Proof. apply Dynamic_Allocate_refines. by eexists. Defined.

Lemma Dynamic_launch_accounted_witness :
  spec (DynamicResolver.Allocate "mpc" example_resolver example_task "ssh") (λ _ l,
    launch_count (actions l) ≤ 1 ∧
    ∀ p id tag res, A_Launch p id tag res ∈ actions l →
      launch_accounted example_resolver (annotated example_task) l p id tag res).
Proof. apply Dynamic_launch_accounted. by eexists. Defined.

Lemma Dynamic_terminates_own_witness :
  spec (DynamicResolver.Allocate "mpc" example_resolver example_task "ssh") (λ _ l,
    ∀ p i x, A_Terminate p i x ∈ actions l → p = example_provider ∧
      (i = annotation example_task CloudInstanceId ∧ i ≠ "" ∨ ∃ id tag, A_Launch p id tag (Ok i) ∈ actions l)).
Proof. apply (Dynamic_terminates_own "mpc" example_resolver). by eexists. Defined.
