(* ===== verification/DynamicPoolFacts.v ===== *)
(** * The allocation of shared cloud instances: which instances [buildHostPool] uses and
      which it terminates, and [DynamicHostPool.Allocate] as a refinement *)
From S2P Require Import Prelude GoLib GoStrings Md5 Prog Kube Cloud Effects Metrics Update Provision HostPools DynamicPools.
From S2P Require Import Trace UpdateFacts ProvisionFacts HostPoolFacts DynamicFacts.
Import DynamicHostPool.

(** Every instance that is terminated was listed as idle just before. *)
Definition idle_before (l : list action) : Prop :=
  ∀ p i r l1 l2, l = l1 ++ A_Terminate p i r :: l2 →
    ∃ l3, l2 = A_List (MatchingLabels {[AssignedHost := i]}) (Ok []) :: l3.

(** Calls that launch nothing, create nothing and cache nothing. *)
Definition terminates_only (a : action) : Prop :=
  match a with A_Launch _ _ _ _ | A_Create _ _ | A_Cache _ _ => False | _ => True end.

Lemma plain_terminates a : plain a → terminates_only a.
Proof. by destruct a. Qed.

Lemma idle_before_plain l l' : idle_before l' → Forall plain l → idle_before (l ++ l').
Proof.
  intros Hi. induction l as [|a l IH]; intros Hp; [done|]. apply Forall_cons in Hp as [Ha Hp].
  intros p i r l1 l2 Heq. destruct l1 as [|b l1]; simplify_eq/=; [done|]. by eapply IH.
Qed.

Lemma idle_before_terminate p i r l :
  idle_before l → idle_before (A_Terminate p i r :: A_List (MatchingLabels {[AssignedHost := i]}) (Ok []) :: l).
Proof.
  intros Hi p' i' r' l1 l2 Heq. destruct l1 as [|b l1]; simplify_eq/=; [by eexists|].
  destruct l1 as [|c l1]; simplify_eq/=. by eapply Hi.
Qed.

Section pool.
Context `{K8sLaws} `{RetryLaws}.
Variable operatorNamespace : string.
Variable a : DynamicHostPool.

(** An instance was older than the maximum age at some time seen. *)
Definition was_old (l : list action) (inst : CloudVMInstance) : Prop :=
  ∃ t, A_Now t ∈ l ∧ (StartTime inst + dp_maxAge a < t)%Z.
(** [i] is one of the instances and was too old. *)
Definition too_old (instances : list CloudVMInstance) (l : list action) (i : string) : Prop :=
  ∃ inst, inst ∈ instances ∧ InstanceId inst = i ∧ was_old l inst.
(** Host [h] with key [i] comes from an instance that was young enough. *)
Definition young_host (instances : list CloudVMInstance) (l : list action) (i : string) (h : Host) : Prop :=
  ∃ inst t, inst ∈ instances ∧ InstanceId inst = i ∧ h = instance_host a inst ∧
    A_Now t ∈ l ∧ (t ≤ StartTime inst + dp_maxAge a)%Z.

(** Each of the instances is among the [old] old ones, or in the pool. *)
Definition accounts (instances : list CloudVMInstance) (pool : gmap string Host) (old : Z) (l : list action) : Prop :=
  ∃ olds, olds `sublist_of` instances ∧ old = Z.of_nat (length olds) ∧ Forall (was_old l) olds ∧
    ∀ inst, inst ∈ instances → inst ∈ olds ∨ is_Some (pool !! InstanceId inst).

(** The invariant of the loop over the instances. *)
Record pool_inv (instances : list CloudVMInstance) (acc : gmap string Host * Z) (l : hist mpcE) : Prop := {
  pool_hosts i h : acc.1 !! i = Some h → young_host instances (actions l) i h;
  pool_accounts : accounts instances acc.1 acc.2 (actions l);
  pool_calls : Forall terminates_only (actions l);
  pool_idle : idle_before (actions l);
  pool_terminated p i r : A_Terminate p i r ∈ actions l → p = dp_cloudProvider a ∧ too_old instances (actions l) i
}.

Lemma wp_isHostIdle host :
  spec (isHostIdle host) (λ r l, ∃ items, actions l = [A_List (MatchingLabels {[AssignedHost := host]}) items] ∧
    (r = Ok true → items = Ok [])).
Proof.
  intros m. unfold isHostIdle, client. apply wp_bind, wp_trigger. intros items _. apply wp_ret.
  exists items. split; [done|]. by destruct items as [[]|].
Qed.

Lemma young_host_mono instances inst' l l' i h :
  young_host instances l i h → young_host (instances ++ [inst']) (l' ++ l) i h.
Proof.
  intros (inst & t & ? & ? & ? & ? & ?). exists inst, t. rewrite !elem_of_app. split_and!; auto.
Qed.
Lemma was_old_mono l l' inst : was_old l inst → was_old (l' ++ l) inst.
Proof. intros (t & ? & ?). exists t. rewrite elem_of_app. auto. Qed.
Lemma too_old_mono instances inst' l l' i :
  too_old instances l i → too_old (instances ++ [inst']) (l' ++ l) i.
Proof. intros (inst & ? & ? & ?). exists inst. rewrite elem_of_app. auto using was_old_mono. Qed.

Lemma accounts_mono instances pool old l l' : accounts instances pool old l → accounts instances pool old (l' ++ l).
Proof.
  intros (olds & ? & ? & Ho & ?). exists olds. split_and!; [done..| |done].
  eapply Forall_impl; [exact Ho|]. intros. by apply was_old_mono.
Qed.
Lemma accounts_old instances pool old l inst :
  accounts instances pool old l → was_old l inst → accounts (instances ++ [inst]) pool (old + 1) l.
Proof.
  intros (olds & Hs & -> & Ho & Hall) Hw. exists (olds ++ [inst]). split_and!.
  - by apply sublist_app.
  - rewrite length_app. simpl. lia.
  - apply Forall_app_2; [done|]. by repeat constructor.
  - intros i. setoid_rewrite elem_of_snoc. intros [Hi| ->]; [destruct (Hall i Hi)|]; auto.
Qed.
Lemma accounts_young instances pool old l inst h :
  accounts instances pool old l → accounts (instances ++ [inst]) (<[InstanceId inst := h]> pool) old l.
Proof.
  intros (olds & Hs & -> & Ho & Hall). exists olds. split_and!; [|done..|].
  - by apply sublist_inserts_r.
  - intros i. rewrite elem_of_snoc. intros [Hi| ->].
    + destruct (Hall i Hi) as [?|?]; [by left|right]. rewrite lookup_insert_is_Some. destruct (decide (InstanceId inst = InstanceId i)); auto.
    + right. by rewrite lookup_insert_eq.
Qed.

(** Calls that are plain keep the invariant. *)
Lemma pool_inv_step instances inst acc acc' l new :
  pool_inv instances acc l →
  Forall plain (actions new) →
  (∀ i h, acc'.1 !! i = Some h → acc.1 !! i = Some h ∨ young_host (instances ++ [inst]) (actions (new ++ l)) i h) →
  accounts (instances ++ [inst]) acc'.1 acc'.2 (actions (new ++ l)) →
  pool_inv (instances ++ [inst]) acc' (new ++ l).
Proof.
  intros [Hh Ho Hc Hi Ht] Hnew Hacc Hold.
  split; [|done|..]; rewrite ?actions_app in *.
  - intros i h [?|?]%Hacc; [by apply young_host_mono, Hh|done].
  - apply Forall_app_2; [|done]. eapply Forall_impl; [exact Hnew|apply plain_terminates].
  - by apply idle_before_plain.
  - intros p i r [Hin|Hin]%elem_of_app; [by destruct (proj1 (Forall_forall _ _) Hnew _ Hin)|].
    destruct (Ht _ _ _ Hin). split; [done|]. by apply too_old_mono.
Qed.

Lemma wp_visit_instance instances inst acc m h :
  pool_inv instances acc h →
  wp (go_spec m) (visit_instance a acc inst) (pool_inv (instances ++ [inst])) h.
Proof.
  intros Hinv. destruct acc as [ret old]. unfold visit_instance, now. apply wp_bind, wp_trigger. intros t _.
  pose proof (pool_accounts _ _ _ Hinv) as Hacc. cbn [fst snd] in Hacc.
  destruct (StartTime inst + dp_maxAge a <? t)%Z eqn:Hage; [apply Z.ltb_lt in Hage|apply Z.ltb_ge in Hage].
  - eapply wp_call; [apply wp_isHostIdle|]. intros idle l (items & Hl & Hidle).
    assert (was_old (actions (l ++ Ev Now t :: h)) inst) as Hold
      by (exists t; split; [apply elem_of_actions_app; right; left|done]).
    assert (pool_inv (instances ++ [inst]) (ret, old + 1)%Z (l ++ [Ev Now t] ++ h)) as Hinv'.
    { rewrite (assoc_L (++)). eapply pool_inv_step; [done| |by left|].
      - rewrite actions_app, Hl. by repeat constructor.
      - rewrite <- (assoc_L (++)). apply accounts_old; [|done]. rewrite (assoc_L (++)), actions_app. by apply accounts_mono. }
    apply wp_bind. destruct idle as [[]|]; try by do 2 apply wp_ret.
    unfold cloud. apply wp_trigger. intros res _. apply wp_ret.
    rewrite (Hidle eq_refl) in Hl. destruct Hinv' as [Hh Ho Hc Hi Ht].
    set (ev := Ev _ res). change (ev :: l ++ Ev Now t :: h) with ([ev] ++ l ++ [Ev Now t] ++ h).
    split; [|rewrite actions_app; by apply accounts_mono|by constructor|..].
    + intros i host Hih. destruct (Hh i host Hih) as (inst' & t' & ? & ? & ? & ? & ?).
      exists inst', t'. split_and!; try done. by right.
    + simpl in *. rewrite actions_app, Hl in *. apply idle_before_terminate.
      destruct Hinv as [_ _ _ Hi0 _]. apply (idle_before_plain [A_Now t]); [done|]. by repeat constructor.
    + intros p i r [Heq|Hin]%elem_of_cons.
      * change (A_Terminate p i r = A_Terminate (dp_cloudProvider a) (InstanceId inst) res) in Heq.
        simplify_eq. split; [done|]. exists inst. split_and!; [apply elem_of_app; right; left|done|].
        rewrite actions_app. by apply was_old_mono.
      * destruct (Ht _ _ _ Hin) as (? & inst' & ? & ? & ?). split; [done|].
        exists inst'. split_and!; [done..|]. rewrite actions_app. by apply was_old_mono.
  - apply wp_ret. apply (pool_inv_step instances inst (ret, old) _ h [Ev Now t]); [done|by repeat constructor|..].
    + simpl. intros i host Hih. destruct (decide (InstanceId inst = i)) as [<-|Hne].
      * rewrite lookup_insert_eq in Hih. simplify_eq. right. exists inst, t.
        split_and!; [apply elem_of_app; right; left|done..|left|done].
      * rewrite lookup_insert_ne in Hih by done. by left.
    + apply accounts_young. rewrite actions_app. by apply accounts_mono.
Qed.

(** What [buildHostPool] does to the instances: only old, idle ones are terminated. *)
Record retires (tag : string) (l : hist mpcE) : Prop := {
  retires_only : Forall terminates_only (actions l);
  retires_idle : idle_before (actions l);
  retires_old p i res : A_Terminate p i res ∈ actions l → p = dp_cloudProvider a ∧
    ∃ instances, A_Instances (dp_cloudProvider a) tag (Ok instances) ∈ actions l ∧ too_old instances (actions l) i
}.

(** The pool it builds: the hosts are the young instances. *)
Definition pool_of (tag : string) (pool : HostPool) (old : Z) (l : hist mpcE) : Prop :=
  ∃ instances, A_Instances (dp_cloudProvider a) tag (Ok instances) ∈ actions l ∧
    targetPlatform pool = dp_platform a ∧ accounts instances (hosts pool) old (actions l) ∧
    ∀ i h, hosts pool !! i = Some h → young_host instances (actions l) i h.

Lemma wp_buildHostPool tag :
  spec (buildHostPool a tag) (λ r l, retires tag l ∧
    match r with
    | Err err => A_Instances (dp_cloudProvider a) tag (Err err) ∈ actions l
    | Ok (pool, old) => pool_of tag pool old l
    end).
Proof.
  intros m. unfold buildHostPool, cloud. apply wp_bind, wp_trigger. intros [instances|err] _.
  - set (ev := Ev _ _). apply wp_bind.
    eapply (wp_foldM _ _ (λ pre acc h, pool_inv pre acc h ∧ action_of ev ∈ actions h) _ _ []).
    + split; [|left]. split; simpl; [done|by exists []; split_and!; [..|by intros ? ?%not_elem_of_nil]|by repeat constructor| |].
      * intros p i r l1 l2 Heq. destruct l1 as [|? []]; simplify_eq/=.
      * intros p i r Hin. by apply list_elem_of_singleton in Hin.
    + intros pre inst acc h _ [Hinv Hin].
      eapply wp_mono; [|apply wp_frame, wp_visit_instance, Hinv].
      intros acc' h' [? [l ->]]. split; [done|]. apply elem_of_actions_app. by right.
    + intros [hosts old] h [[Hh Ho Hc Hi Ht] Hin]. apply wp_ret. split.
      * split; [done..|]. intros p i r Hp. destruct (Ht _ _ _ Hp) as [? ?]. split; [done|]. by exists instances.
      * by exists instances.
  - apply wp_ret. split; [|left]. split; [by repeat constructor| |by intros ? ? ? Hin%list_elem_of_singleton].
    intros p i r l1 l2 Heq. destruct l1 as [|? []]; simplify_eq/=.
Qed.

(** The second half of an allocation, with every call: an instance is started when the
    pool, without the instances that are too old, is below its maximum, and there is a
    random name for it. *)
Inductive starts (tr : TaskRun) (old : Z) (allocationErr : option error) :
    TaskRun → Result → option error → hist mpcE → Prop :=
| start_count_failed err :
    starts tr old allocationErr tr no_requeue (Some err)
      [Ev (Cloud (dp_cloudProvider a) (CountInstances (dp_instanceTag a))) (Err err)]
| start_at_capacity n :
    (dp_maxInstances a ≤ n - old)%Z →
    starts tr old allocationErr tr (requeue_after Minute) allocationErr
      [Ev (Cloud (dp_cloudProvider a) (CountInstances (dp_instanceTag a))) (Ok n)]
| start_no_random n err :
    (n - old < dp_maxInstances a)%Z →
    starts tr old allocationErr tr no_requeue (Some err)
      [Ev (RandRead 5) (Err err); Ev (Cloud (dp_cloudProvider a) (CountInstances (dp_instanceTag a))) (Ok n)]
| start_instance n bytes tags tags' res :
    (n - old < dp_maxInstances a)%Z →
    starts tr old allocationErr (delete_label tr WaitingForPlatformLabel)
      (match res with Ok _ => requeue_after Minute | Err _ => no_requeue end)
      (match res with Ok _ => None | Err e => Some e end)
      [Ev (Mem (Write_tags (dp_additionalInstanceTags a) tags')) tt;
       Ev (Cloud (dp_cloudProvider a) (LaunchInstance (taskRunID tr) (dp_instanceTag a) tags)) (tags', res);
       Ev (Mem (Read_tags (dp_additionalInstanceTags a))) tags;
       Ev (RandRead 5) (Ok bytes); Ev (Cloud (dp_cloudProvider a) (CountInstances (dp_instanceTag a))) (Ok n)].

Lemma wp_start_instance tr old allocationErr :
  spec (DynamicHostPool.start_instance a tr old allocationErr)
    (λ '(tr', res, err) l, starts tr old allocationErr tr' res err l).
Proof.
  intros m. unfold DynamicHostPool.start_instance, cloud. apply wp_bind, wp_trigger. intros [n|err] _;
    [|apply wp_ret, start_count_failed].
  destruct (dp_maxInstances a <=? n - old)%Z eqn:Hn; [apply Z.leb_le in Hn|apply Z.leb_gt in Hn].
  - by apply wp_ret, start_at_capacity.
  - unfold getRandomString. apply wp_bind, wp_bind, wp_trigger. intros rnd _. apply wp_ret.
    destruct rnd as [bytes|err]; [|by apply wp_ret, start_no_random].
    cbv zeta. unfold mem. apply wp_bind, wp_trigger. intros tags _. apply wp_bind, wp_trigger. intros [tags' res] _.
    apply wp_bind, wp_trigger. intros [] _.
    pose proof (start_instance tr old allocationErr n bytes tags tags' res Hn) as Hs.
    destruct res; exact Hs.
Qed.

(** What is done besides asking for the instance is plain. *)
Lemma starts_does tr old e tr' res err l :
  starts tr old e tr' res err l → quiet l ∨
  ∃ n rs, (n - old < dp_maxInstances a)%Z ∧
    does (A_Launch (dp_cloudProvider a) (taskRunID tr) (dp_instanceTag a) rs)
      (λ before, A_Count (dp_cloudProvider a) (dp_instanceTag a) (Ok n) ∈ before) l.
Proof.
  intros [err'|n Hn|n err' Hn|n bytes tags tags' rs Hn]; [left; auto with mpc..|right].
  exists n, rs. split; [done|]. eexists [A_Other], [A_Other; A_Other; A_Count _ _ (Ok n)].
  split_and!; [done|by repeat constructor..|by do 2 right; left].
Qed.

(** The specification of an allocation from the pool. *)
Inductive pool_allocates (tr : TaskRun) (secretName : string) :
    TaskRun → Result → option error → hist mpcE → Prop :=
| pool_unknown err l :
    retires (dp_instanceTag a) l → A_Instances (dp_cloudProvider a) (dp_instanceTag a) (Err err) ∈ actions l →
    pool_allocates tr secretName tr no_requeue (Some err) l
| pool_empty pool old tr' res err l1 l0 :
    retires (dp_instanceTag a) l0 → pool_of (dp_instanceTag a) pool old l0 →
    hosts pool = ∅ → starts tr old None tr' res err l1 →
    pool_allocates tr secretName tr' res err (l1 ++ l0)
| pool_uses pool old tr' res err l1 l0 :
    retires (dp_instanceTag a) l0 → pool_of (dp_instanceTag a) pool old l0 →
    HostPoolFacts.allocates operatorNamespace pool tr secretName tr' res err l1 →
    match err with
    | Some e => errors_Is e ErrAllHostsFailed = false
    | None => label tr' WaitingForPlatformLabel = ""
    end →
    pool_allocates tr secretName tr' no_requeue err (l1 ++ l0)
| pool_grows pool old tr1 res1 err1 tr' res err l2 l1 l0 :
    retires (dp_instanceTag a) l0 → pool_of (dp_instanceTag a) pool old l0 →
    HostPoolFacts.allocates operatorNamespace pool tr secretName tr1 res1 err1 l1 →
    match err1 with
    | Some e => errors_Is e ErrAllHostsFailed = true
    | None => label tr1 WaitingForPlatformLabel ≠ ""
    end →
    starts tr1 old err1 tr' res err l2 →
    pool_allocates tr secretName tr' res err (l2 ++ l1 ++ l0).

(** [DynamicHostPool.Allocate] refines its specification. *)
Lemma wp_pool_Allocate tr secretName :
  is_Some (tr_Labels tr) →
  spec (Allocate operatorNamespace a tr secretName)
    (λ '(tr', res, err) l, pool_allocates tr secretName tr' res err l).
Proof.
  intros Hl m. unfold Allocate. eapply wp_call; [apply wp_buildHostPool|].
  intros [[pool old]|err] l0 [Hr Hp]; rewrite app_nil_r; [|by apply wp_ret, pool_unknown].
  case_bool_decide as Hh.
  - eapply wp_tailcall; [apply wp_start_instance|]. intros [[tr' res] err] l1 Hs. by eapply pool_empty.
  - eapply wp_call; [by apply HostPoolFacts.wp_HostPool_Allocate|].
    intros [[tr1 res1] err1] l1 Ha. destruct err1 as [err1|].
    + destruct (errors_Is err1 ErrAllHostsFailed) eqn:He; [|by apply wp_ret; eapply pool_uses].
      eapply wp_tailcall; [apply wp_start_instance|]. intros [[tr' res] err] l2 Hs. by eapply pool_grows.
    + destruct (String.eqb _ _) eqn:Hw; [apply String.eqb_eq in Hw|apply String.eqb_neq in Hw];
        [by apply wp_ret; eapply pool_uses|].
      eapply wp_tailcall; [apply wp_start_instance|]. intros [[tr' res] err] l2 Hs. by eapply pool_grows.
Qed.
End pool.

(** ** Properties *)

Section pool_launches.
Context `{K8sLaws} `{RetryLaws}.
Variables (operatorNamespace : string) (a : DynamicHostPool).

(** An allocation of a static host only creates tasks. *)
Lemma static_allocates_only hp tr secretName tr' res err l :
  HostPoolFacts.allocates operatorNamespace hp tr secretName tr' res err l → only creates l.
Proof.
  destruct 1 as [_|e _|items l Hs%surveyed_quiet _|items l Hs%surveyed_quiet _ _|items l Hs%surveyed_quiet _ _
    |items tr' e l1 l Hs%surveyed_quiet _ _ Hu%updates_to_quiet|items h tr' e l1 l Hs%surveyed_quiet _ Hu%updates_to_quiet
    |items h tr1 tr' l2 l1 l Hs%surveyed_quiet _ Hu%updates_to_quiet Hp%provision_outcome_only
    |items h tr1 tr2 tr' e e' l3 l2 l1 l Hs%surveyed_quiet _ Hu%updates_to_quiet Hp%provision_outcome_only Hu'%updates_to_quiet];
    try by apply only_quiet; auto with mpc.
  - apply only_app; [done|by apply only_quiet, quiet_app].
  - apply only_app; [by apply only_quiet|]. apply only_app; [done|by apply only_quiet, quiet_app].
Qed.

(** A request for an instance of the pool: it is the only one, for the TaskRun, and made
    when the provider counted fewer instances than the maximum, not counting some that
    were listed and too old. *)
Record pool_launch (tr : TaskRun) (l : hist mpcE) (p : CloudProvider) (id tag : string) : Prop := {
  pl_request : p = dp_cloudProvider a ∧ id = taskRunID tr ∧ tag = dp_instanceTag a;
  pl_capacity : ∃ n olds instances,
    A_Count (dp_cloudProvider a) (dp_instanceTag a) (Ok n) ∈ actions l ∧
    A_Instances (dp_cloudProvider a) (dp_instanceTag a) (Ok instances) ∈ actions l ∧
    olds `sublist_of` instances ∧ Forall (was_old a (actions l)) olds ∧
    (n - Z.of_nat (length olds) < dp_maxInstances a)%Z
}.

Lemma starts_launch tr old e tr' res err l p id tag x :
  starts a tr old e tr' res err l → A_Launch p id tag x ∈ actions l →
  p = dp_cloudProvider a ∧ id = taskRunID tr ∧ tag = dp_instanceTag a ∧
  ∃ n, A_Count (dp_cloudProvider a) (dp_instanceTag a) (Ok n) ∈ actions l ∧ (n - old < dp_maxInstances a)%Z.
Proof.
  intros [Hq|(n & rs & Hn & Hd)]%starts_does Hin;
    [by destruct (quiet_not _ _ Hq (λ x : plain (A_Launch p id tag _), x) Hin)|].
  assert (A_Launch p id tag x = A_Launch (dp_cloudProvider a) (taskRunID tr) (dp_instanceTag a) rs) as [= -> -> -> ->]
    by (eapply does_elem; [exact Hd|done|by intros []]).
  split_and!; [done..|]. exists n. split; [|done]. destruct Hd as (l1 & l2 & -> & _ & _ & ?). apply elem_of_app. right. by right.
Qed.

Lemma starts_count tr old e tr' res err l : starts a tr old e tr' res err l → launch_count (actions l) ≤ 1.
Proof.
  intros [Hq|(n & rs & Hn & Hd)]%starts_does; [rewrite launch_count_plain by exact Hq; lia|].
  by rewrite (launch_count_does _ _ _ Hd).
Qed.

Lemma retires_no_launch tag l : retires a tag l →
  launch_count (actions l) = 0 ∧ ∀ p id t x, A_Launch p id t x ∉ actions l.
Proof.
  intros [Ho _ _]. split.
  - induction Ho as [|[] al Ha _ IH]; simpl in *; done.
  - intros p id t x Hin. exact (proj1 (Forall_forall _ _) Ho _ Hin).
Qed.

(** The instances the pool was built from license a launch. *)
Lemma starts_pool_launch tr tr1 pool old e tr' res err l2 l1 l0 p id tag x :
  taskRunID tr1 = taskRunID tr → retires a (dp_instanceTag a) l0 → pool_of a (dp_instanceTag a) pool old l0 →
  only creates l1 → starts a tr1 old e tr' res err l2 →
  A_Launch p id tag x ∈ actions (l2 ++ l1 ++ l0) → pool_launch tr (l2 ++ l1 ++ l0) p id tag.
Proof.
  intros Hid Hr (instances & Hin & _ & (olds & Hsub & -> & Hold & _) & _) Ho Hs. rewrite !elem_of_actions_app.
  intros [Hl|[Hl|Hl]].
  - destruct (starts_launch _ _ _ _ _ _ _ _ _ _ _ Hs Hl) as (-> & -> & -> & n & Hn & Hlt). split; [by rewrite Hid|].
    exists n, olds, instances. rewrite !elem_of_actions_app. split_and!; auto.
    eapply Forall_impl; [exact Hold|]. intros inst. rewrite app_assoc, (actions_app (l2 ++ l1)). apply was_old_mono.
  - destruct (Ho _ Hl) as [[]|(? & ? & [=])].
  - by destruct (proj2 (retires_no_launch _ _ Hr) _ _ _ _ Hl).
Qed.

Lemma creates_count l : only creates l → launch_count (actions l) = 0.
Proof. intros Ho. apply (launch_count_only {| dr_CloudProvider := dp_cloudProvider a; dr_sshSecret := "";
    dr_platform := ""; dr_maxInstances := 0; dr_instanceTag := ""; dr_timeout := 0; dr_checkInterval := 0;
    dr_sudoCommands := ""; dr_additionalInstanceTags := 0 |}). eapply only_mono; [exact Ho|by left]. Qed.

Lemma static_allocates_taskRunID hp tr secretName tr' res err l :
  HostPoolFacts.allocates operatorNamespace hp tr secretName tr' res err l → taskRunID tr' = taskRunID tr.
Proof. intros [Hn Hns]%static_allocates_key%key_eq. unfold taskRunID. by rewrite Hn, Hns. Qed.

Lemma pool_allocates_launch tr secretName tr' res err l :
  pool_allocates operatorNamespace a tr secretName tr' res err l →
  launch_count (actions l) ≤ 1 ∧ ∀ p id tag x, A_Launch p id tag x ∈ actions l → pool_launch tr l p id tag.
Proof.
  destruct 1 as [e l Hr _|pool old tr' res err l1 l0 Hr Hp _ Hs|pool old tr' res err l1 l0 Hr Hp Ha _
    |pool old tr1 res1 err1 tr' res err l2 l1 l0 Hr Hp Ha _ Hs];
    pose proof (retires_no_launch _ _ Hr) as [Hz Hn].
  - split; [lia|]. intros p id tag x Hin. by destruct (Hn p id tag x).
  - split; [rewrite actions_app, launch_count_app, Hz; pose proof (starts_count _ _ _ _ _ _ _ Hs); lia|].
    intros p id tag x. apply (starts_pool_launch tr tr pool old None tr' res err l1 [] l0); [done..| |done].
    apply only_quiet, quiet_nil.
  - apply static_allocates_only in Ha. split; [rewrite actions_app, launch_count_app, Hz, (creates_count _ Ha); lia|].
    intros p id tag x [Hin|Hin]%elem_of_actions_app; [|by destruct (Hn p id tag x)].
    destruct (Ha _ Hin) as [[]|(? & ? & [=])].
  - pose proof (static_allocates_taskRunID _ _ _ _ _ _ _ Ha) as Hk. apply static_allocates_only in Ha. split.
    + rewrite !actions_app, !launch_count_app, Hz, (creates_count _ Ha). pose proof (starts_count _ _ _ _ _ _ _ Hs). lia.
    + intros p id tag x. by eapply starts_pool_launch.
Qed.
End pool_launches.

(** C11. The pool is built from the listed instances: every one is a host of the pool or
    was too old, and every host was young enough. An instance is terminated only when it
    was too old and, by the listing just before, no TaskRun was assigned to it; nothing is
    launched or created. *)
Theorem buildHostPool_retires a tag :
  spec (buildHostPool a tag) (λ r l, retires a tag l ∧
    match r with
    | Err err => A_Instances (dp_cloudProvider a) tag (Err err) ∈ actions l
    | Ok (pool, old) => pool_of a tag pool old l
    end).
Proof. apply wp_buildHostPool. Qed.

(** C9. Every allocation from a pool of cloud instances does what its specification
    [pool_allocates] says: it uses a young instance like a static host, and goes on to start
    an instance when there is none or the TaskRun would have to wait. An instance is then
    asked for exactly when the provider counts fewer than the maximum, old ones not counted,
    and the random source answers; otherwise the TaskRun waits, or the error is the one of
    the count or of the random source. *)
Theorem Pool_Allocate_refines `{K8sLaws} `{RetryLaws} operatorNamespace a tr secretName :
  is_Some (tr_Labels tr) →
  spec (DynamicHostPool.Allocate operatorNamespace a tr secretName)
    (λ '(tr', res, err) l, pool_allocates operatorNamespace a tr secretName tr' res err l).
Proof. intros Hl m. by apply wp_pool_Allocate. Qed.

(** C10. An allocation from a pool starts one instance at most, for its TaskRun, and only
    when the provider counted fewer instances than the pool's maximum, instances that are
    too old not counted. *)
Theorem Pool_launch_below_maximum `{K8sLaws} `{RetryLaws} operatorNamespace a tr secretName :
  is_Some (tr_Labels tr) →
  spec (DynamicHostPool.Allocate operatorNamespace a tr secretName) (λ _ l,
    launch_count (actions l) ≤ 1 ∧
    ∀ p id tag x, A_Launch p id tag x ∈ actions l → pool_launch a tr l p id tag).
Proof.
  intros Hl m. eapply wp_mono; [|by apply wp_pool_Allocate]. intros [[tr' res] err] l. apply pool_allocates_launch.
Qed.

(** A pool platform, for the examples. *)
Definition example_instances : DynamicHostPool :=
  {| dp_cloudProvider := example_provider; dp_sshSecret := "awskeys"; dp_platform := "linux/arm64";
     dp_maxInstances := 3; dp_concurrency := 4; dp_maxAge := 60 * Minute; dp_instanceTag := "prod-arm64";
     dp_additionalInstanceTags := 0 |}.

#[local] Existing Instances example_k8s example_k8s_laws example_retry example_retry_laws.

Lemma Pool_Allocate_refines_witness :
  spec (DynamicHostPool.Allocate "mpc" example_instances example_task "ssh")
    (λ '(tr', res, err) l, pool_allocates "mpc" example_instances example_task "ssh" tr' res err l).
Proof. apply Pool_Allocate_refines. by eexists. Defined.

Lemma Pool_launch_below_maximum_witness :
  spec (DynamicHostPool.Allocate "mpc" example_instances example_task "ssh") (λ _ l,
    launch_count (actions l) ≤ 1 ∧
    ∀ p id tag x, A_Launch p id tag x ∈ actions l → pool_launch example_instances example_task l p id tag).
Proof. apply Pool_launch_below_maximum. by eexists. Defined.
