(* ===== verification/ConfigFacts.v ===== *)
(** * What the host-config parsers accept: each parser against a declarative description
      of the configurations it accepts *)
From stdpp Require Import sorting.
From S2P Require Import Prelude GoLib GoStrings NetIP Prog Kube Config Trace.

(** ** Strings *)

(** An ASCII character that is not white space. *)
Definition ascii_word (c : ascii) : bool := let n := N_of_ascii c in (32 <? n)%N && (n <? 127)%N.

Lemma word_no_space (runes : list string) c s :
  forallb (λ r, match r with String d _ => negb (ascii_word d) | EmptyString => false end) runes = true →
  ascii_word c = true → strip_one runes (String c s) = None.
Proof.
  intros Hr Hc. unfold strip_one.
  destruct (find_first _ runes) as [r|] eqn:Hf; [|done].
  apply find_first_Some in Hf as (Hp & l1 & l2 & -> & _).
  rewrite forallb_app in Hr. apply andb_true_iff in Hr as [_ Hr]. simpl in Hr.
  apply andb_true_iff in Hr as [Hr _]. destruct r as [|d r]; [done|]. simpl in Hp.
  destruct (ascii_dec d c) as [->|]; [|done]. by rewrite Hc in Hr.
Qed.

Lemma strip_word runes s :
  forallb (λ r, match r with String d _ => negb (ascii_word d) | EmptyString => false end) runes = true →
  str_forall ascii_word s = true → strip runes s = s.
Proof.
  intros Hr. unfold strip. destruct s as [|c s]; [done|]. simpl.
  intros [Hc _]%andb_true_iff. by rewrite word_no_space.
Qed.

Lemma list_ascii_forall p s : str_forall p s = forallb p (String.list_ascii_of_string s).
Proof. induction s as [|c s IH]; simpl; [done|]. by rewrite IH. Qed.

Lemma str_forall_rev p s : str_forall p (String.rev s) = str_forall p s.
Proof.
  assert (∀ s acc, str_forall p (String.rev_app s acc) = str_forall p s && str_forall p acc) as Hr.
  { clear s. intros s. induction s as [|c s IH]; intros acc; simpl; [done|].
    rewrite IH. simpl. rewrite andb_assoc. by rewrite (andb_comm (str_forall p s)). }
  unfold String.rev. rewrite Hr. simpl. apply andb_true_r.
Qed.

Lemma str_rev_rev s : String.rev (String.rev s) = s.
Proof.
  assert (∀ s acc acc', String.rev_app (String.rev_app s acc) acc' = String.rev_app acc (s +:+ acc')) as Hr.
  { clear s. intros s. induction s as [|c s IH]; intros acc acc'; simpl; [done|]. by rewrite IH. }
  unfold String.rev. rewrite Hr. simpl. apply str_app_nil_r.
Qed.

Lemma TrimSpace_word s : str_forall ascii_word s = true → TrimSpace s = s.
Proof.
  intros Hs. unfold TrimSpace, TrimLeftSpace, TrimRightSpace.
  rewrite (strip_word space_runes s) by done.
  rewrite strip_word; [apply str_rev_rev|done|]. by rewrite str_forall_rev.
Qed.

Lemma length_Join_snoc (l : list string) p sep :
  l ≠ [] → Join (l ++ [p]) sep = Join l sep +:+ String sep p.
Proof.
  induction l as [|q l IH]; [done|]. intros _. destruct l as [|q' l]; [done|].
  change ((q :: q' :: l) ++ [p]) with (q :: q' :: (l ++ [p])). rewrite !Join_cons.
  change (q' :: l ++ [p]) with ((q' :: l) ++ [p]). rewrite IH by done.
  rewrite str_app_assoc. done.
Qed.

(** *** Positions of a separator *)

Lemma Index_app p s sep : str_mem sep p = false → Index (p +:+ String sep s) sep = Some (String.length p).
Proof.
  induction p as [|c p IH]; simpl.
  - intros _. change ("" +:+ String sep s) with (String sep s). simpl. by rewrite Ascii.eqb_refl.
  - intros [Hc Hp]%orb_false_iff. change (String c p +:+ String sep s) with (String c (p +:+ String sep s)).
    simpl. rewrite Hc, IH by done. done.
Qed.

Lemma Index_None s sep : Index s sep = None ↔ str_mem sep s = false.
Proof.
  induction s as [|c s IH]; simpl; [done|]. destruct (Ascii.eqb c sep); simpl; [done|].
  rewrite <- IH. by destruct (Index s sep).
Qed.

Lemma LastIndex_None s sep : LastIndex s sep = None ↔ str_mem sep s = false.
Proof.
  induction s as [|c s IH]; simpl; [done|].
  destruct (LastIndex s sep); [split; [done|]|].
  - intros [_ Hs]%orb_false_iff. by apply IH in Hs.
  - destruct (Ascii.eqb c sep); simpl; [done|]. by rewrite <- IH.
Qed.

Lemma LastIndex_app p s sep : str_mem sep s = false → LastIndex (p +:+ String sep s) sep = Some (String.length p).
Proof.
  intros Hs. induction p as [|c p IH].
  - change ("" +:+ String sep s) with (String sep s). simpl.
    rewrite (proj2 (LastIndex_None s sep) Hs). by rewrite Ascii.eqb_refl.
  - change (String c p +:+ String sep s) with (String c (p +:+ String sep s)). simpl. by rewrite IH.
Qed.

Lemma substring_app p s n : String.substring (String.length p) n (p +:+ s) = String.substring 0 n s.
Proof.
  induction p as [|c p IH]; [done|].
  change (String c p +:+ s) with (String c (p +:+ s)). simpl. exact IH.
Qed.

Lemma substring_prefix p s : String.substring 0 (String.length p) (p +:+ s) = p.
Proof.
  induction p as [|c p IH]; [by destruct s|].
  change (String c p +:+ s) with (String c (p +:+ s)). simpl. by rewrite IH.
Qed.

Lemma slice_from_app p s : slice_from (p +:+ s) (String.length p) = s.
Proof.
  unfold slice_from. rewrite substring_app, length_str_app.
  replace (String.length p + String.length s - String.length p) with (String.length s) by lia.
  rewrite <- (str_app_nil_r s) at 2. apply substring_prefix.
Qed.

Lemma slice_app p s t : slice (p +:+ s +:+ t) (String.length p) (String.length p + String.length s) = s.
Proof.
  unfold slice. rewrite substring_app.
  replace (String.length p + String.length s - String.length p) with (String.length s) by lia.
  apply substring_prefix.
Qed.

(** ** Instance tags *)

(** The parts of an instance type; a lone empty part is no type. *)
Definition type_parts (l : list string) : list string := if bool_decide (l = [""]) then [] else l.

Lemma Strings_sort_not_nil l : l ≠ [] → Strings_sort l ≠ [].
Proof. intros Hl Hs. apply Hl, Permutation_nil_r. by rewrite <- (Strings_sort_Permutation l), Hs. Qed.

Lemma no_sep_sorted sep l :
  Forall (λ p, str_mem sep p = false) l → Forall (λ p, str_mem sep p = false) (Strings_sort l).
Proof. by rewrite (Strings_sort_Permutation l). Qed.

Lemma Join_sorted_inj sep l l' :
  Forall (λ p, str_mem sep p = false) l → Forall (λ p, str_mem sep p = false) l' →
  Join (Strings_sort l) sep = Join (Strings_sort l') sep ↔ type_parts l ≡ₚ type_parts l'.
Proof.
  intros Hl Hl'.
  assert (∀ l, Forall (λ p, str_mem sep p = false) l → Join (Strings_sort l) sep = "" ↔ type_parts l = []) as Hnil.
  { clear. intros l Hl. unfold type_parts. case_bool_decide as Hn; [by subst|].
    split; [|by intros ->]. intros Hj. destruct l as [|p l]; [done|].
    assert (Split (Join (Strings_sort (p :: l)) sep) sep = Strings_sort (p :: l)) as Hs
      by (apply Split_Join; [by apply Strings_sort_not_nil|by apply no_sep_sorted]).
    rewrite Hj in Hs. simpl in Hs. exfalso. apply Hn, Permutation_singleton_r.
    by rewrite <- (Strings_sort_Permutation (p :: l)), <- Hs. }
  destruct (decide (type_parts l = [])) as [Hn|Hn].
  { rewrite Hn. rewrite (proj2 (Hnil l Hl) Hn). split.
    - intros Hj. by rewrite (proj1 (Hnil l' Hl') (eq_sym Hj)).
    - intros Hp%Permutation_nil_l. symmetry. by apply Hnil. }
  destruct (decide (type_parts l' = [])) as [Hn'|Hn'].
  { rewrite Hn'. rewrite (proj2 (Hnil l' Hl') Hn'). rewrite (Hnil l Hl). split; [by intros ->|].
    apply Permutation_nil_r. }
  assert (∀ l, type_parts l ≠ [] → l ≠ [] ∧ type_parts l = l) as Ht.
  { clear. unfold type_parts. intros l. case_bool_decide; naive_solver. }
  destruct (Ht l Hn) as [Hne ->], (Ht l' Hn') as [Hne' ->]. split.
  - intros Hj%(f_equal (λ s, Split s sep)).
    rewrite !Split_Join in Hj by eauto using Strings_sort_not_nil, no_sep_sorted.
    by rewrite <- (Strings_sort_Permutation l), Hj, Strings_sort_Permutation.
  - intros Hp. by rewrite (Strings_sort_unique _ _ Hp).
Qed.

Lemma sort_if_many (l : list string) :
  (if (1 <? length l)%nat then Strings_sort l else l) = Strings_sort l.
Proof. by destruct l as [|p [|q l]]. Qed.

Lemma parse_key_Join k0 parts platform :
  Forall (λ p, str_mem "-" p = false) (k0 :: parts ++ [platform]) →
  parseDynamicHostInstanceTypeKey (Join (k0 :: parts ++ [platform]) "-") = Ok (platform, Join (Strings_sort parts) "-").
Proof.
  intros [Hk0 [Hparts [Hplat _]%Forall_cons]%Forall_app]%Forall_cons.
  unfold parseDynamicHostInstanceTypeKey.
  assert (Join (k0 :: parts ++ [platform]) "-" = Join (k0 :: parts) "-" +:+ String "-" platform) as Hlast
    by by apply (length_Join_snoc (k0 :: parts)).
  assert (Join (k0 :: parts ++ [platform]) "-" = k0 +:+ String "-" (Join (parts ++ [platform]) "-")) as Hfirst
    by by destruct parts.
  rewrite Hfirst at 1. rewrite Index_app by done.
  rewrite Hlast at 1. rewrite LastIndex_app by done.
  assert (slice_from (Join (k0 :: parts ++ [platform]) "-") (String.length (Join (k0 :: parts) "-") + 1) = platform) as ->.
  { rewrite Hlast. change (String "-" platform) with (String "-" "" +:+ platform).
    rewrite <- str_app_assoc. rewrite <- (length_str_app _ (String "-" "")) . apply slice_from_app. }
  destruct parts as [|p parts]; [by rewrite Nat.eqb_refl|].
  assert (String.length (Join (k0 :: p :: parts) "-") = String.length k0 + 1 + String.length (Join (p :: parts) "-")) as Hlen.
  { rewrite Join_cons, length_str_app. simpl. lia. }
  rewrite Hlen. rewrite (proj2 (Nat.eqb_neq _ _)) by lia.
  assert (slice (Join (k0 :: (p :: parts) ++ [platform]) "-") (String.length k0 + 1)
    (String.length k0 + 1 + String.length (Join (p :: parts) "-")) = Join (p :: parts) "-") as ->.
  { rewrite Hlast, Join_cons. change (String "-" (Join (p :: parts) "-")) with (String "-" "" +:+ Join (p :: parts) "-").
    replace (String.length k0 + 1) with (String.length (k0 +:+ String "-" "")) by (by rewrite length_str_app).
    rewrite <- (str_app_assoc k0), str_app_assoc. apply slice_app. }
  rewrite Split_Join by done. destruct parts; [done|]. done.
Qed.

Lemma parse_key_cases key :
  match Split key "-" with
  | k0 :: p :: rest => ∃ parts platform, Split key "-" = k0 :: parts ++ [platform] ∧
      parseDynamicHostInstanceTypeKey key = Ok (platform, Join (Strings_sort parts) "-")
  | _ => ∃ err, parseDynamicHostInstanceTypeKey key = Err err
  end.
Proof.
  pose proof (Join_Split key "-") as Hj. pose proof (Split_pieces key "-") as Hp.
  destruct (Split key "-") as [|k0 [|p rest]] eqn:Hs; [by apply Split_not_nil in Hs|..].
  - apply Forall_cons in Hp as [Hp _]. cbn in Hj. subst k0. unfold parseDynamicHostInstanceTypeKey.
    rewrite (proj2 (Index_None _ _) Hp). by eexists.
  - destruct (exists_last (l := p :: rest)) as (parts & platform & Heq); [done|].
    exists parts, platform. rewrite Heq in *. split; [done|]. rewrite <- Hj. by apply parse_key_Join.
Qed.

Lemma parse_value_cases value :
  parseDynamicHostInstanceTypeValue value =
  match Split value "-" with
  | _ :: platform :: parts => Ok (platform, Join (Strings_sort parts) "-")
  | _ => Err (ErrText "invalid value format: must be '<prefix>-<platform>' or '<prefix>-<platform>-<instance_type>'")
  end.
Proof.
  unfold parseDynamicHostInstanceTypeValue.
  destruct (Split value "-") as [|v0 [|platform [|p parts]]]; try done. by rewrite sort_if_many.
Qed.

Lemma cons_snoc_inj {A} (x y : A) l l' a b : x :: l ++ [a] = y :: l' ++ [b] → l = l' ∧ a = b.
Proof. intros Heq. injection Heq as _ Heq. by apply app_inj_tail. Qed.

(** The platform and the length test of a tag. *)
Lemma tag_length_ok platform n bound (name : string) :
  String.eqb platform name && (bound <? n)%nat = false ↔ (platform = name → n ≤ bound).
Proof.
  rewrite andb_false_iff, String.eqb_neq, Nat.ltb_ge.
  destruct (decide (platform = name)); naive_solver.
Qed.

(** The key is [<os>-<type parts>-<platform>], the value [<prefix>-<platform>-<type parts>];
    the platforms are the same, and the parts in some order. *)
Lemma validateDynamicInstanceTag_iff key value :
  validateDynamicInstanceTag key value = None ↔
  ∃ k0 kparts v0 vparts platform,
    Split key "-" = k0 :: kparts ++ [platform] ∧ Split value "-" = v0 :: platform :: vparts ∧
    type_parts kparts ≡ₚ type_parts vparts ∧
    (platform = "ppc64le" → String.length value ≤ 29) ∧ (platform = "s390x" → String.length value ≤ 45).
Proof.
  unfold validateDynamicInstanceTag. rewrite parse_value_cases.
  pose proof (parse_key_cases key) as Hk. pose proof (Split_pieces key "-") as Hkp.
  pose proof (Split_pieces value "-") as Hvp.
  destruct (Split key "-") as [|k0 [|p rest]] eqn:HK.
  { by apply Split_not_nil in HK. }
  { destruct Hk as [err ->]. split; [done|]. intros (?&parts&?&?&?&Hx&_). by destruct parts. }
  destruct Hk as (parts & platform & Heq & ->). injection Heq as Hrest. rewrite Hrest in *. clear Hrest p rest.
  destruct (Split value "-") as [|v0 [|vplat vparts]] eqn:HV.
  { by apply Split_not_nil in HV. }
  { split; [done|]. by intros (?&?&?&?&?&_&?&_). }
  apply Forall_cons in Hkp as [_ [Hkp _]%Forall_app]. apply Forall_cons in Hvp as [_ [_ Hvp]%Forall_cons].
  destruct (String.eqb platform vplat) eqn:Hp; cbn [negb].
  2:{ apply String.eqb_neq in Hp. split; [done|].
      intros (k1&ps&v1&vs&plat&[_ Hx]%cons_snoc_inj&Hy&_). injection Hy as _ Hy _. congruence. }
  apply String.eqb_eq in Hp as <-.
  destruct (String.eqb (Join (Strings_sort parts) "-") (Join (Strings_sort vparts) "-")) eqn:Hj; cbn [negb].
  2:{ apply String.eqb_neq in Hj. split; [done|].
      intros (k1&ps&v1&vs&plat&[<- _]%cons_snoc_inj&Hy&Hperm&_). injection Hy as _ _ <-.
      destruct Hj. by apply Join_sorted_inj. }
  apply String.eqb_eq, Join_sorted_inj in Hj; [|done..].
  pose proof (tag_length_ok platform (String.length value) maxInstanceTagLengthPPC "ppc64le") as Hppc.
  pose proof (tag_length_ok platform (String.length value) maxInstanceTagLengthS390x "s390x") as Hs390.
  destruct (String.eqb platform "ppc64le" && _) eqn:H1; [|destruct (String.eqb platform "s390x" && _) eqn:H2].
  - split; [done|]. intros (k1&ps&v1&vs&plat&[_ <-]%cons_snoc_inj&_&_&Hl&_).
    apply Hppc in Hl. congruence.
  - split; [done|]. intros (k1&ps&v1&vs&plat&[_ <-]%cons_snoc_inj&_&_&_&Hl).
    apply Hs390 in Hl. congruence.
  - split; [intros _|done]. exists k0, parts, v0, vparts, platform.
    split_and!; [done..|by apply Hppc|by apply Hs390].
Qed.

(** ** Platforms *)

Section platforms.
Context `{K8sLaws}.

(** The platforms the controller accepts. *)
Definition valid_platform (p : string) : Prop :=
  p ∈ ["local"; "localhost"; "linux/x86_64"] ∨
  ∃ os arch, Split p "/" = [os; arch] ∧ dns1035 os = true ∧ dns1035 arch = true.

Lemma validatePlatformFormat_iff p : validatePlatformFormat p = None ↔ valid_platform p.
Proof.
  unfold validatePlatformFormat, valid_platform. case_bool_decide as Hl.
  { split; [intros _; left|done]. set_solver. }
  assert (p ∉ ["local"; "localhost"; "linux/x86_64"]) as Hl' by set_solver.
  assert (∀ s, bool_decide (IsDNS1035Label s = []) = dns1035 s) as Hd.
  { intros s. apply Bool.eq_iff_eq_true. rewrite bool_decide_eq_true. apply IsDNS1035Label_spec. }
  cbv zeta. destruct (Split p "/") as [|os [|arch [|x l]]]; simpl.
  1,2,4: (split; [done|]; intros [?|(?&?&?&_)]; [done|simplify_eq]).
  rewrite !Hd. destruct (dns1035 os) eqn:Ho, (dns1035 arch) eqn:Ha; simpl.
  - split; [|done]. intros _. right. by exists os, arch.
  - split; [done|]. intros [?|(?&?&?&?&?)]; [done|simplify_eq; congruence].
  - split; [done|]. intros [?|(?&?&?&?&?)]; [done|simplify_eq; congruence].
  - split; [done|]. intros [?|(?&?&?&?&?)]; [done|simplify_eq; congruence].
Qed.

Lemma dns1035_chars s : dns1035 s = true → s ≠ "" ∧ str_forall dns1035_char s = true.
Proof.
  destruct s as [|c s]; [done|]. cbn [dns1035]. rewrite !andb_true_iff. intros [[[? Hs] ?] ?]. by split.
Qed.

(** A valid platform is not empty, has no white space and no comma. *)
Lemma valid_platform_chars p :
  valid_platform p → p ≠ "" ∧ TrimSpace p = p ∧ str_mem "," p = false.
Proof.
  intros [Hp|(os & arch & Hs & [Ho Hoc]%dns1035_chars & [Ha Hac]%dns1035_chars)].
  { repeat (apply elem_of_cons in Hp as [->|Hp]); [by vm_compute..|]. by apply elem_of_nil in Hp. }
  pose proof (Join_Split p "/") as Hj. rewrite Hs in Hj. change (os +:+ String "/" arch = p) in Hj.
  subst p. split; [by destruct os|].
  assert (∀ q, (∀ c, dns1035_char c = true → q c = true) → q "/"%char = true →
    str_forall q (os +:+ String "/" arch) = true) as Hall.
  { intros q Hq Hsl. rewrite str_forall_app. simpl. rewrite Hsl, !andb_true_iff.
    eauto using str_forall_impl. }
  split; [apply TrimSpace_word, Hall|apply str_mem_forall, Hall]; try done;
    intros [[] [] [] [] [] [] [] []]; vm_compute; done.
Qed.

(** The platforms of a list: its elements without white space around them, of which the
    last may be empty. *)
Lemma parse_platforms_iff pType pieces ps :
  parse_platforms pType pieces = Ok ps ↔
  Forall valid_platform ps ∧ (TrimSpace <$> pieces = ps ∨ TrimSpace <$> pieces = ps ++ [""]).
Proof.
  revert ps. induction pieces as [|p pieces IH]; intros ps; simpl.
  { split; [intros; simplify_eq; by split; [|left]|]. intros [_ [<-|Hx]]; [done|by destruct ps]. }
  destruct (String.eqb (TrimSpace p) "") eqn:He; [apply String.eqb_eq in He|apply String.eqb_neq in He].
  - rewrite He. destruct pieces as [|q pieces].
    + simpl. split; [intros; simplify_eq; by split; [|right]|].
      intros [Hv [Hx|Hx]]; [|by apply (app_inj_tail []) in Hx as [<- _]].
      subst ps. apply Forall_cons in Hv as [Hv _]. by apply valid_platform_chars in Hv as [? _].
    + split; [done|]. intros [Hv [Hx|Hx]].
      * subst ps. apply Forall_cons in Hv as [Hv _]. by apply valid_platform_chars in Hv as [? _].
      * destruct ps as [|p' ps]; simplify_eq/=. apply Forall_cons in Hv as [Hv _].
        by apply valid_platform_chars in Hv as [? _].
  - destruct (validatePlatformFormat (TrimSpace p)) as [err|] eqn:Hp.
    + assert (¬ valid_platform (TrimSpace p)) as Hn by (rewrite <- validatePlatformFormat_iff; congruence).
      split; [done|]. intros [Hv [Hx|Hx]]; (destruct ps as [|p' ps]; simplify_eq/=; [done..|]);
        by apply Forall_cons in Hv as [? _].
    + apply validatePlatformFormat_iff in Hp. rewrite result_bind_Ok. setoid_rewrite IH.
      split.
      * intros (ps' & [Hv Hx] & ?). simplify_eq. split; [by constructor|].
        destruct Hx as [Hx|Hx]; [left|right]; simpl; f_equal; exact Hx.
      * intros [Hv Hx]. destruct ps as [|p' ps]; [destruct Hx; simplify_eq/=; done|].
        exists ps. apply Forall_cons in Hv as [? ?]. destruct Hx; simplify_eq/=; auto.
Qed.

Lemma ParsePlatformList_iff s pType ps :
  ParsePlatformList s pType = Ok ps ↔
  (s = "" ∧ ps = []) ∨
  (s ≠ "" ∧ Forall valid_platform ps ∧
   (TrimSpace <$> Split s "," = ps ∨ TrimSpace <$> Split s "," = ps ++ [""])).
Proof.
  unfold ParsePlatformList. destruct (String.eqb s "") eqn:He; [apply String.eqb_eq in He|apply String.eqb_neq in He].
  - naive_solver.
  - rewrite parse_platforms_iff. naive_solver.
Qed.

Lemma Join_not_empty p ps sep : p ≠ "" → Join (p :: ps) sep ≠ "".
Proof. destruct ps as [|q ps]; [done|]. rewrite Join_cons. by destruct p. Qed.

Lemma ParsePlatformList_Join ps pType :
  Forall valid_platform ps → ParsePlatformList (Join ps ",") pType = Ok ps.
Proof.
  intros Hv. apply ParsePlatformList_iff. destruct ps as [|p ps]; [by left|right].
  assert (Forall (λ q, q ≠ "" ∧ TrimSpace q = q ∧ str_mem "," q = false) (p :: ps)) as Hc
    by (eapply Forall_impl; [exact Hv|apply valid_platform_chars]).
  split_and!; [apply Join_not_empty; by apply Forall_cons in Hc as [[? _] _]|done|left].
  rewrite Split_Join; [|done|eapply Forall_impl; [exact Hc|naive_solver]].
  clear Hv. induction Hc as [|q l (_ & Ht & _) _ IH]; [done|]. simpl. f_equal; [exact Ht|exact IH].
Qed.
End platforms.

(** ** Numbers *)

(** The text of a number in a range. *)
Definition number_in (s : string) (lo hi n : Z) : Prop := Atoi s = Ok n ∧ (lo ≤ n ≤ hi)%Z.

Lemma validateNonZeroPositiveNumber_iff s n :
  validateNonZeroPositiveNumber s = Ok n ↔ number_in s 1 max_int64 n.
Proof.
  unfold validateNonZeroPositiveNumber, number_in. destruct (Atoi s) as [m|] eqn:Hm; [|naive_solver].
  apply Atoi_range in Hm as [_ Hmax].
  destruct (m <? 1)%Z eqn:Hlt; [apply Z.ltb_lt in Hlt|apply Z.ltb_ge in Hlt].
  - split; [done|]. intros [? ?]; simplify_eq. lia.
  - split; intros; destruct_and?; simplify_eq; auto.
Qed.

Lemma validateNonZeroPositiveNumberWithMax_iff s hi n :
  (hi ≤ max_int64)%Z → validateNonZeroPositiveNumberWithMax s hi = Ok n ↔ number_in s 1 hi n.
Proof.
  intros Hhi. unfold validateNonZeroPositiveNumberWithMax. rewrite result_bind_Ok.
  setoid_rewrite validateNonZeroPositiveNumber_iff. unfold number_in. split.
  - intros (m & [? ?] & Hm). destruct (hi <? m)%Z eqn:Hlt; simplify_eq. apply Z.ltb_ge in Hlt. split; [done|lia].
  - intros [? ?]. exists n. split; [split; [done|lia]|].
    destruct (hi <? n)%Z eqn:Hlt; [apply Z.ltb_lt in Hlt; lia|done].
Qed.

(** ** The configurations *)

Section configs.
Variable data : smap.

(** The key of a cloud platform's field, and the value there. *)
Definition dynamic_value (platform field : string) : string := sget data (dynamic_prefix platform +:+ field).
(** An IBM secret names the architecture of its platform. *)
Definition names_architecture (platform secret : string) : Prop :=
  ∃ arch, arch ∈ ["s390x"; "ppc64le"] ∧ Contains platform arch = true ∧ Contains secret arch = true.

Lemma validateIBMHostSecret_iff key value :
  validateIBMHostSecret key value = None ↔ names_architecture key value.
Proof.
  unfold validateIBMHostSecret, names_architecture. destruct (existsb _ _) eqn:He.
  - split; [|done]. intros _. apply existsb_exists in He as (arch & Hin & [? ?]%andb_true_iff).
    exists arch. by rewrite list_elem_of_In.
  - split; [done|]. intros (arch & Hin & H1 & H2). apply not_true_iff_false in He.
    destruct He. apply existsb_exists. exists arch. rewrite <- list_elem_of_In, H1, H2. done.
Qed.

(** The fields the two kinds of cloud platforms share. *)
Record cloud_fields (platform type : string) (maxInstances : Z) (tag sshSecret : string) : Prop := {
  cf_type : dynamic_value platform "type" = type;
  cf_known : type ∈ ["aws"; "ibmz"; "ibmp"];
  cf_max : number_in (dynamic_value platform "max-instances") 1 max_int64 maxInstances;
  cf_tag : dynamic_value platform "instance-tag" = tag;
  cf_tag_ok : tag ≠ "" → validateDynamicInstanceTag (platform_config_name platform) tag = None;
  cf_secret : TrimSpace (dynamic_value platform "ssh-secret") = sshSecret;
  cf_secret_set : sshSecret ≠ "";
  cf_secret_ok : type ≠ "aws" → names_architecture platform sshSecret
}.

Lemma required_type_iff platform what t :
  parseDynamicRequiredTypeField data (dynamic_prefix platform) platform what = Ok t ↔
  dynamic_value platform "type" = t ∧ t ≠ "".
Proof.
  unfold parseDynamicRequiredTypeField, dynamic_value.
  destruct (String.eqb _ "") eqn:He; [apply String.eqb_eq in He|apply String.eqb_neq in He]; simpl; naive_solver.
Qed.

Lemma required_max_iff platform what n :
  parseDynamicRequiredMaxInstancesField data (dynamic_prefix platform) platform what = Ok n ↔
  number_in (dynamic_value platform "max-instances") 1 max_int64 n.
Proof.
  unfold parseDynamicRequiredMaxInstancesField. fold (dynamic_value platform "max-instances").
  destruct (String.eqb _ "") eqn:He; [apply String.eqb_eq in He|apply String.eqb_neq in He]; simpl.
  - rewrite He. unfold number_in. split; [done|]. by intros [? _].
  - by rewrite map_err_Ok, validateNonZeroPositiveNumber_iff.
Qed.

Lemma optional_tag_iff platform what tag :
  parseDynamicOptionalInstanceTagField data (dynamic_prefix platform) (platform_config_name platform) platform what = Ok tag ↔
  dynamic_value platform "instance-tag" = tag ∧
  (tag ≠ "" → validateDynamicInstanceTag (platform_config_name platform) tag = None).
Proof.
  unfold parseDynamicOptionalInstanceTagField. fold (dynamic_value platform "instance-tag").
  destruct (String.eqb _ "") eqn:He; [apply String.eqb_eq in He|apply String.eqb_neq in He]; simpl.
  - rewrite He. naive_solver.
  - destruct (validateDynamicInstanceTag _ _) eqn:Hv; naive_solver congruence.
Qed.

Lemma required_secret_iff platform what type s :
  type ≠ "" →
  parseRequiredSSHSecretField data (dynamic_prefix platform) platform what type = Ok s ↔
  TrimSpace (dynamic_value platform "ssh-secret") = s ∧ s ≠ "" ∧ type ∈ ["aws"; "ibmz"; "ibmp"] ∧
  (type ≠ "aws" → names_architecture platform s).
Proof.
  intros Hne. unfold parseRequiredSSHSecretField. fold (dynamic_value platform "ssh-secret"). cbv zeta.
  destruct (String.eqb (TrimSpace _) "") eqn:He; [apply String.eqb_eq in He|apply String.eqb_neq in He].
  { rewrite He. naive_solver. }
  destruct (String.eqb type "aws") eqn:Ha; [apply String.eqb_eq in Ha as ->|apply String.eqb_neq in Ha].
  { split; [intros; simplify_eq; split_and!; [done..|left|done]|naive_solver]. }
  destruct (String.eqb type "ibmz" || String.eqb type "ibmp") eqn:Hi.
  - assert (type ∈ ["aws"; "ibmz"; "ibmp"]) as Hin.
    { apply orb_true_iff in Hi as [->%String.eqb_eq| ->%String.eqb_eq]; [by right; left|by do 2 right; left]. }
    rewrite <- validateIBMHostSecret_iff with (value := s).
    destruct (validateIBMHostSecret platform _) eqn:Hv; naive_solver congruence.
  - split; [done|]. intros (_ & _ & Hin & _). apply orb_false_iff in Hi as [?%String.eqb_neq ?%String.eqb_neq].
    repeat (apply elem_of_cons in Hin as [->|Hin]; [done|]). by apply elem_of_nil in Hin.
Qed.

(** *** Dynamic platforms *)

Record dynamic_valid (platform : string) (c : DynamicPlatformConfig) : Prop := {
  dv_cloud : cloud_fields platform (Type_ c) (MaxInstances c) (InstanceTag c) (SSHSecret c);
  dv_timeout : if bool_decide (dynamic_value platform "allocation-timeout" = "") then AllocationTimeout c = 600%Z
               else number_in (dynamic_value platform "allocation-timeout") 1 max_int64 (AllocationTimeout c);
  dv_interval : if bool_decide (dynamic_value platform "check-interval" = "") then CheckInterval c = 60%Z
                else number_in (dynamic_value platform "check-interval") 1 max_int64 (CheckInterval c);
  dv_sudo : SudoCommands c = dynamic_value platform "sudo-commands"
}.

Lemma optional_positive_iff platform field dflt n :
  optional_positive data (dynamic_prefix platform) platform field dflt = Ok n ↔
  if bool_decide (dynamic_value platform field = "") then n = dflt
  else number_in (dynamic_value platform field) 1 max_int64 n.
Proof.
  unfold optional_positive. fold (dynamic_value platform field). cbv zeta.
  case_bool_decide as He.
  - rewrite He. simpl. naive_solver.
  - rewrite (proj2 (String.eqb_neq _ _) He). simpl. by rewrite map_err_Ok, validateNonZeroPositiveNumber_iff.
Qed.

Lemma ParseDynamicPlatformConfig_iff platform c :
  ParseDynamicPlatformConfig data platform = Ok c ↔ dynamic_valid platform c.
Proof.
  unfold ParseDynamicPlatformConfig. cbv zeta. split.
  - intros (t & [Ht Hne]%required_type_iff & (n & Hn%required_max_iff & (tag & [Htag Hok]%optional_tag_iff &
      (to & Hto%optional_positive_iff & (iv & Hiv%optional_positive_iff &
      (s & Hs & Hc)%result_bind_Ok)%result_bind_Ok)%result_bind_Ok)%result_bind_Ok)%result_bind_Ok)%result_bind_Ok.
    simplify_eq. apply required_secret_iff in Hs as (? & ? & ? & ?); [|done]. by split; [split|..].
  - intros [[Ht Hk Hn Htag Hok Hs Hs1 Hs2] Hto Hiv Hsu].
    assert (Type_ c ≠ "") as Hne by (intros Hx; rewrite Hx in Hk; set_solver).
    apply result_bind_Ok. exists (Type_ c). split; [by apply required_type_iff|].
    apply result_bind_Ok. exists (MaxInstances c). split; [by apply required_max_iff|].
    apply result_bind_Ok. exists (InstanceTag c). split; [by apply optional_tag_iff|].
    apply result_bind_Ok. exists (AllocationTimeout c). split; [by apply optional_positive_iff|].
    apply result_bind_Ok. exists (CheckInterval c). split; [by apply optional_positive_iff|].
    apply result_bind_Ok. exists (SSHSecret c). split; [by apply required_secret_iff|].
    fold (dynamic_value platform "sudo-commands"). rewrite <- Hsu. by destruct c.
Qed.

(** *** Dynamic pools *)

Record pool_valid (platform : string) (c : DynamicPoolPlatformConfig) : Prop := {
  pv_cloud : cloud_fields platform (pool_Type c) (pool_MaxInstances c) (pool_InstanceTag c) (pool_SSHSecret c);
  pv_concurrency : number_in (dynamic_value platform "concurrency") 1 8 (pool_Concurrency c);
  pv_age : number_in (dynamic_value platform "max-age") 1 1440 (pool_MaxAge c)
}.

Lemma required_bounded_iff platform field hi n :
  (hi ≤ max_int64)%Z →
  required_bounded data (dynamic_prefix platform) platform field hi = Ok n ↔
  number_in (dynamic_value platform field) 1 hi n.
Proof.
  intros Hhi. unfold required_bounded. fold (dynamic_value platform field). cbv zeta.
  destruct (String.eqb _ "") eqn:He; [apply String.eqb_eq in He|apply String.eqb_neq in He]; simpl.
  - rewrite He. unfold number_in. split; [done|]. by intros [? _].
  - by rewrite map_err_Ok, validateNonZeroPositiveNumberWithMax_iff.
Qed.

Lemma ParseDynamicPoolPlatformConfig_iff platform c :
  ParseDynamicPoolPlatformConfig data platform = Ok c ↔ pool_valid platform c.
Proof.
  unfold ParseDynamicPoolPlatformConfig. cbv zeta. split.
  - intros (t & [Ht Hne]%required_type_iff & (n & Hn%required_max_iff & (co & Hco%required_bounded_iff &
      (ag & Hag%required_bounded_iff & (tag & [Htag Hok]%optional_tag_iff &
      (s & Hs & Hc)%result_bind_Ok)%result_bind_Ok)%result_bind_Ok)%result_bind_Ok)%result_bind_Ok)%result_bind_Ok;
      [|done..].
    simplify_eq. apply required_secret_iff in Hs as (? & ? & ? & ?); [|done]. by split; [split|..].
  - intros [[Ht Hk Hn Htag Hok Hs Hs1 Hs2] Hco Hag].
    assert (pool_Type c ≠ "") as Hne by (intros Hx; rewrite Hx in Hk; set_solver).
    apply result_bind_Ok. exists (pool_Type c). split; [by apply required_type_iff|].
    apply result_bind_Ok. exists (pool_MaxInstances c). split; [by apply required_max_iff|].
    apply result_bind_Ok. exists (pool_Concurrency c). split; [by apply required_bounded_iff|].
    apply result_bind_Ok. exists (pool_MaxAge c). split; [by apply required_bounded_iff|].
    apply result_bind_Ok. exists (pool_InstanceTag c). split; [by apply optional_tag_iff|].
    apply result_bind_Ok. exists (pool_SSHSecret c). split; [by apply required_secret_iff|]. by destruct c.
Qed.

End configs.

(** *** Static hosts *)

Section static.
Context `{K8sLaws}.
Variable data : smap.

(** The key of a static host's field, and the value there. *)
Definition host_value (hostName field : string) : string := sget data (("host." +:+ hostName +:+ ".") +:+ field).

Record static_valid (hostName : string) (c : StaticHostConfig) : Prop := {
  sv_address : TrimSpace (host_value hostName "address") = host_Address c;
  sv_address_ok : ParseIP_ok (host_Address c) = true;
  sv_address_set : host_Address c ≠ "";
  sv_user : TrimSpace (host_value hostName "user") = host_User c;
  sv_platform : TrimSpace (host_value hostName "platform") = host_Platform c;
  sv_platform_ok : host_Platform c ≠ "" → valid_platform (host_Platform c);
  sv_secret : TrimSpace (host_value hostName "secret") = host_Secret c;
  sv_secret_ok : host_Secret c ≠ "" →
    Contains (host_Platform c) "s390x" = true ∨ Contains (host_Platform c) "ppc64le" = true →
    names_architecture (host_Platform c) (host_Secret c);
  sv_concurrency : if bool_decide (host_value hostName "concurrency" = "") then host_Concurrency c = 0%Z
                   else number_in (host_value hostName "concurrency") 1 8 (host_Concurrency c)
}.

(** The checks of the fields, one by one. *)
Lemma address_check_iff bad address :
  (if String.eqb address "" then Ok tt else check bad (ValidateIPFormat address)) = Ok tt ↔
  (address ≠ "" → ParseIP_ok address = true).
Proof.
  unfold ValidateIPFormat. destruct (String.eqb address "") eqn:He;
    [apply String.eqb_eq in He; naive_solver|apply String.eqb_neq in He].
  rewrite check_Ok. destruct (ParseIP_ok address); naive_solver.
Qed.
Lemma platform_check_iff bad platform :
  (if String.eqb platform "" then Ok tt else check bad (validatePlatformFormat platform)) = Ok tt ↔
  (platform ≠ "" → valid_platform platform).
Proof.
  destruct (String.eqb platform "") eqn:He; [apply String.eqb_eq in He; naive_solver|apply String.eqb_neq in He].
  rewrite check_Ok, validatePlatformFormat_iff. naive_solver.
Qed.
Lemma secret_check_iff bad platform secret :
  (if negb (String.eqb secret "") && (Contains platform "s390x" || Contains platform "ppc64le")
   then check bad (validateIBMHostSecret platform secret) else Ok tt) = Ok tt ↔
  (secret ≠ "" → Contains platform "s390x" = true ∨ Contains platform "ppc64le" = true →
   names_architecture platform secret).
Proof.
  destruct (String.eqb secret "") eqn:He; [apply String.eqb_eq in He; naive_solver|apply String.eqb_neq in He].
  simpl. destruct (_ || _) eqn:Ha.
  - rewrite check_Ok, validateIBMHostSecret_iff. apply orb_true_iff in Ha. naive_solver.
  - apply orb_false_iff in Ha as [-> ->]. naive_solver.
Qed.
Lemma concurrency_iff bad s n :
  (if String.eqb s "" then Ok defaultStaticHostsConcurrency
   else map_err bad (validateNonZeroPositiveNumberWithMax s maxStaticConcurrency)) = Ok n ↔
  if bool_decide (s = "") then n = 0%Z else number_in s 1 8 n.
Proof.
  case_bool_decide as He; [subst; simpl; naive_solver|].
  rewrite (proj2 (String.eqb_neq _ _) He). by rewrite map_err_Ok, validateNonZeroPositiveNumberWithMax_iff.
Qed.

Lemma ParseStaticHostConfig_iff hostName c :
  ParseStaticHostConfig data hostName = Ok c ↔ static_valid hostName c.
Proof.
  unfold ParseStaticHostConfig. cbv zeta. split.
  - intros ([] & Ha & ([] & Hp & ([] & Hs & (n & Hn & Hc)%result_bind_Ok)%result_bind_Ok)%result_bind_Ok)%result_bind_Ok.
    rewrite address_check_iff in Ha. rewrite platform_check_iff in Hp. rewrite secret_check_iff in Hs.
    rewrite concurrency_iff in Hn.
    destruct (String.eqb _ "") eqn:He; [done|]. apply String.eqb_neq in He. simplify_eq.
    by split; [|apply Ha|..].
  - intros [Ha Ha1 Ha2 Hu Hp Hp1 Hs Hs1 Hn]. unfold host_value in *.
    apply result_bind_Ok. exists tt. split; [apply address_check_iff; intros _; by rewrite Ha|].
    apply result_bind_Ok. exists tt. split; [apply platform_check_iff; by rewrite Hp|].
    apply result_bind_Ok. exists tt. split; [apply secret_check_iff; by rewrite Hp, Hs|].
    apply result_bind_Ok. exists (host_Concurrency c). split; [by apply concurrency_iff|].
    rewrite Ha, Hu, Hp, Hs.
    rewrite (proj2 (String.eqb_neq _ _) Ha2). by destruct c.
Qed.
End static.

(** ** Properties *)

(** C27. A platform list parses to [ps] exactly when [ps] are valid platforms and are the
    list's comma-separated elements without the white space around them, but for one empty
    element at the end; the empty list parses to no platform. *)
Theorem ParsePlatformList_accepts `{K8sLaws} s pType ps :
  ParsePlatformList s pType = Ok ps ↔
  (s = "" ∧ ps = []) ∨
  (s ≠ "" ∧ Forall valid_platform ps ∧
   (TrimSpace <$> Split s "," = ps ∨ TrimSpace <$> Split s "," = ps ++ [""])).
Proof. apply ParsePlatformList_iff. Qed.

(** C28. Valid platforms, joined by commas, parse back to themselves. *)
Theorem ParsePlatformList_round_trip `{K8sLaws} ps pType :
  Forall valid_platform ps → ParsePlatformList (Join ps ",") pType = Ok ps.
Proof. apply ParsePlatformList_Join. Qed.

(** C32. An instance tag is accepted for a platform exactly when it is
    [<prefix>-<platform>-<type parts>] with the last part of the platform's key as its
    platform and the parts in the middle of the key, in any order, as its type parts, and
    it is short enough for the IBM clouds. *)
Theorem instance_tag_accepted key value :
  validateDynamicInstanceTag key value = None ↔
  ∃ k0 kparts v0 vparts platform,
    Split key "-" = k0 :: kparts ++ [platform] ∧ Split value "-" = v0 :: platform :: vparts ∧
    type_parts kparts ≡ₚ type_parts vparts ∧
    (platform = "ppc64le" → String.length value ≤ 29) ∧ (platform = "s390x" → String.length value ≤ 45).
Proof. apply validateDynamicInstanceTag_iff. Qed.

(** C29. A dynamic platform's configuration parses to [c] exactly when each of its fields
    is valid and [c] holds its value, or its default for a field that is not set. *)
Theorem ParseDynamicPlatformConfig_accepts data platform c :
  ParseDynamicPlatformConfig data platform = Ok c ↔ dynamic_valid data platform c.
Proof. apply ParseDynamicPlatformConfig_iff. Qed.

(** C30. A dynamic pool's configuration parses to [c] exactly when each of its fields is
    valid, with a concurrency from 1 to 8 and an age of up to a day, and [c] holds them. *)
Theorem ParseDynamicPoolPlatformConfig_accepts data platform c :
  ParseDynamicPoolPlatformConfig data platform = Ok c ↔ pool_valid data platform c.
Proof. apply ParseDynamicPoolPlatformConfig_iff. Qed.

(** C31. A static host's configuration parses to [c] exactly when it has an IP address, its
    platform is valid or not set, its secret names the architecture of an IBM platform,
    and its concurrency is from 1 to 8 or not set, which makes it 0. *)
Theorem ParseStaticHostConfig_accepts `{K8sLaws} data hostName c :
  ParseStaticHostConfig data hostName = Ok c ↔ static_valid data hostName c.
Proof. apply ParseStaticHostConfig_iff. Qed.

#[local] Existing Instances example_k8s example_k8s_laws.

Lemma ParsePlatformList_accepts_witness :
  ParsePlatformList "linux/arm64, linux/s390x," PlatformTypeDynamic = Ok ["linux/arm64"; "linux/s390x"] ∧
  ("linux/arm64, linux/s390x," = "" ∧ ["linux/arm64"; "linux/s390x"] = [] ∨
   "linux/arm64, linux/s390x," ≠ "" ∧ Forall valid_platform ["linux/arm64"; "linux/s390x"] ∧
   (TrimSpace <$> Split "linux/arm64, linux/s390x," "," = ["linux/arm64"; "linux/s390x"] ∨
    TrimSpace <$> Split "linux/arm64, linux/s390x," "," = ["linux/arm64"; "linux/s390x"] ++ [""])).
Proof.
  split; [vm_compute; reflexivity|].
  apply (ParsePlatformList_accepts _ PlatformTypeDynamic). vm_compute. reflexivity.
Defined.

Lemma ParsePlatformList_round_trip_witness :
  ParsePlatformList (Join ["linux/arm64"; "local"] ",") PlatformTypeLocal = Ok ["linux/arm64"; "local"].
Proof.
  apply ParsePlatformList_round_trip. constructor; [|constructor; [|constructor]].
  - right. exists "linux", "arm64". split; [reflexivity|]. split; vm_compute; reflexivity.
  - left. left.
Defined.

Lemma ParseStaticHostConfig_accepts_witness :
  let data : smap := list_to_map [("host.a.address", "10.0.0.1"); ("host.a.platform", "linux/arm64"); ("host.a.concurrency", "4")] in
  let c := {| host_Address := "10.0.0.1"; host_User := ""; host_Platform := "linux/arm64"; host_Secret := "";
              host_Concurrency := 4 |} in
  ParseStaticHostConfig data "a" = Ok c ∧ static_valid data "a" c.
Proof.
  split; [vm_compute; reflexivity|]. apply ParseStaticHostConfig_accepts. vm_compute. reflexivity.
Defined.
