(* ===== verification/PlatformFacts.v ===== *)
(** * The resolution of platforms: what [getPlatformConfig] returns, and that its cache
      always agrees with the ConfigMap *)
From S2P Require Import Prelude GoLib GoStrings NetIP Prog Kube Config Cloud Effects Metrics Update Provision Platforms.
From S2P Require Import Trace ConfigFacts.

(** ** Metrics *)

Lemma wp_register_collectors p names : spec (register_collectors p names) (λ _ l,
  Forall (λ a, ∃ n r, a = A_Register p n r) (actions l) ∧
  ∀ m, mem_of m l = m).
Proof.
  induction names as [|n names IH]; intros m; cbn [register_collectors]; [apply wp_ret; by split; [constructor|]|].
  unfold metric. apply wp_bind, wp_trigger. intros [err|] _.
  - apply wp_ret. split; [|done]. constructor; [by eexists _, _|constructor].
  - apply wp_at. eapply wp_mono; [|apply IH]. intros r l [Hl Hm]. split.
    + rewrite actions_app. apply Forall_app_2; [done|]. constructor; [by eexists _, _|constructor].
    + intros m'. rewrite mem_of_app. apply Hm.
Qed.

(** The cache and the version are not changed by [l]. *)
Definition keeps_cache (l : hist mpcE) : Prop :=
  ∀ m, m_version (mem_of m l) = m_version m ∧ m_cache (mem_of m l) = m_cache m.

Lemma keeps_cache_nil : keeps_cache [].
Proof. done. Qed.
Lemma keeps_cache_app l h : keeps_cache l → keeps_cache h → keeps_cache (l ++ h).
Proof.
  intros Hl Hh m. rewrite mem_of_app. destruct (Hl (mem_of m h)) as [-> ->]. apply Hh.
Qed.
#[export] Hint Resolve keeps_cache_nil keeps_cache_app : mpc.

Lemma wp_RegisterPlatformMetrics p n :
  spec (RegisterPlatformMetrics p n) (λ _ l, quiet l ∧ keeps_cache l).
Proof.
  intros m. unfold RegisterPlatformMetrics, metric. cbv zeta. apply wp_bind, wp_trigger. intros [] _.
  { apply wp_ret. split; [by auto with mpc|]. by intros []. }
  eapply wp_call; [apply wp_register_collectors|]. intros err l [Hl Hm].
  set (ev := Ev _ false).
  assert (quiet (l ++ [ev]) ∧ keeps_cache (l ++ [ev])) as [Hq Hk].
  { split.
    - apply quiet_app; [|by auto with mpc]. eapply Forall_impl; [exact Hl|]. by intros a (? & ? & ->).
    - intros m'. rewrite mem_of_app, Hm. by destruct m'. }
  destruct err as [err|]; [by apply wp_ret|].
  apply wp_bind, wp_trigger. intros u1 _. apply wp_bind, wp_trigger. intros u2 _. apply wp_ret.
  split; [by auto with mpc|]. intros m'. simpl. apply Hk.
Qed.

Section resolve.
Context `{K8sLaws}.
Variable operatorNamespace : string.

(** ** The specification *)

Definition platform_list (data : smap) (key : string) (t : PlatformType) (ps : list string) : Prop :=
  ParsePlatformList (sget data key) t = Ok ps.

(** A provider of a type, for a platform. *)
Definition provider_of (type platform : string) (data : smap) (p : CloudProvider) : Prop :=
  cloudProviders !! type = Some (cp_ctor p) ∧ cp_platform p = platform_config_name platform ∧
  cp_config p = data ∧ cp_systemNamespace p = operatorNamespace.

Record resolver_of (data : smap) (platform : string) (c : DynamicPlatformConfig) (r : DynamicResolver) : Prop := {
  ro_provider : provider_of (Type_ c) platform data (dr_CloudProvider r);
  ro_secret : dr_sshSecret r = SSHSecret c;
  ro_platform : dr_platform r = platform;
  ro_max : dr_maxInstances r = MaxInstances c;
  ro_tag : dr_instanceTag r = instance_tag_or_default (InstanceTag c) data;
  ro_timeout : dr_timeout r = AllocationTimeout c;
  ro_interval : dr_checkInterval r = CheckInterval c;
  ro_sudo : dr_sudoCommands r = SudoCommands c
}.

Record host_pool_of (data : smap) (platform : string) (c : DynamicPoolPlatformConfig) (p : DynamicHostPool) : Prop := {
  hpo_provider : provider_of (pool_Type c) platform data (dp_cloudProvider p);
  hpo_secret : dp_sshSecret p = pool_SSHSecret c;
  hpo_platform : dp_platform p = platform;
  hpo_max : dp_maxInstances p = pool_MaxInstances c;
  hpo_concurrency : dp_concurrency p = pool_Concurrency c;
  hpo_age : dp_maxAge p = (pool_MaxAge c * Minute)%Z;
  hpo_tag : dp_instanceTag p = instance_tag_or_default (pool_InstanceTag c) data
}.

(** The static hosts the ConfigMap names. *)
Definition names_host (data : smap) (name : string) : Prop :=
  ∃ k, is_Some (data !! k) ∧ static_host_name k = Some name.

Record static_pool_of (data : smap) (platform : string) (hp : HostPool) : Prop := {
  spo_platform : targetPlatform hp = platform;
  spo_valid name : names_host data name → ∃ c, static_valid data name c;
  spo_hosts name h : hosts hp !! name = Some h ↔
    names_host data name ∧ ∃ c, static_valid data name c ∧ host_Platform c = platform ∧ h = static_host name c
}.

(** What a platform resolves to: the first of the lists that has it decides. *)
Inductive resolves (data : smap) (platform : string) : PlatformConfig → Prop :=
| resolves_local ls :
    platform_list data LocalPlatforms PlatformTypeLocal ls → platform ∈ ls →
    resolves data platform Local
| resolves_dynamic ls ds c r :
    platform_list data LocalPlatforms PlatformTypeLocal ls → platform ∉ ls →
    platform_list data DynamicPlatforms PlatformTypeDynamic ds → platform ∈ ds →
    dynamic_valid data platform c → resolver_of data platform c r →
    resolves data platform (Dynamic r)
| resolves_pool ls ds ps c p :
    platform_list data LocalPlatforms PlatformTypeLocal ls → platform ∉ ls →
    platform_list data DynamicPlatforms PlatformTypeDynamic ds → platform ∉ ds →
    platform_list data DynamicPoolPlatforms PlatformTypeDynamicPool ps → platform ∈ ps →
    pool_valid data platform c → host_pool_of data platform c p →
    resolves data platform (DynamicPool p)
| resolves_static ls ds ps hp :
    platform_list data LocalPlatforms PlatformTypeLocal ls → platform ∉ ls →
    platform_list data DynamicPlatforms PlatformTypeDynamic ds → platform ∉ ds →
    platform_list data DynamicPoolPlatforms PlatformTypeDynamicPool ps → platform ∉ ps →
    static_pool_of data platform hp →
    resolves data platform (Static hp).

(** ** The static hosts *)

Lemma lookup_static_host_names keys name :
  is_Some (static_host_names keys !! name) ↔ ∃ k, k ∈ keys ∧ static_host_name k = Some name.
Proof.
  unfold static_host_names. induction keys as [|k keys IH] using rev_ind.
  - simpl. rewrite lookup_empty. split; [by intros []|]. by intros (k & ?%not_elem_of_nil & _).
  - rewrite foldl_app. cbn [foldl]. setoid_rewrite elem_of_snoc.
    destruct (static_host_name k) as [n|] eqn:Hk.
    + rewrite lookup_insert_is_Some, IH. destruct (decide (n = name)); naive_solver.
    + rewrite IH. naive_solver.
Qed.

Lemma parse_static_hosts_Ok data platform names ret hosts :
  NoDup names → (∀ n, n ∈ names → ret !! n = None) →
  parse_static_hosts data platform ret names = Ok hosts →
  (∀ n, n ∈ names → ∃ c, static_valid data n c) ∧
  ∀ n h, hosts !! n = Some h ↔ ret !! n = Some h ∨
    n ∈ names ∧ ∃ c, static_valid data n c ∧ host_Platform c = platform ∧ h = static_host n c.
Proof.
  revert ret. induction names as [|n names IH]; intros ret Hnd Hret; simpl.
  { intros; simplify_eq. split; [by intros n ?%not_elem_of_nil|]. intros n h. split; [by left|].
    by intros [?|[?%not_elem_of_nil _]]. }
  apply NoDup_cons in Hnd as [Hn Hnd]. intros (c & Hc%map_err_Ok & Hp)%result_bind_Ok.
  rewrite ParseStaticHostConfig_iff in Hc.
  assert (∀ c', static_valid data n c' → c' = c) as Hfun.
  { intros c' Hc'. rewrite <- ParseStaticHostConfig_iff in Hc, Hc'. congruence. }
  apply IH in Hp as [Hv Hh]; [|done|].
  2:{ intros n' Hn'. assert (n' ≠ n) by (intros ->; done).
      destruct (String.eqb _ _); [rewrite lookup_insert_ne by done|]; apply Hret; by right. }
  split; [intros n' [->|?]%elem_of_cons; [by exists c|by apply Hv]|].
  intros n' h. rewrite Hh, elem_of_cons. clear Hh IH.
  destruct (decide (n' = n)) as [->|Hne].
  - rewrite (Hret n) by left. destruct (String.eqb (host_Platform c) platform) eqn:Hpl;
      [apply String.eqb_eq in Hpl|apply String.eqb_neq in Hpl; rewrite (Hret n) by left].
    + rewrite lookup_insert_eq. split.
      * intros [?|[? _]]; [|done]. simplify_eq. right. split; [by left|]. by exists c.
      * intros [?|(_ & c' & Hc' & _ & ->)]; [done|left]. by rewrite (Hfun _ Hc').
    + split; [naive_solver|]. intros [?|(_ & c' & Hc' & Hp' & ->)]; [done|]. by rewrite (Hfun _ Hc') in Hp'.
  - destruct (String.eqb _ _); [rewrite lookup_insert_ne by done|]; naive_solver.
Qed.

(** ** The wp of a resolution *)

(** [l] caches [c] for [platform], and changes nothing else of the cache. *)
Definition caches (platform : string) (c : PlatformConfig) (l : hist mpcE) : Prop :=
  ∀ m, m_version (mem_of m l) = m_version m ∧ m_cache (mem_of m l) = <[platform := c]> (m_cache m).

Lemma caches_app platform c l1 ev l2 :
  keeps_cache l1 → keeps_cache l2 → caches platform c [ev] → caches platform c (l1 ++ ev :: l2).
Proof.
  intros H1 H2 He m. rewrite mem_of_app. destruct (H1 (mem_of m (ev :: l2))) as [-> ->].
  change (ev :: l2) with ([ev] ++ l2). rewrite mem_of_app. destruct (He (mem_of m l2)) as [-> ->].
  by destruct (H2 m) as [-> ->].
Qed.

(** What a resolution does: it may cache a configuration the platform resolves to. *)
Definition resolution_calls (platform : string) (l : hist mpcE) : Prop :=
  Forall (λ a, plain a ∨ ∃ c, a = A_Cache platform c) (actions l).

Lemma resolution_quiet platform l : quiet l → resolution_calls platform l.
Proof. intros Hq. eapply Forall_impl; [exact Hq|]. by left. Qed.
Lemma resolution_app platform l h :
  resolution_calls platform l → resolution_calls platform h → resolution_calls platform (l ++ h).
Proof. unfold resolution_calls. rewrite actions_app. apply Forall_app_2. Qed.

Definition resolved (data : smap) (platform : string) (r : result PlatformConfig) (l : hist mpcE) : Prop :=
  resolution_calls platform l ∧
  match r with
  | Ok c => resolves data platform c ∧ (c = Local ∧ keeps_cache l ∨ caches platform c l)
  | Err _ => keeps_cache l ∨ ∃ c, resolves data platform c ∧ caches platform c l
  end.

(** A configuration that is built and then cached. *)
Lemma resolved_cached data platform c l1 l2 :
  resolves data platform c → quiet l1 → quiet l2 → keeps_cache l1 → keeps_cache l2 →
  let l := l1 ++ Ev (Mem (Set_platformConfig platform c)) tt :: l2 in
  resolved data platform (Ok c) l ∧ ∀ err, resolved data platform (Err err) l.
Proof.
  intros Hr Hq1 Hq2 Hk1 Hk2 l.
  assert (resolution_calls platform l) as Hcalls.
  { apply resolution_app; [by apply resolution_quiet|]. constructor; [right; by eexists|by apply resolution_quiet]. }
  assert (caches platform c l) by by apply caches_app.
  split; [|intros err]; (split; [done|]); [by split; [|right]|by right; exists c].
Qed.

Lemma wp_new_provider type platform data m (Q : CloudProvider → hist mpcE → Prop) h :
  type ∈ ["aws"; "ibmz"; "ibmp"] →
  (∀ p, provider_of type platform data p → Q p h) →
  wp (go_spec m) (new_provider operatorNamespace type (platform_config_name platform) data) Q h.
Proof.
  intros Ht HQ. unfold new_provider.
  assert (is_Some (cloudProviders !! type)) as [ctor Hc].
  { repeat (apply elem_of_cons in Ht as [->|Ht]); [by eexists; vm_compute..|]. by apply elem_of_nil in Ht. }
  rewrite Hc. by apply wp_ret, HQ.
Qed.

Lemma wp_dynamic_platform data platform tags ls ds :
  platform_list data LocalPlatforms PlatformTypeLocal ls → platform ∉ ls →
  platform_list data DynamicPlatforms PlatformTypeDynamic ds → platform ∈ ds →
  spec (dynamic_platform operatorNamespace data platform tags) (λ r l, resolved data platform r l).
Proof.
  intros Hls Hl Hds Hd m. unfold dynamic_platform.
  destruct (ParseDynamicPlatformConfig data platform) as [c|err] eqn:Hc;
    [|apply wp_ret; split; [by apply resolution_quiet, quiet_nil|by left]].
  rewrite ParseDynamicPlatformConfig_iff in Hc. unfold buildDynamicResolver. apply wp_bind, wp_bind.
  apply wp_new_provider; [apply Hc|]. intros p Hp.
  eapply wp_call; [apply wp_RegisterPlatformMetrics|]. intros err l [Hq Hk]. apply wp_ret. rewrite app_nil_r.
  destruct err as [err|]; [apply wp_ret; split; [by apply resolution_quiet|by left]|].
  unfold mem. apply wp_bind, wp_trigger. intros [] _. apply wp_ret.
  eapply (resolved_cached _ _ _ []); [|by auto with mpc..]. by eapply resolves_dynamic.
Qed.

Lemma wp_dynamic_pool_platform data platform tags ls ds ps :
  platform_list data LocalPlatforms PlatformTypeLocal ls → platform ∉ ls →
  platform_list data DynamicPlatforms PlatformTypeDynamic ds → platform ∉ ds →
  platform_list data DynamicPoolPlatforms PlatformTypeDynamicPool ps → platform ∈ ps →
  spec (dynamic_pool_platform operatorNamespace data platform tags) (λ r l, resolved data platform r l).
Proof.
  intros Hls Hl Hds Hd Hps Hp m. unfold dynamic_pool_platform.
  destruct (ParseDynamicPoolPlatformConfig data platform) as [c|err] eqn:Hc;
    [|apply wp_ret; split; [by apply resolution_quiet, quiet_nil|by left]].
  rewrite ParseDynamicPoolPlatformConfig_iff in Hc. unfold buildDynamicHostPool. apply wp_bind, wp_bind.
  apply wp_new_provider; [apply Hc|]. intros p Hpr.
  eapply wp_call; [apply wp_RegisterPlatformMetrics|]. intros err l [Hq Hk]. apply wp_ret. rewrite app_nil_r.
  destruct err as [err|]; [apply wp_ret; split; [by apply resolution_quiet|by left]|].
  unfold mem. apply wp_bind, wp_trigger. intros [] _. apply wp_ret.
  eapply (resolved_cached _ _ _ []); [|by auto with mpc..]. eapply resolves_pool; [done..|].
  split; try done. simpl. destruct (pv_age _ _ _ Hc) as [_ ?]. unfold Minute, Second.
  rewrite wrap64_id; [lia|]. unfold in_int64, min_int64, max_int64. lia.
Qed.

Lemma wp_static_platform data platform ls ds ps :
  platform_list data LocalPlatforms PlatformTypeLocal ls → platform ∉ ls →
  platform_list data DynamicPlatforms PlatformTypeDynamic ds → platform ∉ ds →
  platform_list data DynamicPoolPlatforms PlatformTypeDynamicPool ps → platform ∉ ps →
  spec (static_platform data platform) (λ r l, resolved data platform r l).
Proof.
  intros Hls Hl Hds Hd Hps Hp m. unfold static_platform.
  apply wp_bind, wp_range. intros keys Hkeys. apply wp_bind, wp_range. intros names Hnames.
  set (l0 := [_; _]). assert (quiet l0 ∧ keeps_cache l0) as [Hq0 Hk0] by (split; [subst l0; auto with mpc|by intros []]).
  assert (∀ n, n ∈ names ↔ names_host data n) as Hin.
  { intros n. rewrite (elem_of_range_keys _ _ _ Hnames), lookup_static_host_names.
    unfold names_host. by setoid_rewrite (elem_of_range_keys _ _ _ Hkeys). }
  destruct (parse_static_hosts data platform ∅ names) as [hs|err] eqn:Hh;
    [|apply wp_ret; split; [by apply resolution_quiet|by left]].
  apply parse_static_hosts_Ok in Hh as [Hv Hhs]; [|by eapply NoDup_range_keys|intros; apply lookup_empty].
  apply wp_bind, wp_range. intros order _. cbv zeta. unfold mem. apply wp_bind, wp_trigger. intros [] _.
  eapply wp_call; [apply wp_RegisterPlatformMetrics|]. intros err l1 [Hq1 Hk1]. apply wp_ret.
  edestruct (resolved_cached data platform (Static {| hosts := hs; targetPlatform := platform |}) l1
    (Ev (RangeMap (map_to_list hs).*1) order :: l0)) as [Hok Herr];
    [|done|by auto with mpc|done|by intros []|by destruct err].
  eapply resolves_static; [done..|]. split; [done|..]; simpl.
  - intros name Hn. by apply Hv, Hin.
  - intros name h. rewrite Hhs, lookup_empty, Hin. split; [by intros [?|?]|by right].
Qed.

Lemma wp_resolve_platform data platform tags :
  spec (resolve_platform operatorNamespace data platform tags) (λ r l, resolved data platform r l).
Proof.
  intros m. unfold resolve_platform.
  assert (∀ err, resolved data platform (Err err) []) as Herr
    by (intros err; split; [by apply resolution_quiet, quiet_nil|by left]).
  destruct (ParsePlatformList _ PlatformTypeLocal) as [ls|] eqn:Hls; [|by apply wp_ret].
  case_bool_decide as Hl.
  { apply wp_ret. split; [by apply resolution_quiet, quiet_nil|]. split; [by eapply resolves_local|by left]. }
  destruct (ParsePlatformList _ PlatformTypeDynamic) as [ds|] eqn:Hds; [|by apply wp_ret].
  case_bool_decide as Hd; [by eapply wp_dynamic_platform|].
  destruct (ParsePlatformList _ PlatformTypeDynamicPool) as [ps|] eqn:Hps; [|by apply wp_ret].
  case_bool_decide as Hp; [by eapply wp_dynamic_pool_platform|by eapply wp_static_platform].
Qed.

(** ** The cache *)

(** Every cached configuration is what the ConfigMap of the cached version says. *)
Definition coherent (contents : string → smap) (m : memory) : Prop :=
  ∀ p c, m_cache m !! p = Some c → resolves (contents (m_version m)) p c.

(** The cache after [refresh_cache]. *)
Lemma wp_refresh_cache v m0 h :
  wp (go_spec m0) (refresh_cache v) (λ _ h', ∃ l, h' = l ++ h ∧ quiet l ∧
    let m := mem_of m0 h in let m' := mem_of m0 h' in
    m_version m' = v ∧ m_cache m' = if String.eqb (m_version m) v then m_cache m else ∅) h.
Proof.
  unfold refresh_cache, mem. apply wp_bind, wp_trigger. intros v' Hv'.
  change (v' = m_version (mem_of m0 h)) in Hv'. rewrite <- Hv'.
  destruct (String.eqb v' v) eqn:He; cbn [negb].
  - apply String.eqb_eq in He. apply wp_ret. eexists [_].
    split_and!; [done|by auto with mpc|simpl; congruence|done].
  - apply wp_bind, wp_trigger. intros u _. apply wp_trigger. intros u' _. eexists [_; _; _].
    split_and!; [done|by auto with mpc|done|done].
Qed.

(** The outcome when the ConfigMap was read: a configuration that is cached for its
    version is the answer; the cache stays coherent with [contents], which says what the
    ConfigMap contained at each version, and the answer is what the ConfigMap says. *)
Definition config_answer (m : memory) (platform : string) (cm : ConfigMap) (r : result PlatformConfig)
    (l : hist mpcE) : Prop :=
  (∀ c, m_version m = ResourceVersion (cm_meta cm) → m_cache m !! platform = Some c → r = Ok c) ∧
  ∀ contents, cm_Data cm = contents (ResourceVersion (cm_meta cm)) → coherent contents m →
    coherent contents (mem_of m l) ∧ m_version (mem_of m l) = ResourceVersion (cm_meta cm) ∧
    ∀ c, r = Ok c → resolves (cm_Data cm) platform c.

Lemma coherent_keeps contents m l : coherent contents m → keeps_cache l → coherent contents (mem_of m l).
Proof. intros Hc Hk p c. destruct (Hk m) as [-> ->]. apply Hc. Qed.

Lemma coherent_caches contents m platform c l :
  coherent contents m → caches platform c l → resolves (contents (m_version m)) platform c →
  coherent contents (mem_of m l).
Proof.
  intros Hc Hk Hr p c'. destruct (Hk m) as [-> ->]. destruct (decide (platform = p)) as [->|Hne].
  - rewrite lookup_insert_eq. intros [= <-]. done.
  - rewrite lookup_insert_ne by done. apply Hc.
Qed.

Lemma resolved_coherent contents data m platform r l :
  resolved data platform r l → data = contents (m_version m) → coherent contents m →
  coherent contents (mem_of m l) ∧ m_version (mem_of m l) = m_version m ∧ ∀ c, r = Ok c → resolves data platform c.
Proof.
  intros [_ Hr] -> Hc. destruct r as [c|err].
  - destruct Hr as [Hr [[_ Hk]|Hk]]; (split_and!; [|apply Hk|by intros ? [= <-]]).
    + by apply coherent_keeps.
    + by eapply coherent_caches.
  - destruct Hr as [Hk|(c & Hr & Hk)]; (split_and!; [|apply Hk|done]).
    + by apply coherent_keeps.
    + by eapply coherent_caches.
Qed.

Lemma wp_getPlatformConfig platform targetNamespace m :
  wp (go_spec m) (getPlatformConfig operatorNamespace platform targetNamespace) (λ r l,
    resolution_calls platform l ∧
    ((∃ err, r = Err err ∧ keeps_cache l) ∨
     ∃ cm l', l = l' ++ [Ev (Client (Get_ConfigMap (Key operatorNamespace HostConfig))) (Ok cm)] ∧
       config_answer m platform cm r l)) [].
Proof.
  unfold getPlatformConfig, client. apply wp_bind, wp_trigger. intros [cm|err] _.
  2:{ apply wp_ret. split; [apply resolution_quiet; by auto with mpc|]. left. exists err. by split; [|intros []]. }
  set (ev := Ev _ (Ok cm)). apply wp_bind. eapply wp_mono; [|apply wp_refresh_cache].
  intros u h (l & -> & Hq & Hver & Hcache). change (mem_of m [ev]) with m in Hcache.
  unfold mem. apply wp_bind, wp_trigger. intros existing Hex.
  change (existing = m_cache (mem_of m (l ++ [ev])) !! platform) in Hex. rewrite Hcache in Hex.
  assert (quiet (l ++ [ev])) as Hqh by auto with mpc.
  assert (∀ contents, coherent contents m → coherent contents (mem_of m (l ++ [ev]))) as Hcoh.
  { intros contents Hc p c. rewrite Hver, Hcache. destruct (String.eqb _ _) eqn:He; [|done].
    apply String.eqb_eq in He. rewrite <- He. apply Hc. }
  destruct existing as [c|].
  - apply wp_ret. split; [apply resolution_quiet; by auto with mpc|]. right.
    exists cm, (Ev (Mem (Get_platformConfig platform)) (Some c) :: l). split; [done|].
    destruct (String.eqb _ _) eqn:He; [|done]. apply String.eqb_eq in He. split.
    + intros c' _ Hc'. congruence.
    + intros contents Hd Hc. split_and!; [by apply Hcoh|done|]. intros ? [= <-]. rewrite Hd, <- He. by apply Hc.
  - apply wp_bind, wp_trigger. intros tags _.
    eapply wp_tailcall; [apply wp_resolve_platform|]. intros r l1 Hr.
    set (e1 := Ev (Mem (New_tags _)) tags). set (e2 := Ev (Mem (Get_platformConfig platform)) None).
    set (l2 := e1 :: e2 :: l). change (e1 :: e2 :: l ++ [ev]) with (l2 ++ [ev]).
    split.
    { apply resolution_app; [apply Hr|]. apply resolution_quiet. subst l2. auto with mpc. }
    right. exists cm, (l1 ++ l2). split; [by rewrite app_assoc|]. split.
    + intros c Hv Hc. rewrite Hv, String.eqb_refl in Hex. congruence.
    + intros contents Hd Hc. rewrite mem_of_app.
      assert (m_version (mem_of m (l2 ++ [ev])) = ResourceVersion (cm_meta cm) ∧
              m_cache (mem_of m (l2 ++ [ev])) = m_cache (mem_of m (l ++ [ev]))) as [Hv2 Hc2] by done.
      destruct (resolved_coherent contents (cm_Data cm) (mem_of m (l2 ++ [ev])) platform r l1)
        as (? & -> & ?); [done|by rewrite Hv2| |by rewrite Hv2].
      intros p c. rewrite Hv2, Hc2, <- Hver. by apply Hcoh.
Qed.

(** Whatever the memory, it does not panic. *)
Lemma wp_getPlatformConfig_any platform targetNamespace :
  spec (getPlatformConfig operatorNamespace platform targetNamespace) (λ _ l, resolution_calls platform l).
Proof. intros m. eapply wp_mono; [|apply wp_getPlatformConfig]. by intros r l [? _]. Qed.
End resolve.

(** ** Properties *)

(** C17. [getPlatformConfig] answers with a configuration that is cached for the version of
    the ConfigMap it reads; otherwise with what the ConfigMap says of the platform. When
    the cache holds what the ConfigMap said at the cached version, it still does after the
    call, at the version that was read, and the answer is what the ConfigMap says. When
    the ConfigMap cannot be read the cache is left alone. *)
Theorem getPlatformConfig_coherent `{K8sLaws} operatorNamespace platform targetNamespace m :
  wp (go_spec m) (getPlatformConfig operatorNamespace platform targetNamespace) (λ r l,
    resolution_calls platform l ∧
    ((∃ err, r = Err err ∧ keeps_cache l) ∨
     ∃ cm l', l = l' ++ [Ev (Client (Get_ConfigMap (Key operatorNamespace HostConfig))) (Ok cm)] ∧
       config_answer operatorNamespace m platform cm r l)) [].
Proof. apply wp_getPlatformConfig. Qed.

#[local] Existing Instances example_k8s example_k8s_laws.

Lemma getPlatformConfig_coherent_witness :
  wp (go_spec empty_memory) (getPlatformConfig "mpc" "linux/arm64" "team") (λ r l,
    resolution_calls "linux/arm64" l ∧
    ((∃ err, r = Err err ∧ keeps_cache l) ∨
     ∃ cm l', l = l' ++ [Ev (Client (Get_ConfigMap (Key "mpc" HostConfig))) (Ok cm)] ∧
       config_answer "mpc" empty_memory "linux/arm64" cm r l)) [].
Proof. apply getPlatformConfig_coherent. Defined.
