(* ===== verification/ReconcilerFacts.v ===== *)
(** * The handlers of the reconciler: what each does and does not do, and that none of
      them panics *)
From S2P Require Import Prelude GoLib GoStrings Md5 NetIP Prog Exec Kube Config Cloud Effects Metrics Update Provision.
From S2P Require Import HostPools LocalHost Dynamics DynamicPools Platforms Reconciler.
From S2P Require Import Trace UpdateFacts ProvisionFacts HostPoolFacts DynamicFacts DynamicPoolFacts ConfigFacts PlatformFacts.

(** ** The oldest task *)

Definition created_before (o tr : TaskRun) : Prop :=
  (CreationTimestamp (tr_meta o) ≤ CreationTimestamp (tr_meta tr))%Z.

Lemma oldest_of_snoc trs tr : oldest_of (trs ++ [tr]) = older (oldest_of trs) tr.
Proof. unfold oldest_of. by rewrite foldl_app. Qed.

Lemma oldest_of_None trs : oldest_of trs = None ↔ trs = [].
Proof.
  destruct trs as [|tr trs _] using rev_ind; [done|]. rewrite oldest_of_snoc.
  split; [|by destruct trs]. unfold older. by repeat case_match.
Qed.

(** The oldest task is the first of those that were created first. *)
Lemma oldest_of_Some trs o :
  oldest_of trs = Some o →
  ∃ l1 l2, trs = l1 ++ o :: l2 ∧ Forall (λ tr, ¬ created_before tr o) l1 ∧ Forall (created_before o) l2.
Proof.
  revert o. induction trs as [|tr trs IH] using rev_ind; [done|]. intros o. rewrite oldest_of_snoc.
  destruct (oldest_of trs) as [p|] eqn:Hp; simpl.
  - destruct (IH p eq_refl) as (l1 & l2 & Heq & H1 & H2).
    destruct (_ <? _)%Z eqn:Hlt; intros [= <-]; [apply Z.ltb_lt in Hlt|apply Z.ltb_ge in Hlt].
    + exists trs, []. split_and!; [done| |done]. rewrite Heq. unfold created_before in *.
      apply Forall_app_2; [eapply Forall_impl; [exact H1|]; simpl; intros; lia|].
      constructor; [lia|]. eapply Forall_impl; [exact H2|]. simpl. intros; lia.
    + exists l1, (l2 ++ [tr]). rewrite Heq, <- app_assoc. split_and!; [done..|].
      apply Forall_app_2; [done|]. by repeat constructor.
  - intros [= <-]. apply oldest_of_None in Hp as ->. by exists [], [].
Qed.

Lemma oldest_of_elem trs o : oldest_of trs = Some o → o ∈ trs.
Proof. intros (l1 & l2 & -> & _)%oldest_of_Some. apply elem_of_app. right. left. Qed.

(** ** Metrics *)

Lemma wp_HandleMetrics p f :
  (∀ p, spec (f p) (λ _ l, quiet l)) → spec (HandleMetrics p f) (λ _ l, quiet l).
Proof.
  intros Hf m. unfold HandleMetrics, metric. cbv zeta. apply wp_bind, wp_trigger. intros [] _.
  - eapply wp_tailcall; [apply Hf|]. intros u l Hl. by auto with mpc.
  - apply wp_ret. by auto with mpc.
Qed.
Lemma wp_inc c p : spec (inc c p) (λ _ l, quiet l).
Proof. intros m. apply wp_trigger. intros u _. by auto with mpc. Qed.
Lemma wp_observe p h v : spec (metric (Observe p h v)) (λ _ l, quiet l).
Proof. intros m. apply wp_trigger. intros u _. by auto with mpc. Qed.

(** Nothing but metrics and the clock. *)
Definition measures X (e : mpcE X) : Prop := match e with Metric _ | Now => True | _ => False end.
Definition measured (l : hist mpcE) : Prop := Forall (λ ev, measures _ (ev_req ev)) l.

Lemma measured_app l h : measured l → measured h → measured (l ++ h).
Proof. apply Forall_app_2. Qed.

Lemma wp_HandleMetrics_measured p f :
  (∀ p, spec (f p) (λ _ l, measured l)) → spec (HandleMetrics p f) (λ _ l, measured l).
Proof.
  intros Hf m. unfold HandleMetrics, metric. cbv zeta. apply wp_bind, wp_trigger. intros [] _.
  - eapply wp_tailcall; [apply Hf|]. intros u l Hl. apply measured_app; [done|by repeat constructor].
  - apply wp_ret. by repeat constructor.
Qed.
Lemma wp_metric_measured (c : metricE unit) : spec (metric c) (λ _ l, measured l).
Proof. intros m. apply wp_trigger. intros u _. by repeat constructor. Qed.

(** No deletion either. *)
Definition no_delete (l : hist mpcE) : Prop := ∀ t r, A_Delete t r ∉ actions l.

Lemma no_delete_metrics p c : spec (HandleMetrics p (inc c)) (λ _ l, quiet l ∧ no_delete l).
Proof.
  intros m. unfold HandleMetrics, inc, metric. cbv zeta. apply wp_bind, wp_trigger. intros [] _.
  - apply wp_trigger. intros u _. split; [by auto with mpc|].
    intros t r. simpl. by intros [?|?%list_elem_of_singleton]%elem_of_cons.
  - apply wp_ret. split; [by auto with mpc|]. by intros t r ?%list_elem_of_singleton.
Qed.

(** ** Calls of the allocators *)

Lemma A_List_inj o o' r r' : A_List o r = A_List o' r' → r = r'.
Proof. by intros [= _ ->]. Qed.

Section allocators.
Context `{K8sLaws} `{RetryLaws}.
Variable operatorNamespace : string.

Lemma wp_LocalHost_Allocate tr secretName :
  is_Some (tr_Labels tr) →
  spec (LocalHost.Allocate tr secretName) (λ '(tr', res, err) l, quiet l ∧ res = no_requeue ∧
    label tr' AssignedHost = "localhost" ∧ PipelineFinalizer ∈ tr_Finalizers tr').
Proof.
  intros Hl m. unfold LocalHost.Allocate, client. apply wp_bind, wp_set_label; [done|]. intros g Hg.
  cbv zeta. apply wp_bind, wp_trigger.
  set (tr1 := with_finalizers _ _).
  assert (label tr1 AssignedHost = "localhost" ∧ PipelineFinalizer ∈ tr_Finalizers tr1) as [Hlab Hfin].
  { split; [|apply elem_of_AddFinalizer; by right].
    unfold label, map_get. simpl. by rewrite lookup_insert_eq. }
  intros [tr'|err] Hr; [|apply wp_ret; split_and!; [by auto with mpc|done..]].
  destruct (Hr tr' eq_refl) as (_ & Hll & _ & Hff & _).
  eapply wp_call; [apply wp_createUserTaskSecret|]. intros err l Hq. apply wp_ret.
  split_and!; [by auto with mpc|done|by rewrite (label_same _ _ _ Hll)|by rewrite Hff].
Qed.

(** No allocation panics. *)
Lemma wp_platform_Allocate c tr secretName :
  is_Some (tr_Labels tr) → spec (Allocate operatorNamespace c tr secretName) (λ _ _, True).
Proof.
  intros Hl. destruct c as [|r|a|hp]; simpl.
  - eapply spec_mono; [by apply wp_LocalHost_Allocate|]. done.
  - eapply spec_mono; [by apply DynamicFacts.wp_Dynamic_Allocate|]. done.
  - eapply spec_mono; [by apply wp_pool_Allocate|]. done.
  - eapply spec_mono; [by apply HostPoolFacts.wp_HostPool_Allocate|]. done.
Qed.

(** The cleanup task for a host, and its description. *)
Record cleans_host (hp : HostPool) (tr : TaskRun) (secretName : string) (host : Host) (t : TaskRun) : Prop := {
  ch_name : tr_Name t = ChildName (tr_Name tr) ("-cleanup-" +:+ short_hash (h_Address host));
  ch_namespace : tr_Namespace t = operatorNamespace;
  ch_labels : tr_Labels t = Some (list_to_map
    [("build.appstudio.redhat.com/task-type", "clean");
     ("build.appstudio.redhat.com/user-task-name", tr_Name tr);
     ("build.appstudio.redhat.com/user-task-namespace", tr_Namespace tr);
     ("build.appstudio.redhat.com/target-platform", platformLabel (targetPlatform hp))]);
  ch_params : Params (tr_Spec t) = Some
    [{| p_Name := "SECRET_NAME"; p_StringVal := secretName |};
     {| p_Name := "TASKRUN_NAME"; p_StringVal := tr_Name tr |};
     {| p_Name := "NAMESPACE"; p_StringVal := tr_Namespace tr |};
     {| p_Name := "HOST"; p_StringVal := h_Address host |};
     {| p_Name := "USER"; p_StringVal := h_User host |}];
  ch_task : TaskRefName (tr_Spec t) = "clean-shared-host";
  ch_secret : Workspaces (tr_Spec t) = [{| w_Name := "ssh"; w_SecretName := h_Secret host |}]
}.

Lemma cleanup_task_cleans hp tr sn host : cleans_host hp tr sn host (HostPool.cleanup_task operatorNamespace hp tr sn host).
Proof. by split. Qed.

(** A static host's release, call by call: one cleanup task for the pair of task and host,
    unless the host is unknown or a cleanup task is listed for the TaskRun already. *)
Inductive cleans (hp : HostPool) (tr : TaskRun) (secretName host : string) : option error → hist mpcE → Prop :=
| host_unknown : hosts hp !! host = None → cleans hp tr secretName host None []
| cleaned_already h t ts :
    hosts hp !! host = Some h →
    cleans hp tr secretName host None
      [Ev (Client (List_TaskRuns (MatchingLabels (HostPool.cleanup_labels hp tr)))) (Ok (t :: ts))]
| cleanup_requested h items t r :
    hosts hp !! host = Some h → (∀ t ts, items ≠ Ok (t :: ts)) → cleans_host hp tr secretName h t →
    cleans hp tr secretName host (match r with Ok _ => None | Err e => Some e end)
      [Ev (Client (Create_TaskRun t)) r;
       Ev (Client (List_TaskRuns (MatchingLabels (HostPool.cleanup_labels hp tr)))) items].

Lemma wp_HostPool_Deallocate hp tr secretName selectedHost :
  spec (HostPool.Deallocate operatorNamespace hp tr secretName selectedHost) (cleans hp tr secretName selectedHost).
Proof.
  intros m. unfold HostPool.Deallocate, client. destruct (hosts hp !! selectedHost) as [host|] eqn:Hh;
    [|by apply wp_ret, host_unknown].
  apply wp_bind, wp_trigger. intros items _.
  destruct (match items with Ok (_ :: _) => true | _ => false end) eqn:Hi.
  - apply wp_ret. destruct items as [[|t ts]|]; [done| |done]. by eapply cleaned_already.
  - apply wp_bind, wp_trigger. intros r _. apply wp_ret. apply (cleanup_requested _ _ _ _ host); [done| |apply cleanup_task_cleans].
    intros t ts ->. done.
Qed.

(** The release of a task's own instance, call by call. *)
Inductive gives_back (r : DynamicResolver) (tr : TaskRun) : TaskRun → option error → hist mpcE → Prop :=
| instance_terminated u :
    gives_back r tr (delete_label (delete_label (delete_annotation tr CloudInstanceId) AssignedHost) CloudDynamicPlatform) None
      [Ev (Cloud (dr_CloudProvider r) (TerminateInstance (annotation tr CloudInstanceId))) (Ok u)]
| instance_kept e u type reason message :
    gives_back r tr tr (Some e)
      [Ev (RecordEvent tr type reason message) u;
       Ev (Cloud (dr_CloudProvider r) (TerminateInstance (annotation tr CloudInstanceId))) (Err e)].

Lemma wp_Dynamic_Deallocate r tr secretName selectedHost :
  spec (DynamicResolver.Deallocate r tr secretName selectedHost) (λ '(tr', err) l, gives_back r tr tr' err l).
Proof.
  intros m. unfold DynamicResolver.Deallocate, cloud. cbv zeta. apply wp_bind, wp_trigger. intros [u|err] _.
  - apply wp_ret, instance_terminated.
  - unfold recordEvent. apply wp_bind, wp_trigger. intros u _. apply wp_ret, instance_kept.
Qed.

(** What follows the release of a host of a dynamic pool: an instance that is too old for
    the pool is terminated when no TaskRun is assigned to it. *)
Inductive ends_idle (a : DynamicHostPool) (host : string) : option error → hist mpcE → Prop :=
| idle_unknown e : ends_idle a host (Some e) [Ev (Client (List_TaskRuns (MatchingLabels {[AssignedHost := host]}))) (Err e)]
| still_busy t ts : ends_idle a host None [Ev (Client (List_TaskRuns (MatchingLabels {[AssignedHost := host]}))) (Ok (t :: ts))]
| idle_terminated r :
    ends_idle a host (match r with Ok _ => None | Err e => Some e end)
      [Ev (Cloud (dp_cloudProvider a) (TerminateInstance host)) r;
       Ev (Client (List_TaskRuns (MatchingLabels {[AssignedHost := host]}))) (Ok [])].

(** The release of a host of a dynamic pool: [l0] builds the pool. *)
Inductive leaves_pool (a : DynamicHostPool) (tr : TaskRun) (secretName host : string) : option error → hist mpcE → Prop :=
| leave_no_pool e l0 :
    A_Instances (dp_cloudProvider a) (dp_instanceTag a) (Err e) ∈ actions l0 → retires a (dp_instanceTag a) l0 →
    leaves_pool a tr secretName host (Some e) l0
| leave_failed pool old e l1 l0 :
    pool_of a (dp_instanceTag a) pool old l0 → retires a (dp_instanceTag a) l0 →
    cleans pool tr secretName host (Some e) l1 →
    leaves_pool a tr secretName host (Some e) (l1 ++ l0)
| left_pool pool old l1 l0 :
    pool_of a (dp_instanceTag a) pool old l0 → retires a (dp_instanceTag a) l0 →
    cleans pool tr secretName host None l1 →
    (old ≤ 0)%Z ∨ is_Some (hosts pool !! host) →
    leaves_pool a tr secretName host None (l1 ++ l0)
| left_old pool old err l2 l1 l0 :
    pool_of a (dp_instanceTag a) pool old l0 → retires a (dp_instanceTag a) l0 →
    cleans pool tr secretName host None l1 →
    (0 < old)%Z → hosts pool !! host = None → ends_idle a host err l2 →
    leaves_pool a tr secretName host err (l2 ++ l1 ++ l0).

Lemma wp_Pool_Deallocate a tr secretName selectedHost :
  spec (DynamicHostPool.Deallocate operatorNamespace a tr secretName selectedHost) (leaves_pool a tr secretName selectedHost).
Proof.
  intros m. unfold DynamicHostPool.Deallocate. eapply wp_call; [apply wp_buildHostPool|].
  intros [[pool old]|err] l0 [Hr Hp]; rewrite app_nil_r; [|by apply wp_ret, leave_no_pool].
  eapply wp_call; [apply wp_HostPool_Deallocate|]. intros [err|] l1 Hc; [by eapply wp_ret, leave_failed|].
  destruct (_ && _) eqn:Ho.
  - apply andb_true_iff in Ho as [Ho%Z.ltb_lt Hn%bool_decide_eq_true].
    unfold DynamicHostPool.isHostIdle, client, cloud. apply wp_bind, wp_bind, wp_trigger. intros items _. apply wp_ret.
    destruct items as [[|t ts]|e].
    + apply wp_bind, wp_trigger. intros r _. apply wp_ret. eapply (left_old _ _ _ _ pool old _ [_; _]); [done..|apply idle_terminated].
    + apply wp_ret. eapply (left_old _ _ _ _ pool old _ [_]); [done..|apply still_busy].
    + apply wp_ret. eapply (left_old _ _ _ _ pool old _ [_]); [done..|apply idle_unknown].
  - apply wp_ret. eapply left_pool; [done..|]. apply andb_false_iff in Ho as [Ho%Z.ltb_ge|Hn%bool_decide_eq_false]; [by left|right].
    by apply not_eq_None_Some.
Qed.

(** What the release of a host does on each platform: the TaskRun as it is left, the error
    and the calls. *)
Inductive deallocates (tr : TaskRun) (secretName host : string) : PlatformConfig → TaskRun → option error → hist mpcE → Prop :=
| local_released : deallocates tr secretName host Local tr None []
| dynamic_released r tr' err l : gives_back r tr tr' err l → deallocates tr secretName host (Dynamic r) tr' err l
| pool_released a err l : leaves_pool a tr secretName host err l → deallocates tr secretName host (DynamicPool a) tr err l
| static_released hp err l : cleans hp tr secretName host err l → deallocates tr secretName host (Static hp) tr err l.

Lemma wp_platform_Deallocate c tr secretName selectedHost :
  spec (Deallocate operatorNamespace c tr secretName selectedHost) (λ '(tr', err) l,
    deallocates tr secretName selectedHost c tr' err l).
Proof.
  intros m. destruct c as [|r|a|hp]; cbn [Deallocate].
  - apply wp_bind. do 2 apply wp_ret. apply local_released.
  - eapply wp_mono; [|apply wp_Dynamic_Deallocate]. intros [tr' err] l. apply dynamic_released.
  - eapply wp_call; [apply wp_Pool_Deallocate|]. intros err l Hl. apply wp_ret. rewrite app_nil_r. by apply pool_released.
  - eapply wp_call; [apply wp_HostPool_Deallocate|]. intros err l Hl. apply wp_ret. rewrite app_nil_r. by apply static_released.
Qed.
End allocators.

(** ** The handlers *)

Section handlers.
Context `{K8sLaws} `{RetryLaws}.
Variable operatorNamespace : string.

(** A finished task of the controller's own is deleted only when it succeeded, or an
    hour after it completed. *)
Definition deletes_when_due (tr : TaskRun) (completion : Z) (l : hist mpcE) : Prop :=
  ∀ t r, A_Delete t r ∈ actions l →
    t = tr ∧ (succeeded tr = true ∨ ∃ now, A_Now now ∈ actions l ∧ (completion + Hour < now)%Z).

Lemma wp_expired tr completion m h :
  no_delete h →
  wp (go_spec m)
    (expired ← (if succeeded tr then mret true else t ← now; mret (completion + Hour <? t)%Z);
     if (expired : bool) then
       r ← client (Delete_TaskRun tr);
       mret (no_requeue, match r with Ok _ => None | Err err => Some err end)
     else mret (requeue_after Hour, None))
    (λ '(res, err) l', ∃ l, l' = l ++ h ∧ quiet l ∧ deletes_when_due tr completion l' ∧
       (res = no_requeue ∧ (∃ r, A_Delete tr r ∈ actions l ∧ err = match r with Ok _ => None | Err e => Some e end) ∨
        res = requeue_after Hour ∧ err = None ∧ succeeded tr = false)) h.
Proof.
  intros Hh. apply wp_bind.
  eapply (wp_mono _ _ (λ b l', ∃ l, l' = l ++ h ∧ quiet l ∧ no_delete l' ∧
    (b = true → succeeded tr = true ∨ ∃ now, A_Now now ∈ actions l' ∧ (completion + Hour < now)%Z) ∧
    (b = false → succeeded tr = false))).
  - intros b l' (l & -> & Hq & Hn & Ht & Hf). destruct b.
    + unfold client. apply wp_bind, wp_trigger. intros r _. apply wp_ret.
      exists (Ev (Client (Delete_TaskRun tr)) r :: l). split_and!; [done|by auto with mpc| |].
      * intros t r' [Heq|Hin]%elem_of_cons; [|by destruct (Hn t r')]. injection Heq as -> _. split; [done|].
        destruct (Ht eq_refl) as [?|(t & ? & ?)]; [by left|right]. exists t. split; [by right|done].
      * left. split; [done|]. exists r. split; [left|done].
    + apply wp_ret. exists l. split_and!; [done..|intros t r Hin; by destruct (Hn t r)|]. right. auto.
  - destruct (succeeded tr).
    + apply wp_ret. exists []. split_and!; [done|apply quiet_nil|done|by left|done].
    + unfold now. apply wp_bind, wp_trigger. intros t _. apply wp_ret. exists [Ev Now t].
      split_and!; [done|by auto with mpc|by intros t' r [?|?%Hh]%elem_of_cons| |done].
      intros Hlt%Z.ltb_lt. right. exists t. split; [left|done].
Qed.

Lemma wp_handleCleanTask tr :
  spec (handleCleanTask tr) (λ '(res, err) l,
    quiet l ∧
    match CompletionTime (tr_Status tr) with
    | Some completion =>
        if time_IsZero (DeletionTimestamp (tr_meta tr)) then deletes_when_due tr completion l ∧
          (res = no_requeue ∨ res = requeue_after Hour ∧ err = None ∧ succeeded tr = false)
        else l = [] ∧ res = no_requeue ∧ err = None
    | None => l = [] ∧ res = no_requeue ∧ err = None
    end).
Proof.
  intros m. unfold handleCleanTask. destruct (time_IsZero _); cbn [negb];
    [|apply wp_ret; split; [apply quiet_nil|by case_match]].
  destruct (CompletionTime (tr_Status tr)) as [completion|]; [|apply wp_ret; by split; [apply quiet_nil|]].
  cbv zeta. apply wp_bind.
  eapply (wp_mono _ _ (λ _ l, quiet l ∧ no_delete l)).
  - intros u l [Hq Hn]. eapply wp_mono; [|by apply (wp_expired tr completion)].
    intros [res err] l' (l1 & -> & Hq1 & Hd & Hr). split; [by auto with mpc|]. split; [done|].
    destruct Hr as [[-> _]|(-> & -> & ->)]; auto.
  - destruct (_ && _); [apply no_delete_metrics|]. apply wp_ret. split; [apply quiet_nil|]. by intros t r ?%not_elem_of_nil.
Qed.

(** *** Provision tasks *)

(** How a provision task that failed is dealt with, call by call: the host is recorded as
    failed on the user's task, which loses it, when that task can be read. *)
Inductive failure_dealt (tr : TaskRun) (assigned userNamespace userTaskName : string) : option error → hist mpcE → Prop :=
| no_host_failed type reason msg u l0 :
    measured l0 → assigned = "" →
    failure_dealt tr assigned userNamespace userTaskName None (Ev (RecordEvent tr type reason msg) u :: l0)
| user_task_unread e type reason msg u l0 :
    measured l0 → assigned ≠ "" →
    failure_dealt tr assigned userNamespace userTaskName None
      (Ev (Client (Get_TaskRun (Key userNamespace userTaskName))) (Err e) :: Ev (RecordEvent tr type reason msg) u :: l0)
| host_unassigned userTr tr' err type reason msg u l l0 :
    measured l0 → assigned ≠ "" → updates_to (unassign_failed_host userTr assigned) tr' err l →
    failure_dealt tr assigned userNamespace userTaskName err
      (l ++ Ev (Client (Get_TaskRun (Key userNamespace userTaskName))) (Ok userTr) :: Ev (RecordEvent tr type reason msg) u :: l0).

Lemma wp_provision_failed tr assigned targetPlatform userNamespace userTaskName :
  spec (provision_failed tr assigned targetPlatform userNamespace userTaskName)
    (failure_dealt tr assigned userNamespace userTaskName).
Proof.
  intros m. unfold provision_failed, recordEvent, client.
  eapply wp_call; [apply wp_HandleMetrics_measured; intros; apply wp_metric_measured|]. intros u l0 Hq. rewrite app_nil_r.
  apply wp_bind, wp_trigger. intros u' _.
  destruct (String.eqb assigned "") eqn:Ha; [apply String.eqb_eq in Ha|apply String.eqb_neq in Ha].
  { by apply wp_ret, no_host_failed. }
  apply wp_bind, wp_trigger. intros [userTr|e] _; [|by apply wp_ret, user_task_unread].
  eapply wp_call; [apply wp_updates_to|]. intros [tr' err] l Hl. by eapply wp_ret, host_unassigned.
Qed.

(** The check of the secret that a provision task has to make, call by call: an error
    secret is made when there is none and the user's task is still there. *)
Inductive secret_checked (secretName userNamespace userTaskName : string) : option error → hist mpcE → Prop :=
| secret_there s :
    secret_checked secretName userNamespace userTaskName None
      [Ev (Client (Get_Secret (Key userNamespace secretName))) (Ok s)]
| secret_unknown e :
    IsNotFound e = false →
    secret_checked secretName userNamespace userTaskName (Some e)
      [Ev (Client (Get_Secret (Key userNamespace secretName))) (Err e)]
| user_task_gone e e' :
    IsNotFound e = true →
    secret_checked secretName userNamespace userTaskName (if IsNotFound e' then None else Some e')
      [Ev (Client (Get_TaskRun (Key userNamespace userTaskName))) (Err e');
       Ev (Client (Get_Secret (Key userNamespace secretName))) (Err e)]
| error_secret_made e userTr tr' err l :
    IsNotFound e = true → error_secret_outcome userTr secretName tr' err l →
    secret_checked secretName userNamespace userTaskName err
      (l ++ [Ev (Client (Get_TaskRun (Key userNamespace userTaskName))) (Ok userTr);
             Ev (Client (Get_Secret (Key userNamespace secretName))) (Err e)]).

Lemma wp_verify_secret targetPlatform secretName userNamespace userTaskName :
  spec (verify_secret targetPlatform secretName userNamespace userTaskName)
    (secret_checked secretName userNamespace userTaskName).
Proof.
  intros m. unfold verify_secret, client. apply wp_bind, wp_trigger. intros [s|e] _; [apply wp_ret, secret_there|].
  destruct (IsNotFound e) eqn:He; [|by apply wp_ret, secret_unknown].
  apply wp_bind, wp_trigger. intros [userTr|e'] _.
  - eapply wp_call; [apply wp_createErrorSecret_outcome|]. intros [tr' err] l Hl. by eapply wp_ret, error_secret_made.
  - by apply wp_ret, (user_task_gone _ _ _ e e').
Qed.

(** The pods that the user's task owns are annotated, one after the other. *)
Inductive pods_bumped (assigned userNamespace userTaskName : string) : hist mpcE → Prop :=
| pods_unread e :
    pods_bumped assigned userNamespace userTaskName [Ev (Client (List_Pods (InNamespace userNamespace))) (Err e)]
| pods_updated pods l :
    Forall2 (λ ev pod, ∃ r, ev = Ev (Client (Update_Pod (bumped_pod pod assigned))) r) (reverse l)
      (filter (λ pod, userTaskName ∈ OwnerReferences (pod_meta pod)) pods) →
    pods_bumped assigned userNamespace userTaskName
      (l ++ [Ev (Client (List_Pods (InNamespace userNamespace))) (Ok pods)]).

Lemma wp_bump_pods assigned userNamespace userTaskName :
  spec (bump_pods assigned userNamespace userTaskName) (λ _ l, pods_bumped assigned userNamespace userTaskName l).
Proof.
  intros m. unfold bump_pods, client. apply wp_bind, wp_trigger. intros [pods|e] _; [|apply wp_ret, pods_unread].
  set (ev := Ev _ (Ok pods)).
  eapply (wp_foldM _ _ (λ pre _ h, ∃ l, h = l ++ [ev] ∧
    Forall2 (λ ev pod, ∃ r, ev = Ev (Client (Update_Pod (bumped_pod pod assigned))) r) (reverse l)
      (filter (λ pod, userTaskName ∈ OwnerReferences (pod_meta pod)) pre)) _ _ []).
  - exists []. split; [done|constructor].
  - intros pre pod u h _ (l & -> & Hl). rewrite filter_app, filter_cons, filter_nil.
    case_bool_decide as Hin; [rewrite decide_True by done|rewrite decide_False by done].
    + apply wp_bind, wp_trigger. intros r _. apply wp_ret. exists (Ev (Client (Update_Pod (bumped_pod pod assigned))) r :: l).
      split; [done|]. rewrite reverse_cons. apply Forall2_app; [done|]. constructor; [by exists r|constructor].
    + apply wp_ret. exists l. by rewrite app_nil_r.
  - intros u h (l & -> & Hl). by apply pods_updated.
Qed.

(** How a provision task that succeeded is dealt with, call by call. *)
Inductive success_dealt (tr : TaskRun) (secretName assigned userNamespace userTaskName : string) : option error → hist mpcE → Prop :=
| secret_unverified e type reason msg u l :
    secret_checked secretName userNamespace userTaskName (Some e) l →
    success_dealt tr secretName assigned userNamespace userTaskName (Some e) (l ++ [Ev (RecordEvent tr type reason msg) u])
| secret_verified type reason msg u l l' :
    secret_checked secretName userNamespace userTaskName None l → pods_bumped assigned userNamespace userTaskName l' →
    success_dealt tr secretName assigned userNamespace userTaskName None (l' ++ l ++ [Ev (RecordEvent tr type reason msg) u]).

Lemma wp_provision_succeeded tr secretName assigned targetPlatform userNamespace userTaskName :
  spec (provision_succeeded tr secretName assigned targetPlatform userNamespace userTaskName)
    (success_dealt tr secretName assigned userNamespace userTaskName).
Proof.
  intros m. unfold provision_succeeded, recordEvent. apply wp_bind, wp_trigger. intros u _.
  eapply wp_call; [apply wp_verify_secret|]. intros [err|] l Hl; [by apply wp_ret, secret_unverified|].
  eapply wp_call; [apply wp_bump_pods|]. intros [] l' Hl'. by apply wp_ret, secret_verified.
Qed.

(** The provision task with the mark that it was processed. *)
Definition processed (tr : TaskRun) : TaskRun := annotate tr ProvisionTaskProcessed "true".

(** The outcome of a provision task is dealt with, in view of its labels and parameters. *)
Definition outcome_dealt (tr : TaskRun) : option error → hist mpcE → Prop :=
  let userNamespace := label tr "build.appstudio.redhat.com/user-task-namespace" in
  let userTaskName := label tr "build.appstudio.redhat.com/user-task-name" in
  let assigned := label tr "build.appstudio.redhat.com/assigned-host" in
  if succeeded tr then success_dealt (processed tr) (secret_param tr) assigned userNamespace userTaskName
  else failure_dealt (processed tr) assigned userNamespace userTaskName.

(** The end of a provision task that was processed before: it is deleted when it
    succeeded, or an hour after its completion. *)
Inductive retires_task (tr : TaskRun) (completion : Z) : Result → option error → hist mpcE → Prop :=
| success_deleted r :
    succeeded tr = true →
    retires_task tr completion no_requeue (match r with Ok _ => None | Err e => Some e end)
      [Ev (Client (Delete_TaskRun tr)) r]
| failure_deleted t r :
    succeeded tr = false → (completion + Hour < t)%Z →
    retires_task tr completion no_requeue (match r with Ok _ => None | Err e => Some e end)
      [Ev (Client (Delete_TaskRun tr)) r; Ev Now t]
| failure_kept t :
    succeeded tr = false → (t ≤ completion + Hour)%Z →
    retires_task tr completion (requeue_after Hour) None [Ev Now t].

Lemma wp_retire_provision_task tr completion :
  spec (retire_provision_task tr completion) (λ '(res, err) l, retires_task tr completion res err l).
Proof.
  intros m. unfold retire_provision_task, client, now. destruct (succeeded tr) eqn:Hs; apply wp_bind.
  - apply wp_ret, wp_bind, wp_trigger. intros r _. by apply wp_ret, success_deleted.
  - apply wp_bind, wp_trigger. intros t _. apply wp_ret.
    destruct (_ <? _)%Z eqn:Ht; [apply Z.ltb_lt in Ht|apply Z.ltb_ge in Ht].
    + apply wp_bind, wp_trigger. intros r _. by apply wp_ret, failure_deleted.
    + by apply wp_ret, failure_kept.
Qed.

(** The outcome of [handleProvisionTask] for a task that has completed, call by call: its
    outcome is dealt with first ([l0]), then the task is marked ([l1]), then counted ([l2]). *)
Inductive provision_handled (tr : TaskRun) (completion : Z) : Result → option error → hist mpcE → Prop :=
| was_processed res err l :
    annotation tr ProvisionTaskProcessed = "true" →
    retires_task (annotated tr) completion res err l →
    provision_handled tr completion res err l
| handling_failed err l0 :
    annotation tr ProvisionTaskProcessed ≠ "true" → outcome_dealt tr (Some err) l0 →
    provision_handled tr completion no_requeue (Some err) l0
| marking_failed err tr' l1 l0 :
    annotation tr ProvisionTaskProcessed ≠ "true" → outcome_dealt tr None l0 →
    updates_to (processed tr) tr' (Some err) l1 →
    provision_handled tr completion no_requeue (Some err) (l1 ++ l0)
| was_handled tr' l2 l1 l0 :
    annotation tr ProvisionTaskProcessed ≠ "true" → outcome_dealt tr None l0 →
    updates_to (processed tr) tr' None l1 → measured l2 →
    provision_handled tr completion no_requeue None (l2 ++ l1 ++ l0).

Lemma wp_handleProvisionTask tr :
  spec (handleProvisionTask tr) (λ '(res, err) l,
    match CompletionTime (tr_Status tr) with
    | Some completion =>
        if time_IsZero (DeletionTimestamp (tr_meta tr)) then provision_handled tr completion res err l
        else l = [] ∧ res = no_requeue ∧ err = None
    | None => l = [] ∧ res = no_requeue ∧ err = None
    end).
Proof.
  intros m. unfold handleProvisionTask. destruct (time_IsZero _); cbn [negb]; [|apply wp_ret; by case_match].
  destruct (CompletionTime (tr_Status tr)) as [completion|]; [|by apply wp_ret].
  cbv zeta. fold (annotated tr).
  assert (annotation (annotated tr) ProvisionTaskProcessed = annotation tr ProvisionTaskProcessed) as Hann.
  { apply map_get_make_if_nil. }
  rewrite Hann. destruct (String.eqb _ "true") eqn:Hp; [apply String.eqb_eq in Hp|apply String.eqb_neq in Hp].
  { eapply wp_tailcall; [apply wp_retire_provision_task|]. intros [res err] l Hl. rewrite app_nil_r. by apply was_processed. }
  apply wp_bind, wp_set_annotation; [by eexists|]. intros g Hg.
  replace (with_annotations (annotated tr) _) with (processed tr)
    by (unfold processed, annotate; injection Hg as <-; by destruct tr as [[]]).
  change (succeeded (processed tr)) with (succeeded tr). change (label (processed tr) ?k) with (label tr k).
  change (secret_param (processed tr)) with (secret_param tr). apply wp_bind.
  eapply (wp_mono _ _ (outcome_dealt tr)).
  - intros [err|] l Hv; [by apply wp_ret, handling_failed|].
    eapply wp_call; [apply wp_updates_to|]. intros [tr' err] l' Hu.
    destruct err as [err|]; [by eapply wp_ret, marking_failed|].
    eapply wp_call; [apply wp_HandleMetrics_measured; intros; apply wp_metric_measured|]. intros u l'' Hq''.
    by eapply wp_ret, was_handled.
  - unfold outcome_dealt. destruct (succeeded tr); cbn [negb]; [apply wp_provision_succeeded|apply wp_provision_failed].
Qed.

(** *** Waiting tasks *)

(** The outcome of [handleWaitingTasks], call by call: the oldest of the tasks that wait
    for the platform is marked, and nothing else is done. *)
Inductive marks_oldest (platform : string) : option error → hist mpcE → Prop :=
| waiting_unknown e err :
    marks_oldest platform (Some err)
      [Ev (Client (List_TaskRuns (MatchingLabels {[WaitingForPlatformLabel := platformLabel platform]}))) (Err e)]
| none_waiting :
    marks_oldest platform None
      [Ev (Client (List_TaskRuns (MatchingLabels {[WaitingForPlatformLabel := platformLabel platform]}))) (Ok [])]
| oldest_marked l1 o l2 r err :
    Forall (λ tr, ¬ created_before tr o) l1 → Forall (created_before o) l2 →
    (err = None ↔ ∃ tr, r = Ok tr) →
    marks_oldest platform err
      [Ev (Client (Update_TaskRun (mark o FinishedWaitingLabel "true"))) r;
       Ev (Client (List_TaskRuns (MatchingLabels {[WaitingForPlatformLabel := platformLabel platform]}))) (Ok (l1 ++ o :: l2))].

Lemma wp_handleWaitingTasks platform :
  spec (handleWaitingTasks platform) (λ '(res, err) l, res = no_requeue ∧ marks_oldest platform err l).
Proof.
  intros m. unfold handleWaitingTasks, client. apply wp_bind, wp_trigger. intros [items|e] Hitems.
  2:{ apply wp_ret. split; [done|apply waiting_unknown]. }
  destruct (oldest_of items) as [o|] eqn:Ho.
  2:{ apply oldest_of_None in Ho as ->. apply wp_ret. split; [done|apply none_waiting]. }
  assert (is_Some (tr_Labels o)) as Hl.
  { specialize (Hitems _ eq_refl). apply Forall_forall with (x := o) in Hitems; [|by apply oldest_of_elem].
    specialize (Hitems _ _ (lookup_singleton_eq _ _)). unfold map_lookup in Hitems. unfold tr_Labels.
    destruct (Labels (tr_meta o)); [by eexists|done]. }
  apply wp_bind, wp_set_label; [done|]. intros g Hg. rewrite (mark_eq _ _ _ _ Hg).
  apply wp_bind, wp_trigger. intros r _. apply wp_ret. split; [done|].
  apply oldest_of_Some in Ho as (l1 & l2 & -> & ? & ?). apply oldest_marked; [done..|]. destruct r; naive_solver.
Qed.

(** *** The release of a host *)

(** The secret of a finished task is deleted, if it is there. *)
Inductive secret_cleaned (tr : TaskRun) (secretName : string) : option error → hist mpcE → Prop :=
| secret_gone e :
    IsNotFound e = true →
    secret_cleaned tr secretName None [Ev (Client (Get_Secret (Key (tr_Namespace tr) secretName))) (Err e)]
| secret_unread e err :
    IsNotFound e = false →
    secret_cleaned tr secretName (Some err) [Ev (Client (Get_Secret (Key (tr_Namespace tr) secretName))) (Err e)]
| secret_deleted s r :
    secret_cleaned tr secretName None
      [Ev (Client (Delete_Secret s)) r; Ev (Client (Get_Secret (Key (tr_Namespace tr) secretName))) (Ok s)].

Lemma wp_cleanup_secret tr secretName : spec (cleanup_secret tr secretName) (secret_cleaned tr secretName).
Proof.
  intros m. unfold cleanup_secret, client. apply wp_bind, wp_trigger. intros [s|e] _.
  - apply wp_bind, wp_trigger. intros r _. apply wp_ret, secret_deleted.
  - apply wp_ret. destruct (IsNotFound e) eqn:He; [by apply secret_gone|by apply secret_unread].
Qed.

(** The TaskRun without its host and the controller's finalizer. *)
Definition freed (tr : TaskRun) : TaskRun :=
  delete_label (with_finalizers tr (RemoveFinalizer (tr_Finalizers tr) PipelineFinalizer)) AssignedHost.

(** A host is released, call by call: the platform is told first ([l0]), whose error is
    not reported; then the TaskRun is stored without the host and the controller's
    finalizer ([l1]); then its time is observed, its secret deleted and the oldest waiting
    task woken up. *)
Inductive host_released (c : PlatformConfig) (tr : TaskRun) (secretName platform host : string) : option error → hist mpcE → Prop :=
| not_freed tr1 derr tr2 e err l1 l0 :
    deallocates operatorNamespace tr secretName host c tr1 derr l0 → updates_to (freed tr1) tr2 (Some e) l1 →
    host_released c tr secretName platform host (Some err) (l1 ++ l0)
| freed_unclean tr1 derr tr2 err l3 l2 l1 l0 :
    deallocates operatorNamespace tr secretName host c tr1 derr l0 → updates_to (freed tr1) tr2 None l1 →
    measured l2 → secret_cleaned tr secretName (Some err) l3 →
    host_released c tr secretName platform host (Some err) (l3 ++ l2 ++ l1 ++ l0)
| freed_host tr1 derr tr2 e l4 l3 l2 l1 l0 :
    deallocates operatorNamespace tr secretName host c tr1 derr l0 → updates_to (freed tr1) tr2 None l1 →
    measured l2 → secret_cleaned tr secretName None l3 → marks_oldest platform e l4 →
    host_released c tr secretName platform host None (l4 ++ l3 ++ l2 ++ l1 ++ l0).

Lemma deallocates_key tr sn host c tr' err l :
  deallocates operatorNamespace tr sn host c tr' err l → ObjectKeyFromObject tr' = ObjectKeyFromObject tr.
Proof. intros [|r tr0 err' l' []| |]; done. Qed.

Lemma wp_release_host c tr secretName platform host :
  spec (release_host operatorNamespace c tr secretName platform host) (λ '(res, err) l,
    res = no_requeue ∧ host_released c tr secretName platform host err l).
Proof.
  intros m. unfold release_host. eapply wp_call; [apply wp_platform_Deallocate|].
  intros [tr1 derr] l0 Hd. rewrite app_nil_r. cbv zeta. fold (freed tr1).
  eapply wp_call; [apply wp_updates_to|]. intros [tr2 err] l1 Hu.
  destruct err as [err|]; [apply wp_ret; split; [done|by eapply not_freed]|].
  assert (tr_Namespace tr2 = tr_Namespace tr) as Hns.
  { apply key_eq. rewrite (same_key _ _ (updates_to_same _ _ _ _ Hu)). exact (deallocates_key _ _ _ _ _ _ _ Hd). }
  unfold now. apply wp_bind, wp_trigger. intros t _.
  eapply wp_call; [apply wp_HandleMetrics_measured; intros; apply wp_metric_measured|]. intros u l2 Hq2.
  assert (measured (l2 ++ [Ev Now t])) as Hm by (apply measured_app; [done|by repeat constructor]).
  replace (l2 ++ Ev Now t :: l1 ++ l0) with ((l2 ++ [Ev Now t]) ++ l1 ++ l0) by by rewrite <- app_assoc.
  eapply wp_call; [apply wp_cleanup_secret|]. intros err l3 Hc.
  assert (secret_cleaned tr secretName err l3) as Hc' by (revert Hc; destruct 1; rewrite Hns; by econstructor).
  destruct err as [err|]; [apply wp_ret; split; [done|by eapply freed_unclean]|].
  eapply wp_call; [apply wp_handleWaitingTasks|]. intros [res err] l4 (-> & Hw).
  destruct err; (apply wp_ret; split; [done|by eapply freed_host]).
Qed.

(** The outcome of [handleHostAssigned] for a TaskRun that has finished, after the memory
    [m]: the host is released on the platform that the configuration says. *)
Inductive releases (m : memory) (tr : TaskRun) (secretName : string) : option error → hist mpcE → Prop :=
| platform_unknown e err : ExtractPlatform tr = Err e → releases m tr secretName (Some err) []
| platform_unread platform e err l :
    ExtractPlatform tr = Ok platform →
    exec (go_spec m) (getPlatformConfig operatorNamespace platform (tr_Namespace tr)) [] (Err e) l →
    releases m tr secretName (Some err) l
| platform_told platform c err l1 l :
    ExtractPlatform tr = Ok platform →
    exec (go_spec m) (getPlatformConfig operatorNamespace platform (tr_Namespace tr)) [] (Ok c) l →
    host_released c tr secretName platform (label tr AssignedHost) err l1 →
    releases m tr secretName err (l1 ++ l).

(** A task that has a host is left alone until it has finished. *)
Lemma wp_handleHostAssigned m tr secretName :
  wp (go_spec m) (handleHostAssigned operatorNamespace tr secretName) (λ '(res, err) l,
    res = no_requeue ∧
    if finished tr then releases m tr secretName err l else l = [] ∧ err = None) [].
Proof.
  unfold handleHostAssigned. cbv zeta. destruct (finished tr); cbn [negb]; [|by apply wp_ret].
  destruct (ExtractPlatform tr) as [platform|e] eqn:Hp; [|apply wp_ret; split; [done|by eapply platform_unknown]].
  apply wp_bind. eapply wp_mono; [|apply wp_self, wp_getPlatformConfig_any]. intros [c|e] l [Hx _].
  - eapply wp_tailcall; [apply wp_release_host|]. intros [res err] l1 [-> Hr]. split; [done|]. by eapply platform_told.
  - apply wp_ret. split; [done|]. by eapply platform_unread.
Qed.

(** *** The allocation of a host *)

Lemma wp_allocation_start tr : spec (allocation_start tr) (λ _ l, quiet l).
Proof. intros m. unfold allocation_start, now. apply wp_bind, wp_trigger. intros t _. apply wp_ret. by auto with mpc. Qed.

Lemma wp_observe_now p h (f : Z → observation) : spec (t ← now; metric (Observe p h (f t))) (λ _ l, quiet l).
Proof.
  intros m. unfold now. apply wp_bind, wp_trigger. intros t _. eapply wp_tailcall; [apply wp_observe|].
  intros u l Hq. by auto with mpc.
Qed.

Lemma wp_allocate_host c tr secretName targetPlatform :
  is_Some (tr_Labels tr) →
  spec (allocate_host operatorNamespace c tr secretName targetPlatform) (λ _ _, True).
Proof.
  intros Hl m. unfold allocate_host. cbv zeta.
  eapply wp_call; [apply wp_allocation_start|]. intros start l0 _.
  eapply wp_call; [by apply wp_platform_Allocate|]. intros [[tr' res] err] l1 _. destruct err as [err|].
  { eapply wp_call; [apply wp_HandleMetrics, wp_inc|]. intros u l2 _. by apply wp_ret. }
  apply wp_bind. eapply (wp_mono _ _ (λ _ _, True)).
  - intros u l2 _. apply wp_bind. eapply (wp_mono _ _ (λ _ _, True)); [intros; by apply wp_ret|].
    destruct (_ && _); [|by apply wp_ret].
    eapply wp_tailcall; [apply wp_HandleMetrics; intros; apply wp_observe_now|]. done.
  - destruct (negb _); [|by apply wp_ret].
    eapply wp_tailcall; [apply wp_HandleMetrics; intros p; apply (wp_observe_now p _ (λ t, InSeconds (wrap64 (Unix t - start))))|]. done.
Qed.

(** A task whose secret exists gets no host: nothing is asked of the platform. *)
Lemma wp_handleHostAllocation tr secretName targetPlatform :
  is_Some (tr_Labels tr) →
  spec (handleHostAllocation operatorNamespace tr secretName targetPlatform) (λ '(tr', res, err) l,
    (∃ s, l = [Ev (Client (Get_Secret (Key (tr_Namespace tr) secretName))) (Ok s)] ∧
       tr' = tr ∧ res = no_requeue ∧ err = None) ∨
    ∃ e, A_GetSecret (Key (tr_Namespace tr) secretName) (Err e) ∈ actions l).
Proof.
  intros Hl m. unfold handleHostAllocation, client. apply wp_bind, wp_trigger. intros [s|e] _.
  { apply wp_ret. left. by exists s. }
  assert (∀ l, A_GetSecret (Key (tr_Namespace tr) secretName) (Err e) ∈
    actions (l ++ [Ev (Client (Get_Secret (Key (tr_Namespace tr) secretName))) (Err e)])) as Hin
    by (intros l; apply elem_of_actions_app; right; left).
  destruct (IsNotFound e); cbn [negb]; [|apply wp_ret; right; exists e; left].
  eapply wp_call; [apply wp_getPlatformConfig_any|]. intros [c|e'] l _.
  - eapply wp_tailcall; [by apply wp_allocate_host|]. intros [[??]?] l' _. right. exists e.
    rewrite app_assoc. apply Hin.
  - eapply wp_call; [apply wp_HandleMetrics, wp_inc|]. intros u l' _.
    eapply wp_call; [apply wp_createErrorSecret|]. intros [tr' err] l'' _. apply wp_ret.
    right. exists e. rewrite !app_assoc. apply Hin.
Qed.

Lemma wp_request_host tr secretName targetPlatform :
  spec (request_host operatorNamespace tr secretName targetPlatform) (λ _ _, True).
Proof.
  intros m. unfold request_host. cbv zeta. apply wp_bind.
  eapply (wp_mono _ _ (λ tr' _, is_Some (tr_Labels tr'))).
  - intros tr' l Hl. eapply wp_call; [by apply wp_handleHostAllocation|]. intros [[tr2 res] err] l' _.
    apply wp_bind. eapply (wp_mono _ _ (λ _ _, True)); [intros; by apply wp_ret|].
    destruct err as [err|]; [|by apply wp_ret]. destruct (IsConflict err); [by apply wp_ret|].
    eapply wp_call; [apply wp_HandleMetrics, wp_inc|]. intros u l2 _.
    eapply wp_call; [apply wp_createErrorSecret|]. intros [tr3 err'] l3 _. by apply wp_ret.
  - destruct (String.eqb _ ""); [|apply wp_ret; by eexists].
    apply wp_set_label; [by eexists|]. intros g Hg. by eexists.
Qed.

Lemma wp_handleUserTask tr : spec (handleUserTask operatorNamespace tr) (λ _ _, True).
Proof.
  intros m. unfold handleUserTask. cbv zeta.
  destruct (negb _); [eapply wp_mono; [|apply wp_handleHostAssigned]; done|].
  destruct (finished tr).
  { destruct (ContainsFinalizer _ _); [|by apply wp_ret]. eapply wp_mono; [|apply wp_handleHostAssigned]; done. }
  destruct (ValidatePlatform tr) as [platform|e].
  - eapply wp_tailcall; [apply wp_request_host|done].
  - eapply wp_call; [apply wp_createErrorSecret|]. intros [tr' err] l _. by apply wp_ret.
Qed.

Lemma wp_handleTaskRunReceived tr : spec (handleTaskRunReceived operatorNamespace tr) (λ _ _, True).
Proof.
  intros m. unfold handleTaskRunReceived. cbv zeta. destruct (negb _).
  - destruct (String.eqb _ _); [eapply wp_tailcall; [apply wp_handleCleanTask|done]|].
    destruct (String.eqb _ _); [eapply wp_tailcall; [apply wp_handleProvisionTask|done]|by apply wp_ret].
  - destruct (wants_host tr); [eapply wp_tailcall; [apply wp_handleUserTask|done]|by apply wp_ret].
Qed.

Lemma wp_Reconcile request : spec (Reconcile operatorNamespace request) (λ '(res, err) l,
  ∃ r l', l = l' ++ [Ev (APIReader (Get_TaskRun request)) r] ∧
    match r with
    | Err e => l' = [] ∧ res = no_requeue ∧ (err = None ↔ IsNotFound e = true)
    | Ok tr => ObjectKeyFromObject tr = request
    end).
Proof.
  intros m. unfold Reconcile, apiReader. apply wp_bind, wp_trigger. intros r Hr. destruct r as [tr|e].
  - eapply wp_tailcall; [apply wp_handleTaskRunReceived|]. intros [res err] l _.
    exists (Ok tr), l. split; [done|]. by apply Hr.
  - apply wp_ret. exists (Err e), []. split_and!; [done..|]. by destruct (IsNotFound e).
Qed.
End handlers.

(** ** Failed hosts *)

Lemma Split_add_failed_host s assigned :
  str_mem "," assigned = false →
  Split (add_failed_host s assigned) "," =
  (match Split s "," with "" :: _ => [] | failed => failed end) ++ [assigned].
Proof.
  intros Ha. unfold add_failed_host. apply Split_Join; [intros Hx; by apply app_nil in Hx as [_ ?]|].
  apply Forall_app_2; [|by repeat constructor]. pose proof (Split_pieces s ",") as Hs.
  destruct (Split s ",") as [|[|c p] l]; [constructor|constructor|exact Hs].
Qed.

Lemma annotation_unassign_failed_host tr assigned :
  annotation (unassign_failed_host tr assigned) FailedHosts =
  add_failed_host (annotation tr FailedHosts) assigned.
Proof.
  unfold unassign_failed_host, annotation, map_get at 1. simpl. rewrite lookup_insert_eq. simpl.
  f_equal. unfold sget, map_get. by destruct (tr_Annotations tr).
Qed.

(** ** Properties *)

(** C12. After its provisioning failed on a host, a TaskRun keeps the record of the hosts
    that failed before, when that is a list without an empty first element, and no later
    allocation assigns it to the host or to one of those, whatever the API server lists. *)
Theorem failed_host_avoided `{K8sLaws} `{RetryLaws} operatorNamespace hp userTr assigned secretName :
  is_Some (tr_Labels userTr) → str_mem "," assigned = false →
  (∀ k h, hosts hp !! k = Some h → h_Name h = k) →
  let failed := match Split (annotation userTr FailedHosts) "," with "" :: _ => [] | failed => failed end in
  let tr := unassign_failed_host userTr assigned in
  Split (annotation tr FailedHosts) "," = failed ++ [assigned] ∧
  spec (HostPool.Allocate operatorNamespace hp tr secretName) (λ '(tr', res, err) l,
    err = None → label tr' AssignedHost = "" ∨ label tr' AssignedHost ∉ failed ++ [assigned]).
Proof.
  intros Hl Ha Hnames failed tr.
  assert (Split (annotation tr FailedHosts) "," = failed ++ [assigned]) as Hfailed
    by (subst tr; by rewrite annotation_unassign_failed_host, Split_add_failed_host).
  assert (label tr AssignedHost = "") as Hnot by (etrans; [apply label_delete_label|]; by rewrite decide_True).
  split; [done|]. intros m. eapply wp_mono; [|apply wp_HostPool_Allocate; by apply labels_delete].
  intros [[tr' res] err] l Hall ->.
  destruct (decide (label tr' AssignedHost = "")) as [|Hne]; [by left|right].
  apply allocates_on_free_host in Hall as (items & k & host & _ & Hk & _ & Hf & _ & _ & Hlab & _); [|done..].
  by rewrite Hlab, (Hnames _ _ Hk), <- Hfailed.
Qed.



(** A cleanup task is deleted only after it completed, and only when it succeeded or an
    hour after its completion; nothing else is deleted, launched or created. *)
Theorem handleCleanTask_deletes_when_due tr :
  spec (handleCleanTask tr) (λ '(res, err) l,
    quiet l ∧
    match CompletionTime (tr_Status tr) with
    | Some completion =>
        if time_IsZero (DeletionTimestamp (tr_meta tr)) then deletes_when_due tr completion l ∧
          (res = no_requeue ∨ res = requeue_after Hour ∧ err = None ∧ succeeded tr = false)
        else l = [] ∧ res = no_requeue ∧ err = None
    | None => l = [] ∧ res = no_requeue ∧ err = None
    end).
Proof. apply wp_handleCleanTask. Qed.

(** C26. Of the TaskRuns that are listed as waiting for a platform the one that was created
    first, the first of them in the list, is marked, and nothing else is done: no other
    TaskRun is touched. *)
Theorem handleWaitingTasks_oldest platform :
  spec (handleWaitingTasks platform) (λ '(res, err) l, res = no_requeue ∧ marks_oldest platform err l).
Proof. apply wp_handleWaitingTasks. Qed.

(** A TaskRun whose secret exists gets no host: the lookup of the secret is the only
    call, and the TaskRun stays as it is. In every other case the lookup failed. *)
Theorem handleHostAllocation_once `{K8sLaws} `{RetryLaws} operatorNamespace tr secretName targetPlatform :
  is_Some (tr_Labels tr) →
  spec (handleHostAllocation operatorNamespace tr secretName targetPlatform) (λ '(tr', res, err) l,
    (∃ s, l = [Ev (Client (Get_Secret (Key (tr_Namespace tr) secretName))) (Ok s)] ∧
       tr' = tr ∧ res = no_requeue ∧ err = None) ∨
    ∃ e, A_GetSecret (Key (tr_Namespace tr) secretName) (Err e) ∈ actions l).
Proof. intros Hl m. by apply wp_handleHostAllocation. Qed.

(** Releasing a static host creates one cleanup task at most, for the TaskRun and the
    host, and none when one is listed for the TaskRun already, or the host is not one of
    the pool's. *)
Theorem HostPool_Deallocate_cleans_once `{K8s} operatorNamespace hp tr secretName selectedHost :
  spec (HostPool.Deallocate operatorNamespace hp tr secretName selectedHost)
    (cleans operatorNamespace hp tr secretName selectedHost).
Proof. apply wp_HostPool_Deallocate. Qed.

#[local] Existing Instances example_k8s example_k8s_laws example_retry example_retry_laws.

Lemma failed_host_avoided_witness :
  let tr := unassign_failed_host example_task "b" in
  Split (annotation tr FailedHosts) "," = ["b"] ∧
  spec (HostPool.Allocate "mpc" example_pool tr "ssh") (λ '(tr', res, err) l,
    err = None → label tr' AssignedHost = "" ∨ label tr' AssignedHost ∉ ["b"]).
Proof.
  apply (failed_host_avoided "mpc" example_pool example_task "b" "ssh"); [by eexists|reflexivity|].
  intros k h. unfold example_pool. cbn [hosts]. intros Hk.
  apply lookup_insert_Some in Hk as [[<- <-]|[_ Hk]]; [reflexivity|].
  by apply lookup_singleton_Some in Hk as [<- <-].
Defined.


(** A provision task that succeeded. *)
Definition example_provision_task : TaskRun :=
  {| tr_meta := tr_meta (provision_task example_task "mpc" "ssh" "awskeys" "10.0.0.1" "ec2-user" "linux/arm64" "" "");
     tr_Spec := tr_Spec (provision_task example_task "mpc" "ssh" "awskeys" "10.0.0.1" "ec2-user" "linux/arm64" "" "");
     tr_Status := {| CompletionTime := Some 0%Z; st_TaskSpec := None; Succeeded := Some ConditionTrue |} |}.


Lemma handleHostAllocation_once_witness :
  spec (handleHostAllocation "mpc" example_task "ssh" "linux/arm64") (λ '(tr', res, err) l,
    (∃ s, l = [Ev (Client (Get_Secret (Key "team" "ssh"))) (Ok s)] ∧
       tr' = example_task ∧ res = no_requeue ∧ err = None) ∨
    ∃ e, A_GetSecret (Key "team" "ssh") (Err e) ∈ actions l).
Proof. apply (handleHostAllocation_once "mpc" example_task). by eexists. Defined.
