(* ===== verification/ErrorFacts.v ===== *)
(** * Errors: what the user is told when no host can be had

    Every error of [handleUserTask] that is not a conflict is put in the secret that the
    user's task waits for. The allocations keep the name and namespace of the TaskRun, so
    it is that task's secret. *)
From S2P Require Import Prelude GoLib GoStrings Md5 NetIP Prog Kube Config Cloud Effects Metrics Update Provision.
From S2P Require Import HostPools LocalHost Dynamics DynamicPools Platforms Reconciler.
From S2P Require Import Trace UpdateFacts ProvisionFacts HostPoolFacts DynamicFacts DynamicPoolFacts PlatformFacts ReconcilerFacts.

(** ** The TaskRun an allocation leaves *)

Section keys.
Context `{K8sLaws} `{RetryLaws}.
Variable operatorNamespace : string.

Lemma dynamic_allocates_key r tr sn tr' res err l :
  DynamicFacts.allocates operatorNamespace r tr sn tr' res err l → ObjectKeyFromObject tr' = ObjectKeyFromObject tr.
Proof.
  assert (∀ tr1 tr2 l, gives_up r tr1 tr2 l → ObjectKeyFromObject tr2 = ObjectKeyFromObject tr1) as Hup
    by (intros ? ? ? Hr%gives_up_released; exact (rel_key _ _ _ _ Hr)).
  assert (∀ tr1 tr2 e l, updates_to tr1 tr2 e l → ObjectKeyFromObject tr2 = ObjectKeyFromObject tr1) as Hu
    by (intros ? ? ? ? Hr%updates_to_same; exact (same_key _ _ Hr)).
  assert (∀ tr1 sn ssh a u p sudo tr2 e l, provision_outcome operatorNamespace tr1 sn ssh a u p sudo tr2 e l →
    ObjectKeyFromObject tr2 = ObjectKeyFromObject tr1) as Hp
    by (intros * Hr%provision_outcome_same; exact (sbf_key _ _ Hr)).
  destruct 1 as [tr' l l0 _ Hr|err tr' l l0 _ Hr|a err tr' l l0 _ _ Hr|a tr1 tr' ev l2 l1 l0 _ _ Hk1 _ Hk2
    |a tr1 tr2 tr' err ev l3 l2 l1 l0 _ _ Hk1 _ Hk2 Hk3| | |tr' l l0 _ Hr| | |n ev tr' err l1 l _ _ _ _ Hr| |
    |t err f tr' err' l1 l _ _ _ Hr|t i tr' ev l1 l _ _ Hr|t i tr' err res ev l1 l _ _ Hr]; try done.
  - by eapply Hup.
  - by eapply Hup.
  - exact (Hu _ _ _ _ Hr).
  - etrans; [by eapply Hp|exact (Hu _ _ _ _ Hk1)].
  - etrans; [by eapply Hup|]. etrans; [by eapply Hp|exact (Hu _ _ _ _ Hk1)].
  - by eapply Hup.
  - exact (Hu _ _ _ _ Hr).
  - exact (Hu _ _ _ _ Hr).
  - exact (Hu _ _ _ _ Hr).
  - exact (Hu _ _ _ _ Hr).
Qed.

Lemma pool_allocates_key a tr sn tr' res err l :
  pool_allocates operatorNamespace a tr sn tr' res err l → ObjectKeyFromObject tr' = ObjectKeyFromObject tr.
Proof.
  assert (∀ tr old e tr' res err l, starts a tr old e tr' res err l → ObjectKeyFromObject tr' = ObjectKeyFromObject tr) as Hst
    by (by destruct 1).
  destruct 1 as [|pool old tr' res err l1 l0 _ _ _ Hs|pool old tr' res err l1 l0 _ _ Ha _
    |pool old tr1 res1 err1 tr' res err l2 l1 l0 _ _ Ha _ Hs]; [done|..].
  - by eapply Hst.
  - by eapply static_allocates_key.
  - etrans; [by eapply Hst|by eapply static_allocates_key].
Qed.

Lemma wp_LocalHost_key tr sn :
  is_Some (tr_Labels tr) →
  spec (LocalHost.Allocate tr sn) (λ '(tr', _, _) _, ObjectKeyFromObject tr' = ObjectKeyFromObject tr).
Proof.
  intros Hl m. unfold LocalHost.Allocate, client. apply wp_bind, wp_set_label; [done|]. intros g Hg.
  cbv zeta. apply wp_bind, wp_trigger. intros [tr'|err] Hr; [|by apply wp_ret].
  destruct (Hr tr' eq_refl) as (Hk & _). eapply wp_call; [apply wp_createUserTaskSecret|].
  intros err l _. by apply wp_ret.
Qed.

(** No allocation changes the TaskRun's name and namespace. *)
Lemma wp_Allocate_key c tr sn :
  is_Some (tr_Labels tr) →
  spec (Allocate operatorNamespace c tr sn) (λ '(tr', _, _) _, ObjectKeyFromObject tr' = ObjectKeyFromObject tr).
Proof.
  intros Hl. destruct c as [|r|a|hp]; cbn [Allocate].
  - by apply wp_LocalHost_key.
  - eapply spec_mono; [by apply DynamicFacts.wp_Dynamic_Allocate|]. intros [[tr' res] err] l.
    destruct (String.eqb _ _); [intros Ha; exact (dynamic_allocates_key _ _ _ _ _ _ _ Ha)|]. by intros (-> & _).
  - eapply spec_mono; [by apply wp_pool_Allocate|]. intros [[tr' res] err] l. apply pool_allocates_key.
  - eapply spec_mono; [by apply HostPoolFacts.wp_HostPool_Allocate|]. intros [[tr' res] err] l. apply static_allocates_key.
Qed.

Lemma wp_allocate_host_key c tr sn platform :
  is_Some (tr_Labels tr) →
  spec (allocate_host operatorNamespace c tr sn platform) (λ '(tr', _, _) _, ObjectKeyFromObject tr' = ObjectKeyFromObject tr).
Proof.
  intros Hl m. unfold allocate_host. cbv zeta.
  eapply wp_call; [apply wp_allocation_start|]. intros start l0 _.
  eapply wp_call; [by apply wp_Allocate_key|]. intros [[tr' res] err] l1 Hk. destruct err as [err|].
  { eapply wp_call; [apply wp_HandleMetrics, wp_inc|]. intros u l2 _. by apply wp_ret. }
  assert (∀ (b : bool) f, (∀ p, spec (f p) (λ _ l, quiet l)) →
    spec (if b then HandleMetrics platform f else mret tt) (λ _ l, True)) as Hm.
  { intros [] f Hf m'; [|by apply wp_ret]. eapply wp_tailcall; [by apply wp_HandleMetrics|done]. }
  do 2 (eapply wp_call; [apply Hm; intros; apply (wp_observe_now _ _ (λ t, InSeconds _))|]; intros ? ? _).
  by apply wp_ret.
Qed.

Lemma wp_handleHostAllocation_key tr sn platform :
  is_Some (tr_Labels tr) →
  spec (handleHostAllocation operatorNamespace tr sn platform) (λ '(tr', _, _) _, ObjectKeyFromObject tr' = ObjectKeyFromObject tr).
Proof.
  intros Hl m. unfold handleHostAllocation, client. apply wp_bind, wp_trigger. intros [s|e] _; [by apply wp_ret|].
  destruct (negb _); [by apply wp_ret|].
  eapply wp_call; [apply wp_getPlatformConfig_any|]. intros [c|e'] l _.
  - eapply wp_tailcall; [by apply wp_allocate_host_key|]. by intros [[??]?] l' ?.
  - eapply wp_call; [apply wp_HandleMetrics, wp_inc|]. intros u l' _.
    eapply wp_call; [apply wp_createErrorSecret|]. intros [tr' err] l'' (_ & Hs & _). apply wp_ret. exact (sbf_key _ _ Hs).
Qed.

(** ** The user's secret *)

(** The secret that the user's task waits for was requested, with the error text. *)
Definition told (tr : TaskRun) (secretName platform msg : string) (l : hist mpcE) : Prop :=
  ∃ s r file line, A_CreateSecret s r ∈ actions l ∧
    Name (sec_meta s) = secretName ∧ Namespace (sec_meta s) = tr_Namespace tr ∧
    map_lookup (Labels (sec_meta s)) MultiPlatformSecretLabel = Some "true" ∧
    sec_Data s !! "error" = Some (error_secret_message msg platform file line).

(** Why not: the last call was the update that gives the TaskRun the controller's finalizer,
    and it was refused; or the TaskRun cannot own this very secret. *)
Definition not_told (tr : TaskRun) (secretName : string) (l : hist mpcE) : Prop :=
  ∃ owner e, ObjectKeyFromObject owner = ObjectKeyFromObject tr ∧
    ((PipelineFinalizer ∉ tr_Finalizers owner ∧ ∃ l0, l = Ev (Client (Update_TaskRun (finalized owner))) (Err e) :: l0) ∨
     SetOwnerReference owner (user_task_secret owner secretName ∅) = Err e).

Lemma told_app tr sn p msg l h : told tr sn p msg l → told tr sn p msg (l ++ h).
Proof. intros (s & r & f & n & Hin & ?). exists s, r, f, n. split; [|done]. apply elem_of_actions_app. by left. Qed.
Lemma not_told_app tr sn l h : not_told tr sn l → not_told tr sn (l ++ h).
Proof.
  intros (owner & e & Hk & [[Hf [l0 ->]]|Ho]); exists owner, e; split; [done|left|done|by right].
  split; [done|]. by exists (l0 ++ h).
Qed.
Lemma told_key tr tr' sn p msg l :
  ObjectKeyFromObject tr' = ObjectKeyFromObject tr → told tr' sn p msg l → told tr sn p msg l.
Proof. intros [_ Hns]%key_eq. unfold told. by rewrite Hns. Qed.
Lemma not_told_key tr tr' sn l : ObjectKeyFromObject tr' = ObjectKeyFromObject tr → not_told tr' sn l → not_told tr sn l.
Proof. intros Hk. unfold not_told. by rewrite Hk. Qed.

Lemma wp_createErrorSecret_tells tr platform sn msg :
  spec (createErrorSecret tr platform sn msg) (λ _ l, told tr sn platform msg l ∨ not_told tr sn l).
Proof.
  intros m. unfold createErrorSecret. destruct (AddFinalizer (tr_Finalizers tr) PipelineFinalizer) as [fs added] eqn:Hadd.
  apply wp_bind. eapply (wp_mono _ _ (λ '(tr', err) l, ObjectKeyFromObject tr' = ObjectKeyFromObject tr ∧
    (is_Some err → not_told tr sn l))).
  - intros [tr' [err|]] l [Hk Hn]; [apply wp_ret; right; apply Hn; by eexists|].
    destruct (SetOwnerReference tr' _) as [s|err] eqn:Ho.
    2: { apply wp_ret. right. exists tr', err. split; [done|]. right. revert Ho. unfold user_task_secret.
         by rewrite (proj2 (key_eq _ _ Hk)). }
    apply SetOwnerReference_meta in Ho as (Hname & Hns & Hl & _).
    apply wp_bind, wp_trigger. intros [file line] _.
    unfold create_owned_secret, client. apply wp_bind, wp_bind, wp_trigger. intros r _. do 2 apply wp_ret.
    left. eexists _, _, file, line. split; [left|]. cbn. rewrite Hname, Hns, Hl.
    split_and!; [done|by apply key_eq|done|by rewrite lookup_singleton_eq].
  - destruct added eqn:He; [|by apply wp_ret; split; [|intros []]].
    assert (PipelineFinalizer ∉ tr_Finalizers tr) as Hin
      by (intros Hin; rewrite (AddFinalizer_present _ _ Hin) in Hadd; congruence).
    assert (with_finalizers tr fs = finalized tr) as Hfs by (unfold finalized; by rewrite Hadd).
    unfold client. apply wp_bind, wp_trigger. rewrite Hfs. intros [tr'|err] Hr; apply wp_ret.
    + destruct (Hr tr' eq_refl) as (Hk & _). split; [done|by intros []].
    + split; [done|]. intros _. exists tr, err. split; [done|]. left. split; [done|]. by exists [].
Qed.

Lemma wp_request_host_tells tr sn platform :
  spec (request_host operatorNamespace tr sn platform) (λ '(res, err) l, ∀ e,
    err = Some e → IsConflict e = false →
    told tr sn platform ("Error allocating host: " +:+ Error e) l ∨ not_told tr sn l).
Proof.
  intros m. unfold request_host. cbv zeta. apply wp_bind.
  eapply (wp_mono _ _ (λ tr' _, is_Some (tr_Labels tr') ∧ ObjectKeyFromObject tr' = ObjectKeyFromObject tr)).
  - intros tr1 l [Hl Hk1]. eapply wp_call; [by apply wp_handleHostAllocation_key|]. intros [[tr2 res] err] l1 Hk2.
    destruct err as [err|]; [|by apply wp_bind, wp_ret, wp_ret].
    destruct (IsConflict err) eqn:Hc.
    { apply wp_bind, wp_ret, wp_ret. intros e [= ->]. congruence. }
    apply wp_bind. eapply wp_call; [apply wp_HandleMetrics, wp_inc|]. intros u l2 _.
    eapply wp_call; [apply wp_createErrorSecret_tells|]. intros [tr3 err'] l3 Ht. do 2 apply wp_ret. intros e [= <-] _.
    destruct Ht as [Ht|Ht]; [left; apply told_app|right; apply not_told_app];
      [eapply told_key; [|exact Ht]|eapply not_told_key; [|exact Ht]]; by etrans.
  - destruct (String.eqb _ ""); [|apply wp_ret; by split; [eexists|]].
    apply wp_set_label; [by eexists|]. intros g Hg. by split; [eexists|].
Qed.
End keys.


#[local] Existing Instances example_k8s example_k8s_laws example_retry example_retry_laws.

