(* ===== verification/EffectFacts.v ===== *)
(** * What the handlers may do: an effect discipline for the reconciler, and the one launch
      of a reconcile *)
From S2P Require Import Prelude GoLib GoStrings Prog Emits Kube NetIP Config Cloud Effects Metrics Update Provision.
From S2P Require Import HostPools LocalHost Dynamics DynamicPools Platforms Reconciler.
From S2P Require Import Trace UpdateFacts ProvisionFacts HostPoolFacts DynamicFacts DynamicPoolFacts PlatformFacts ReconcilerFacts.

(** ** Effects *)

(** A request that reads. *)
Definition read_request {X} (c : clientE X) : Prop :=
  match c with
  | Get_TaskRun _ | Get_Secret _ | Get_ConfigMap _ | List_TaskRuns _ | List_Pods _ => True
  | _ => False
  end.

(** One of the controller's own tasks. *)
Definition own_task (operatorNamespace : string) (t : TaskRun) : Prop :=
  tr_Namespace t = operatorNamespace ∧ label t TaskTypeLabel ∈ [TaskTypeProvision; TaskTypeClean].

(** A secret that the controller's client, whose cache holds labelled secrets only, sees. *)
Definition visible_secret (s : Secret) : Prop :=
  map_lookup (Labels (sec_meta s)) MultiPlatformSecretLabel = Some "true".

(** What is done for a TaskRun of a user: TaskRuns and secrets are read and updated, own
    tasks and visible secrets created, secrets deleted, clouds asked; no TaskRun is deleted, and no
    pod is touched. *)
Definition user_effects (operatorNamespace : string) X (e : mpcE X) : Prop :=
  match e with
  | Client c =>
      match c with
      | Create_TaskRun t => own_task operatorNamespace t
      | Create_Secret s => visible_secret s
      | Delete_TaskRun _ | Update_Pod _ | List_Pods _ => False
      | _ => True
      end
  | APIReader c => read_request c
  | Metric c => match c with Set_gauge _ _ _ _ => False | _ => True end
  | _ => True
  end.

(** What is done for a provision task: no cloud is asked, nothing is created but visible secrets,
    and no TaskRun is deleted but the task. *)
Definition provision_effects (tr : TaskRun) X (e : mpcE X) : Prop :=
  match e with
  | Client c =>
      match c with
      | Create_TaskRun _ | Delete_Secret _ => False
      | Create_Secret s => visible_secret s
      | Delete_TaskRun t => ObjectKeyFromObject t = ObjectKeyFromObject tr
      | _ => True
      end
  | APIReader c => read_request c
  | Metric c => match c with Has_platform _ | Inc _ _ => True | _ => False end
  | Cloud _ _ | Mem _ | RandRead _ | RangeMap _ => False
  | _ => True
  end.

(** What is done for a cleanup task: it is deleted, failures are counted, the clock read. *)
Definition clean_effects (tr : TaskRun) X (e : mpcE X) : Prop :=
  match e with
  | Client c => match c with Delete_TaskRun t => t = tr | _ => False end
  | Metric c => match c with Has_platform _ => True | Inc _ c => c = CleanupFailures | _ => False end
  | Now => True
  | _ => False
  end.

(** By the type of the task. *)
Definition handler_effects (operatorNamespace : string) (tr : TaskRun) X (e : mpcE X) : Prop :=
  if String.eqb (label tr TaskTypeLabel) "" then user_effects operatorNamespace X e
  else if String.eqb (label tr TaskTypeLabel) TaskTypeClean then clean_effects tr X e
  else if String.eqb (label tr TaskTypeLabel) TaskTypeProvision then provision_effects tr X e
  else False.

(** ** The handlers *)

(** [emits], where a request has to satisfy a conjunction. *)
Ltac effects := emits; try (by split).

Section effects.
Context `{K8sLaws} `{RetryLaws}.
Variable operatorNamespace : string.

Lemma emits_HandleMetrics (P : ∀ X, mpcE X → Prop) p f :
  (∀ p, P _ (Metric (Has_platform p))) → (∀ p, emits P (f p)) → emits P (HandleMetrics p f).
Proof. intros Hp Hf. unfold HandleMetrics, metric. by emits. Qed.

(** What an update of a TaskRun needs. *)
Definition updates (P : ∀ X, mpcE X → Prop) : Prop :=
  (∀ tr, P _ (Client (Update_TaskRun tr))) ∧ ∀ k, P _ (APIReader (Get_TaskRun k)).

Lemma emits_UpdateTaskRunWithRetry P tr : updates P → emits P (UpdateTaskRunWithRetry tr).
Proof.
  intros [Hu Hg]. unfold UpdateTaskRunWithRetry, client.
  destruct DefaultRetry_S as [n Hn]. rewrite (RetryOnConflict_attempts _ _ _ _ _ Hn).
  unfold updateTaskRun, apiReader, client. by emits.
Qed.

Lemma owned_labels tr secretName data s :
  SetOwnerReference tr (user_task_secret tr secretName data) = Ok s →
  map_lookup (Labels (sec_meta s)) MultiPlatformSecretLabel = Some "true".
Proof. by intros (_ & _ & -> & _)%SetOwnerReference_meta. Qed.

Lemma emits_createErrorSecret P tr platform secretName msg :
  updates P → P _ Caller → (∀ s, visible_secret s → P _ (Client (Create_Secret s))) →
  emits P (createErrorSecret tr platform secretName msg).
Proof.
  intros [Hu _] Hc Hs. unfold createErrorSecret, create_owned_secret, client. emits. apply Hs.
  unfold visible_secret. cbn [sec_meta]. by eapply owned_labels.
Qed.

(** *** Provision and cleanup tasks *)

Lemma provision_updates tr : updates (provision_effects tr).
Proof. by split. Qed.

Lemma emits_handleCleanTask tr : emits (clean_effects tr) (handleCleanTask tr).
Proof.
  unfold handleCleanTask, client, now, inc. emits.
  all: try (apply emits_HandleMetrics; [done|]; intros; unfold metric; by emits).
Qed.

Lemma emits_handleProvisionTask tr : emits (provision_effects tr) (handleProvisionTask tr).
Proof.
  unfold handleProvisionTask, retire_provision_task, provision_failed, provision_succeeded, verify_secret, bump_pods,
    client, now, recordEvent, set_annotation. cbv zeta.
  emits.
  all: first [apply emits_HandleMetrics; [done|]; intros; unfold inc, metric; by emits
    |apply emits_UpdateTaskRunWithRetry, provision_updates
    |by apply emits_createErrorSecret; [apply provision_updates|..]].
Qed.

(** *** TaskRuns of users *)

(** As above, and no instance is launched. *)
Definition unlaunching X (e : mpcE X) : Prop :=
  user_effects operatorNamespace X e ∧
  match e with Cloud _ c => match c with LaunchInstance _ _ _ => False | _ => True end | _ => True end.

Lemma unlaunching_user X (e : mpcE X) : unlaunching X e → user_effects operatorNamespace X e.
Proof. by intros [? _]. Qed.
Lemma unlaunching_updates : updates unlaunching.
Proof. by split. Qed.

Lemma emits_unlaunching_update tr : emits unlaunching (UpdateTaskRunWithRetry tr).
Proof. apply emits_UpdateTaskRunWithRetry, unlaunching_updates. Qed.
Lemma emits_unlaunching_error tr platform secretName msg :
  emits unlaunching (createErrorSecret tr platform secretName msg).
Proof. by apply emits_createErrorSecret; [apply unlaunching_updates|..]; [split|intros; split]. Qed.
Lemma emits_unlaunching_inc p c : emits unlaunching (HandleMetrics p (inc c)).
Proof. apply emits_HandleMetrics; [done|]. intros. unfold inc, metric. by effects. Qed.
Lemma emits_unlaunching_observe p f : (∀ p, emits unlaunching (f p)) → emits unlaunching (HandleMetrics p f).
Proof. intros. by apply emits_HandleMetrics. Qed.
#[local] Hint Resolve emits_unlaunching_update emits_unlaunching_error emits_unlaunching_inc : emits.

Lemma emits_launchProvisioningTask tr secretName sshSecret address user platform sudoCommands :
  emits unlaunching (launchProvisioningTask operatorNamespace tr secretName sshSecret address user platform sudoCommands).
Proof.
  unfold launchProvisioningTask, client. emits. split; [|done]. split; [done|]. by left.
Qed.
#[local] Hint Resolve emits_launchProvisioningTask : emits.

Lemma emits_HostPool_Allocate hp tr secretName : emits unlaunching (HostPool.Allocate operatorNamespace hp tr secretName).
Proof. unfold HostPool.Allocate, client, range, set_label. by effects. Qed.
Lemma emits_HostPool_Deallocate hp tr secretName host :
  emits unlaunching (HostPool.Deallocate operatorNamespace hp tr secretName host).
Proof. unfold HostPool.Deallocate, client. emits. split; [|done]. split; [done|]. by right; left. Qed.
#[local] Hint Resolve emits_HostPool_Allocate emits_HostPool_Deallocate : emits.

Lemma emits_LocalHost_Allocate tr secretName : emits unlaunching (LocalHost.Allocate tr secretName).
Proof.
  unfold LocalHost.Allocate, createUserTaskSecret, create_owned_secret, client, set_label. effects.
  split; [|done]. unfold user_effects, visible_secret. by eapply owned_labels.
Qed.

Lemma emits_terminate_and_unassign r tr report :
  (∀ tr, emits unlaunching (report tr)) → emits unlaunching (DynamicResolver.terminate_and_unassign r tr report).
Proof.
  intros Hr. unfold DynamicResolver.terminate_and_unassign, DynamicResolver.removeInstanceFromTask, cloud. by effects.
Qed.
Lemma emits_buildHostPool a tag : emits unlaunching (DynamicHostPool.buildHostPool a tag).
Proof.
  unfold DynamicHostPool.buildHostPool, DynamicHostPool.visit_instance, DynamicHostPool.isHostIdle, cloud, client, now. by effects.
Qed.
#[local] Hint Resolve emits_buildHostPool : emits.

Lemma emits_Deallocate c tr secretName host : emits unlaunching (Deallocate operatorNamespace c tr secretName host).
Proof.
  destruct c; cbn [Deallocate];
    unfold LocalHost.Deallocate, DynamicResolver.Deallocate, DynamicHostPool.Deallocate, DynamicHostPool.isHostIdle,
      cloud, client, recordEvent; by effects.
Qed.

Lemma emits_RegisterPlatformMetrics platform n : emits unlaunching (RegisterPlatformMetrics platform n).
Proof. unfold RegisterPlatformMetrics, collector_names, metric. cbn [register_collectors]. unfold metric. by effects. Qed.
#[local] Hint Resolve emits_Deallocate emits_RegisterPlatformMetrics : emits.

Lemma emits_getPlatformConfig platform ns : emits unlaunching (getPlatformConfig operatorNamespace platform ns).
Proof.
  unfold getPlatformConfig, refresh_cache, resolve_platform, dynamic_platform, dynamic_pool_platform, static_platform,
    buildDynamicResolver, buildDynamicHostPool, new_provider, client, mem, range. by effects.
Qed.
#[local] Hint Resolve emits_getPlatformConfig : emits.

Lemma emits_handleHostAssigned tr secretName : emits unlaunching (handleHostAssigned operatorNamespace tr secretName).
Proof.
  unfold handleHostAssigned, release_host, cleanup_secret, handleWaitingTasks, client, now, set_label. effects.
  apply emits_unlaunching_observe. intros. unfold metric. by effects.
Qed.

(** An allocation may launch. *)
Notation user := (user_effects operatorNamespace).
Lemma emits_user {A} (p : mpc A) : emits unlaunching p → emits user p.
Proof. apply emits_mono, unlaunching_user. Qed.

Lemma emits_Dynamic_Allocate r tr secretName : emits user (DynamicResolver.Allocate operatorNamespace r tr secretName).
Proof.
  assert (∀ tr report, (∀ tr, emits unlaunching (report tr)) →
    emits user (DynamicResolver.terminate_and_unassign r tr report)) as Ht
    by (intros; by apply emits_user, emits_terminate_and_unassign).
  assert (∀ tr, emits unlaunching (DynamicResolver.report_terminate_failed r tr)) as Hr
    by (intros; unfold DynamicResolver.report_terminate_failed, recordEvent; by emits).
  assert (∀ tr, emits unlaunching (DynamicResolver.report_nothing tr)) as Hn by (intros; apply emits_ret).
  pose proof (λ tr, emits_user _ (emits_unlaunching_update tr)) as Hu.
  pose proof (λ tr a b c d e f, emits_user _ (emits_launchProvisioningTask tr a b c d e f)) as Hl.
  unfold DynamicResolver.Allocate, DynamicResolver.allocation_timed_out, DynamicResolver.continue_instance,
    DynamicResolver.provision_instance, DynamicResolver.await_address, DynamicResolver.wait_for_capacity,
    DynamicResolver.launch_instance, DynamicResolver.launch, DynamicResolver.launch_failed,
    cloud, now, recordEvent, mem, set_label, set_annotation. by emits.
Qed.

Lemma emits_start_instance a tr old err : emits user (DynamicHostPool.start_instance a tr old err).
Proof. unfold DynamicHostPool.start_instance, DynamicHostPool.getRandomString, cloud, mem. by emits. Qed.

Lemma emits_Allocate c tr secretName : emits user (Allocate operatorNamespace c tr secretName).
Proof.
  destruct c; cbn [Allocate].
  - apply emits_user, emits_LocalHost_Allocate.
  - apply emits_Dynamic_Allocate.
  - pose proof emits_start_instance. pose proof (λ tr a b, emits_user _ (emits_HostPool_Allocate tr a b)).
    pose proof (λ a tag, emits_user _ (emits_buildHostPool a tag)).
    unfold DynamicHostPool.Allocate. by emits.
  - apply emits_user, emits_HostPool_Allocate.
Qed.

Lemma emits_observe_now p h (f : Z → observation) : emits unlaunching (t ← now; metric (Observe p h (f t))).
Proof. unfold now, metric. by emits. Qed.

Lemma emits_handleHostAllocation tr secretName platform :
  emits user (handleHostAllocation operatorNamespace tr secretName platform).
Proof.
  pose proof emits_Allocate. pose proof (λ a b, emits_user _ (emits_getPlatformConfig a b)).
  pose proof (λ p c, emits_user _ (emits_unlaunching_inc p c)).
  pose proof (λ tr a b c, emits_user _ (emits_unlaunching_error tr a b c)).
  assert (∀ p h f, emits user (HandleMetrics p (λ p, t ← now; metric (Observe p h (f t))))) as Hobs
    by (intros; by apply emits_user, emits_unlaunching_observe; intros; apply emits_observe_now).
  unfold handleHostAllocation, allocate_host, allocation_start, client.
  emits; try apply (Hobs _ _ (λ t, InSeconds _)). unfold now. by emits.
Qed.

Lemma emits_handleUserTask tr : emits user (handleUserTask operatorNamespace tr).
Proof.
  pose proof emits_handleHostAllocation. pose proof (λ tr s, emits_user _ (emits_handleHostAssigned tr s)).
  pose proof (λ p c, emits_user _ (emits_unlaunching_inc p c)).
  pose proof (λ tr a b c, emits_user _ (emits_unlaunching_error tr a b c)).
  unfold handleUserTask, request_host, set_label. by emits.
Qed.
Lemma emits_handleTaskRunReceived tr :
  emits (handler_effects operatorNamespace tr) (handleTaskRunReceived operatorNamespace tr).
Proof.
  unfold handleTaskRunReceived. cbv zeta. destruct (String.eqb_spec (label tr TaskTypeLabel) "") as [Hl|Hl]; cbn [negb].
  - destruct (wants_host tr); [|apply emits_ret]. eapply emits_mono; [|apply emits_handleUserTask].
    intros X e He. unfold handler_effects. by rewrite Hl.
  - apply String.eqb_neq in Hl. destruct (String.eqb (label tr TaskTypeLabel) TaskTypeClean) eqn:Hc.
    { eapply emits_mono; [|apply emits_handleCleanTask]. intros X e He. unfold handler_effects. by rewrite Hl, Hc. }
    destruct (String.eqb (label tr TaskTypeLabel) TaskTypeProvision) eqn:Hp; [|apply emits_ret].
    eapply emits_mono; [|apply emits_handleProvisionTask]. intros X e He. unfold handler_effects. by rewrite Hl, Hc, Hp.
Qed.
End effects.

(** ** Launches *)

(** A request for an instance in the calls of a reconcile: for its TaskRun, whose secret was
    not found, after the provider was asked how many instances there are. *)
Record own_launch (request : NamespacedName) (l : hist mpcE) (p : CloudProvider) (id tag : string) : Prop := {
  ol_id : id = key_namespace request +:+ ":" +:+ key_name request;
  ol_counted : ∃ n, A_Count p tag (Ok n) ∈ actions l;
  ol_secret : ∃ e, A_GetSecret (Key (key_namespace request) (SecretPrefix +:+ key_name request)) (Err e) ∈ actions l ∧
    IsNotFound e = true
}.

(** Without the secret. *)
Definition counted_launch (id : string) (l : hist mpcE) (p : CloudProvider) (id' tag : string) : Prop :=
  id' = id ∧ ∃ n, A_Count p tag (Ok n) ∈ actions l.

(** At most one request, with a property. *)
Definition one_launch (P : CloudProvider → string → string → Prop) (l : hist mpcE) : Prop :=
  launch_count (actions l) ≤ 1 ∧ ∀ p id tag x, A_Launch p id tag x ∈ actions l → P p id tag.
Definition no_launches (l : hist mpcE) : Prop := one_launch (λ _ _ _, False) l.

Lemma no_launches_count l : no_launches l → launch_count (actions l) = 0.
Proof.
  intros [_ Hn]. induction (actions l) as [|a al IH]; [done|]. destruct a; simpl; try (apply IH; intros; eapply Hn; by right).
  destruct (Hn p taskRunID instanceTag r). left.
Qed.

Lemma one_launch_app P l h : one_launch P l → no_launches h → one_launch P (l ++ h).
Proof.
  intros [Hc Hp] Hh. pose proof (no_launches_count _ Hh) as Hz. destruct Hh as [_ Hn]. split.
  - rewrite actions_app, launch_count_app. lia.
  - intros p id tag x [Hin|Hin]%elem_of_actions_app; [by eapply Hp|by destruct (Hn _ _ _ _ Hin)].
Qed.
Lemma one_launch_app_r P l h : no_launches l → one_launch P h → one_launch P (l ++ h).
Proof.
  intros Hl [Hc Hp]. pose proof (no_launches_count _ Hl) as Hz. destruct Hl as [_ Hn]. split.
  - rewrite actions_app, launch_count_app. lia.
  - intros p id tag x [Hin|Hin]%elem_of_actions_app; [by destruct (Hn _ _ _ _ Hin)|by eapply Hp].
Qed.
Lemma one_launch_mono (P P' : CloudProvider → string → string → Prop) l :
  one_launch P l → (∀ p id tag, P p id tag → P' p id tag) → one_launch P' l.
Proof. intros [Hc Hp] HP. split; [done|]. intros. eapply HP, Hp. eassumption. Qed.
Lemma no_launches_any P l : no_launches l → one_launch P l.
Proof. intros Hl. by eapply one_launch_mono. Qed.
Lemma no_launches_app l h : no_launches l → no_launches h → no_launches (l ++ h).
Proof. apply one_launch_app. Qed.
Lemma counted_launch_app id l1 l2 l3 p id' tag : counted_launch id l2 p id' tag → counted_launch id (l1 ++ l2 ++ l3) p id' tag.
Proof. intros [? [n Hn]]. split; [done|]. exists n. rewrite !elem_of_actions_app. auto. Qed.

Section launches.
Context `{K8sLaws} `{RetryLaws}.
Variable operatorNamespace : string.
Notation unlaunching := (unlaunching operatorNamespace).

Lemma unlaunching_no_launches l : Forall (λ ev : event mpcE, unlaunching _ (ev_req ev)) l → no_launches l.
Proof.
  intros Hl. assert (∀ p id tag x, A_Launch p id tag x ∉ actions l) as Hn.
  { intros p id tag x (ev & Hev & Hin)%list_elem_of_fmap.
    apply (proj1 (Forall_forall _ _) Hl) in Hin as [_ Hu]. destruct ev as [X e a]. cbn [ev_req] in Hu.
    destruct e as [Y c|Y c|Y q c|Y c|Y c| | | | |]; try done; unfold action_of in Hev; simpl in Hev; by destruct c. }
  split; [|intros p id tag x Hin; by destruct (Hn p id tag x)].
  clear Hl. induction (actions l) as [|a al IH]; simpl; [lia|].
  destruct a; try (apply IH; intros ? ? ? ? Hin; eapply Hn; right; exact Hin).
  destruct (Hn p taskRunID instanceTag r). left.
Qed.

(** A specification of what launches nothing. *)
Lemma spec_unlaunching {A} (p : mpc A) Q : emits unlaunching p → spec p Q → spec p (λ a l, Q a l ∧ no_launches l).
Proof.
  intros He Hp m. eapply wp_mono; [|by apply wp_emits, Hp]. intros a h [HQ (l & -> & Hl)].
  rewrite app_nil_r in *. split; [done|]. by apply unlaunching_no_launches.
Qed.

Lemma spec_launch_Allocate c tr secretName :
  is_Some (tr_Labels tr) →
  spec (Allocate operatorNamespace c tr secretName) (λ _ l, one_launch (counted_launch (taskRunID tr) l) l).
Proof.
  intros Hl. destruct c as [|r|a|hp]; cbn [Allocate].
  - eapply spec_mono; [apply spec_unlaunching; [apply emits_LocalHost_Allocate|by apply wp_LocalHost_Allocate]|].
    intros r l [_ Hn]. by apply no_launches_any.
  - eapply spec_mono; [by apply DynamicFacts.wp_Dynamic_Allocate|]. intros [[tr' res] err] l Ha.
    assert (launch_count (actions l) ≤ 1 ∧ ∀ p id tag x, A_Launch p id tag x ∈ actions l →
      launch_accounted r (annotated tr) l p id tag x) as [Hc Hp].
    { destruct (String.eqb _ _); [by eapply allocates_accounted|]. destruct Ha as (_ & _ & _ & ->).
      split; [simpl; lia|]. by intros p id tag x ?%elem_of_nil. }
    split; [done|]. intros p id tag x Hin. destruct (Hp p id tag x Hin) as [(-> & -> & ->) _ (n & Hn & _) _].
    split; [done|by exists n].
  - eapply spec_mono; [by apply wp_pool_Allocate|]. intros [[tr' res] err] l [Hc Hp]%pool_allocates_launch.
    split; [done|]. intros p id tag x Hin. destruct (Hp p id tag x Hin) as [(-> & -> & ->) (n & _ & _ & Hn & _)].
    split; [done|by exists n].
  - eapply spec_mono; [apply spec_unlaunching; [apply emits_HostPool_Allocate|by apply HostPoolFacts.wp_HostPool_Allocate]|].
    intros r l [_ Hn]. by apply no_launches_any.
Qed.

Lemma spec_launch_allocate_host c tr secretName platform :
  is_Some (tr_Labels tr) →
  spec (allocate_host operatorNamespace c tr secretName platform) (λ _ l, one_launch (counted_launch (taskRunID tr) l) l).
Proof.
  intros Hl m. unfold allocate_host. cbv zeta.
  eapply wp_call; [apply (spec_unlaunching _ (λ _ _, True)); [unfold allocation_start, now; by effects|]|].
  { eapply spec_mono; [apply wp_allocation_start|done]. }
  intros start l0 [_ Hn0]. eapply wp_call; [by apply spec_launch_Allocate|]. intros [[tr' res] err] l1 Ha1.
  set (P := counted_launch _ _) in *. assert (∀ l2, no_launches l2 →
    one_launch (counted_launch (taskRunID tr) (l2 ++ l1 ++ l0)) (l2 ++ l1 ++ l0)) as Hend.
  { intros l2 Ha2. apply one_launch_app_r; [done|]. apply one_launch_app; [|done]. eapply one_launch_mono; [exact Ha1|].
    intros p id tag. apply counted_launch_app. }
  rewrite app_nil_r. destruct err as [err|].
  { eapply wp_call; [apply (spec_unlaunching _ (λ _ _, True)); [apply emits_unlaunching_inc|]|].
    { eapply spec_mono; [apply wp_HandleMetrics, wp_inc|done]. }
    intros u l2 [_ Ha2]. apply wp_ret. by apply Hend. }
  assert (∀ (b : bool) f, (∀ p, emits unlaunching (f p)) → (∀ p, spec (f p) (λ _ l, quiet l)) →
    spec (if b then HandleMetrics platform f else mret tt) (λ _ l, no_launches l)) as Hm.
  { intros b f Hf Hs. destruct b.
    - eapply spec_mono; [apply (spec_unlaunching _ (λ _ _, True))|by intros u l [_ ?]].
      + by apply emits_unlaunching_observe.
      + eapply spec_mono; [by apply wp_HandleMetrics|done].
    - intros m'. apply wp_ret. split; [simpl; lia|]. by intros ? ? ? ? ?%elem_of_nil. }
  eapply wp_call; [apply Hm; intros; [apply emits_observe_now|apply (wp_observe_now _ _ (λ t, InSeconds _))]|].
  intros u l2 Ha2.
  eapply wp_call; [apply Hm; intros; [apply emits_observe_now|apply (wp_observe_now _ _ (λ t, InSeconds _))]|].
  intros u' l3 Ha3. apply wp_ret. rewrite (app_assoc l3). apply Hend. by apply no_launches_app.
Qed.

(** What a handler of [tr] leaves. *)
Definition launches_own (tr : TaskRun) (l : hist mpcE) : Prop := one_launch (own_launch (ObjectKeyFromObject tr) l) l.

Lemma own_launch_app key l1 l2 l3 p id tag : own_launch key l2 p id tag → own_launch key (l1 ++ l2 ++ l3) p id tag.
Proof.
  intros [Hi (n & Hn) (e & He & ?)]. split; [done|exists n|exists e; split; [|done]]; rewrite !elem_of_actions_app; auto.
Qed.
Lemma launches_own_app tr l1 l2 l3 :
  no_launches l1 → launches_own tr l2 → no_launches l3 → launches_own tr (l1 ++ l2 ++ l3).
Proof.
  intros Hl1 Hl2 Hl3. apply one_launch_app_r; [done|]. apply one_launch_app; [|done].
  eapply one_launch_mono; [exact Hl2|]. intros p id tag. apply own_launch_app.
Qed.
Lemma launches_own_none tr l : no_launches l → launches_own tr l.
Proof. apply no_launches_any. Qed.

Lemma spec_no_launches {A} (p : mpc A) Q : emits unlaunching p → spec p Q → spec p (λ _ l, no_launches l).
Proof. intros He Hp. eapply spec_mono; [by apply spec_unlaunching|]. by intros a l [_ ?]. Qed.

Lemma no_launches_nil : no_launches [].
Proof. split; [simpl; lia|]. by intros ? ? ? ? ?%elem_of_nil. Qed.

Lemma spec_launch_handleHostAllocation tr platform :
  is_Some (tr_Labels tr) →
  spec (handleHostAllocation operatorNamespace tr (SecretPrefix +:+ tr_Name tr) platform) (λ _ l, launches_own tr l).
Proof.
  intros Hl m. unfold handleHostAllocation, client. apply wp_bind, wp_trigger. intros r _.
  set (ev := Ev _ r). assert (no_launches [ev]) as Hev by (split; [by destruct r; simpl; lia|]; by intros ? ? ? ? ?%list_elem_of_singleton).
  destruct r as [s|e]; [by apply wp_ret, launches_own_none|].
  destruct (IsNotFound e) eqn:He; cbn [negb]; [|by apply wp_ret, launches_own_none].
  eapply wp_call; [eapply spec_no_launches; [apply emits_getPlatformConfig|apply wp_getPlatformConfig_any]|].
  intros [c|err] l Hn.
  - eapply wp_tailcall; [by apply spec_launch_allocate_host|]. intros r l1 Ha.
    apply one_launch_app; [|by apply no_launches_app]. eapply one_launch_mono; [exact Ha|].
    intros p id tag [-> [n Hc]]. split; [done|exists n; apply elem_of_actions_app; by left|].
    exists e. split; [|done]. rewrite !elem_of_actions_app. right; right. left.
  - eapply wp_call; [eapply spec_no_launches; [apply emits_unlaunching_inc|apply wp_HandleMetrics, wp_inc]|].
    intros u l1 Hn1. eapply wp_call; [eapply spec_no_launches; [apply emits_unlaunching_error|apply wp_createErrorSecret]|].
    intros [tr' err'] l2 Hn2. apply wp_ret, launches_own_none. by repeat apply no_launches_app.
Qed.

Lemma spec_launch_request_host tr platform :
  spec (request_host operatorNamespace tr (SecretPrefix +:+ tr_Name tr) platform) (λ _ l, launches_own tr l).
Proof.
  intros m. unfold request_host. cbv zeta. apply wp_bind.
  eapply (wp_mono _ _ (λ tr' l, is_Some (tr_Labels tr') ∧ ObjectKeyFromObject tr' = ObjectKeyFromObject tr ∧ l = [])).
  - intros tr' l (Hl & Hk & ->). apply key_eq in Hk as Hk'. destruct Hk' as [Hn _]. rewrite <- Hn.
    eapply wp_call; [by apply spec_launch_handleHostAllocation|]. intros [[tr2 res] err] l Ho.
    assert (launches_own tr l) as Ho' by (unfold launches_own in *; by rewrite <- Hk).
    assert (∀ l', no_launches l' → launches_own tr (l' ++ l ++ [])) as Hend
      by (intros; apply launches_own_app; [done..|apply no_launches_nil]).
    apply wp_bind. eapply (wp_mono _ _ (λ _ l, launches_own tr l)); [intros; by apply wp_ret|].
    destruct err as [err|]; [|apply wp_ret, (Hend []), no_launches_nil].
    destruct (IsConflict err); [apply wp_ret, (Hend []), no_launches_nil|].
    eapply wp_call; [eapply spec_no_launches; [apply emits_unlaunching_inc|apply wp_HandleMetrics, wp_inc]|].
    intros u l1 Hn1. eapply wp_call; [eapply spec_no_launches; [apply emits_unlaunching_error|apply wp_createErrorSecret]|].
    intros [tr3 err'] l2 Hn2. apply wp_ret. rewrite (app_assoc l2). apply Hend. by apply no_launches_app.
  - destruct (String.eqb _ ""); [|apply wp_ret; by split; [eexists|]].
    apply wp_set_label; [by eexists|]. intros g Hg. by split; [eexists|].
Qed.

Lemma spec_launch_handleUserTask tr : spec (handleUserTask operatorNamespace tr) (λ _ l, launches_own tr l).
Proof.
  assert (∀ m, wp (go_spec m) (handleHostAssigned operatorNamespace tr (SecretPrefix +:+ tr_Name tr))
    (λ _ l, launches_own tr l) []) as Hass.
  { intros m. eapply wp_tailcall; [eapply (spec_no_launches _ (λ _ _, True)); [apply emits_handleHostAssigned|intros m'; by eapply wp_mono; [|apply wp_handleHostAssigned]]|].
    intros r l Hn. rewrite app_nil_r. by apply launches_own_none. }
  intros m. unfold handleUserTask. cbv zeta. destruct (negb _); [apply Hass|].
  assert (launches_own tr []) as Hnil by apply launches_own_none, no_launches_nil.
  destruct (finished tr); [destruct (ContainsFinalizer _ _); [apply Hass|by apply wp_ret]|].
  destruct (ValidatePlatform tr) as [platform|e].
  - apply spec_launch_request_host.
  - eapply wp_call; [eapply spec_no_launches; [apply emits_unlaunching_error|apply wp_createErrorSecret]|].
    intros [tr' err] l Hn. apply wp_ret. rewrite app_nil_r. by apply launches_own_none.
Qed.

Lemma provision_unlaunching tr X (e : mpcE X) : provision_effects tr X e →
  match e with Cloud _ _ => False | _ => True end.
Proof. by destruct e. Qed.

Lemma cloudless_no_launches (P : ∀ X, mpcE X → Prop) l :
  (∀ X e, P X e → match e with Cloud _ _ => False | _ => True end) →
  Forall (λ ev : event mpcE, P _ (ev_req ev)) l → no_launches l.
Proof.
  intros HP Hl. induction Hl as [|[X e a] l Hev _ IH]; [apply no_launches_nil|].
  apply (no_launches_app [_]); [|done]. apply HP in Hev. cbn [ev_req] in Hev.
  assert (∀ p id tag x, action_of (Ev e a) ≠ A_Launch p id tag x) as Hne.
  { intros p id tag x. destruct e as [Y c|Y c|Y q c|Y c|Y c| | | | |]; try done; by destruct c. }
  split; [|intros p id tag x Hin%list_elem_of_singleton; by destruct (Hne p id tag x)].
  simpl. destruct (action_of (Ev e a)); lia.
Qed.

Lemma spec_cloudless {A} (P : ∀ X, mpcE X → Prop) (p : mpc A) Q :
  (∀ X e, P X e → match e with Cloud _ _ => False | _ => True end) →
  emits P p → spec p Q → spec p (λ _ l, no_launches l).
Proof.
  intros HP He Hp m. eapply wp_mono; [|by apply (wp_emits P), Hp]. intros a h [_ (l & -> & Hl)].
  rewrite app_nil_r. by eapply cloudless_no_launches.
Qed.

Lemma spec_launch_handleTaskRunReceived tr : spec (handleTaskRunReceived operatorNamespace tr) (λ _ l, launches_own tr l).
Proof.
  intros m. unfold handleTaskRunReceived. cbv zeta.
  assert (launches_own tr []) as Hnil by apply launches_own_none, no_launches_nil.
  destruct (negb _).
  - destruct (String.eqb _ _).
    { eapply wp_tailcall; [eapply (spec_cloudless (clean_effects tr)); [by intros X []|apply emits_handleCleanTask|apply wp_handleCleanTask]|].
      intros r l Hn. rewrite app_nil_r. by apply launches_own_none. }
    destruct (String.eqb _ _); [|by apply wp_ret].
    eapply wp_tailcall; [eapply (spec_cloudless (provision_effects tr)); [apply provision_unlaunching|apply emits_handleProvisionTask|apply wp_handleProvisionTask]|].
    intros r l Hn. rewrite app_nil_r. by apply launches_own_none.
  - destruct (wants_host tr); [|by apply wp_ret]. apply spec_launch_handleUserTask.
Qed.

Lemma spec_launch_Reconcile request :
  spec (Reconcile operatorNamespace request) (λ _ l, one_launch (own_launch request l) l).
Proof.
  intros m. unfold Reconcile, apiReader. apply wp_bind, wp_trigger. intros r Hr. set (ev := Ev _ r).
  assert (no_launches [ev]) as Hev by (split; [by destruct r; simpl; lia|]; by intros ? ? ? ? ?%list_elem_of_singleton).
  destruct r as [tr|e]; [|by apply wp_ret, no_launches_any].
  assert (ObjectKeyFromObject tr = request) as <- by by apply Hr.
  eapply wp_tailcall; [apply spec_launch_handleTaskRunReceived|]. intros r l Ho.
  apply (launches_own_app tr [] l [ev]); [apply no_launches_nil|done..].
Qed.
End launches.

(** C14. Effect typing: whatever the API server and the clouds answer, each handler makes only
    the requests of its type. A user's TaskRun leads to no deletion of a TaskRun and no
    change of a pod, and what it creates are the controller's own tasks, in the
    controller's namespace, and secrets; a provision task never leads to a call of a cloud
    or to a new TaskRun; a cleanup task only to its own deletion. *)
Theorem handler_effects_kept `{K8sLaws} `{RetryLaws} operatorNamespace tr :
  emits (handler_effects operatorNamespace tr) (handleTaskRunReceived operatorNamespace tr).
Proof. apply emits_handleTaskRunReceived. Qed.

(** A reconcile asks the clouds for one instance at most, for the TaskRun it was called
    for and after the platform's instances were counted, and only when that TaskRun's
    secret was looked up and not found. *)
Theorem Reconcile_launches_own `{K8sLaws} `{RetryLaws} operatorNamespace request :
  spec (Reconcile operatorNamespace request) (λ _ l,
    launch_count (actions l) ≤ 1 ∧
    ∀ p id tag r, A_Launch p id tag r ∈ actions l → own_launch request l p id tag).
Proof. exact (spec_launch_Reconcile operatorNamespace request). Qed.

#[local] Existing Instances example_k8s example_k8s_laws example_retry example_retry_laws.

Lemma handler_effects_kept_witness :
  emits (handler_effects "mpc" example_task) (handleTaskRunReceived "mpc" example_task).
Proof. exact (handler_effects_kept "mpc" example_task). Defined.

Lemma Reconcile_launches_own_witness :
  spec (Reconcile "mpc" (Key "team" "build")) (λ _ l,
    launch_count (actions l) ≤ 1 ∧
    ∀ p id tag r, A_Launch p id tag r ∈ actions l → own_launch (Key "team" "build") l p id tag).
Proof. exact (Reconcile_launches_own "mpc" (Key "team" "build")). Defined.
