(* ===== verification/ManagerFacts.v ===== *)
(** * The process: what is set up before the manager starts, and which objects the
      reconciler's client can see *)
From S2P Require Import Prelude GoLib GoStrings Prog Emits Kube NetIP Config Cloud Effects Metrics Update Provision.
From S2P Require Import HostPools LocalHost Dynamics DynamicPools Platforms Reconciler Trace EffectFacts Manager.

(** ** The contract *)

(** A requirement is the label it was made of. *)
Definition manager_spec : contract managerE := λ h X e,
  match e in managerE X return X → Prop with
  | NewRequirement key => λ r, ∀ k, r = Ok k → k = key
  | _ => λ _, True
  end.

(** The CRD was asked for and was not there. *)
Definition failed_poll (ev : event managerE) : Prop :=
  (match ev_req ev in managerE X return X → Prop with
   | Get_CRD _ => λ r, ∃ e, r = Err e | _ => λ _, False end) (ev_ans ev).
Definition starts_work (ev : event managerE) : bool := match ev_req ev with Go _ => true | _ => false end.
Definition starts_manager (ev : event managerE) : bool := match ev_req ev with Start => true | _ => false end.

(** The manager never ran. *)
Definition not_started (h : hist managerE) : Prop := Forall (λ ev, starts_manager ev = false) h.

(** The options that the manager is made with: caches of labelled objects only, but for
    TaskRuns. *)
Definition cached (o : Options) : Options :=
  {| HealthProbeBindAddress := HealthProbeBindAddress o; LeaderElection := LeaderElection o;
     LeaderElectionID := LeaderElectionID o; MetricsBindAddress := MetricsBindAddress o; SecureServing := SecureServing o;
     ByObject := [(TaskRunKind, None); (SecretKind, Some [MultiPlatformSecretLabel]);
                  (ConfigMapKind, Some [ConfigMapLabel]); (PodKind, Some [TaskRunLabel])] |}.

(** The calls of a set-up that succeeds, the last one first. *)
Definition set_up_calls (o : Options) (n : Z) (operatorNamespace : string) : hist managerE :=
  [Ev AddExporter None; Ev (Go (UpdateOnTimer operatorNamespace)) tt; Ev (NewTimer Minute) tt;
   Ev (Go (UpdateOnTicks operatorNamespace)) tt; Ev (NewTicker (Hour * 24)) tt;
   Ev (Complete TaskRunKind (newReconciler operatorNamespace) n) None; Ev (CtrlNewManager (cached o)) None;
   Ev (Getenv "POD_NAMESPACE") operatorNamespace;
   Ev (NewRequirement TaskRunLabel) (Ok TaskRunLabel);
   Ev (NewRequirement MultiPlatformSecretLabel) (Ok MultiPlatformSecretLabel);
   Ev (NewRequirement ConfigMapLabel) (Ok ConfigMapLabel);
   Ev (AddToScheme pipelinev1) None; Ev (AddToScheme k8sscheme) None].

(** The CRD was seen, and then everything was set up. *)
Definition set_up_done (o : Options) (n : Z) (h : hist managerE) : Prop :=
  ∃ operatorNamespace l, h = set_up_calls o n operatorNamespace ++ Ev (Get_CRD "taskruns.tekton.dev") (Ok tt) :: l ∧
    Forall failed_poll l.

(** ** Setting up *)

Section setup.
Context `{WaitLaws}.

Lemma wp_polls n h :
  Forall failed_poll h →
  wp manager_spec (polls n crd_exists) (λ err h',
    match err with
    | None => ∃ l, h' = Ev (Get_CRD "taskruns.tekton.dev") (Ok tt) :: l ∧ Forall failed_poll l
    | Some _ => Forall failed_poll h'
    end) h.
Proof.
  revert h. induction n as [|n IH]; intros h Hh; [done|]. cbn [polls]. unfold crd_exists.
  apply wp_bind, wp_bind, wp_trigger. intros [[]|e] _; apply wp_ret.
  - apply wp_ret. by exists h.
  - apply IH. constructor; [by exists e|done].
Qed.

Lemma no_work_polls h : Forall failed_poll h → not_started h ∧ Forall (λ ev, starts_work ev = false) h.
Proof. intros Hh. split; (eapply Forall_impl; [exact Hh|]); intros [X e x]; by destruct e. Qed.

(** What a set-up that fails has not done. *)
Definition failed (err : error) (h : hist managerE) : Prop :=
  not_started h ∧ (Forall (λ ev, starts_work ev = false) h ∨ head h = Some (Ev AddExporter (Some err))).

Lemma failed_cons err h : not_started h → Forall (λ ev, starts_work ev = false) h → failed err h.
Proof. split; [done|by left]. Qed.

Lemma wp_set_up o n h :
  not_started h → Forall (λ ev, starts_work ev = false) h →
  wp manager_spec (set_up o n) (λ err h',
    match err with
    | None => ∃ operatorNamespace, h' = set_up_calls o n operatorNamespace ++ h
    | Some e => failed e h'
    end) h.
Proof.
  intros Hns Hh. unfold set_up.
  do 2 (apply wp_bind, wp_trigger; intros [e|] _; [apply wp_ret, failed_cons; by repeat constructor|]).
  do 3 (apply wp_bind, wp_trigger; intros [k|e] Hk;
    [rewrite (Hk _ eq_refl) in *; clear Hk k|apply wp_ret, failed_cons; by repeat constructor]).
  cbv zeta. apply wp_bind, wp_trigger. intros ns _.
  do 2 (apply wp_bind, wp_trigger; intros [e|] _; [apply wp_ret, failed_cons; by repeat constructor|]).
  do 4 (apply wp_bind, wp_trigger; intros [] _). apply wp_trigger.
  intros [e|] _; [split; [by repeat constructor|by right]|]. by exists ns.
Qed.

Lemma wp_NewManager o n :
  wp manager_spec (NewManager o n) (λ err h, match err with None => set_up_done o n h ∧ not_started h | Some e => failed e h end) [].
Proof.
  unfold NewManager. apply wp_bind.
  destruct (Poll_polls managerE (5 * Second) (5 * Minute) crd_exists) as [k ->]; [done|].
  eapply wp_mono; [|by apply wp_polls]. intros [e|] h Hh; [by apply wp_ret, failed_cons; apply no_work_polls|].
  destruct Hh as (l & -> & Hl). destruct (no_work_polls _ Hl) as [Hns Hw].
  eapply wp_mono; [|apply wp_set_up; by constructor]. intros [e|] h; [done|].
  intros [ns ->]. split; [by exists ns, l|]. by repeat constructor.
Qed.

(** The options [main] makes of its flags. *)
Definition flag_options (f : flags) : Options :=
  {| HealthProbeBindAddress := probeAddr f; LeaderElection := enableLeaderElection f;
     LeaderElectionID := "5483be8f.redhat.com"; MetricsBindAddress := metricsAddr f;
     SecureServing := secureMetrics f; ByObject := [] |}.
End setup.

(** How [main] ends. *)
Definition main_outcome (f : flags) (code : Z) (h : hist managerE) : Prop :=
  let ready := set_up_done (flag_options f) (concurrentReconciles f) in
  (∃ err h0, h = Ev Start err :: Ev (AddReadyzCheck "readyz") None :: Ev (AddHealthzCheck "healthz") None :: h0 ∧
     ready h0 ∧ code = match err with None => 0%Z | Some _ => 1%Z end) ∨
  code = 1%Z ∧ not_started h ∧ ((∃ err, failed err h) ∨ ∃ h0, suffix h0 h ∧ ready h0).

Lemma wp_main `{WaitLaws} f : wp manager_spec (main f) (main_outcome f) [].
Proof.
  unfold main. apply wp_bind. fold (flag_options f).
  eapply wp_mono; [|apply wp_NewManager].
  intros [e|] h; [intros Hf; apply wp_ret; right; split_and!; [done|apply Hf|left; by exists e]|]. intros [Hr Hns].
  apply wp_bind, wp_trigger. intros [e|] _.
  { apply wp_ret. right. split_and!; [done|by constructor|right]. exists h. split; [by apply suffix_cons_r|done]. }
  apply wp_bind, wp_trigger. intros [e|] _.
  { apply wp_ret. right. split_and!; [done|by repeat constructor|right]. exists h. split; [by do 2 apply suffix_cons_r|done]. }
  apply wp_bind, wp_trigger. intros err _. apply wp_ret. left. exists err, h. by destruct err.
Qed.

(** What an example's polling loop does: three tests. *)
Definition example_wait : Wait := {| PollUntilContextTimeout E i t b condition := polls 3 condition |}.
Lemma example_wait_laws : @WaitLaws example_wait.
Proof. split. intros. by exists 3. Qed.

(** ** What the client sees *)

(** A cache made with the options has a secret. *)
Definition sees_secret (o : Options) (s : Secret) : Prop :=
  ∃ ls, (SecretKind, Some ls) ∈ ByObject o ∧ ls ≠ [] ∧ ∀ l, l ∈ ls → is_Some (map_lookup (Labels (sec_meta s)) l).

Lemma visible_seen o s : visible_secret s → sees_secret (cached o) s.
Proof.
  intros Hs. exists [MultiPlatformSecretLabel]. split; [right; left|]. split; [done|].
  intros l ->%list_elem_of_singleton. by eexists.
Qed.

Lemma handler_creates_seen `{K8sLaws} `{RetryLaws} operatorNamespace tr o :
  emits (λ X (e : mpcE X), match e with
         | Client c => match c with Create_Secret s => sees_secret (cached o) s | _ => True end
         | _ => True end) (handleTaskRunReceived operatorNamespace tr).
Proof.
  eapply emits_mono; [|apply emits_handleTaskRunReceived]. intros X e. unfold handler_effects.
  repeat case_match; try done; apply visible_seen.
Qed.

(** ** Properties *)

(** C16. The process starts its manager only when everything is set up: the CRD was seen, both
    groups of types are in the scheme, the manager was made with caches of labelled
    secrets, ConfigMaps and pods, the reconciler was added for the namespace of the
    environment with the concurrency of the flags, and the host updates, after a minute and
    every day, and the exporter were started. Its exit code is then 0 exactly when the
    manager ended without an error. Otherwise it exits with 1, and a set-up that failed
    has started no goroutine, unless the exporter is what was refused. *)
Theorem main_starts_when_set_up `{WaitLaws} f : wp manager_spec (main f) (main_outcome f) [].
Proof. apply wp_main. Qed.

(** C15. The manager that the process runs was made with a cache of secrets that holds every
    secret the reconciler creates: an error secret or a user's secret that was created is
    seen by the look-up at the start of the next allocation of its TaskRun. *)
Theorem created_secrets_seen `{WaitLaws} `{K8sLaws} `{RetryLaws} f operatorNamespace tr :
  wp manager_spec (main f) (λ _ h, (∃ err, Ev Start err ∈ h) →
    ∃ o, Ev (CtrlNewManager o) None ∈ h ∧
      emits (λ X (e : mpcE X), match e with
             | Client c => match c with Create_Secret s => sees_secret o s | _ => True end
             | _ => True end) (handleTaskRunReceived operatorNamespace tr)) [].
Proof.
  eapply wp_mono; [|apply wp_main]. intros code h [(err & h0 & -> & (ns & l & -> & _) & _)|(_ & Hns & _)] [err' Hin].
  - exists (cached (flag_options f)). split; [|apply handler_creates_seen]. do 9 right. left.
  - by apply (proj1 (Forall_forall _ _) Hns) in Hin.
Qed.

#[local] Existing Instances example_k8s example_k8s_laws example_retry example_retry_laws example_wait example_wait_laws.

Lemma main_starts_when_set_up_witness : wp manager_spec (main default_flags) (main_outcome default_flags) [].
Proof. exact (main_starts_when_set_up default_flags). Defined.

Lemma created_secrets_seen_witness :
  wp manager_spec (main default_flags) (λ _ h, (∃ err, Ev Start err ∈ h) →
    ∃ o, Ev (CtrlNewManager o) None ∈ h ∧
      emits (λ X (e : mpcE X), match e with
             | Client c => match c with Create_Secret s => sees_secret o s | _ => True end
             | _ => True end) (handleTaskRunReceived "mpc" example_task)) [].
Proof. exact (created_secrets_seen default_flags "mpc" example_task). Defined.
