(* ===== verification/RetryFacts.v ===== *)
(** * The retrying client: each of its requests is the last of a bounded number of
      attempts, and the controller cannot tell it from the client it wraps *)
From S2P Require Import Prelude GoLib Prog Exec Kube Cloud Effects Reconciler RetryClient.
From S2P Require Import Trace ReconcilerFacts.

(** An answer that the retrying client does not pass on: an internal error. *)
Definition internal {A} (r : result A) : Prop := ∃ e, r = Err e ∧ IsInternalError e = true.
Definition internal_answer {X} (c : clientE X) : X → Prop :=
  match c in clientE X return X → Prop with
  | Get_TaskRun _ => internal | Get_Secret _ => internal | Get_ConfigMap _ => internal
  | List_TaskRuns _ => internal | List_Pods _ => internal
  | Create_TaskRun _ => internal | Create_Secret _ => internal
  | Update_TaskRun _ => internal | Update_Pod _ => internal
  | Delete_TaskRun _ => internal | Delete_Secret _ => internal
  end.

(** The events of attempts at [c] that got the answers [xs], the last one first. *)
Definition attempts_of {X} (c : clientE X) (xs : list X) : hist mpcE := (λ x, Ev (Client c) x) <$> xs.

Section retry.
Context `{RetryLaws}.

(** [x] is the answer to the last attempt; the earlier ones got internal errors; when
    [x] is one too, the steps of the back-off are used up. *)
Definition answers {X} (c : clientE X) (x : X) (l : hist mpcE) : Prop :=
  ∃ xs, l = attempts_of c (x :: xs) ∧ Forall (internal_answer c) xs ∧
    length l ≤ Steps DefaultBackoff ∧ (internal_answer c x → length l = Steps DefaultBackoff).

Lemma wp_attempts_client {A} (c : clientE (result A)) m :
  (∀ r, internal_answer c r ↔ internal r) →
  wp (go_spec m) (OnError DefaultBackoff IsInternalError (client c)) (λ r l, answers c r l ∧ client_answer_ok c r) [].
Proof.
  intros Hint. destruct DefaultBackoff_S as [n Hn]. rewrite (OnError_attempts _ _ _ _ _ _ Hn).
  apply (wp_attempts_nat _ n IsInternalError _
    (λ i h, ∃ xs, h = attempts_of c xs ∧ Forall (internal_answer c) xs ∧ length xs = i) _ 0); [by exists []|].
  intros j h Hj (xs & -> & Hxs & Hlen). unfold client. apply wp_trigger. intros r Hr.
  change (client_answer_ok c r) in Hr. split.
  - intros e -> He _. exists (Err e :: xs). split_and!; [done| |simpl; lia]. constructor; [|done].
    apply Hint. by exists e.
  - intros Hlast. split; [|done]. exists xs. unfold attempts_of. rewrite Hn. cbn [length]. rewrite length_fmap.
    split_and!; [done..|lia|]. intros (e & -> & He)%Hint. rewrite (Hlast e) in Hlen by done. lia.
Qed.

Lemma wp_retry_request {X} (c : clientE X) m :
  wp (go_spec m) (retry_request c) (λ x l, answers c x l ∧ client_answer_ok c x) [].
Proof. destruct c; by apply wp_attempts_client. Qed.

(** The requests that go through the retrying client. *)
Definition of_client {X} (e : mpcE X) : bool := match e with Client _ => true | _ => false end.

(** A history of the controller and the history of the client it is really given: every
    request through the client stands for its attempts, every other one for itself. *)
Inductive collapses : hist mpcE → hist mpcE → Prop :=
| collapses_nil : collapses [] []
| collapses_client {X} (c : clientE X) x l hE hF :
    collapses hE hF → answers c x l → collapses (Ev (Client c) x :: hE) (l ++ hF)
| collapses_other {X} (e : mpcE X) x hE hF :
    of_client e = false → collapses hE hF → collapses (Ev e x :: hE) (Ev e x :: hF).

Lemma mem_of_attempts {X} (c : clientE X) xs m : mem_of m (attempts_of c xs) = m.
Proof. induction xs as [|x xs IH]; [done|]. simpl. exact IH. Qed.

Lemma mem_of_collapses hE hF m : collapses hE hF → mem_of m hE = mem_of m hF.
Proof.
  intros Hc. induction Hc as [|X c x l hE hF Hc IH Ha|X e x hE hF _ Hc IH]; [done|..].
  - destruct Ha as (xs & -> & _). rewrite mem_of_app, mem_of_attempts. simpl. exact IH.
  - simpl. by rewrite IH.
Qed.

(** Whatever is proved of a function of the controller holds when its requests are
    retried: there is a history of the controller that explains what was done. *)
Lemma wp_with_retries {A} (p : mpc A) Q m :
  wp (go_spec m) p Q [] →
  wp (go_spec m) (interp (λ X, with_retries) p) (λ a hF, ∃ hE, collapses hE hF ∧ exec (go_spec m) p [] a hE ∧ Q a hE) [].
Proof.
  intros Hp%wp_self. apply (wp_interp (go_spec m) (go_spec m) _ collapses _ _ [] []); [|constructor|done].
  clear Hp p Q. intros hE hF X e HR.
  assert (∀ (e' : mpcE X), of_client e' = false → wp (go_spec m) (trigger e')
    (λ x hF', go_spec m hE X e' x ∧ collapses (Ev e' x :: hE) hF') hF) as Hother.
  { intros e' He'. apply wp_trigger. intros x Hx. split; [|by apply collapses_other].
    unfold go_spec in *. by rewrite (mem_of_collapses _ _ _ HR). }
  destruct e; try by apply Hother. clear Hother.
  apply wp_at. eapply wp_mono; [|apply wp_retry_request].
  intros x l [Ha Hok]. split; [exact Hok|]. by apply collapses_client.
Qed.
End retry.

(** ** Properties *)

(** C1. Whatever the API server, the clouds, the clock and the process's memory answer, a
    reconcile through the retrying client returns, without a panic. What it returns and did
    is what a run of [Reconcile] over a client that does not retry returns and did, where
    each request through the client stands for its attempts, no more than the back-off has
    steps and all but the last of them answered with an internal error, and every other
    request for itself. That run starts with a get of the TaskRun, and ends there without
    requeueing when the get fails, with an error unless the TaskRun is gone. *)
Theorem Reconcile_returns `{K8sLaws} `{RetryLaws} operatorNamespace request m :
  wp (go_spec m) (interp (λ X, with_retries) (Reconcile operatorNamespace request)) (λ '(res, err) hF,
    ∃ hE, collapses hE hF ∧ exec (go_spec m) (Reconcile operatorNamespace request) [] (res, err) hE ∧
      ∃ r l', hE = l' ++ [Ev (APIReader (Get_TaskRun request)) r] ∧
      match r with
      | Err e => l' = [] ∧ res = no_requeue ∧ (err = None ↔ IsNotFound e = true)
      | Ok tr => ObjectKeyFromObject tr = request
      end) [].
Proof.
  eapply wp_mono; [|apply wp_with_retries, wp_Reconcile].
  intros [res err] hF (hE & Hc & Hx & r & l' & Heq & Hr). exists hE. split_and!; [done..|]. by exists r, l'.
Qed.

(** A request of the retrying client is answered by the last of its attempts: the
    earlier ones got internal errors, there are no more of them than the back-off has
    steps, and the answer is an internal error only when all of these are used up. *)
Theorem retry_request_answers `{RetryLaws} {X} (c : clientE X) :
  spec (retry_request c) (λ x l, answers c x l ∧ client_answer_ok c x).
Proof. intros m. apply wp_retry_request. Qed.

(** [NewRetryClient] retries internal errors of every request that reaches the API
    server, those of its status writer and of its subresource clients included, and passes
    the other operations through. *)
Theorem NewRetryClient_attempts `{RetryLaws} E Object ObjectList Key Opt Patch Kind Mapper Scheme
    (inner : Client_ E Object ObjectList Key Opt Patch Kind Mapper Scheme) (backoff : Backoff) n :
  Steps backoff = S n →
  let cl := NewRetryClient inner backoff in
  let status := cl_Status inner in
  let retried := λ A (fn : prog E (result A)), attempts n IsInternalError fn in
  (∀ obj opts, cl_Create cl obj opts = retried _ (cl_Create inner obj opts)) ∧
  (∀ obj opts, cl_Delete cl obj opts = retried _ (cl_Delete inner obj opts)) ∧
  (∀ obj opts, cl_DeleteAllOf cl obj opts = retried _ (cl_DeleteAllOf inner obj opts)) ∧
  (∀ key obj opts, cl_Get cl key obj opts = retried _ (cl_Get inner key obj opts)) ∧
  (∀ list opts, cl_List cl list opts = retried _ (cl_List inner list opts)) ∧
  (∀ obj patch opts, cl_Patch cl obj patch opts = retried _ (cl_Patch inner obj patch opts)) ∧
  (∀ obj opts, cl_Update cl obj opts = retried _ (cl_Update inner obj opts)) ∧
  (∀ obj sub opts, sw_Create (cl_Status cl) obj sub opts = retried _ (sw_Create status obj sub opts)) ∧
  (∀ obj patch opts, sw_Patch (cl_Status cl) obj patch opts = retried _ (sw_Patch status obj patch opts)) ∧
  (∀ obj opts, sw_Update (cl_Status cl) obj opts = retried _ (sw_Update status obj opts)) ∧
  (∀ s obj sub opts, sc_Create (cl_SubResource cl s) obj sub opts = retried _ (sc_Create (cl_SubResource inner s) obj sub opts)) ∧
  (∀ s obj sub opts, sc_Get (cl_SubResource cl s) obj sub opts = retried _ (sc_Get (cl_SubResource inner s) obj sub opts)) ∧
  (∀ s obj patch opts, sc_Patch (cl_SubResource cl s) obj patch opts = retried _ (sc_Patch (cl_SubResource inner s) obj patch opts)) ∧
  (∀ s obj opts, sc_Update (cl_SubResource cl s) obj opts = retried _ (sc_Update (cl_SubResource inner s) obj opts)) ∧
  cl_GroupVersionKindFor cl = cl_GroupVersionKindFor inner ∧ cl_IsObjectNamespaced cl = cl_IsObjectNamespaced inner ∧
  cl_RESTMapper cl = cl_RESTMapper inner ∧ cl_Scheme cl = cl_Scheme inner.
Proof. intros Hs cl status retried. split_and!; try reflexivity; intros; by apply OnError_attempts. Qed.

#[local] Existing Instances example_k8s example_k8s_laws example_retry example_retry_laws.

Lemma Reconcile_returns_witness :
  wp (go_spec empty_memory) (interp (λ X, with_retries) (Reconcile "mpc" (Key "team" "build"))) (λ '(res, err) hF,
    ∃ hE, collapses hE hF ∧ exec (go_spec empty_memory) (Reconcile "mpc" (Key "team" "build")) [] (res, err) hE ∧
      ∃ r l', hE = l' ++ [Ev (APIReader (Get_TaskRun (Key "team" "build"))) r] ∧
      match r with
      | Err e => l' = [] ∧ res = no_requeue ∧ (err = None ↔ IsNotFound e = true)
      | Ok tr => ObjectKeyFromObject tr = Key "team" "build"
      end) [].
Proof. exact (Reconcile_returns "mpc" (Key "team" "build") empty_memory). Defined.

Lemma retry_request_answers_witness :
  spec (retry_request (Delete_TaskRun example_task)) (λ x l,
    answers (Delete_TaskRun example_task) x l ∧ client_answer_ok (Delete_TaskRun example_task) x).
Proof. exact (retry_request_answers (Delete_TaskRun example_task)). Defined.

(** A client that knows no objects. *)
Definition example_client : Client_ clientE unit unit unit unit unit unit unit unit :=
  let no {A} : prog clientE (result A) := mret (Err (ErrText "unknown")) in
  let writer := {| sw_Create _ _ _ := no; sw_Patch _ _ _ := no; sw_Update _ _ := no |} in
  let sub := {| sc_Create _ _ _ := no; sc_Get _ _ _ := no; sc_Patch _ _ _ := no; sc_Update _ _ := no |} in
  {| cl_Create _ _ := no; cl_Delete _ _ := no; cl_DeleteAllOf _ _ := no; cl_Get _ _ _ := no;
     cl_GroupVersionKindFor _ := no; cl_IsObjectNamespaced _ := no; cl_List _ _ := no; cl_Patch _ _ _ := no;
     cl_RESTMapper := tt; cl_Scheme := tt; cl_Status := writer; cl_SubResource _ := sub; cl_Update _ _ := no |}.

Lemma NewRetryClient_attempts_witness :
  Steps (Retry := example_retry) DefaultBackoff = 4 ∧
  ∀ obj opts, cl_Update (NewRetryClient example_client DefaultBackoff) obj opts =
    attempts 3 IsInternalError (cl_Update example_client obj opts).
Proof.
  assert (Steps (Retry := example_retry) DefaultBackoff = 4) as Hs by reflexivity. split; [exact Hs|].
  destruct (NewRetryClient_attempts _ _ _ _ _ _ _ _ _ example_client DefaultBackoff 3 Hs)
    as (_ & _ & _ & _ & _ & _ & Hu & _). exact Hu.
Defined.
