(* ===== verification/OtpFacts.v ===== *)
(** * The one-time-password server: every request is a transaction on the map, a password
      redeems what was stored under it, and only once *)
From S2P Require Import Prelude GoLib GoStrings Prog Emits Otp OtpServer.

(** ** The contract *)

(** The map as the last request left it. *)
Fixpoint map_of (g0 : smap) (h : hist httpE) : smap :=
  match h with
  | [] => g0
  | Ev e _ :: h => match e with Unlock g => g | _ => map_of g0 h end
  end.

(** [Lock] answers with the map, [rand.Int] with a number below its bound. *)
Definition http_ok (g : smap) {X} (e : httpE X) : X → Prop :=
  match e in httpE X return X → Prop with
  | Lock => λ x, x = g
  | RandInt max => λ r, ∀ n, r = Ok n → (0 ≤ n < max)%Z
  | _ => λ _, True
  end.
Definition http_spec (g0 : smap) : contract httpE := λ h X e x, http_ok (map_of g0 h) e x.

Lemma map_of_app g0 l h : map_of g0 (l ++ h) = map_of (map_of g0 h) l.
Proof. induction l as [|[X [] x] l IH]; simpl; done. Qed.

(** ** Random strings *)

Definition is_letter (c : ascii) : Prop := ∃ i, String.get i letters = Some c.
Definition is_draw (ev : event httpE) : Prop :=
  match ev_req ev with RandInt _ => True | _ => False end.

(** A password: 20 characters of the alphabet. *)
Definition password (n : nat) (s : string) : Prop :=
  String.length s = n ∧ Forall is_letter (String.list_ascii_of_string s).

Lemma letters_get i : (0 ≤ i < Z.of_nat (String.length letters))%Z → is_Some (String.get (Z.to_nat i) letters).
Proof.
  intros Hi. assert (∀ s n, n < String.length s → is_Some (String.get n s)) as Hget.
  { clear. induction s as [|c s IH]; intros n Hn; simpl in *; [lia|]. destruct n; [by eexists|]. apply IH. lia. }
  apply Hget. lia.
Qed.

Lemma wp_GenerateRandomString g0 n h :
  wp (http_spec g0) (GenerateRandomString n) (λ r h', ∃ draws, h' = draws ++ h ∧ Forall is_draw draws ∧
    ∀ s, r = Ok s → password n s) h.
Proof.
  revert h. induction n as [|n IH]; intros h; cbn [GenerateRandomString].
  - apply wp_ret. exists []. split_and!; [done|constructor|]. intros s [= <-]. by repeat constructor.
  - apply wp_bind, wp_trigger. intros [i|err] Hi.
    + apply wp_bind. unfold letter. specialize (Hi i eq_refl).
      rewrite (proj2 (Z.ltb_ge i 0)) by lia. destruct (letters_get i Hi) as [c Hc]. rewrite Hc.
      apply wp_ret, wp_bind. eapply wp_mono; [|apply IH].
      intros r h' (draws & -> & Hd & Hs). apply wp_ret.
      exists (draws ++ [Ev (RandInt (Z.of_nat (String.length letters))) (Ok i)]).
      split_and!; [by rewrite <- app_assoc|apply Forall_app_2; [done|by repeat constructor]|].
      destruct r as [s|]; [|done]. intros s' [= <-]. destruct (Hs s eq_refl) as [Hlen Hall].
      split; [simpl; congruence|]. constructor; [by eexists|done].
    + apply wp_ret. exists [Ev (RandInt (Z.of_nat (String.length letters))) (Err err)].
      split_and!; [done|by repeat constructor|done].
Qed.

(** ** Transactions *)

(** What a request did: it stored a key and handed out its password, it stored nothing
    because the password could not be sent, it redeemed a password for a key, it refused
    one, it failed, or it was for neither handler. *)
Inductive served :=
| Stored (otp key : string)
| Unsent (otp : string)
| Redeemed (token key : string)
| Refused (token : string)
| Failed
| Elsewhere.

(** A request's calls on the map [g], which it leaves as its last index. *)
Inductive transaction (g : smap) : served → hist httpE → smap → Prop :=
| unread e u :
    transaction g Failed [Ev (WriteHeader 500) u; Ev ReadAll (Err e)] g
| no_password key draws u u' :
    Forall is_draw draws →
    transaction g Failed
      (Ev (Unlock g) u :: Ev (WriteHeader 500) u' :: draws ++ [Ev Lock g; Ev ReadAll (Ok key)]) g
| stores key otp draws u :
    Forall is_draw draws → password 20 otp →
    transaction g (Stored otp key)
      (Ev (Unlock (<[otp := key]> g)) u :: Ev (Write otp) None :: draws ++ [Ev Lock g; Ev ReadAll (Ok key)])
      (<[otp := key]> g)
| unsent key otp err draws u :
    Forall is_draw draws → password 20 otp →
    transaction g (Unsent otp)
      (Ev (Unlock (delete otp g)) u :: Ev (Write otp) (Some err) :: draws ++ [Ev Lock g; Ev ReadAll (Ok key)])
      (delete otp g)
| redeems token key w u :
    g !! token = Some key →
    transaction g (Redeemed token key)
      [Ev (Unlock (delete token g)) u; Ev (Write key) w; Ev Lock g; Ev ReadAll (Ok token)] (delete token g)
| refuses token u u' :
    g !! token = None →
    transaction g (Refused token)
      [Ev (Unlock g) u; Ev (WriteHeader 400) u'; Ev Lock g; Ev ReadAll (Ok token)] g
| elsewhere l :
    Forall (λ ev, match ev_req ev with WriteHeader _ => True | _ => False end) l →
    transaction g Elsewhere l g.

(** Transactions one after the other, the first one first. *)
Inductive transactions (g : smap) : list served → hist httpE → smap → Prop :=
| transactions_nil : transactions g [] [] g
| transactions_snoc outs h g1 out l g2 :
    transactions g outs h g1 → transaction g1 out l g2 →
    transactions g (outs ++ [out]) (l ++ h) g2.

Lemma transaction_map g out l g' : transaction g out l g' → map_of g l = g'.
Proof.
  destruct 1 as [| | | | | |l Hl]; try done.
  induction Hl as [|[X [] x] l ? _ IH]; done.
Qed.

(** What the handler that a request is routed to may have done. *)
Definition handler_did (h : OtpServer.Handler) (out : served) : Prop :=
  match h, out with
  | OtpServer.Store, (Stored _ _ | Unsent _ | Failed) => True
  | OtpServer.Otp, (Redeemed _ _ | Refused _ | Failed) => True
  | _, _ => False
  end.
Definition did (r : OtpServer.Request) (out : served) : Prop :=
  if String.eqb (OtpServer.RequestURI r) "*" then out = Elsewhere else
  match OtpServer.findHandler r with OtpServer.Handle h => handler_did h out | _ => out = Elsewhere end.

Lemma wp_storekey_ServeHTTP g0 h :
  wp (http_spec g0) storekey_ServeHTTP (λ _ h', ∃ out l g', h' = l ++ h ∧
    transaction (map_of g0 h) out l g' ∧ handler_did OtpServer.Store out) h.
Proof.
  unfold storekey_ServeHTTP. apply wp_bind, wp_trigger. intros [key|e] _.
  2:{ apply wp_trigger. intros u _. by eexists Failed, [_; _], _; split_and!; [|apply unread|]. }
  apply wp_bind, wp_trigger. intros g Hlock. cbn [map_of http_ok http_spec] in Hlock. rewrite <- Hlock. clear Hlock.
  apply wp_bind. eapply wp_mono; [|apply wp_GenerateRandomString]. intros r h' (draws & -> & Hd & Hs).
  destruct r as [otp|e].
  - specialize (Hs otp eq_refl). cbv zeta. apply wp_bind, wp_trigger. intros [err|] _; apply wp_trigger; intros u _.
    + rewrite delete_insert_eq. eexists (Unsent otp), (_ :: _ :: draws ++ [_; _]), _.
      split_and!; [by rewrite <- !app_comm_cons, <- app_assoc|by apply unsent|done].
    + eexists (Stored otp key), (_ :: _ :: draws ++ [_; _]), _.
      split_and!; [by rewrite <- !app_comm_cons, <- app_assoc|by apply stores|done].
  - apply wp_bind, wp_trigger. intros u' _. apply wp_trigger. intros u _.
    eexists Failed, (_ :: _ :: draws ++ [_; _]), _.
    split_and!; [by rewrite <- !app_comm_cons, <- app_assoc|by apply no_password|done].
Qed.

Lemma wp_otp_ServeHTTP g0 h :
  wp (http_spec g0) otp_ServeHTTP (λ _ h', ∃ out l g', h' = l ++ h ∧
    transaction (map_of g0 h) out l g' ∧ handler_did OtpServer.Otp out) h.
Proof.
  unfold otp_ServeHTTP. apply wp_bind, wp_trigger. intros [token|e] _.
  2:{ apply wp_trigger. intros u _. by eexists Failed, [_; _], _; split_and!; [|apply unread|]. }
  apply wp_bind, wp_trigger. intros g Hlock. cbn [map_of http_ok http_spec] in Hlock. rewrite <- Hlock. clear Hlock. cbv zeta.
  destruct (g !! token) as [key|] eqn:Hg.
  - apply wp_bind, wp_trigger. intros w _. apply wp_trigger. intros u _.
    by eexists (Redeemed token key), [_; _; _; _], _; split_and!; [|apply redeems|].
  - apply wp_bind, wp_trigger. intros u' _. apply wp_trigger. intros u _. rewrite delete_id by done.
    by eexists (Refused token), [_; _; _; _], _; split_and!; [|apply refuses|].
Qed.

Lemma wp_serve g0 r h :
  wp (http_spec g0) (OtpServer.serve r) (λ _ h', ∃ out l g', h' = l ++ h ∧
    transaction (map_of g0 h) out l g' ∧ did r out) h.
Proof.
  assert (∀ code u, transaction (map_of g0 h) Elsewhere [Ev (WriteHeader code) u] (map_of g0 h)) as Hcode.
  { intros. apply elsewhere. by repeat constructor. }
  unfold OtpServer.serve, did. case_match; [case_match|destruct (OtpServer.findHandler r) as [[]|path|]];
    [|..|apply wp_storekey_ServeHTTP|apply wp_otp_ServeHTTP| |].
  1: { apply wp_ret. eexists Elsewhere, [], _. split_and!; [done|by apply elsewhere|done]. }
  all: apply wp_trigger; intros u _; by eexists Elsewhere, [_], _; split_and!; [|apply Hcode|].
Qed.

Lemma transactions_map g outs h g' : transactions g outs h g' → map_of g h = g'.
Proof.
  induction 1 as [|outs h g1 out l g2 _ IH Ht]; [done|].
  rewrite map_of_app, IH. by eapply transaction_map.
Qed.

Lemma wp_serve_all g0 rs :
  wp (http_spec g0) (OtpServer.serve_all rs) (λ _ h, ∃ outs g', Forall2 did rs outs ∧ transactions g0 outs h g') [].
Proof.
  eapply (wp_foldM _ _ (λ pre _ h, ∃ outs g', Forall2 did pre outs ∧ transactions g0 outs h g') _ _ []).
  - exists [], g0. split; constructor.
  - intros pre r u h _ (outs & g & Hdid & Ht). eapply wp_mono; [|apply wp_serve].
    intros u' h' (out & l & g' & -> & Htr & Hout). rewrite (transactions_map _ _ _ _ Ht) in Htr.
    exists (outs ++ [out]), g'. split; [apply Forall2_app; [done|by repeat constructor]|by econstructor].
  - done.
Qed.

(** ** What a run of transactions guarantees *)

(** Whether an outcome puts a key under a password, or takes it away. *)
Definition stores_under (t : string) (out : served) : Prop := ∃ k, out = Stored t k.
Definition takes_away (t : string) (out : served) : Prop :=
  match out with Unsent t' => t' = t | Redeemed t' _ => t' = t | Stored t' _ => t' = t | _ => False end.

Lemma transactions_lookup g outs h g' t k :
  transactions g outs h g' → g' !! t = Some k →
  (Forall (λ o, ¬ takes_away t o) outs ∧ g !! t = Some k) ∨
  ∃ outs1 outs2, outs = outs1 ++ Stored t k :: outs2 ∧ Forall (λ o, ¬ takes_away t o) outs2.
Proof.
  induction 1 as [|outs h g1 out l g2 Hts IH Ht]; intros Hk; [by left|].
  assert (g1 !! t = Some k → ¬ takes_away t out →
    (Forall (λ o, ¬ takes_away t o) (outs ++ [out]) ∧ g !! t = Some k) ∨
    ∃ outs1 outs2, outs ++ [out] = outs1 ++ Stored t k :: outs2 ∧ Forall (λ o, ¬ takes_away t o) outs2) as Hkeep.
  { intros Hg1 Hno. destruct (IH Hg1) as [[Hf ?]|(o1 & o2 & -> & Hf)].
    - left. split; [|done]. apply Forall_app_2; [done|by repeat constructor].
    - right. exists o1, (o2 ++ [out]). split; [by rewrite <- app_assoc|].
      apply Forall_app_2; [done|by repeat constructor]. }
  destruct Ht; simpl in *; try (by apply Hkeep; [|tauto]).
  - destruct (decide (otp = t)) as [->|Hne].
    + rewrite lookup_insert_eq in Hk. simplify_eq. right. by exists outs, [].
    + rewrite lookup_insert_ne in Hk by done. by apply Hkeep.
  - apply lookup_delete_Some in Hk as [? ?]. by apply Hkeep.
  - apply lookup_delete_Some in Hk as [? ?]. by apply Hkeep.
Qed.

(** Every prefix of a run is a run. *)
Lemma transactions_split g outs1 out outs2 h g' :
  transactions g (outs1 ++ out :: outs2) h g' →
  ∃ h1 g1 l g2, transactions g outs1 h1 g1 ∧ transaction g1 out l g2.
Proof.
  remember (outs1 ++ out :: outs2) as outs eqn:Heq. intros Ht. revert outs2 Heq.
  induction Ht as [|outs h g1 out' l g2 Hts IH Ht]; intros outs2 Heq; [by destruct outs1|].
  destruct outs2 as [|o outs2 _] using rev_ind.
  - apply app_inj_tail in Heq as [-> ->]. by eexists _, _, _, _.
  - rewrite app_comm_cons, app_assoc in Heq. apply app_inj_tail in Heq as [-> ->]. by eapply IH.
Qed.

(** A redeemed password was in the map before. *)
Lemma redeemed_lookup g outs1 t k outs2 h g' :
  transactions g (outs1 ++ Redeemed t k :: outs2) h g' →
  ∃ h1 g1, transactions g outs1 h1 g1 ∧ g1 !! t = Some k.
Proof.
  intros (h1 & g1 & l & g2 & H1 & H2)%transactions_split. exists h1, g1. split; [done|]. by inversion H2.
Qed.

(** Every password redeems the key that was stored under it last, and it was not redeemed
    since. *)
Lemma redeemed_stored outs1 t k outs2 h g' :
  transactions ∅ (outs1 ++ Redeemed t k :: outs2) h g' →
  ∃ o1 o2, outs1 = o1 ++ Stored t k :: o2 ∧ Forall (λ o, ¬ takes_away t o) o2.
Proof.
  intros (h1 & g1 & H1 & Hk)%redeemed_lookup.
  destruct (transactions_lookup _ _ _ _ _ _ H1 Hk) as [[_ Hg]|?]; [|done]. by rewrite lookup_empty in Hg.
Qed.

(** A password that was handed out stays good until it is taken away. *)
Lemma stored_stays g outs1 t k outs2 h g' :
  transactions g (outs1 ++ Stored t k :: outs2) h g' → Forall (λ o, ¬ takes_away t o) outs2 →
  g' !! t = Some k.
Proof.
  revert h g'. induction outs2 as [|out outs2 IH] using rev_ind; intros h g' Ht Hf.
  - inversion Ht as [Heq|outs h' g1 out l g2 _ Hlast Heq]; [by destruct outs1|].
    apply app_inj_tail in Heq as [_ ->]. inversion Hlast; subst. by rewrite lookup_insert_eq.
  - rewrite app_comm_cons, app_assoc in Ht.
    inversion Ht as [Heq|outs h' g1 out' l g2 H1 Hlast Heq]; [by destruct (outs1 ++ Stored t k :: outs2)|].
    apply app_inj_tail in Heq as [-> ->]. apply Forall_app in Hf as [Hf Ho]. apply Forall_cons in Ho as [Ho _].
    specialize (IH _ _ H1 Hf). destruct Hlast; simpl in Ho; try done.
    + by rewrite lookup_insert_ne.
    + by rewrite lookup_delete_ne.
    + by rewrite lookup_delete_ne.
Qed.

(** It is refused only after it was taken away. *)
Lemma stored_not_refused g outs1 t k outs2 outs3 h g' :
  transactions g (outs1 ++ Stored t k :: outs2 ++ Refused t :: outs3) h g' →
  ∃ o, o ∈ outs2 ∧ takes_away t o.
Proof.
  rewrite app_comm_cons, app_assoc. intros (h1 & g1 & l & g2 & H1 & H2)%transactions_split.
  assert (g1 !! t = None) as Hn by by inversion H2.
  assert (∀ o, Decision (takes_away t o)) as Hdec by (intros []; simpl; apply _).
  assert (∀ o, Decision (¬ takes_away t o)) as Hdec' by (intros o; apply _).
  destruct (decide (Forall (λ o, ¬ takes_away t o) outs2)) as [Hf|Hf].
  - by rewrite (stored_stays _ _ _ _ _ _ _ H1 Hf) in Hn.
  - apply (not_Forall_Exists _), Exists_exists in Hf as (o & Hin & Ho).
    exists o. split; [done|]. by apply dec_stable.
Qed.

(** ** Properties *)

(** Whatever the clients send and in whatever order the requests take the lock, every
    request is one transaction on the map that the request before it left, and none
    panics. *)
Theorem serve_all_transactions rs :
  wp (http_spec ∅) (OtpServer.serve_all rs) (λ _ h, ∃ outs g, Forall2 did rs outs ∧ transactions ∅ outs h g) [].
Proof. apply wp_serve_all. Qed.

(** C23. A password redeems the key that was stored under it last, and only once: between
    the store and the redemption, it was not redeemed, and no other request drew it. A
    password that was handed out is refused only after such an event. Every request is one
    transaction on the map, which only requests that are routed to the two handlers touch;
    none panics. *)
Theorem password_redeems_once rs :
  wp (http_spec ∅) (OtpServer.serve_all rs) (λ _ h, ∃ outs g, Forall2 did rs outs ∧ transactions ∅ outs h g ∧
    (∀ outs1 t k outs2, outs = outs1 ++ Redeemed t k :: outs2 →
       ∃ o1 o2, outs1 = o1 ++ Stored t k :: o2 ∧ Forall (λ o, ¬ takes_away t o) o2) ∧
    ∀ outs1 t k outs2 outs3, outs = outs1 ++ Stored t k :: outs2 ++ Refused t :: outs3 →
      ∃ o, o ∈ outs2 ∧ takes_away t o) [].
Proof.
  eapply wp_mono; [|apply wp_serve_all]. intros _ h (outs & g & Hdid & Ht). exists outs, g. split_and!; [done..| |].
  - intros outs1 t k outs2 ->. by eapply redeemed_stored.
  - intros outs1 t k outs2 outs3 ->. by eapply stored_not_refused.
Qed.

(** A random string has the length asked for, each character is one of the 63 letters,
    and the map is not touched; it never indexes the alphabet out of range. *)
Theorem GenerateRandomString_password g0 n h :
  wp (http_spec g0) (GenerateRandomString n) (λ r h', ∃ draws, h' = draws ++ h ∧ Forall is_draw draws ∧
    ∀ s, r = Ok s → password n s) h.
Proof. apply wp_GenerateRandomString. Qed.

(** The two services answer under their paths, by any method. *)
Lemma services_found m uri :
  OtpServer.findHandler {| OtpServer.Method := m; OtpServer.RequestURI := uri; OtpServer.EscapedPath := "/store-key" |} =
    OtpServer.Handle OtpServer.Store ∧
  OtpServer.findHandler {| OtpServer.Method := m; OtpServer.RequestURI := uri; OtpServer.EscapedPath := "/otp" |} =
    OtpServer.Handle OtpServer.Otp.
Proof. unfold OtpServer.findHandler. cbn [OtpServer.Method OtpServer.EscapedPath]. by destruct (String.eqb m "CONNECT"). Qed.

(** An escaped, a doubled and a missing path. *)
Example escaped_path_found : OtpServer.matchPath "/%6ftp" = Some OtpServer.Otp.
Proof. reflexivity. Qed.
Example doubled_slash_redirected :
  OtpServer.findHandler {| OtpServer.Method := "POST"; OtpServer.RequestURI := "//otp"; OtpServer.EscapedPath := "//otp" |} =
  OtpServer.Redirect "/otp".
Proof. reflexivity. Qed.
Example other_path_not_found :
  OtpServer.findHandler {| OtpServer.Method := "GET"; OtpServer.RequestURI := "/otp/"; OtpServer.EscapedPath := "/otp/" |} =
  OtpServer.NotFound.
Proof. reflexivity. Qed.

(** The server is never closed: [log.Fatal] ends the process before the deferred call. *)
Lemma main_never_closes :
  emits (λ X (e : OtpServer.serverE X), match e with OtpServer.Close => False | _ => True end) OtpServer.main.
Proof.
  unfold OtpServer.main. apply emits_Vis; [done|]. intros err. apply emits_Vis; [done|]. intros [].
Qed.
