(* ===== verification/CloudFacts.v ===== *)
(** * The TaskRun ids that cloud providers accept *)
From S2P Require Import Prelude GoLib GoStrings Prog Cloud.

(** A TaskRun id that AWS accepts as the value of a tag. *)
Record valid_id (id namespace name : string) : Prop := {
  id_parts : id = namespace +:+ ":" +:+ name;
  id_length : String.length id ≤ 128;
  id_prefix : HasPrefix (ToLower id) "aws:" = false;
  id_name : name ≠ "" ∧ str_mem ":" name = false;
  id_namespace : namespace ≠ "" ∧ String.length namespace ≤ 63 ∧ rfc1123_match namespace = true
}.

Lemma validateRFC1123_iff what s :
  validateRFC1123 what s = None ↔ String.length s ≤ 63 ∧ rfc1123_match s = true.
Proof.
  unfold validateRFC1123. destruct (63 <? String.length s)%nat eqn:Hl;
    [apply Nat.ltb_lt in Hl|apply Nat.ltb_ge in Hl]; [split; [done|lia]|].
  destruct (rfc1123_match s); simpl; naive_solver.
Qed.

Lemma rfc1123_no_colon s : rfc1123_match s = true → str_mem ":" s = false.
Proof.
  unfold rfc1123_match. intros Hm. destruct s as [|c s]; [done|].
  destruct (String.rev _); [done|]. apply andb_true_iff in Hm as [_ Hall].
  apply str_mem_forall. eapply str_forall_impl; [|exact Hall]. intros d Hd.
  destruct (Ascii.eqb d ":") eqn:Hc; [|done]. apply Ascii.eqb_eq in Hc as ->. by vm_compute in Hd.
Qed.

Lemma Split_two a b : str_mem ":" a = false → str_mem ":" b = false → Split (a +:+ ":" +:+ b) ":" = [a; b].
Proof.
  intros Ha Hb. change (a +:+ ":" +:+ b) with (a +:+ String ":" b).
  rewrite Split_app_sep by done. by rewrite Split_no_sep.
Qed.

Lemma ValidateTaskRunID_iff id :
  ValidateTaskRunID id = None ↔ ∃ namespace name, valid_id id namespace name.
Proof.
  unfold ValidateTaskRunID. split.
  - destruct (128 <? String.length id)%nat eqn:Hl; [done|apply Nat.ltb_ge in Hl].
    destruct (HasPrefix _ _) eqn:Hp; [done|].
    destruct (Split id ":") as [|ns [|n []]] eqn:Hs; try done.
    destruct (_ || _) eqn:He; [done|]. apply orb_false_iff in He as [Hns%String.eqb_neq Hn%String.eqb_neq].
    intros [Hlen Hm]%validateRFC1123_iff. exists ns, n.
    pose proof (Split_pieces id ":") as Hpieces. rewrite Hs in Hpieces.
    apply Forall_cons in Hpieces as [_ [Hnc _]%Forall_cons].
    split; [|done..]. rewrite <- (Join_Split id ":"), Hs. done.
  - intros (ns & n & [-> Hl Hp [Hn Hnc] (Hns & Hlen & Hm)]).
    rewrite (proj2 (Nat.ltb_ge _ _) Hl), Hp, Split_two; [|by apply rfc1123_no_colon|done].
    rewrite (proj2 (String.eqb_neq ns "") Hns), (proj2 (String.eqb_neq n "") Hn).
    by apply validateRFC1123_iff.
Qed.
