(* ===== verification/Provider.v ===== *)
(** * What the controller relies on in a cloud provider

    [Provider] is the interface between the controller and the implementations of
    [CloudProvider]: how many instances a method asks for, for which TaskRun, and which
    instances it deletes. *)
From S2P Require Import Prelude GoLib GoStrings Prog Cloud CloudFacts.

(** The calls of an implementation, seen from outside: a request for an instance, the
    TaskRun id it is marked with, an instance that is deleted (now, or by a loop that is
    started), and an answer that leaves out a part of an instance which the implementation
    relies on, although the cloud's API does not promise it. *)
Record account (E : Type → Type) := Account {
  asks : event E → bool;
  marks : event E → string → Prop;
  deletes : event E → string → Prop;
  omits : event E → Prop
}.
Arguments Account {E} asks marks deletes omits.
Arguments asks {E} a.
Arguments marks {E} a.
Arguments deletes {E} a.
Arguments omits {E} a.

Section provider.
Context {E : Type → Type} (acc : account E).

(** The number of requests for instances. *)
Definition asked (l : hist E) : nat := length (filter (λ ev, asks acc ev = true) l).
(** Nothing is deleted. *)
Definition keeps (l : hist E) : Prop := ∀ ev i, ev ∈ l → ¬ deletes acc ev i.

(** [LaunchInstance] asks for at most one instance, marked with the TaskRun id, and for one
    of a valid id when it succeeds; [TerminateInstance] deletes its instance at most; the
    other methods do neither. *)
Definition provider_promise {X} (c : cloudE X) : X → hist E → Prop :=
  match c in cloudE X return X → hist E → Prop with
  | LaunchInstance id _ _ => λ x l,
      asked l ≤ 1 ∧ (∀ ev, ev ∈ l → asks acc ev = true → marks acc ev id) ∧
      (∀ i, x.2 = Ok i → asked l = 1 ∧ ValidateTaskRunID id = None) ∧ keeps l
  | TerminateInstance i => λ _ l, asked l = 0 ∧ ∀ ev j, ev ∈ l → deletes acc ev j → j = i
  | _ => λ _ l, asked l = 0 ∧ keeps l
  end.

(** Only the methods that look at an instance may panic, and only after such an answer. *)
Definition provider_panic {X} (c : cloudE X) (why : string) (l : hist E) : Prop :=
  match c with
  | LaunchInstance _ _ _ | TerminateInstance _ | CountInstances _ => False
  | _ => asked l = 0 ∧ keeps l ∧ ∃ ev, ev ∈ l ∧ omits acc ev
  end.

Lemma asked_app l l' : asked (l ++ l') = asked l + asked l'.
Proof. unfold asked. by rewrite filter_app, length_app. Qed.

(** Calls none of which asks for an instance. *)
Lemma asked_none l : Forall (λ ev, asks acc ev = false) l → asked l = 0.
Proof.
  induction 1 as [|ev l Hev _ IH]; [done|]. unfold asked. rewrite filter_cons, decide_False by congruence. exact IH.
Qed.
Lemma asked_one ev l : asks acc ev = true → Forall (λ ev, asks acc ev = false) l → asked (ev :: l) = 1.
Proof.
  intros He Hl. unfold asked. rewrite filter_cons, decide_True by done. simpl. f_equal. by apply asked_none.
Qed.
Lemma asked_elem ev l : ev ∈ l → asks acc ev = true → asked l ≠ 0.
Proof.
  intros Hin He Hz. apply length_zero_iff_nil in Hz. eapply not_elem_of_nil. rewrite <- Hz.
  apply list_elem_of_filter. split; [exact He|exact Hin].
Qed.
End provider.

Class Provider {E} (S : contract E) (acc : account E) (handle : ∀ X, cloudE X → prog E X) : Prop :=
  provider_keeps X (c : cloudE X) : wpp S (provider_panic acc c) (handle X c) (provider_promise acc c) [].
