(* ===== verification/AwsFacts.v ===== *)
(** * The EC2 provider: launches and their tags, counts, lists, addresses, terminations *)
From S2P Require Import Prelude GoLib GoStrings Prog Kube Cloud Aws CloudFacts.
Import Ec2.

(** ** The contract *)

(** What EC2 always fills in: the id, the state and the launch time of an instance. *)
Definition described (i : Instance) : Prop :=
  is_Some (ec2_InstanceId i) ∧ is_Some (ec2_State i) ∧ is_Some (LaunchTime i).

Definition ec2_ok {X} (e : ec2E X) : X → Prop :=
  match e in ec2E X return X → Prop with
  | RunInstances _ => λ r, ∀ l, r = Ok l → Forall described l
  | DescribeInstances _ _ => λ r, ∀ rs, r = Ok rs → Forall (Forall described) rs
  | RangeTags keys => λ order, order ≡ₚ keys
  | _ => λ _, True
  end.
Definition ec2_spec : contract ec2E := λ _ X e x, ec2_ok e x.

(** ** Calls *)

Inductive ec2_call :=
| E_Run (input : RunInstancesInput) (r : result (list Instance))
| E_Describe (filters : list Filter) (ids : list string) (r : result (list (list Instance)))
| E_Terminate (ids : list string) (r : result unit)
| E_Ping (ip : string) (r : option error)
| E_Other.

Definition call_of (ev : event ec2E) : ec2_call :=
  (match ev_req ev in ec2E X return X → ec2_call with
   | RunInstances input => E_Run input
   | DescribeInstances fs ids => E_Describe fs ids
   | TerminateInstances ids => E_Terminate ids
   | pingIPAddress ip => E_Ping ip
   | _ => λ _, E_Other
   end) (ev_ans ev).
Definition calls (h : hist ec2E) : list ec2_call := call_of <$> h.

Section provider.
Variable ec : AWSEc2DynamicConfig.

(** [getEC2Client] starts nothing. *)
Lemma wp_getEC2Client h :
  wp ec2_spec (getEC2Client ec) (λ _ h', ∃ ev, h' = ev :: h ∧ call_of ev = E_Other) h.
Proof.
  unfold getEC2Client. apply wp_bind, wp_trigger. intros r _. apply wp_ret. by eexists.
Qed.

(** ** Launches *)

(** A request that a filter of [CountInstances] or [ListInstances] selects. *)
Definition selected_by (input : RunInstancesInput) (f : Filter) : Prop :=
  ∃ t, t ∈ ri_Tags input ∧ filter_Name f = "tag:" +:+ tag_Key t ∧ tag_Value t ∈ filter_Values f.

(** The request for an instance for a task: one instance of the platform's type, marked
    with the task, and found again by the filters of its tag. *)
Record launch_request (id instanceTag : string) (additional : smap) (input : RunInstancesInput) : Prop := {
  lr_one : ri_MinCount input = 1%Z ∧ ri_MaxCount input = 1%Z;
  lr_type : ri_InstanceType input = InstanceType ec;
  lr_found : Forall (selected_by input) (tag_filters instanceTag);
  lr_task : {| tag_Key := TaskRunTagKey; tag_Value := id |} ∈ ri_Tags input;
  lr_name : ∃ namespace name, valid_id id namespace name ∧
    {| tag_Key := "Name"; tag_Value := "multi-platform-builder-" +:+ name |} ∈ ri_Tags input;
  lr_additional k v : additional !! k = Some v → k ≠ TaskRunTagKey →
    {| tag_Key := k; tag_Value := v |} ∈ ri_Tags input;
  lr_host : is_Some (ri_Placement input) ↔ Tenancy ec ≠ "" ∧ HostResourceGroupArn ec ≠ "" ∧ LicenseConfigurationArn ec ≠ ""
}.

(** What [LaunchInstance] does: an id that is not valid launches nothing; otherwise at
    most one request is made, and its first instance is the answer. *)
Inductive ec2_launches (id instanceTag : string) (additional : smap) : result string → list ec2_call → Prop :=
| id_rejected err : (∀ ns n, ¬ valid_id id ns n) → ec2_launches id instanceTag additional (Err err) []
| nothing_run err l : Forall (eq E_Other) l → ec2_launches id instanceTag additional (Err err) l
| run_failed input r err l :
    launch_request id instanceTag additional input → (∀ i il, r ≠ Ok (i :: il)) → Forall (eq E_Other) l →
    ec2_launches id instanceTag additional (Err err) (E_Run input r :: l)
| run_instance_ input i il instance l :
    launch_request id instanceTag additional input → ec2_InstanceId i = Some instance → Forall (eq E_Other) l →
    ec2_launches id instanceTag additional (Ok instance) (E_Run input (Ok (i :: il)) :: l).

Lemma wp_taskrun_name id ns name (Q : string → hist ec2E → Prop) h :
  valid_id id ns name → Q name h → wp ec2_spec (taskrun_name id) Q h.
Proof.
  intros [-> _ _ [_ Hn] (_ & _ & Hm)] HQ. unfold taskrun_name.
  rewrite Split_two; [|by apply rfc1123_no_colon|done]. by apply wp_ret.
Qed.

Lemma tag_in_range k v (m : smap) keys :
  m !! k = Some v → keys ≡ₚ (map_to_list m).*1 →
  {| tag_Key := k; tag_Value := v |} ∈ (λ k, {| tag_Key := k; tag_Value := sget m k |}) <$> keys.
Proof.
  intros Hk Hkeys. apply list_elem_of_fmap. exists k. split; [unfold sget; by rewrite Hk|].
  rewrite Hkeys. apply list_elem_of_fmap. exists (k, v). split; [done|]. by apply elem_of_map_to_list.
Qed.

Lemma wp_configureInstance id ns name instanceTag additional h :
  valid_id id ns name →
  wp ec2_spec (configureInstance ec name instanceTag (<[TaskRunTagKey := id]> additional)) (λ r h',
    match r with
    | Err _ => h' = h
    | Ok input => (∃ ev, h' = ev :: h ∧ call_of ev = E_Other) ∧ launch_request id instanceTag additional input
    end) h.
Proof.
  intros Hid. unfold configureInstance. destruct (mac_fields_mismatch ec) eqn:Hmac; [by apply wp_ret|].
  apply wp_bind, wp_trigger. intros keys Hkeys. apply wp_ret. split; [by eexists|].
  change (keys ≡ₚ (map_to_list (<[TaskRunTagKey:=id]> additional)).*1) in Hkeys.
  split; cbn [ri_MinCount ri_MaxCount ri_InstanceType ri_Tags ri_Placement]; [done|done|..].
  - repeat constructor; cbn [filter_Name filter_Values]; unfold selected_by; cbn [ri_Tags filter_Name filter_Values].
    + eexists. split; [right; left|]. split; [done|left].
    + eexists. split; [left|]. split; [done|left].
  - apply elem_of_app. right. apply tag_in_range; [by rewrite lookup_insert_eq|done].
  - exists ns, name. split; [done|]. right; right; left.
  - intros k v Hk Hne. apply elem_of_app. right. apply tag_in_range; [by rewrite lookup_insert_ne|done].
  - unfold mac_fields_mismatch in Hmac.
    destruct (String.eqb_spec (Tenancy ec) ""), (String.eqb_spec (HostResourceGroupArn ec) ""),
      (String.eqb_spec (LicenseConfigurationArn ec) ""); simpl in *; try done; split; naive_solver.
Qed.

Lemma wp_ec2_LaunchInstance id instanceTag additional :
  wp ec2_spec (LaunchInstance ec id instanceTag additional) (λ '(tags, r) h,
    ec2_launches id instanceTag additional r (calls h)) [].
Proof.
  unfold LaunchInstance. destruct (ValidateTaskRunID id) as [err|] eqn:Hv.
  { apply wp_ret, id_rejected. intros ns n Hid. rewrite (proj2 (ValidateTaskRunID_iff id)) in Hv; [done|eauto]. }
  apply ValidateTaskRunID_iff in Hv as (ns & name & Hid).
  apply wp_bind, (wp_taskrun_name id ns name); [done|]. cbv zeta.
  apply wp_bind. eapply wp_mono; [|apply wp_getEC2Client]. intros [u|err] h (ev & -> & Hev).
  2:{ apply wp_ret, nothing_run. repeat constructor. by rewrite Hev. }
  unfold run_instance. apply wp_bind, wp_bind. eapply wp_mono; [|by eapply wp_configureInstance].
  intros [input|err] h; [intros [(ev' & -> & Hev') Hr]|intros ->; do 2 apply wp_ret; apply nothing_run; repeat constructor; by rewrite Hev].
  apply wp_bind, wp_trigger. intros output Hout.
  assert (Forall (eq E_Other) (calls [ev'; ev])) as Hl by (simpl; rewrite Hev', Hev; by repeat constructor).
  destruct output as [[|i il]|err]; [do 2 apply wp_ret; by apply (run_failed _ _ _ input)| |do 2 apply wp_ret; by apply (run_failed _ _ _ input)].
  specialize (Hout _ eq_refl). apply Forall_cons in Hout as [([instance Hi] & _) _].
  rewrite Hi. do 2 apply wp_ret. by apply (run_instance_ _ _ _ input i il).
Qed.

(** ** Counting and listing *)

(** An instance that takes up a place: it is not terminated, and of the platform's type. *)
Definition counted (i : Instance) : bool :=
  negb (String.eqb (default "" (ec2_State i)) "terminated") && String.eqb (ec2_InstanceType i) (InstanceType ec).

Lemma wp_counts i (Q : bool → hist ec2E → Prop) h :
  described i → Q (counted i) h → wp ec2_spec (counts ec i) Q h.
Proof. intros (_ & [s Hs] & _) HQ. unfold counts, counted in *. rewrite Hs in *. exact HQ. Qed.

(** A loop over the instances of the reservations is a loop over all of them. *)
Lemma wp_reservations {B} (f : B → Instance → ec2 B) (I : list Instance → B → hist ec2E → Prop) rs acc Q h :
  Forall (Forall described) rs →
  I [] acc h →
  (∀ pre i acc h, described i → I pre acc h → wp ec2_spec (f acc i) (I (pre ++ [i])) h) →
  (∀ acc h, I (concat rs) acc h → Q acc h) →
  wp ec2_spec (foldM (foldM f) acc rs) Q h.
Proof.
  intros Hrs HI Hf HQ.
  apply (wp_foldM _ _ (λ pre, I (concat pre)) rs acc [] Q h); [done| |done].
  intros pre il acc' h' Hin HI'.
  apply (wp_foldM _ _ (λ pre', I (concat pre ++ pre')) il acc' []).
  - by rewrite app_nil_r.
  - intros pre' i acc'' h'' Hin' HI''. rewrite app_assoc. apply Hf; [|done].
    apply (Forall_forall _ il); [|done]. by apply (Forall_forall _ rs).
  - intros acc'' h''. by rewrite concat_app, concat_cons, app_nil_r.
Qed.

Lemma wp_describe_tagged instanceTag h :
  wp ec2_spec (describe_tagged ec instanceTag) (λ r h',
    match r with
    | Ok rs => Forall (Forall described) rs ∧
        ∃ ev ev0, h' = ev :: ev0 :: h ∧ call_of ev = E_Describe (tag_filters instanceTag) [] (Ok rs) ∧ call_of ev0 = E_Other
    | Err _ => True
    end) h.
Proof.
  unfold describe_tagged. apply wp_bind. eapply wp_mono; [|apply wp_getEC2Client].
  intros [u|err] h' (ev & -> & Hev); [|by apply wp_ret].
  apply wp_bind, wp_trigger. intros [rs|err] Hr; [|by apply wp_ret]. apply wp_ret.
  split; [by apply Hr|]. by eexists _, _.
Qed.

Lemma wp_ec2_CountInstances instanceTag :
  wp ec2_spec (CountInstances ec instanceTag) (λ r h, ∀ n, r = Ok n →
    ∃ rs, calls h = [E_Describe (tag_filters instanceTag) [] (Ok rs); E_Other] ∧
      n = Z.of_nat (length (filter (λ i, counted i = true) (concat rs)))) [].
Proof.
  unfold CountInstances. apply wp_bind. eapply wp_mono; [|apply wp_describe_tagged].
  intros [rs|err] h; [|intros _; by apply wp_ret]. intros (Hrs & ev & ev0 & -> & Hev & Hev0).
  apply wp_bind. apply (wp_reservations _ (λ pre count h,
    h = [ev; ev0] ∧ count = Z.of_nat (length (filter (λ i, counted i = true) pre)))); [done|done| |].
  - intros pre i count h Hd [-> ->]. unfold count_instance. apply wp_bind, wp_counts; [done|].
    rewrite filter_app, length_app, filter_cons, filter_nil. destruct (counted i) eqn:Hc.
    + destruct Hd as ([id Hid] & _). rewrite Hid. apply wp_bind. do 2 apply wp_ret.
      split; [done|]. rewrite decide_True by done. simpl. lia.
    + apply wp_ret. split; [done|]. rewrite decide_False by done. simpl. lia.
  - intros count h [-> ->]. apply wp_ret. intros n [= <-]. exists rs. simpl. by rewrite Hev, Hev0.
Qed.

(** The answer of a ping. *)
Definition answered (ip : string) (h : list ec2_call) : Prop := E_Ping ip None ∈ h.

Lemma wp_validateIPAddress i h :
  wp ec2_spec (validateIPAddress ec i) (λ r h', ∃ l, h' = l ++ h ∧ Forall (λ c, ∃ ip r, c = E_Ping ip r) (calls l) ∧
    ∀ ip, r = Ok ip → ip = instance_ip ec i ∧ ip ≠ "" ∧ answered ip (calls h')) h.
Proof.
  unfold validateIPAddress. cbv zeta. destruct (String.eqb_spec (instance_ip ec i) "") as [He|He].
  - apply wp_ret. exists []. split_and!; [done|constructor|done].
  - apply wp_bind, wp_trigger. intros r _. apply wp_ret. exists [Ev (pingIPAddress (instance_ip ec i)) r].
    split_and!; [done|repeat constructor; by eexists _, _|]. destruct r; [done|]. intros ip [= <-].
    split_and!; [done..|left].
Qed.

(** A listed instance: it counts, and it answered at its address. *)
Definition lists_instance (h : list ec2_call) (i : Instance) (vm : CloudVMInstance) : Prop :=
  counted i = true ∧ ec2_InstanceId i = Some (InstanceId vm) ∧ LaunchTime i = Some (StartTime vm) ∧
  Address vm = instance_ip ec i ∧ Address vm ≠ "" ∧ answered (Address vm) h.

Lemma lists_instance_mono l h i vm : lists_instance h i vm → lists_instance (l ++ h) i vm.
Proof. unfold lists_instance, answered. rewrite elem_of_app. naive_solver. Qed.

(** The listed instances are some of the instances, in their order. *)
Inductive lists_some (h : list ec2_call) : list Instance → list CloudVMInstance → Prop :=
| lists_nil : lists_some h [] []
| lists_one il vms i vm : lists_some h il vms → lists_instance h i vm → lists_some h (il ++ [i]) (vms ++ [vm])
| lists_skip il vms i : lists_some h il vms → lists_some h (il ++ [i]) vms.

Lemma lists_some_mono l h il vms : lists_some h il vms → lists_some (l ++ h) il vms.
Proof. induction 1; [constructor|apply lists_one|apply lists_skip]; auto using lists_instance_mono. Qed.

Lemma lists_some_length h il vms :
  lists_some h il vms → length vms ≤ length (filter (λ i, counted i = true) il).
Proof.
  induction 1 as [|il vms i vm _ IH [Hc _]|il vms i _ IH]; [done|..];
    rewrite filter_app, !length_app, filter_cons, filter_nil; [rewrite decide_True by done; simpl; lia|].
  case_decide; simpl; lia.
Qed.

Lemma lists_some_elem h il vms vm : lists_some h il vms → vm ∈ vms → ∃ i, i ∈ il ∧ lists_instance h i vm.
Proof.
  induction 1 as [|il vms i vm' _ IH Hl|il vms i _ IH]; [by intros ?%not_elem_of_nil|..]; setoid_rewrite elem_of_snoc.
  - intros [Hin| ->]; [destruct (IH Hin) as (j & ? & ?)|]; eauto.
  - intros Hin. destruct (IH Hin) as (j & ? & ?); eauto.
Qed.

Lemma wp_ec2_ListInstances instanceTag :
  wp ec2_spec (ListInstances ec instanceTag) (λ r h, ∀ vms, r = Ok vms →
    ∃ rs, E_Describe (tag_filters instanceTag) [] (Ok rs) ∈ calls h ∧ lists_some (calls h) (concat rs) vms) [].
Proof.
  unfold ListInstances. apply wp_bind. eapply wp_mono; [|apply wp_describe_tagged].
  intros [rs|err] h; [|intros _; by apply wp_ret]. intros (Hrs & ev & ev0 & -> & Hev & Hev0).
  apply wp_bind. apply (wp_reservations _ (λ pre vms h, call_of ev ∈ calls h ∧ lists_some (calls h) pre vms)).
  - done.
  - split; [left|constructor].
  - intros pre i vms h Hd [Hin Hl]. unfold list_instance. apply wp_bind, wp_counts; [done|].
    destruct (counted i) eqn:Hc; [|apply wp_ret; split; [done|by apply lists_skip]].
    apply wp_bind. eapply wp_mono; [|apply wp_validateIPAddress]. intros r h' (l & -> & _ & Hip).
    assert (call_of ev ∈ calls (l ++ h)) by (unfold calls; rewrite fmap_app, elem_of_app; by right).
    assert (lists_some (calls (l ++ h)) pre vms) by (unfold calls; rewrite fmap_app; by apply lists_some_mono).
    destruct r as [ip|]; [|apply wp_ret; split; [done|by apply lists_skip]].
    destruct (Hip ip eq_refl) as (-> & Hne & Ha). destruct Hd as ([id Hid] & _ & [t Ht]). rewrite Hid, Ht.
    apply wp_bind, wp_ret, wp_bind. do 2 apply wp_ret. split; [done|]. by apply lists_one.
  - intros vms h [Hin Hl]. apply wp_ret. intros vms' [= <-]. exists rs. by rewrite <- Hev.
Qed.

(** The address of an instance is public when it has to be. *)
Lemma instance_ip_public i :
  StrictPublicAddress ec = true → instance_ip ec i ≠ "" →
  PublicDnsName i = Some (instance_ip ec i) ∨ PublicIpAddress i = Some (instance_ip ec i).
Proof.
  unfold instance_ip, non_empty. intros ->.
  destruct (PublicDnsName i) as [a|], (PublicIpAddress i) as [b|], (PrivateIpAddress i) as [c|];
    repeat case_match; simplify_eq; naive_solver.
Qed.

(** ** Addresses and terminations *)

Lemma wp_ec2_GetInstanceAddress instanceID :
  wp ec2_spec (GetInstanceAddress ec instanceID) (λ r h, ∀ ip, r = Ok ip → ip ≠ "" →
    ∃ i il rs, E_Describe [] [instanceID] (Ok ((i :: il) :: rs)) ∈ calls h ∧ ip = instance_ip ec i ∧ answered ip (calls h)) [].
Proof.
  unfold GetInstanceAddress. apply wp_bind. eapply wp_mono; [|apply wp_getEC2Client].
  intros [u|err] h (ev & -> & Hev); [|by apply wp_ret].
  apply wp_bind, wp_trigger. intros out _.
  destruct out as [[|[|i il] rs]|]; try (apply wp_ret; intros ip [= <-]; done).
  apply wp_bind. eapply wp_mono; [|apply wp_validateIPAddress]. intros r h' (l & -> & _ & Hip). apply wp_ret.
  intros ip [= Heq] Hne. destruct r as [ip'|]; [|done]. subst ip'.
  destruct (Hip ip eq_refl) as (-> & _ & Ha). exists i, il, rs. split_and!; [|done..].
  unfold calls. rewrite fmap_app, elem_of_app. right. left.
Qed.

Lemma wp_ec2_TerminateInstance instanceID :
  wp ec2_spec (TerminateInstance ec instanceID) (λ r h,
    if String.eqb instanceID "" then h = [] ∧ ∃ e, r = Err e
    else (∃ e, calls h = [E_Other] ∧ r = Err e) ∨ calls h = [E_Terminate [instanceID] r; E_Other]) [].
Proof.
  unfold TerminateInstance. destruct (String.eqb instanceID ""); [apply wp_ret; split; [done|by eexists]|].
  apply wp_bind. eapply wp_mono; [|apply wp_getEC2Client]. intros [u|err] h (ev & -> & Hev).
  - apply wp_trigger. intros r _. right. simpl. by rewrite Hev.
  - apply wp_ret. left. eexists. simpl. by rewrite Hev.
Qed.

Lemma wp_ec2_GetState instanceID :
  wp ec2_spec (GetState ec instanceID) (λ _ _, True) [].
Proof.
  unfold GetState. apply wp_bind. eapply wp_mono; [|apply wp_getEC2Client].
  intros [u|err] h (ev & -> & Hev); [|by apply wp_ret].
  apply wp_bind, wp_trigger. intros [[|[|i il] rs]|] Hr; try by apply wp_ret.
  specialize (Hr _ eq_refl). apply Forall_cons in Hr as [Hr _]. apply Forall_cons in Hr as [(_ & [s Hs] & _) _].
  rewrite Hs. apply wp_bind. by do 2 apply wp_ret.
Qed.

(** Whatever the controller asks of the provider, it does not panic. *)
Lemma wp_ec2_handle {X} (c : cloudE X) : wp ec2_spec (handle ec c) (λ _ _, True) [].
Proof.
  destruct c; cbn [handle].
  - eapply wp_mono; [|apply wp_ec2_LaunchInstance]. done.
  - eapply wp_mono; [|apply wp_ec2_TerminateInstance]. done.
  - eapply wp_mono; [|apply wp_ec2_GetInstanceAddress]. done.
  - eapply wp_mono; [|apply wp_ec2_CountInstances]. done.
  - eapply wp_mono; [|apply wp_ec2_ListInstances]. done.
  - apply wp_ec2_GetState.
Qed.
End provider.

(** ** Properties *)

(** C33. A TaskRun id that is not valid launches nothing. Otherwise at most one request for
    one instance is made; its tags name the TaskRun, include the additional tags, and are
    selected by the filters with which instances of the same tag are counted and listed.
    The answer is the first instance's id. *)
Theorem Ec2_LaunchInstance_tagged ec id instanceTag additional :
  wp ec2_spec (LaunchInstance ec id instanceTag additional) (λ '(tags, r) h,
    ec2_launches ec id instanceTag additional r (calls h)) [].
Proof. apply wp_ec2_LaunchInstance. Qed.

(** [CountInstances] asks for the instances of the tag once, and counts those that are
    not terminated and of the platform's type. *)
Theorem Ec2_CountInstances_counts ec instanceTag :
  wp ec2_spec (CountInstances ec instanceTag) (λ r h, ∀ n, r = Ok n →
    ∃ rs, calls h = [E_Describe (tag_filters instanceTag) [] (Ok rs); E_Other] ∧
      n = Z.of_nat (length (filter (λ i, counted ec i = true) (concat rs)))) [].
Proof. apply wp_ec2_CountInstances. Qed.

(** [ListInstances] lists, in their order, instances that count, no more than
    [CountInstances] would count, each at an address of its own that answered; the address
    is public when the platform asks for that. *)
Theorem Ec2_ListInstances_reachable ec instanceTag :
  wp ec2_spec (ListInstances ec instanceTag) (λ r h, ∀ vms, r = Ok vms →
    ∃ rs, E_Describe (tag_filters instanceTag) [] (Ok rs) ∈ calls h ∧
      lists_some ec (calls h) (concat rs) vms ∧
      length vms ≤ length (filter (λ i, counted ec i = true) (concat rs)) ∧
      ∀ vm, vm ∈ vms → ∃ i, i ∈ concat rs ∧ lists_instance ec (calls h) i vm ∧
        (StrictPublicAddress ec = true →
         PublicDnsName i = Some (Address vm) ∨ PublicIpAddress i = Some (Address vm))) [].
Proof.
  eapply wp_mono; [|apply wp_ec2_ListInstances]. intros r h Hr vms ->.
  destruct (Hr vms eq_refl) as (rs & Hin & Hl). exists rs. split_and!; [done|done|by eapply lists_some_length|].
  intros vm Hvm. destruct (lists_some_elem _ _ _ _ _ Hl Hvm) as (i & Hi & Hli). exists i. split_and!; [done|done|].
  destruct Hli as (_ & _ & _ & Ha & Hne & _). rewrite Ha in *. intros. by apply instance_ip_public.
Qed.
