(* ===== verification/DevSetupFacts.v ===== *)
(** * The development set-up tool: what the clean-up commands delete, and what reaches a
      command line *)
From S2P Require Import Prelude GoLib GoStrings Md5 Prog Emits Kube Cloud CloudFacts Aws AwsFacts DevSetup.
Import DevSetup.

(** ** Steps in turn *)

Lemma wp_and_then (S : contract devE) (p q : dev (option error)) Q h :
  wp S p (λ err h', match err with Some _ => Q err h' | None => wp S q Q h' end) h → wp S (and_then p q) Q h.
Proof. intros Hp. apply wp_bind. eapply wp_mono; [|exact Hp]. by intros []. Qed.

Lemma wp_wrapped (S : contract devE) what (p : dev (option error)) (Q : option error → hist devE → Prop) h :
  wp S p (λ err h', match err with Some e => ∀ e', Q (Some e') h' | None => Q None h' end) h → wp S (wrapped what p) Q h.
Proof. intros Hp. apply wp_bind. eapply wp_mono; [|exact Hp]. by intros [] h' HQ; apply wp_ret. Qed.

(** ** Instances *)

(** The instances asked to terminate, the first one first. *)
Definition terminated (h : hist devE) : list (list string) :=
  reverse (omap (λ ev : event devE, match ev_req ev with TerminateInstances ids => Some ids | _ => None end) h).

Lemma terminated_cons ev h :
  terminated (ev :: h) =
  terminated h ++ match ev_req ev with TerminateInstances ids => [ids] | _ => [] end.
Proof. unfold terminated. simpl. destruct (ev_req ev); simpl; rewrite ?app_nil_r; try done. by rewrite reverse_cons. Qed.

Lemma wp_validateAWSCredentials S (Q : option error → hist devE → Prop) h :
  (∀ err h', terminated h' = terminated h → Q err h') → wp S validateAWSCredentials Q h.
Proof.
  intros HQ. unfold validateAWSCredentials, getenv.
  do 3 (apply wp_bind, wp_trigger; intros ? _; try (destruct (String.eqb _ ""); [by apply wp_ret, HQ; rewrite !terminated_cons, ?app_nil_r|])).
  apply wp_ret, HQ. by rewrite !terminated_cons, !app_nil_r.
Qed.

Lemma wp_terminate_all S ids (Q : option error → hist devE → Prop) h :
  (∀ h', terminated h' = terminated h ++ ((λ i, [i]) <$> ids) → suffix h h' → Q None h') →
  wp S (_ ← foldM (λ (_ : unit) i, _ ← trigger (TerminateInstances [i]); mret tt) tt ids; mret None) Q h.
Proof.
  intros HQ. apply wp_bind.
  apply (wp_foldM _ _ (λ pre _ h', terminated h' = terminated h ++ ((λ i, [i]) <$> pre) ∧ suffix h h') ids tt []).
  - by rewrite app_nil_r.
  - intros pre i u h' _ [Hh Hs]. apply wp_bind, wp_trigger. intros err _. apply wp_ret.
    split; [|by apply suffix_cons_r]. by rewrite terminated_cons, Hh, fmap_app, app_assoc.
  - intros u h' [Hh Hs]. by apply wp_ret, HQ.
Qed.

(** The listed instances of a clean-up. *)
Definition cleaned (instanceTag : string) (err : option error) (h : hist devE) : Prop :=
  match err with
  | None => ∃ rs, Ev (DescribeInstances (cleanup_filters instanceTag)) (Ok rs) ∈ h ∧
      terminated h = (λ i, [i]) <$> instance_ids rs
  | Some _ => terminated h = []
  end.

Lemma wp_runCleanupInstances instanceTag : wp any (runCleanupInstances instanceTag) (cleaned instanceTag) [].
Proof.
  unfold runCleanupInstances. apply wp_and_then, wp_validateAWSCredentials. intros [e|] h Hh; [done|].
  apply wp_and_then, wp_wrapped, wp_trigger. intros [e|] _; [intros e'; unfold cleaned; by rewrite terminated_cons, Hh|].
  apply wp_bind, wp_trigger. intros [rs|e] _; [|apply wp_ret; unfold cleaned; by rewrite !terminated_cons, Hh].
  apply wp_terminate_all. intros h' Hh' [l ->]. exists rs. rewrite Hh', !terminated_cons, Hh.
  split; [apply elem_of_app; right; left|done].
Qed.

(** The filters of a clean-up, but for the states, are those by which the controller finds
    the instances of a tag. *)
Lemma cleanup_filters_found ec i instanceTag additional input f :
  launch_request ec i instanceTag additional input → f ∈ cleanup_filters instanceTag →
  Ec2.filter_Name f ≠ "instance-state-name" → selected_by input f.
Proof.
  intros Hl Hf Hn. apply lr_found in Hl. repeat (apply Forall_cons in Hl as [? Hl]).
  repeat (apply elem_of_cons in Hf as [->|Hf]); [done..|by apply not_elem_of_nil in Hf].
Qed.

(** ** Logs *)

(** The keys that were asked to be deleted, and the pages that were read. *)
Definition deleted (h : hist devE) : list string :=
  concat (omap (λ ev : event devE, match ev_req ev with DeleteObjects _ keys => Some keys | _ => None end) h).
Definition pages (h : hist devE) : nat :=
  length (omap (λ ev : event devE, match ev_req ev with NextPage _ _ => Some tt | _ => None end) h).

(** The keys of the pages that were read, and the keys whose deletion succeeded. *)
Definition listed_ev (ev : event devE) : list string :=
  (match ev_req ev in devE X return X → list string with
   | NextPage _ _ => λ r, match r with Ok p => omap id (Contents p) | Err _ => [] end
   | _ => λ _, [] end) (ev_ans ev).
Definition deleted_ev (ev : event devE) : list string :=
  (match ev_req ev in devE X return X → list string with
   | DeleteObjects _ keys => λ r, match r with Ok [] => keys | _ => [] end
   | _ => λ _, [] end) (ev_ans ev).

(** The bucket has at most [n] pages more after the first, and lists what the prefix
    selects. *)
Definition s3_spec (n : nat) : contract devE := λ h X e,
  match e in devE X return X → Prop with
  | NextPage _ pre => λ r, ∀ p, r = Ok p →
      (∀ k, Some k ∈ Contents p → HasPrefix k pre = true) ∧ (more p = true → pages h < n)
  | _ => λ _, True
  end.

Definition listed (h : hist devE) : list string := concat (listed_ev <$> h).
Definition gone (h : hist devE) : list string := concat (deleted_ev <$> h).

(** Only keys of the prefix were asked to be deleted. *)
Definition only_prefix (pre : string) (h : hist devE) : Prop := ∀ k, k ∈ deleted h → HasPrefix k pre = true.

(** No log was touched yet. *)
Definition fresh_logs (h : hist devE) : Prop := pages h = 0 ∧ deleted h = [] ∧ listed h = [].

Lemma wp_cleanup_page n bucket pre h :
  only_prefix pre h → listed h ⊆ gone h →
  wp (s3_spec n) (cleanup_page bucket pre) (λ r h', only_prefix pre h' ∧
    match r with
    | Ok b => listed h' ⊆ gone h' ∧ pages h' = S (pages h) ∧ (b = true → pages h < n)
    | Err _ => True
    end) h.
Proof.
  intros Hp Hl. unfold cleanup_page. apply wp_bind, wp_trigger. intros r Hr. set (ev := Ev _ r).
  destruct r as [p|err]; [|apply wp_ret; split; [exact Hp|done]].
  destruct (Hr p eq_refl) as [Hkeys Hmore].
  assert (∀ k, k ∈ omap id (Contents p) → HasPrefix k pre = true) as Hpre.
  { intros k (k' & Hin & Heq)%list_elem_of_omap. apply Hkeys. unfold id in Heq. by rewrite <- Heq. }
  destruct (omap id (Contents p)) as [|k0 objects] eqn:Hobj.
  - apply wp_ret. split; [exact Hp|]. split_and!; [|done|done]. unfold listed, gone. cbn. by rewrite Hobj.
  - apply wp_bind, wp_trigger. intros output _. apply wp_ret.
    assert (∀ x, only_prefix pre (Ev (DeleteObjects bucket (k0 :: objects)) x :: ev :: h)) as Hdel.
    { intros x k Hin. change (k ∈ (k0 :: objects) ++ deleted h) in Hin. apply elem_of_app in Hin as [Hin|Hin]; auto. }
    destruct output as [[|e es]|err]; (split; [apply Hdel|]); [|done..].
    split_and!; [|done|done]. unfold listed, gone. cbn [fmap list_fmap concat]. unfold ev at 1, listed_ev at 1. cbn. rewrite Hobj.
    intros k Hin. change (k ∈ (k0 :: objects) ++ listed h) in Hin. change (k ∈ (k0 :: objects) ++ gone h).
    apply elem_of_app in Hin as [Hin|Hin]; apply elem_of_app; auto.
Qed.

Lemma wp_cleanupS3LogsPrefix n fuel bucket pre h :
  only_prefix pre h → listed h ⊆ gone h → n ≤ fuel + pages h →
  wp (s3_spec n) (cleanupS3LogsPrefix (S fuel) bucket pre) (λ r h',
    only_prefix pre h' ∧ is_Some r ∧ (r = Some None → listed h' ⊆ gone h')) h.
Proof.
  revert h. induction fuel as [|fuel IH]; intros h Hp Hl Hf; cbn [cleanupS3LogsPrefix];
    (apply wp_bind; eapply wp_mono; [|by apply wp_cleanup_page]; intros [b|err] h' [Hp' Hr];
     [|apply wp_ret; by split_and!; [..|by eexists|]];
     destruct Hr as (Hl' & Hpages & Hb); destruct b; [specialize (Hb eq_refl)|apply wp_ret; by split_and!; [..|by eexists|]]).
  - lia.
  - apply (IH h' Hp' Hl'). lia.
Qed.

Lemma wp_validate_fresh S (Q : option error → hist devE → Prop) h :
  fresh_logs h → (∀ err h', fresh_logs h' → Q err h') → wp S validateAWSCredentials Q h.
Proof.
  intros Hh HQ. unfold validateAWSCredentials, getenv.
  do 3 (apply wp_bind, wp_trigger; intros ? _; try (destruct (String.eqb _ ""); [by apply wp_ret, HQ|])).
  by apply wp_ret, HQ.
Qed.

(** The run whose logs a clean-up deletes. *)
Definition run_id (input id : string) : Prop := TrimSpace input ≠ "" → id = TrimSpace input.

Lemma wp_resolveRunID S input (Q : string → hist devE → Prop) h :
  fresh_logs h → (∀ id h', run_id input id → fresh_logs h' → Q id h') → wp S (resolveRunID input) Q h.
Proof.
  intros Hh HQ. unfold resolveRunID. destruct (String.eqb_spec (TrimSpace input) ""); cbn [negb].
  - unfold getenv. apply wp_bind, wp_trigger. intros tag _. apply wp_ret, HQ; [by intros ?|done].
  - by apply wp_ret, HQ.
Qed.

Lemma wp_runCleanupS3Logs n input :
  wp (s3_spec n) (runCleanupS3Logs (S n) input) (λ r h, is_Some r ∧
    ∃ id, run_id input id ∧ only_prefix ("mpc/" +:+ id +:+ "/") h ∧ (r = Some None → listed h ⊆ gone h)) [].
Proof.
  assert (∀ id h (e : error), run_id input id → fresh_logs h → is_Some (Some (Some (e : error))) ∧
    ∃ id, run_id input id ∧ only_prefix ("mpc/" +:+ id +:+ "/") h ∧ (Some (Some e) = Some None → listed h ⊆ gone h)) as Hnone.
  { intros id h e Hid (_ & Hd & _). split; [by eexists|]. exists id. split_and!; [done| |done]. intros k. by rewrite Hd, elem_of_nil. }
  unfold runCleanupS3Logs. apply wp_bind, wp_validate_fresh; [done|]. intros [e|] h Hh; [apply wp_ret; by apply (Hnone (TrimSpace input))|].
  apply wp_bind, wp_resolveRunID; [done|]. clear h Hh. intros id h Hid Hh.
  apply wp_bind, wp_wrapped, wp_trigger. intros [e|] _; [intros e'; apply wp_ret; by apply (Hnone id)|].
  unfold logsBucketName, getenv. apply wp_bind, wp_bind, wp_trigger. intros v _. apply wp_ret.
  destruct (String.eqb _ ""); [apply wp_ret; by apply (Hnone id)|].
  destruct Hh as (Hp & Hd & Hl). set (h' := _ :: _ :: h).
  assert (only_prefix ("mpc/" +:+ id +:+ "/") h') as Hpre by (intros k Hin; change (k ∈ deleted h) in Hin; rewrite Hd in Hin; by apply elem_of_nil in Hin).
  assert (listed h' ⊆ gone h') as Hsub by (change (listed h ⊆ gone h); rewrite Hl; apply list_subseteq_nil).
  eapply wp_mono; [|apply wp_cleanupS3LogsPrefix; [exact Hpre|exact Hsub|lia]].
  intros r h3 (? & ? & ?). split; [done|]. by exists id.
Qed.

(** ** Credentials *)

Definition credential (name : string) : bool :=
  bool_decide (name ∈ ["AWS_ACCESS_KEY_ID"; "AWS_SECRET_ACCESS_KEY"; "AWS_SESSION_TOKEN"; "IBM_CLOUD_API_KEY"]).

(** Two runs that get the same answers, credentials aside, of which they learn no more than
    whether they are set: they make the same requests, but for what is piped into
    [kubectl apply -f -]. *)
Inductive similar {A} (R : A → A → Prop) : dev A → dev A → Prop :=
| similar_Ret a a' : R a a' → similar R (Ret a) (Ret a')
| similar_Panic w : similar R (Panic w) (Panic w)
| similar_apply stdin stdin' k k' :
    (∀ x, similar R (k x) (k' x)) →
    similar R (Vis (Exec {| c_args := ["kubectl"; "apply"; "-f"; "-"]; c_stdin := Some stdin |}) k)
      (Vis (Exec {| c_args := ["kubectl"; "apply"; "-f"; "-"]; c_stdin := Some stdin' |}) k')
| similar_Getenv name k k' :
    credential name = true → (∀ x x', (x = "" ↔ x' = "") → similar R (k x) (k' x')) →
    similar R (Vis (Getenv name) k) (Vis (Getenv name) k')
| similar_Vis X (e : devE X) k k' :
    (∀ x, similar R (k x) (k' x)) →
    match e with Getenv name => credential name = false | _ => True end →
    similar R (Vis e k) (Vis e k').

Lemma similar_bind {A B} (R : A → A → Prop) (R' : B → B → Prop) p p' (f f' : A → dev B) :
  similar R p p' → (∀ a a', R a a' → similar R' (f a) (f' a')) → similar R' (p ≫= f) (p' ≫= f').
Proof.
  intros Hp Hf. induction Hp as [a a' Ha|w|i i' k k' _ IH|name k k' Hn _ IH|X e k k' _ IH He]; cbn.
  - by apply Hf.
  - constructor.
  - by constructor.
  - by apply similar_Getenv.
  - by apply similar_Vis.
Qed.

(** A request that does not read a credential. *)
Definition reads_none X (e : devE X) : Prop := match e with Getenv name => credential name = false | _ => True end.

Lemma similar_refl {A} (p : dev A) : emits reads_none p → similar eq p p.
Proof.
  induction 1 as [a|w|X e k He _ IH]; [by constructor|constructor|].
  by apply similar_Vis.
Qed.

Lemma similar_and_then p p' q q' :
  similar eq p p' → similar eq q q' → similar eq (and_then p q) (and_then p' q').
Proof. intros Hp Hq. eapply similar_bind; [exact Hp|]. intros [e|] ? <-; [by constructor|done]. Qed.
Lemma similar_wrapped what p p' : similar eq p p' → similar eq (wrapped what p) (wrapped what p').
Proof. intros Hp. eapply similar_bind; [exact Hp|]. intros err ? <-. by constructor. Qed.

(** A step that reads no credential. *)
Ltac no_credentials :=
  apply similar_refl; unfold and_then, wrapped, run_command, kubectl_apply, getenv; by emits.

Lemma emits_replace_entries old new entries : emits reads_none (replace_entries old new entries).
Proof. induction entries as [|e entries IH]; cbn [replace_entries]; [apply emits_ret|]. unfold and_then. by emits. Qed.
Lemma emits_replaceInFiles dir old new : emits reads_none (replaceInFiles dir old new).
Proof. unfold replaceInFiles. pose proof emits_replace_entries. by emits. Qed.
#[local] Hint Resolve emits_replaceInFiles : emits.

Lemma emits_prepareDeploymentOverlays cfg : emits reads_none (prepareDeploymentOverlays cfg).
Proof. unfold prepareDeploymentOverlays, resolveRunID, and_then, wrapped, getenv. by emits. Qed.

(** The configuration with other credentials. *)
Definition with_credentials (cfg : Config) (keyID key token ibm : string) : Config :=
  {| QuayUsername := QuayUsername cfg; InstanceTag := InstanceTag cfg; AWSSSHKeyName := AWSSSHKeyName cfg;
     IDRSAKeyPath := IDRSAKeyPath cfg; AWSAccessKeyID := keyID; AWSSecretAccessKey := key; AWSSessionToken := token;
     IBMCloudAPIKey := ibm; GithubRunID := GithubRunID cfg; DeployDir := DeployDir cfg |}.
Definition agree (cfg cfg' : Config) : Prop := ∃ keyID key token ibm, cfg' = with_credentials cfg keyID key token ibm.

Lemma similar_public name (k k' : string → dev (result Config)) R :
  credential name = false → (∀ x, similar R (k x) (k' x)) → similar R (Vis (Getenv name) k) (Vis (Getenv name) k').
Proof. intros Hn Hk. by apply similar_Vis. Qed.

Lemma similar_loadConfig :
  similar (λ r r', match r, r' with Ok cfg, Ok cfg' => agree cfg cfg' | Err e, Err e' => e = e' | _, _ => False end)
    loadConfig loadConfig.
Proof.
  unfold loadConfig, getenv. cbn [mbind prog_mbind prog_bind trigger].
  apply similar_Vis; [|done]. intros [wd|err]; [|by constructor]. cbv zeta. cbn [mbind prog_mbind prog_bind trigger].
  apply similar_Vis; [|done]. intros []; [by constructor|]. cbn [mbind prog_mbind prog_bind trigger].
  do 4 (apply similar_public; [done|]; intros ?; cbn [mbind prog_mbind prog_bind trigger]).
  do 4 (apply similar_Getenv; [done|]; intros ? ? _; cbn [mbind prog_mbind prog_bind trigger]).
  apply similar_public; [done|]. intros run. constructor. by do 4 eexists.
Qed.

Lemma eqb_empty x x' : (x = "" ↔ x' = "") → String.eqb x "" = String.eqb x' "".
Proof. intros Hx. destruct (String.eqb_spec x ""), (String.eqb_spec x' ""); tauto. Qed.

Lemma similar_credentials : similar eq validateAWSCredentials validateAWSCredentials.
Proof.
  unfold validateAWSCredentials, getenv. cbn [mbind prog_mbind prog_bind trigger].
  do 3 (apply similar_Getenv; [done|]; intros ? ? ->%eqb_empty; cbn [mbind prog_mbind prog_bind trigger];
    try match goal with |- similar _ (if ?b then _ else _) _ => destruct b; [by apply similar_Ret|] end).
  by apply similar_Ret.
Qed.

Lemma emits_getCreatorRoleARN : emits reads_none getCreatorRoleARN.
Proof. unfold getCreatorRoleARN. by emits. Qed.
#[local] Hint Resolve emits_getCreatorRoleARN : emits.

(** [setupSSHKey] passes the credentials on. *)
Lemma similar_setupSSHKey cfg cfg' :
  agree cfg cfg' → similar (λ r r', agree r.1 r'.1 ∧ r.2 = r'.2) (setupSSHKey cfg) (setupSSHKey cfg').
Proof.
  intros (keyID & key & token & ibm & ->). unfold setupSSHKey. cbn [with_credentials IDRSAKeyPath GithubRunID].
  assert (∀ c e, similar (λ r r' : Config * option error, agree r.1 r'.1 ∧ r.2 = r'.2)
    (mret (c, e)) (mret (with_credentials c keyID key token ibm, e))) as Hret
    by (intros c e; apply similar_Ret; split; [by do 4 eexists|done]).
  destruct (negb _); [apply Hret|].
  eapply similar_bind; [no_credentials|]. intros [e|] ? <-; [apply Hret|].
  eapply (similar_bind eq); [no_credentials|]. intros [suffix|e] ? <-; [|apply Hret]. cbv zeta.
  eapply (similar_bind eq); [apply similar_refl, emits_getCreatorRoleARN|]. intros arn ? <-.
  eapply (similar_bind eq); [no_credentials|]. intros [material|e] ? <-; [|apply Hret].
  eapply (similar_bind eq); [no_credentials|]. intros data ? <-.
  eapply (similar_bind eq); [no_credentials|]. intros err ? <-. apply Hret.
Qed.

Section deploy.
Context `{JSON}.
Hypothesis marshals : ∀ s, ∃ text, Marshal s = Ok text.

Lemma similar_createSecret name data data' :
  similar eq (createSecretFromLiterals name data) (createSecretFromLiterals name data').
Proof.
  unfold createSecretFromLiterals, generateSecretJSON.
  repeat match goal with |- context [Marshal ?s] => destruct (marshals s) as [? ->] end. cbn [map_err].
  unfold kubectl_apply. eapply (similar_bind eq); [apply similar_apply; intros; by apply similar_Ret|].
  intros r ? <-. by apply similar_Ret.
Qed.

Lemma emits_label_secrets names : emits reads_none (label_secrets names).
Proof. induction names; cbn [label_secrets]; [apply emits_ret|]. unfold and_then, wrapped, run_command. by emits. Qed.

Lemma similar_createKubernetesSecrets cfg cfg' :
  agree cfg cfg' → similar eq (createKubernetesSecrets cfg) (createKubernetesSecrets cfg').
Proof.
  intros (keyID & key & token & ibm & ->). unfold createKubernetesSecrets. cbn [with_credentials IDRSAKeyPath].
  destruct (String.eqb _ ""); [by apply similar_Ret|].
  eapply (similar_bind eq); [no_credentials|]. intros _ _ _.
  apply similar_and_then; [no_credentials|].
  do 2 (apply similar_and_then; [apply similar_wrapped, similar_createSecret|]).
  apply similar_refl, emits_label_secrets.
Qed.

Lemma similar_runDeploy : similar eq runDeploy runDeploy.
Proof.
  unfold runDeploy. eapply similar_bind; [apply similar_loadConfig|].
  intros [cfg|e] [cfg'|e']; [|done|done|intros <-; by apply similar_Ret]. intros Ha.
  assert (agree cfg cfg') as (keyID & key & token & ibm & Heq) by done.
  apply similar_and_then.
  { rewrite Heq. unfold validatePrerequisites. cbn [with_credentials QuayUsername].
    destruct (String.eqb _ ""); [by apply similar_Ret|apply similar_credentials]. }
  apply similar_and_then; [unfold setupNamespace; no_credentials|].
  eapply similar_bind; [by apply similar_setupSSHKey|]. intros [c err] [c' err'] [Hc [= <-]].
  destruct err as [err|]; [by apply similar_Ret|]. cbn [fst] in Hc.
  apply similar_and_then; [by apply similar_wrapped, similar_createKubernetesSecrets|].
  clear -Hc. destruct Hc as (keyID & key & token & ibm & ->).
  apply similar_and_then; [apply similar_wrapped, similar_refl, emits_prepareDeploymentOverlays|].
  apply similar_wrapped. unfold deployOperator. no_credentials.
Qed.
End deploy.

(** ** Role ARNs *)

Lemma replace_done old new s : replace_from (Some 0) old new 0 s = s.
Proof. induction s as [|c s IH]; [done|]. cbn. rewrite andb_false_r. by rewrite IH. Qed.

Lemma Contains_app p s sub : HasPrefix s sub = true → Contains (p +:+ s) sub = true.
Proof.
  intros Hs. induction p as [|c p IH]; cbn [String.append].
  - destruct s; apply orb_true_iff; left; exact Hs.
  - apply orb_true_iff. right. exact IH.
Qed.

Lemma digit_ne c d : is_digit c = true → is_digit d = false → c ≠ d.
Proof. intros Hc Hd ->. congruence. Qed.

Lemma prefix_first c d s t : c ≠ d → HasPrefix (String c s) (String d t) = false.
Proof. intros Hne. unfold HasPrefix. simpl. by destruct (ascii_dec d c). Qed.
Lemma prefix_next c s t : HasPrefix (String c s) (String c t) = HasPrefix s t.
Proof. unfold HasPrefix. simpl. by destruct (ascii_dec c c). Qed.

(** No match begins here. *)
Lemma replace_step n old new c s :
  HasPrefix (String c s) old = false → replace_from n old new 0 (String c s) = String c (replace_from n old new 0 s).
Proof.
  intros Hno. change (replace_from n old new 0 (String c s)) with
    (if HasPrefix (String c s) old && (match n with Some 0 => false | _ => true end)
     then new +:+ replace_from (pred <$> n) old new (String.length old - 1) s
     else String c (replace_from n old new 0 s)). by rewrite Hno.
Qed.

(** The account of an ARN is a number. *)
Lemma replace_role account : str_forall is_digit account = true →
  replace_from (Some 1) ":assumed-role" ":role" 0 (account +:+ ":assumed-role") = account +:+ ":role".
Proof.
  induction account as [|c account IH]; [done|]. intros [Hc Ha]%andb_true_iff.
  change (String c account +:+ ?t) with (String c (account +:+ t)).
  rewrite replace_step; [by rewrite (IH Ha)|]. by apply prefix_first, digit_ne.
Qed.
Lemma replace_colon_role account : str_forall is_digit account = true →
  replace_from (Some 1) ":assumed-role" ":role" 0 (String ":" (account +:+ ":assumed-role")) = String ":" (account +:+ ":role").
Proof.
  intros Ha. rewrite replace_step; [by rewrite replace_role|]. rewrite prefix_next.
  destruct account as [|c account]; [done|]. apply andb_true_iff in Ha as [Hc _]. by apply prefix_first, digit_ne.
Qed.

Lemma role_arn_assumed account role session :
  str_forall is_digit account = true → str_mem "/" role = false →
  role_arn ("arn:aws:sts::" +:+ account +:+ ":assumed-role/" +:+ role +:+ "/" +:+ session) =
  "arn:aws:iam::" +:+ account +:+ ":role/" +:+ role.
Proof.
  intros Ha Hr. unfold role_arn. set (arn := _ +:+ account +:+ _).
  assert (Contains arn ":assumed-role/" = true) as ->.
  { unfold arn. rewrite <- str_app_assoc. by apply Contains_app, prefix_app. }
  cbn [negb].
  assert (Replace1 arn ":sts:" ":iam:" = ("arn:aws:iam::" +:+ account +:+ ":assumed-role") +:+ String "/" (role +:+ String "/" session)) as ->.
  { unfold Replace1, arn. rewrite (str_app_assoc _ (account +:+ _)), (str_app_assoc account).
    set (rest := account +:+ _).
    change (replace_from (Some 1) ":sts:" ":iam:" 0 ("arn:aws:sts::" +:+ rest)) with
      ("arn:aws:iam:" +:+ replace_from (Some 0) ":sts:" ":iam:" 0 (":" +:+ rest)).
    by rewrite replace_done. }
  rewrite Split_app_sep.
  - rewrite Split_app_sep by done. unfold Replace1.
    change ("arn:aws:iam::" +:+ account +:+ ":assumed-role") with ("arn:aws:iam:" +:+ String ":" (account +:+ ":assumed-role")).
    assert (∀ s, replace_from (Some 1) ":assumed-role" ":role" 0 ("arn:aws:iam:" +:+ String ":" s) =
      "arn:aws:iam:" +:+ replace_from (Some 1) ":assumed-role" ":role" 0 (String ":" s)) as -> by done.
    rewrite replace_colon_role by done. change (String ":" (account +:+ ":role")) with (":" +:+ (account +:+ ":role")).
    by rewrite !str_app_assoc.
  - rewrite !str_mem_app. cbn. rewrite orb_false_r. apply str_mem_forall.
    eapply str_forall_impl; [|exact Ha]. intros c Hc. apply negb_true_iff, Ascii.eqb_neq. by apply digit_ne.
Qed.

(** ** Properties *)

(** [cleanup-instances] asks EC2 once for the instances of the tag, and then asks it to
    terminate each instance of the answer, in turn and by itself, whatever comes of the
    others; if it fails it has terminated none. Its filters, but for the states, select
    every instance that the AWS provider launches with that tag. *)
Theorem cleanup_instances_complete instanceTag :
  wp any (runCleanupInstances instanceTag) (cleaned instanceTag) [] ∧
  ∀ ec id additional input f, launch_request ec id instanceTag additional input →
    f ∈ cleanup_filters instanceTag → Ec2.filter_Name f ≠ "instance-state-name" → selected_by input f.
Proof. split; [apply wp_runCleanupInstances|]. intros. by eapply cleanup_filters_found. Qed.

(** C24. [cleanup-s3-logs] deletes nothing but objects of one run: with a bucket of at most
    [n + 1] pages it ends within that many rounds, every key it asked to delete begins with
    "mpc/", the run's id and a slash, the id being the one it was given, if any, and
    without an error every key that was listed was deleted. *)
Theorem cleanup_logs_safe n input :
  wp (s3_spec n) (runCleanupS3Logs (S n) input) (λ r h, is_Some r ∧
    ∃ id, run_id input id ∧ only_prefix ("mpc/" +:+ id +:+ "/") h ∧ (r = Some None → listed h ⊆ gone h)) [].
Proof. apply wp_runCleanupS3Logs. Qed.

(** C25. [deploy] keeps the credentials out of the command lines, the files and the requests to
    AWS: two runs that get the same answers, except for the values of the credentials,
    make the same calls with the same arguments and inputs, but for what is piped into
    [kubectl apply -f -], no part of whose command line depends on the credentials. *)
Theorem deploy_keeps_credentials `{JSON} :
  (∀ s, ∃ text, Marshal s = Ok text) → similar eq runDeploy runDeploy.
Proof. apply similar_runDeploy. Qed.

(** The role of an assumed role's ARN is the IAM role of the same account and name; the
    session is dropped. *)
Theorem role_arn_of_assumed_role account role session :
  str_forall is_digit account = true → str_mem "/" role = false →
  role_arn ("arn:aws:sts::" +:+ account +:+ ":assumed-role/" +:+ role +:+ "/" +:+ session) =
  "arn:aws:iam::" +:+ account +:+ ":role/" +:+ role.
Proof. apply role_arn_assumed. Qed.

Definition example_json : JSON := {| Marshal s := Ok (Join (os_Name s :: (map_to_list (StringData s)).*2) " ") |}.

Lemma deploy_keeps_credentials_witness : similar eq (@runDeploy example_json) (@runDeploy example_json).
Proof. apply (@deploy_keeps_credentials example_json). intros s. by eexists. Defined.

Lemma role_arn_of_assumed_role_witness :
  role_arn "arn:aws:sts::123456789012:assumed-role/builder/me" = "arn:aws:iam::123456789012:role/builder".
Proof. exact (role_arn_of_assumed_role "123456789012" "builder" "me" eq_refl eq_refl). Defined.
