(* ===== verification/IbmZFacts.v ===== *)
(** * The IBM System Z provider: the names of instances, what is launched, counted and
      listed, and the loop that deletes an instance *)
From S2P Require Import Prelude GoLib GoStrings Md5 Prog Kube Config Cloud CloudFacts ConfigFacts IbmZ.
Import IbmZ.

(** ** Instance names *)

(** The characters of an instance's name. *)
Definition vpc_name_char (c : ascii) : bool := is_lower c || is_digit c || Ascii.eqb c "-".

(** Every character of a tag becomes one of these. *)
Definition vpc_char (c : ascii) : ascii := if Ascii.eqb (lower_char c) "_" then "-"%char else lower_char c.

Lemma vpc_char_ok c : name_char c = true → vpc_name_char (vpc_char c) = true.
Proof. destruct c as [[] [] [] [] [] [] [] []]; vm_compute; auto. Qed.

(** The name of a tag: what [createInstanceName] makes of the part it got. *)
Definition normalised (s : string) : string := ReplaceAll (ToLower s) "_" "-".

Lemma normalised_cons c s : normalised (String c s) = String (vpc_char c) (normalised s).
Proof. done. Qed.
Lemma normalised_app s t : normalised (s +:+ t) = normalised s +:+ normalised t.
Proof.
  induction s as [|c s IH]; [done|]. change (String c s +:+ t) with (String c (s +:+ t)).
  by rewrite !normalised_cons, IH.
Qed.
Lemma length_normalised s : String.length (normalised s) = String.length s.
Proof. unfold normalised. by rewrite length_ReplaceAll, length_ToLower. Qed.

Lemma normalised_chars s : str_forall name_char s = true → str_forall vpc_name_char (normalised s) = true.
Proof.
  induction s as [|c s IH]; [done|]. intros [Hc Hs]%andb_true_iff.
  rewrite normalised_cons. cbn [str_forall]. by rewrite vpc_char_ok, IH.
Qed.

(** A tag of lower-case letters, digits and hyphens stays as it is. *)
Lemma normalised_id s : str_forall vpc_name_char s = true → normalised s = s.
Proof.
  induction s as [|c s IH]; [done|]. intros [Hc Hs]%andb_true_iff.
  rewrite normalised_cons, IH by done. f_equal.
  destruct c as [[] [] [] [] [] [] [] []]; vm_compute in Hc |- *; done.
Qed.

Lemma hash_name_chars s : str_forall name_char (slice (md5_hex s) 0 hashLength) = true.
Proof.
  assert (∀ s n, str_forall name_char s = true → str_forall name_char (String.substring 0 n s) = true) as Hsub.
  { clear. induction s as [|c s IH]; intros [|n]; simpl; try done. intros [-> Hs]%andb_true_iff. by apply IH. }
  apply Hsub. eapply str_forall_impl; [|apply md5_hex_chars].
  intros c. unfold hex_char, name_char, name_start. by destruct (is_lower c), (is_upper c), (is_digit c).
Qed.

Lemma length_hash s : String.length (slice (md5_hex s) 0 hashLength) = hashLength.
Proof.
  assert (∀ s n, n ≤ String.length s → String.length (String.substring 0 n s) = n) as Hsub.
  { clear. induction s as [|c s IH]; intros [|n] Hn; simpl in *; [done|lia|done|]. rewrite IH; lia. }
  apply Hsub. rewrite length_md5_hex. unfold hashLength. lia.
Qed.

Lemma instance_name_eq tag t : ∃ hash,
  instance_name tag t = normalised tag +:+ "-" +:+ hash +:+ "x" ∧
  String.length hash = hashLength ∧ str_forall vpc_name_char hash = true.
Proof.
  unfold instance_name. set (hash := slice _ 0 hashLength). exists (normalised hash).
  split_and!.
  - fold (normalised (tag +:+ "-" +:+ hash +:+ "x")). by rewrite !normalised_app.
  - rewrite length_normalised. apply length_hash.
  - apply normalised_chars, hash_name_chars.
Qed.

Lemma createInstanceName_Ok tag t name :
  createInstanceName tag t = Ok name →
  name = instance_name tag t ∧ String.length name = String.length tag + 18 ∧ str_forall vpc_name_char name = true.
Proof.
  unfold createInstanceName. destruct (validInstanceNamePattern tag) eqn:Hv; [|done]. intros [= <-].
  destruct (instance_name_eq tag t) as (hash & Heq & Hlen & Hall). split; [done|]. rewrite Heq. split.
  - rewrite !length_str_app, length_normalised, Hlen. simpl. unfold hashLength. lia.
  - rewrite !str_forall_app, Hall. rewrite normalised_chars; [done|].
    destruct tag as [|c s]; [done|]. simpl in Hv |- *. apply andb_true_iff in Hv as [Hc ->].
    unfold name_char. by rewrite Hc.
Qed.

Lemma prefix_of_app p q s : String.length p = String.length q → HasPrefix (q +:+ s) p = true → p = q.
Proof.
  unfold HasPrefix. revert q. induction p as [|c p IH]; intros [|d q] Hl; simpl in *; try done.
  destruct (ascii_dec c d) as [->|]; [|done]. intros Hp. f_equal. apply IH; [lia|done].
Qed.

(** The instances of a tag are found by its prefix exactly when the name keeps the tag. *)
Lemma instance_name_prefix tag t : HasPrefix (instance_name tag t) tag = true ↔ normalised tag = tag.
Proof.
  destruct (instance_name_eq tag t) as (hash & -> & _). split.
  - intros Hp%prefix_of_app; [done|]. by rewrite length_normalised.
  - intros Heq. rewrite Heq. apply prefix_app.
Qed.

(** ** The contract *)

Definition described (i : VpcInstance) : Prop :=
  is_Some (vi_ID i) ∧ is_Some (vi_Name i) ∧ is_Some (vi_Status i) ∧ is_Some (vi_LifecycleState i) ∧
  is_Some (vi_CreatedAt i).
Definition described_ip (ip : FloatingIP) : Prop := is_Some (fip_ID ip) ∧ is_Some (fip_Address ip).

(** What it may leave out, although the code that attaches an address relies on it. *)
Definition interfaced (i : VpcInstance) : Prop := ∃ nic, vi_PrimaryNetworkInterface i = Some (Some nic).

(** What the VPC API always fills in. *)
Definition vpc_ok {X} (e : vpcE X) : X → Prop :=
  match e in vpcE X return X → Prop with
  | ListSubnets => λ r, ∀ l, r = Ok l → Forall (λ x, is_Some (n_Name x)) l
  | ListKeys => λ r, ∀ l, r = Ok l → Forall (λ x, is_Some (n_Name x)) l
  | ListVpcs => λ r, ∀ l, r = Ok l → Forall (λ x, is_Some (vpc_Name x)) l
  | Vpc_ListInstances _ _ => λ r, ∀ l, r = Ok l → Forall described l
  | CreateInstance _ => λ r, ∀ i, r = Ok i → described i
  | GetInstance _ => λ r, ∀ i, r = Ok i → described i
  | ListInstanceNetworkInterfaceFloatingIps _ _ => λ r, ∀ l, r = Ok (Some l) → Forall described_ip l
  | ListFloatingIps _ => λ r, ∀ l, r = Ok l → Forall described_ip l
  | CreateFloatingIP _ _ => λ r, ∀ ip, r = Ok ip → described_ip ip
  | _ => λ _, True
  end.

(** The time that passed in [time.Sleep]. *)
Fixpoint elapsed (h : hist vpcE) : Z :=
  match h with
  | [] => 0
  | Ev e _ :: h => (match e with Sleep d => d | _ => 0 end + elapsed h)%Z
  end.

(** The clock has passed [start], and moves on by the time slept at least. *)
Definition vpc_spec (start : Z) : contract vpcE := λ h X e x,
  vpc_ok e x ∧ match e in vpcE X return X → Prop with
               | Vpc_Now => λ t, (start + elapsed h ≤ t)%Z
               | _ => λ _, True
               end x.

(** ** Calls *)

Inductive vpc_call :=
| Z_Create (p : InstancePrototype) (r : result VpcInstance)
| Z_List (resourceGroup vpcName : string) (r : result (list VpcInstance))
| Z_Get (id : string) (r : result VpcInstance)
| Z_Delete (id : option string) (r : result unit)
| Z_Live (ip : string) (r : option error)
| Z_Now (t : Z)
| Z_Go (instanceId : string) (timeout : Z)
| Z_Other.

Definition call_of (ev : event vpcE) : vpc_call :=
  (match ev_req ev in vpcE X return X → vpc_call with
   | CreateInstance p => Z_Create p
   | Vpc_ListInstances g v => Z_List g v
   | GetInstance id => Z_Get id
   | DeleteInstance id => Z_Delete id
   | checkIfIpIsLive ip => Z_Live ip
   | Vpc_Now => Z_Now
   | Go i t => λ _, Z_Go i t
   | _ => λ _, Z_Other
   end) (ev_ans ev).
Definition calls (h : hist vpcE) : list vpc_call := call_of <$> h.

Lemma calls_app l h : calls (l ++ h) = calls l ++ calls h.
Proof. apply fmap_app. Qed.
(** No instance is created or deleted. *)
Definition benign (c : vpc_call) : Prop :=
  match c with Z_Create _ _ | Z_Delete _ _ | Z_Go _ _ => False | _ => True end.
Definition harmless (h : hist vpcE) : Prop := Forall benign (calls h).

Lemma harmless_cons ev h : benign (call_of ev) → harmless h → harmless (ev :: h).
Proof. by constructor. Qed.
Lemma harmless_nil : harmless [].
Proof. constructor. Qed.
#[export] Hint Resolve harmless_nil : mpc.
#[export] Hint Extern 1 (harmless (_ :: _)) => apply harmless_cons; [exact I|] : mpc.

(** An answer about an instance without a primary network interface. *)
Definition omits_interface (c : vpc_call) : Prop :=
  match c with
  | Z_Get _ (Ok i) => ¬ interfaced i
  | Z_List _ _ (Ok l) => ∃ i, i ∈ l ∧ ¬ interfaced i
  | _ => False
  end.
(** How a method that reads may panic. *)
Definition z_panics (why : string) (h : hist vpcE) : Prop := harmless h ∧ ∃ c, c ∈ calls h ∧ omits_interface c.

(** One request of the contract. *)
Ltac vpc_step x H := apply wp_bind, wp_trigger; intros x H; hnf in H; destruct H as [H _]; hnf in H.

Section provider.
Variables (start : Z) (iz : IBMZDynamicConfig).
Context {P : string → hist vpcE → Prop}.
Abbreviation wpz := (wpp (vpc_spec start) P).

Lemma harmless_app l h : harmless l → harmless h → harmless (l ++ h).
Proof. unfold harmless. rewrite calls_app. apply Forall_app_2. Qed.

(** ** Look-ups *)

Lemma wp_find_named {A} (name : A → option string) wanted l (Q : option A → hist vpcE → Prop) h :
  Forall (λ x, is_Some (name x)) l →
  (∀ x, x = find_first (λ x, bool_decide (name x = Some wanted)) l → Q x h) →
  wpz (find_named name wanted l) Q h.
Proof.
  induction l as [|x l IH]; cbn [find_named find_first]; intros Hl HQ; [by apply wp_ret, HQ|].
  apply Forall_cons in Hl as [[n Hn] Hl]. rewrite Hn in *. apply wp_bind, wp_ret.
  destruct (String.eqb_spec n wanted) as [->|Hne].
  - apply wp_ret, HQ. by rewrite bool_decide_true.
  - apply IH; [done|]. intros y ->. apply HQ. by rewrite bool_decide_false by naive_solver.
Qed.

Lemma wp_look_up {A} what wanted (name : A → option string) listed many (Q : result A → hist vpcE → Prop) h :
  (∀ l, listed = Ok l → Forall (λ x, is_Some (name x)) l) → (∀ r, Q r h) →
  wpz (look_up what wanted name listed many) Q h.
Proof.
  intros Hl HQ. unfold look_up. destruct listed as [l|err]; [|by apply wp_ret].
  apply wp_bind, wp_find_named; [by apply Hl|]. intros x _. by apply wp_ret.
Qed.

(** What the helpers leave: nothing was created or deleted. *)
Definition reads {A} (p : vpc A) : Prop := ∀ h, harmless h → wpz p (λ _ h', harmless h') h.

Lemma wp_reads {A B} (p : vpc A) (f : A → vpc B) (Q : B → hist vpcE → Prop) h :
  reads p → harmless h → (∀ a l, harmless (l ++ h) → wpz (f a) Q (l ++ h)) → wpz (p ≫= f) Q h.
Proof.
  intros Hp Hh Hf. apply wp_bind. eapply wp_mono; [|by apply wp_frame, Hp].
  intros a h' [Hh' [l ->]]. by apply Hf.
Qed.

Lemma reads_lookUpSubnet : reads (lookUpSubnet iz).
Proof. intros h Hh. vpc_step l Hl. apply wp_look_up; [done|]. intros r. by auto with mpc. Qed.
Lemma reads_lookUpSSHKey : reads (lookUpSSHKey iz).
Proof. intros h Hh. vpc_step l Hl. apply wp_look_up; [done|]. intros r. by auto with mpc. Qed.
Lemma reads_lookUpVpc : reads (lookUpVpc iz).
Proof. intros h Hh. vpc_step l Hl. apply wp_look_up; [done|]. intros r. by auto with mpc. Qed.

Lemma reads_getVpcClient : reads (getVpcClient iz).
Proof.
  intros h Hh. unfold getVpcClient, createAuthenticatedVpcService. cbn [negb]. apply wp_bind, wp_bind.
  vpc_step s Hs. apply wp_ret. destruct s as [s|err]; [|by do 2 apply wp_ret; auto with mpc].
  destruct (sec_Data s !! "api-key"); [|by do 2 apply wp_ret; auto with mpc].
  apply wp_trigger. intros r _. apply wp_ret. by auto with mpc.
Qed.

(** ** Addresses *)

(** A panic is excused after [h], or [i] has a primary network interface. *)
Definition excused (i : VpcInstance) (h : hist vpcE) : Prop :=
  interfaced i ∨ ∀ why l, harmless (l ++ h) → P why (l ++ h).

Lemma excused_app i l h : excused i h → excused i (l ++ h).
Proof. intros [Hi|HP]; [by left|]. right. intros why l'. rewrite app_assoc. apply HP. Qed.
Lemma excused_cons i ev h : excused i h → excused i (ev :: h).
Proof. apply (excused_app i [ev]). Qed.

(** The interface, where it is needed, is there or its absence excuses the panic. *)
Lemma wp_interface_id {A} i (f : string → vpc A) nic (Q : A → hist vpcE → Prop) h :
  harmless h → excused i h → vi_PrimaryNetworkInterface i = Some nic → (∀ s, wpz (f s) Q h) → wpz (deref nic ≫= f) Q h.
Proof. intros Hh He Hn Hf. destruct nic as [s|]; [apply Hf|]. destruct He as [[s Hs]|HP]; [congruence|by apply (HP _ [])]. Qed.

(** Helpers that need the interface of [i]. *)
Definition reads_of {A} (i : VpcInstance) (p : vpc A) : Prop :=
  ∀ h, harmless h → excused i h → wpz p (λ _ h', harmless h') h.

Lemma wp_attach_interface {A} i ip err (f : result unit → option string → vpc A) h :
  harmless h → excused i h →
  (∀ r nic h', harmless h' → excused i h' → vi_PrimaryNetworkInterface i = Some nic → wpz (f r nic) err h') →
  wpz (nic ← deref (vi_PrimaryNetworkInterface i);
       r ← trigger (AddInstanceNetworkInterfaceFloatingIP (vi_ID i) nic ip); f r nic) err h.
Proof.
  intros Hh He Hf. destruct (vi_PrimaryNetworkInterface i) as [nic|] eqn:Hn; cbn [deref]; apply wp_bind.
  - apply wp_ret. apply wp_bind, wp_trigger. intros r _. apply Hf; [by auto with mpc|by apply excused_cons|done].
  - destruct He as [[nic Hnic]|HP]; [congruence|]. by apply (HP _ []).
Qed.

Lemma reads_attach_available i ips : Forall described_ip ips → reads_of i (attach_available i ips).
Proof.
  induction ips as [|ip ips IH]; intros Hips h Hh He; cbn [attach_available]; [by apply wp_ret|].
  apply Forall_cons in Hips as [([id Hid] & [a Ha]) Hips].
  destruct (fip_Available ip); [|by apply IH].
  apply wp_attach_interface; [done..|]. intros r nic h' Hh' He' Hn. rewrite Hid, Ha.
  destruct r; apply wp_bind, wp_ret; [by apply wp_ret|].
  apply (wp_interface_id i); [done..|]. intros s. by apply wp_ret.
Qed.

Lemma reads_assignFloatingIP i : reads_of i (assignFloatingIP i).
Proof.
  intros h Hh He. unfold assignFloatingIP. vpc_step ips Hips. destruct ips as [ips|]; [|apply wp_ret; by auto with mpc].
  apply reads_attach_available; [by apply Hips|by auto with mpc|by apply excused_cons].
Qed.

Lemma reads_assignNewlyAllocatedIP i : described i → reads_of i (assignNewlyAllocatedIP i).
Proof.
  intros ([id Hid] & _) h Hh He. unfold assignNewlyAllocatedIP.
  vpc_step ip Hip. destruct ip as [ip|]; [|rewrite Hid; apply wp_bind, wp_ret, wp_ret; by auto with mpc].
  destruct (Hip ip eq_refl) as [_ [a Ha]]. rewrite Ha.
  apply wp_attach_interface; [by auto with mpc|by apply excused_cons|]. intros r nic h' Hh' He' Hn.
  apply wp_bind, wp_ret. destruct r; [by apply wp_ret|].
  apply (wp_interface_id i); [done..|]. intros s. by apply wp_ret.
Qed.

Lemma reads_assignNetworkInterfaceFloatingIP i : reads (assignNetworkInterfaceFloatingIP i).
Proof.
  intros h Hh. unfold assignNetworkInterfaceFloatingIP.
  destruct (vi_PrimaryNetworkInterface i) as [[nic|]|]; [|by apply wp_ret..]. vpc_step ips Hips.
  destruct ips as [[[|ip ips]|]|]; try (apply wp_ret; by auto with mpc).
  specialize (Hips _ eq_refl). apply Forall_cons in Hips as [(_ & [a ->]) _]. apply wp_ret. by auto with mpc.
Qed.

Lemma reads_assignIPToInstance i : described i → reads_of i (assignIPToInstance iz i).
Proof.
  intros Hi h Hh He. unfold assignIPToInstance. destruct (PrivateIP iz); [by apply wp_ret|].
  apply (wp_reads _ _ _ _ (reads_assignNetworkInterfaceFloatingIP i) Hh). intros ip l Hl.
  destruct (negb _); [by apply wp_ret|].
  pose proof Hi as (_ & _ & [s Hs] & _). rewrite Hs. apply wp_bind, wp_ret.
  destruct (status_decision s); [by apply wp_ret..|]. apply wp_bind.
  eapply wp_mono; [|by apply wp_frame, reads_assignFloatingIP; [|apply excused_app]].
  intros [[]|] h' [Hh' [l' ->]]; [|by apply wp_ret..].
  apply reads_assignNewlyAllocatedIP; [done..|by do 2 apply excused_app].
Qed.

(** ** Launches *)

(** The instance a launch asks for. *)
Record launch_request (id tag : string) (t : Z) (p : InstancePrototype) : Prop := {
  zr_name : ip_Name p = instance_name tag t;
  zr_task : ip_UserTags p = [id];
  zr_id : ∃ namespace name, valid_id id namespace name;
  zr_tag : validInstanceNamePattern tag = true;
  zr_profile : ip_Profile p = Profile iz ∧ ip_Zone p = Region iz ∧ ip_Image p = ImageId iz
}.

(** What [LaunchInstance] does: at most one instance is asked for, and it is the answer. *)
Inductive z_launches (id tag : string) : result string → list vpc_call → Prop :=
| nothing_created err l : Forall benign l → z_launches id tag (Err err) l
| create_failed t p err err' l :
    launch_request id tag t p → Z_Now t ∈ l → Forall benign l →
    z_launches id tag (Err err') (Z_Create p (Err err) :: l)
| created t p i instance l :
    launch_request id tag t p → Z_Now t ∈ l → Forall benign l → vi_ID i = Some instance →
    z_launches id tag (Ok instance) (Z_Create p (Ok i) :: l).

(** What was created has a name of the tag. *)
Lemma z_launches_name id tag r l p x : z_launches id tag r l → Z_Create p x ∈ l → ∃ t, ip_Name p = instance_name tag t.
Proof.
  assert (∀ l, Forall benign l → Z_Create p x ∉ l) as Hno.
  { intros l' Hb Hi. exact (proj1 (Forall_forall _ _) Hb _ Hi). }
  intros [e l' Hb|t q e e' l' [Hn] _ Hb|t q i inst l' [Hn] _ Hb _] Hin; [by destruct (Hno l')|..];
    (apply elem_of_cons in Hin as [[= -> _]|Hin]; [by exists t|by destruct (Hno l')]).
Qed.

Lemma wp_create_instance tag id t ns name h :
  valid_id id ns name → validInstanceNamePattern tag = true → Z_Now t ∈ calls h → harmless h →
  wpz (create_instance iz (instance_name tag t) id) (λ r h', z_launches id tag r (calls h')) h.
Proof.
  intros Hid Ht Hin Hh. unfold create_instance.
  assert (∀ l, Z_Now t ∈ calls (l ++ h)) as Hin' by (intros l; rewrite calls_app, elem_of_app; by right).
  apply (wp_reads _ _ _ _ reads_lookUpVpc Hh). intros [v|] l1 H1; [|by apply wp_ret, nothing_created].
  apply (wp_reads _ _ _ _ reads_lookUpSSHKey H1). intros [k|] l2 H2; [|by apply wp_ret, nothing_created].
  apply (wp_reads _ _ _ _ reads_lookUpSubnet H2). intros [s|] l3 H3; [|by apply wp_ret, nothing_created].
  rewrite !app_assoc in *. set (l := (l3 ++ l2) ++ l1) in *. vpc_step i Hi.
  assert (launch_request id tag t (instance_prototype iz (instance_name tag t) id v k s)) as Hr
    by (split; [done|done|by exists ns, name|done|done]).
  destruct i as [i|err]; [|by apply wp_ret; eapply create_failed].
  destruct (Hi i eq_refl) as ([instance Hinst] & _). rewrite Hinst. apply wp_bind. do 2 apply wp_ret. by eapply created.
Qed.

Lemma wp_z_LaunchInstance id tag :
  wpz (LaunchInstance iz id tag) (λ r h, z_launches id tag r (calls h)) [].
Proof.
  unfold LaunchInstance. apply (wp_reads _ _ _ _ reads_getVpcClient harmless_nil).
  intros [u|] l Hl; rewrite app_nil_r in *; [|by apply wp_ret, nothing_created].
  apply wp_bind, wp_trigger. intros t _. unfold createInstanceName.
  set (h := Ev Vpc_Now t :: l). assert (harmless h) as Hh by (subst h; auto with mpc).
  destruct (validInstanceNamePattern tag) eqn:Ht; cbn [negb]; [|by apply wp_ret, nothing_created].
  destruct (ValidateTaskRunID id) eqn:Hv; [by apply wp_ret, nothing_created|].
  apply ValidateTaskRunID_iff in Hv as (ns & name & Hid). eapply wp_create_instance; [done..|left|done].
Qed.

(** ** Counting and listing *)

Definition of_tag (tag : string) (i : VpcInstance) : bool := HasPrefix (default "" (vi_Name i)) tag.

Lemma wp_vpc_instances f :
  wpz (vpc_instances iz f) (λ r h, harmless h ∧ ∀ l, r = Ok l →
    Forall described l ∧ ∃ g, Z_List g (Vpc iz) (Ok l) ∈ calls h) [].
Proof.
  unfold vpc_instances. apply (wp_reads _ _ _ _ reads_getVpcClient harmless_nil).
  intros [u|] l0 H0; rewrite app_nil_r in *; [|by apply wp_ret].
  apply (wp_reads _ _ _ _ reads_lookUpVpc H0). intros [v|] l1 H1; [|by apply wp_ret].
  vpc_step l Hl. apply wp_ret. split; [by auto with mpc|]. intros l' ->%map_err_Ok.
  split; [by apply Hl|]. exists (vpc_ResourceGroup v). left.
Qed.

Lemma wp_z_CountInstances tag :
  wpz (CountInstances iz tag) (λ r h, harmless h ∧ ∀ n, r = Ok n →
    ∃ g l, Z_List g (Vpc iz) (Ok l) ∈ calls h ∧ n = Z.of_nat (length (filter (λ i, of_tag tag i = true) l))) [].
Proof.
  unfold CountInstances. apply wp_bind. eapply wp_mono; [|apply wp_vpc_instances].
  intros [l|err] h [Hh Hl]; [|by apply wp_ret]. destruct (Hl l eq_refl) as [Hd [g Hg]].
  apply wp_bind. apply (wp_foldM _ _ (λ pre n h', h' = h ∧ n = Z.of_nat (length (filter (λ i, of_tag tag i = true) pre))) l 0%Z []); [done|..].
  - intros pre i n h' Hin [-> ->]. apply (Forall_forall _ l) with (x := i) in Hd as (_ & [nm Hn] & _); [|done].
    unfold count_instance. rewrite Hn. apply wp_bind, wp_ret, wp_ret. split; [done|].
    rewrite filter_app, length_app, filter_cons, filter_nil.
    assert (of_tag tag i = HasPrefix nm tag) as Hot by (unfold of_tag; by rewrite Hn).
    destruct (HasPrefix nm tag); [rewrite decide_True by done|rewrite decide_False by congruence]; simpl; lia.
  - intros n h' [-> ->]. apply wp_ret. split; [done|]. intros n' [= <-]. by exists g, l.
Qed.

(** A listed instance: it has the tag, and its address answered. *)
Definition z_lists (tag : string) (l : list VpcInstance) (h : list vpc_call) (vm : CloudVMInstance) : Prop :=
  ∃ i, i ∈ l ∧ of_tag tag i = true ∧ vi_ID i = Some (InstanceId vm) ∧ vi_CreatedAt i = Some (StartTime vm) ∧
    Z_Live (Address vm) None ∈ h.

Lemma z_lists_mono tag pre i l h vm : z_lists tag pre h vm → z_lists tag (pre ++ [i]) (l ++ h) vm.
Proof.
  intros (j & ? & ? & ? & ? & ?). exists j. rewrite !elem_of_app. split_and!; auto.
Qed.

(** At most one listed instance for each that has the tag, and every one as above. *)
Definition z_listing (tag : string) (l : list VpcInstance) (h : list vpc_call) (vms : list CloudVMInstance) : Prop :=
  length vms ≤ length (filter (λ i, of_tag tag i = true) l) ∧ Forall (z_lists tag l h) vms.

Lemma z_listing_skip tag pre i l h vms : z_listing tag pre h vms → z_listing tag (pre ++ [i]) (l ++ h) vms.
Proof.
  intros [Hlen Hall]. split; [rewrite filter_app, length_app; lia|].
  eapply Forall_impl; [exact Hall|]. intros vm. apply z_lists_mono.
Qed.

Lemma z_listing_one tag pre i h vms vm :
  z_listing tag pre h vms → of_tag tag i = true → vi_ID i = Some (InstanceId vm) → vi_CreatedAt i = Some (StartTime vm) →
  Z_Live (Address vm) None ∈ h → z_listing tag (pre ++ [i]) h (vms ++ [vm]).
Proof.
  intros Hl Ht Hid Hc Hlive. destruct (z_listing_skip tag pre i [] h vms Hl) as [_ Hall]. destruct Hl as [Hlen _].
  split.
  - rewrite filter_app, !length_app, filter_cons, filter_nil, decide_True by done. simpl. lia.
  - apply Forall_app_2; [done|]. repeat constructor. exists i. rewrite elem_of_app. split_and!; [right; left|done..].
Qed.

Lemma excused_answered i c h :
  (∀ why h, z_panics why h → P why h) → c ∈ calls h → (¬ interfaced i → omits_interface c) → excused i h.
Proof.
  intros HP Hc Hi. destruct (vi_PrimaryNetworkInterface i) as [[nic|]|] eqn:Hn; [by left; exists nic|..];
    (right; intros why l Hl; apply HP; split; [done|]; exists c; rewrite calls_app, elem_of_app; split; [by right|];
     apply Hi; unfold interfaced; rewrite Hn; naive_solver).
Qed.

Lemma wp_list_instance tag pre i vms h :
  described i → excused i h → harmless h → z_listing tag pre (calls h) vms →
  wpz (list_instance iz tag vms i) (λ vms' h', harmless h' ∧ z_listing tag (pre ++ [i]) (calls h') vms') h.
Proof.
  intros Hi He Hh Hl. pose proof Hi as ([id Hid] & [nm Hn] & _ & _ & [t Ht]).
  assert (∀ l, z_listing tag (pre ++ [i]) (calls (l ++ h)) vms) as Hskip
    by (intros l; rewrite calls_app; by apply z_listing_skip).
  unfold list_instance. rewrite Hn, Hid, Ht. apply wp_bind, wp_ret.
  destruct (HasPrefix nm tag) eqn:Hp; cbn [negb]; [|apply wp_ret; split; [done|by apply (Hskip [])]].
  apply wp_bind. eapply wp_mono; [|by apply wp_frame, reads_assignIPToInstance]. intros [addr|] h' [Hl' [l ->]].
  2:{ apply wp_bind, wp_ret, wp_ret. by split. }
  apply wp_bind, wp_trigger. intros r _.
  assert (harmless (Ev (checkIfIpIsLive addr) r :: l ++ h)) as Hh' by auto with mpc.
  destruct r as [err|].
  - apply wp_bind, wp_ret, wp_ret. split; [done|]. apply (Hskip (_ :: l)).
  - apply wp_bind, wp_ret, wp_bind. do 2 apply wp_ret. split; [done|].
    apply z_listing_one; [|unfold of_tag; by rewrite Hn|done|done|left].
    rewrite app_comm_cons, calls_app. destruct Hl as [Hlen Hall]. split; [done|].
    eapply Forall_impl; [exact Hall|]. intros vm (j & ? & ? & ? & ? & ?). exists j. rewrite elem_of_app. auto 10.
Qed.

Lemma wp_z_ListInstances tag :
  (∀ why h, z_panics why h → P why h) →
  wpz (ListInstances iz tag) (λ r h, harmless h ∧ ∀ vms, r = Ok vms →
    ∃ g l, Z_List g (Vpc iz) (Ok l) ∈ calls h ∧ z_listing tag l (calls h) vms) [].
Proof.
  intros HP. unfold ListInstances. apply wp_bind. eapply wp_mono; [|apply wp_vpc_instances].
  intros [l|err] h [Hh Hl]; [|by apply wp_ret]. destruct (Hl l eq_refl) as [Hd [g Hg]].
  apply wp_bind. apply (wp_foldM _ _ (λ pre vms h', (harmless h' ∧ z_listing tag pre (calls h') vms) ∧ suffix h h') l [] []).
  - split; [split; [done|]|done]. by split; [|constructor].
  - intros pre i vms h' Hin [[Hh' Hl'] Hs]. apply (Forall_forall _ l) with (x := i) in Hd; [|done].
    assert (excused i h') as He.
    { destruct Hs as [k ->]. apply excused_app, (excused_answered i _ h HP Hg). intros Hn. by exists i. }
    eapply wp_mono; [|by apply wp_frame, (wp_list_instance tag pre)]. intros vms' h'' [? Hs']. split; [done|]. by etrans.
  - intros vms h' [[Hh' Hl'] [k ->]]. apply wp_ret. split; [done|]. intros vms' [= <-]. exists g, l.
    rewrite calls_app, elem_of_app. rewrite <- calls_app. auto.
Qed.

(** ** The other methods *)

Lemma wp_z_GetInstanceAddress id :
  (∀ why h, z_panics why h → P why h) →
  wpz (GetInstanceAddress iz id) (λ r h, harmless h ∧ ∀ ip, r = Ok ip → ip ≠ "" → Z_Live ip None ∈ calls h) [].
Proof.
  intros HP. unfold GetInstanceAddress. apply (wp_reads _ _ _ _ reads_getVpcClient harmless_nil).
  intros [u|] l Hl; rewrite app_nil_r in *; [|by apply wp_ret].
  vpc_step i Hi. destruct i as [i|]; [|apply wp_ret; split; [by auto with mpc|by intros ip [= <-]]].
  assert (harmless (Ev (GetInstance id) (Ok i) :: l)) as Hl' by auto with mpc.
  assert (excused i (Ev (GetInstance id) (Ok i) :: l)) as He
    by (apply (excused_answered i (Z_Get id (Ok i)) _ HP); [left|done]).
  apply wp_bind. eapply wp_mono; [|by apply reads_assignIPToInstance; [apply Hi|..]].
  intros [ip|] l' H'; [|by apply wp_ret].
  destruct ip as [|c ip]; [apply wp_ret; split; [done|by intros ip [= <-]]|].
  apply wp_bind, wp_trigger. intros r _. apply wp_ret. split; [by auto with mpc|].
  intros ip' [= <-] Hne. destruct r; [done|left].
Qed.

Lemma wp_z_GetState id : wpz (GetState iz id) (λ _ h, harmless h) [].
Proof.
  unfold GetState. apply (wp_reads _ _ _ _ reads_getVpcClient harmless_nil).
  intros [u|] l Hl; rewrite app_nil_r in *; [|by apply wp_ret].
  vpc_step i Hi. destruct i as [i|]; [|apply wp_ret; by auto with mpc].
  destruct (Hi i eq_refl) as (_ & _ & _ & [s Hs] & _). rewrite Hs. apply wp_bind. do 2 apply wp_ret. by auto with mpc.
Qed.

Lemma wp_z_TerminateInstance id :
  wpz (TerminateInstance iz id) (λ r h, match r with
    | Ok _ => ∃ t l, calls h = Z_Go id (t + 10 * Minute) :: Z_Now t :: l ∧ Forall benign l
    | Err _ => harmless h
    end) [].
Proof.
  unfold TerminateInstance. apply (wp_reads _ _ _ _ reads_getVpcClient harmless_nil).
  intros [u|] l Hl; rewrite app_nil_r in *; [|by apply wp_ret].
  apply wp_bind, wp_trigger. intros t _. apply wp_bind, wp_trigger. intros u' _. apply wp_ret.
  by exists t, (calls l).
Qed.

End provider.

(** ** The deletion loop *)

(** The contract when the instance is never found pending. *)
Definition settled_spec (start : Z) : contract vpcE := λ h X e x,
  vpc_spec start h X e x ∧
  match e in vpcE X return X → Prop with
  | GetInstance _ => λ r, ∀ i, r = Ok i → vi_Status i ≠ Some StatusPending
  | _ => λ _, True
  end x.

(** The deletion requests of a history. *)
Fixpoint deletions (l : list vpc_call) : nat :=
  match l with
  | [] => 0
  | Z_Delete _ _ :: l => S (deletions l)
  | _ :: l => deletions l
  end.

Section loop.
Variables (start : Z) (instanceId : string).

(** A round is the last one, or the time-out was not over and ten seconds more are gone. *)
Lemma wp_terminate_round timeout h :
  wp (settled_spec start) (terminate_round instanceId timeout) (λ last h',
    deletions (calls h') ≤ S (deletions (calls h)) ∧
    (last = false → (start + elapsed h ≤ timeout)%Z ∧ (elapsed h' = elapsed h + 10 * Second)%Z)) h.
Proof.
  unfold terminate_round. apply wp_bind, wp_trigger. intros i [[Hi _] Hnp]. hnf in Hi, Hnp.
  destruct i as [i|]; [|apply wp_ret; split; [simpl; lia|done]].
  destruct (Hi i eq_refl) as ([id Hid] & _ & [s Hs] & _). specialize (Hnp i eq_refl). rewrite Hs in *.
  assert (∀ r h', wp (settled_spec start) (match r : result unit with Err _ => _ ← deref (vi_ID i); mret tt | Ok _ => mret tt end)
    (λ _ h'', h'' = h') h') as Hlog.
  { intros r h'. rewrite Hid. by destruct r. }
  apply wp_bind, wp_ret. destruct s; try done; try (apply wp_ret; split; [simpl; lia|done]).
  all: apply wp_bind, wp_trigger; intros r _; apply wp_bind; eapply wp_mono; [|apply Hlog]; intros u h' ->;
    apply wp_bind, wp_trigger; intros t [[_ Ht] _]; assert (start + (0 + (0 + elapsed h)) ≤ t)%Z as Ht' by exact Ht;
    destruct (timeout <? t)%Z eqn:Hlt; [apply wp_ret; split; [simpl; lia|done]|apply Z.ltb_ge in Hlt];
    apply wp_bind, wp_trigger; intros u' _; apply wp_ret; split; [simpl; lia|]; intros _; cbn [elapsed]; lia.
Qed.

(** With more rounds than ten-second naps fit before the time-out, the loop returns. *)
Lemma wp_terminate_loop timeout fuel h :
  (timeout < start + elapsed h + Z.of_nat fuel * (10 * Second))%Z →
  wp (settled_spec start) (terminate_loop (S fuel) instanceId timeout) (λ returned h',
    returned = true ∧ deletions (calls h') ≤ S fuel + deletions (calls h)) h.
Proof.
  revert h. induction fuel as [|fuel IH]; intros h Hf; cbn [terminate_loop]; apply wp_bind;
    (eapply wp_mono; [|apply wp_terminate_round]); intros last h' [Hd Hl].
  - destruct last; apply wp_ret; [split; [done|lia]|]. destruct (Hl eq_refl). lia.
  - destruct last; [apply wp_ret; split; [done|lia]|]. destruct (Hl eq_refl) as [? He].
    eapply wp_mono; [|apply IH; rewrite He; lia]. intros returned h'' [? ?]. split; [done|lia].
Qed.
End loop.

(** An environment in which the instance stays pending; the clock may show any time. *)
Definition pending_instance (id : string) : VpcInstance :=
  {| vi_ID := Some id; vi_Name := Some id; vi_Status := Some StatusPending; vi_LifecycleState := Some "pending";
     vi_CreatedAt := Some 0%Z; vi_ResourceGroup := ""; vi_PrimaryNetworkInterface := Some (Some "nic");
     vi_NetworkInterfaces := [] |}.
Definition pending_answer (t : Z) {X} (e : vpcE X) : X :=
  match e in vpcE X return X with
  | Kube_GetSecret _ => Err (ErrText "")
  | Getenv _ => ""
  | NewVpcV1 _ _ => Ok tt
  | ListSubnets => Ok []
  | ListKeys => Ok []
  | ListVpcs => Ok []
  | Vpc_ListInstances _ _ => Ok []
  | CreateInstance _ => Err (ErrText "")
  | GetInstance id => Ok (pending_instance id)
  | DeleteInstance _ => Ok tt
  | ListInstanceNetworkInterfaceFloatingIps _ _ => Ok None
  | ListFloatingIps _ => Ok []
  | AddInstanceNetworkInterfaceFloatingIP _ _ _ => Ok tt
  | CreateFloatingIP _ _ => Err (ErrText "")
  | checkIfIpIsLive _ => None
  | Vpc_Now => t
  | Sleep _ => tt
  | Go _ _ => tt
  end.
(** Its state is the time: sleeping passes time. *)
Definition pending_env : environment vpcE Z := λ X e t,
  (pending_answer t e, match e with Sleep d => t + d | _ => t end)%Z.

Lemma run_pending fuel id timeout t :
  run pending_env (terminate_loop fuel id timeout) t = (Done false, (t + Z.of_nat fuel * (10 * Second))%Z).
Proof.
  revert t. induction fuel as [|fuel IH]; intros t.
  - simpl. f_equal. lia.
  - change (run pending_env (terminate_loop (S fuel) id timeout) t)
      with (run pending_env (terminate_loop fuel id timeout) (t + 10 * Second)%Z).
    rewrite IH. f_equal. lia.
Qed.

(** ** Properties *)

(** C36. The name of an instance is 18 characters longer than its tag, so it has 63 at most
    for a tag that is accepted for s390x; it is made of lower-case letters, digits and
    hyphens. *)
Theorem createInstanceName_bounded key tag t name :
  createInstanceName tag t = Ok name →
  String.length name = String.length tag + 18 ∧ str_forall vpc_name_char name = true ∧
  (validateDynamicInstanceTag key tag = None →
   (∃ p, Split key "-" = p ++ ["s390x"]) → String.length name ≤ 63).
Proof.
  intros (_ & Hlen & Hall)%createInstanceName_Ok. split_and!; [done..|].
  intros (k0 & kp & v0 & vp & platform & Hk & _ & _ & _ & Hb)%validateDynamicInstanceTag_iff [p Hp].
  assert (platform = "s390x") as ->.
  { rewrite Hp, app_comm_cons in Hk. by apply app_inj_tail in Hk as [_ <-]. }
  specialize (Hb eq_refl). lia.
Qed.

(** C34. What [CountInstances] and [ListInstances] select for a tag are the instances of the
    VPC whose name has the tag, as it is configured, as a prefix: the count is the number
    of these, and every listed instance is one of them, whose address answered. An instance
    that [LaunchInstance] creates for the tag, one at most and for a valid TaskRun id, with
    the id as its tag, is among the selected ones exactly when the tag has no capital
    letter and no underscore: with such a tag no instance is ever counted, and the
    platform's maximum does not hold. Only the listing can panic, after an answer about an
    instance without a primary network interface. *)
Theorem launched_instance_selected start iz id tag :
  wp (vpc_spec start) (LaunchInstance iz id tag) (λ r h, z_launches iz id tag r (calls h) ∧
    ∀ p x i, Z_Create p x ∈ calls h → vi_Name i = Some (ip_Name p) →
      (HasPrefix (default "" (vi_Name i)) tag = true ↔ normalised tag = tag)) [] ∧
  wp (vpc_spec start) (CountInstances iz tag) (λ r h, harmless h ∧ ∀ n, r = Ok n →
    ∃ g l, Z_List g (Vpc iz) (Ok l) ∈ calls h ∧
      n = Z.of_nat (length (filter (λ i, HasPrefix (default "" (vi_Name i)) tag = true) l))) [] ∧
  wpp (vpc_spec start) z_panics (ListInstances iz tag) (λ r h, harmless h ∧ ∀ vms, r = Ok vms →
    ∃ g l, Z_List g (Vpc iz) (Ok l) ∈ calls h ∧
      length vms ≤ length (filter (λ i, HasPrefix (default "" (vi_Name i)) tag = true) l) ∧
      Forall (λ vm, ∃ i, i ∈ l ∧ HasPrefix (default "" (vi_Name i)) tag = true ∧
        vi_ID i = Some (InstanceId vm) ∧ vi_CreatedAt i = Some (StartTime vm) ∧
        Z_Live (Address vm) None ∈ calls h) vms) [].
Proof.
  split_and!; [|apply wp_z_CountInstances|by apply wp_z_ListInstances].
  eapply wp_mono; [|apply wp_z_LaunchInstance]. intros r h Hl. split; [done|]. intros p x i Hin Hi.
  rewrite Hi. cbn [default from_option]. destruct (z_launches_name _ _ _ _ _ _ _ Hl Hin) as [t ->].
  apply instance_name_prefix.
Qed.

(** When the instance is never found pending, the background deletion returns within
    62 rounds, with at most that many requests: the clock moves on ten seconds a round, and
    ten minutes after the start it gives up. *)
Theorem deletion_returns start instanceId :
  wp (settled_spec start) (terminate_loop 62 instanceId (start + 10 * Minute)) (λ returned h,
    returned = true ∧ deletions (calls h) ≤ 62) [].
Proof.
  eapply wp_mono; [|apply wp_terminate_loop]; [|unfold Minute; simpl; unfold Second; lia].
  intros returned h [-> Hd]. split; [done|]. simpl in Hd. lia.
Qed.

(** C35. While the instance stays pending the deletion does not give up, ten minutes or not:
    after any number of rounds, each of which slept ten seconds, it has not returned. *)
Theorem deletion_waits_for_pending fuel instanceId start :
  run pending_env (terminate_loop fuel instanceId (start + 10 * Minute)) start =
  (Done false, (start + Z.of_nat fuel * (10 * Second))%Z).
Proof. apply run_pending. Qed.

Lemma createInstanceName_bounded_witness :
  ∃ name, createInstanceName "prod-s390x" (1700000000 * Second) = Ok name ∧
    String.length name = 28 ∧ str_forall vpc_name_char name = true ∧
    (validateDynamicInstanceTag "linux-s390x" "prod-s390x" = None →
     (∃ p, Split "linux-s390x" "-" = p ++ ["s390x"]) → String.length name ≤ 63).
Proof.
  eexists. split; [vm_compute; reflexivity|].
  apply (createInstanceName_bounded "linux-s390x" "prod-s390x" (1700000000 * Second)). vm_compute. reflexivity.
Defined.
