(* ===== verification/IbmPowerFacts.v ===== *)
(** * The IBM Power Systems provider: the requests it makes, what it launches, and its
      two background loops *)
From S2P Require Import Prelude GoLib GoStrings GoFloat Prog Kube NetIP Config Cloud CloudFacts Calls IbmZ IbmZFacts IbmPower.
Import Power.

(** ** The contract *)

(** What the Power API always fills in. *)
Definition described_pvm (i : PVMInstance) : Prop :=
  is_Some (PvmInstanceID i) ∧ is_Some (ServerName i) ∧ is_Some (Status i) ∧ is_Some (DiskSize i).

(** What it may leave out, although [GetState] relies on it: the health of an instance in
    the status ["ERROR"]. *)
Definition omits_health (i : PVMInstance) : Prop := Status i = Some "ERROR" ∧ Health i = None.

Definition pow_ok {X} (e : powE X) : X → Prop :=
  match e in powE X return X → Prop with
  | Request_instances _ => λ r, ∀ l, r = Ok l → Forall described_pvm l
  | Request_launched _ => λ r, ∀ l, r = Ok l → l ≠ [] ∧ Forall described_pvm l
  | Request_instance _ => λ r, ∀ i, r = Ok i → described_pvm i
  | _ => λ _, True
  end.

(** ** Calls *)

Inductive pow_call :=
| P_Secret (key : NamespacedName) (a : result Secret)
| P_Base (url apiKey : string) (a : result unit)
| P_Prepare (a : option error)       (* a step of the request builder *)
| P_List (r : http_request) (a : result (list PVMInstance))
| P_Launch (r : http_request) (a : result (list PVMInstance))
| P_Get (r : http_request) (a : result PVMInstance)
| P_Delete (r : http_request) (a : result unit)
| P_Volume (r : http_request) (a : result unit)
| P_Live (ip : string) (a : option error)
| P_Now (t : Z)
| P_Sleep (d : Z)
| P_GoDelete (instanceID : string) (timeout : Z)
| P_GoResize (id : string) (timeout : Z)
| P_Other.

Definition pow_call_of (ev : event powE) : pow_call :=
  (match ev_req ev in powE X return X → pow_call with
   | Kube_GetSecret key => P_Secret key
   | NewBaseService url k => P_Base url k
   | ResolveRequestURL _ _ _ => P_Prepare
   | SetBodyContentJSON _ => P_Prepare
   | Build _ => P_Prepare
   | Request_instances r => P_List r
   | Request_launched r => P_Launch r
   | Request_instance r => P_Get r
   | Request_deleted r => P_Delete r
   | Request_volume r => P_Volume r
   | checkIfIpIsLive ip => P_Live ip
   | Pow_Now => P_Now
   | Sleep d => λ _, P_Sleep d
   | Go_delete i t => λ _, P_GoDelete i t
   | Go_resize i t => λ _, P_GoResize i t
   | _ => λ _, P_Other
   end) (ev_ans ev).
Definition pow_calls (h : hist powE) : list pow_call := pow_call_of <$> h.

(** There is no client: no secret, no API key in it, or no service. *)
Definition no_client (c : pow_call) : Prop :=
  match c with
  | P_Secret _ (Err _) => True
  | P_Secret _ (Ok s) => sec_Data s !! "api-key" = None
  | P_Base _ _ (Err _) => True
  | _ => False
  end.
(** A request could not be made, or was answered with an error. *)
Definition refused (c : pow_call) : Prop :=
  match c with
  | P_Prepare (Some _) => True
  | P_List _ (Err _) | P_Launch _ (Err _) | P_Get _ (Err _) | P_Delete _ (Err _) | P_Volume _ (Err _) => True
  | _ => False
  end.

(** The time that passed in [time.Sleep]. *)
Fixpoint slept (l : list pow_call) : Z :=
  match l with
  | [] => 0
  | P_Sleep d :: l => d + slept l
  | _ :: l => slept l
  end.
Lemma slept_app l l' : slept (l ++ l') = (slept l + slept l')%Z.
Proof. induction l as [|[] l IH]; simpl; lia. Qed.

(** The clock has passed [start], and moves on by the time slept at least. *)
Definition pow_spec (start : Z) : contract powE := λ h X e x,
  pow_ok e x ∧ match e in powE X return X → Prop with
               | Pow_Now => λ t, (start + slept (pow_calls h) ≤ t)%Z
               | _ => λ _, True
               end x.

(** ** Cloud Resource Names *)

Lemma segment_lookup l i s : i < length l → segment l i = s ↔ l !! i = Some s.
Proof.
  intros [x Hx]%lookup_lt_is_Some. unfold segment. rewrite Hx. simpl. split; [by intros ->|by intros [= ->]].
Qed.

(** The service instance that a name of ten segments gives. *)
Record names_instance (crn id : string) : Prop := {
  crn_segments : length (Split crn ":") = 10;
  crn_scheme : Split crn ":" !! 0 = Some "crn";
  crn_service : Split crn ":" !! serviceNameIndex = Some "power-iaas";
  crn_location : Split crn ":" !! locationIndex ≠ Some "global";
  crn_instance : Split crn ":" !! serviceInstanceIndex = Some id;
  crn_not_null : id ≠ ""
}.

Lemma crn_prefix crn : HasPrefix crn "crn:" = true ↔ Split crn ":" !! 0 = Some "crn" ∧ 1 < length (Split crn ":").
Proof.
  split.
  - intros Hp. destruct (prefix_split _ _ Hp) as [s ->].
    change ("crn:" +:+ s) with ("crn" +:+ String ":" s). rewrite Split_app_sep by done. split; [done|].
    simpl. destruct (Split s ":") eqn:Hs; [by destruct (Split_not_nil s ":")|simpl; lia].
  - intros [Hh Hl]. rewrite <- (Join_Split crn ":"). destruct (Split crn ":") as [|a [|b l]]; [done|simpl in Hl; lia|].
    injection Hh as ->. rewrite Join_cons. by apply (prefix_app "crn:").
Qed.

Lemma parseCRN_iff pw id : parseCRN pw = Ok id ↔ names_instance (CRN pw) id.
Proof.
  unfold parseCRN. set (l := Split (CRN pw) ":"). split.
  - destruct (HasPrefix (CRN pw) "crn:") eqn:Hp; [|done]. cbn [negb]. apply crn_prefix in Hp as [H0 _].
    destruct (length l =? 10) eqn:Hl; [|done]. cbn [negb]. apply Nat.eqb_eq in Hl.
    destruct (String.eqb_spec (segment l serviceNameIndex) "power-iaas") as [Hs|]; [|done]. cbn [negb].
    destruct (String.eqb_spec (segment l locationIndex) "global") as [|Hg]; [done|].
    destruct (String.eqb_spec (segment l serviceInstanceIndex) "") as [|Hi]; [done|]. intros [= <-].
    assert (∀ i, i < 10 → i < length l) as Hlt by (intros; lia).
    split; try done; try (apply segment_lookup; [apply Hlt; vm_compute; lia|done]).
    intros Hc. apply Hg, segment_lookup; [apply Hlt; vm_compute; lia|done].
  - intros [Hl H0 Hs Hg Hi Hn]. fold l in Hl, H0, Hs, Hg, Hi.
    assert (∀ i, i < 10 → i < length l) as Hlt by (intros; lia).
    rewrite (proj2 (crn_prefix _)) by (split; [done|fold l; lia]). rewrite Hl. cbn [negb Nat.eqb].
    apply segment_lookup in Hs; [|apply Hlt; vm_compute; lia].
    apply segment_lookup in Hi; [|apply Hlt; vm_compute; lia].
    rewrite Hs, Hi. cbn [String.eqb Ascii.eqb Bool.eqb negb].
    destruct (String.eqb_spec (segment l locationIndex) "global") as [Hc|_].
    { destruct Hg. apply segment_lookup; [apply Hlt; vm_compute; lia|done]. }
    by destruct (String.eqb_spec id "").
Qed.

(** ** Requests *)

Section provider.
Variables (start : Z) (pw : IBMPowerDynamicConfig).
Abbreviation pows := (pow_spec start).
Abbreviation pmakes P p Q := (makes pows pow_call_of P p Q).

(** A request that goes to the configured service and cloud instance, with its name as a
    header. *)
Record addressed (r : http_request) : Prop := {
  ad_url : rq_url r = Url pw;
  ad_cloud : ∃ id, names_instance (CRN pw) id ∧ rq_params r !! "cloud" = Some id;
  ad_crn : rq_headers r !! crnHeader = Some (CRN pw);
  ad_accept : rq_headers r !! "Accept" = Some acceptHeader
}.

(** Nothing was asked of the API, and no time was slept; the secret and the service are
    those of the configuration. *)
Definition idle (c : pow_call) : Prop :=
  match c with
  | P_Secret key _ => key = Key (SystemNamespace pw) (p_Secret pw)
  | P_Base url _ _ => url = Url pw
  | P_Prepare _ | P_Other => True
  | _ => False
  end.
(** Reads: lists and gets, look at the clock, and connection attempts. *)
Definition reading (c : pow_call) : Prop :=
  match c with
  | P_List r _ | P_Get r _ => addressed r
  | P_Live _ _ | P_Now _ => True
  | _ => idle c
  end.

Lemma idle_reading c : idle c → reading c.
Proof. by destruct c. Qed.

(** A request could not be made, or was refused. *)
Definition trouble (l : list pow_call) : Prop := Exists refused l ∨ ¬ ∃ id, names_instance (CRN pw) id.
(** There was no client to make it. *)
Definition clientless (l : list pow_call) : Prop := Exists no_client l.

Lemma trouble_l l l' : trouble l → trouble (l' ++ l).
Proof. intros [Hl|Hc]; [left; apply Exists_app; by right|by right]. Qed.
Lemma trouble_r l l' : trouble l' → trouble (l' ++ l).
Proof. intros [Hl|Hc]; [left; apply Exists_app; by left|by right]. Qed.
Lemma trouble_cons c l : refused c → trouble (c :: l).
Proof. left. by left. Qed.
Lemma clientless_l l l' : clientless l → clientless (l' ++ l).
Proof. intros Hl. apply Exists_app. by right. Qed.
#[local] Hint Resolve trouble_l trouble_r trouble_cons clientless_l : mpc.

Lemma pow_getPowerClient :
  pmakes idle (getPowerClient pw) (λ r l,
    match r with Ok u => ∃ k, P_Base (Url pw) k (Ok u) ∈ l | Err _ => clientless l end).
Proof.
  unfold getPowerClient, createAuthenticatedBaseService. cbn [negb].
  eapply (makes_bind _ _ _ _ _ (λ r l, match r with Ok u => ∃ k, P_Base (Url pw) k (Ok u) ∈ l | Err _ => clientless l end));
    [|intros [u|err] l Hl; by apply makes_ret].
  eapply (makes_bind _ _ _ _ _ (λ r l, match r with Ok k => True | Err _ => clientless l end)).
  - eapply makes_bind; [by apply (makes_trigger _ _ _ _ (λ r l, l = [P_Secret (Key (SystemNamespace pw) (p_Secret pw)) r]))|].
    intros [s|err] l ->; apply makes_ret; [|by left]. destruct (sec_Data s !! "api-key") eqn:Hs; [done|by left].
  - intros [k|err] l Hl; [|by apply makes_ret]. apply makes_trigger. intros h [u|err] _; (split; [done|]).
    + exists k. left.
    + by left.
Qed.

Lemma pow_resolve path params :
  pmakes idle (resolve pw path params) (λ r l,
    match r with Ok ps => ∃ id, names_instance (CRN pw) id ∧ ps = params id | Err _ => trouble l end).
Proof.
  unfold resolve. destruct (parseCRN pw) as [id|err] eqn:Hc.
  - apply parseCRN_iff in Hc. eapply makes_bind; [by apply (makes_trigger _ _ _ _ (λ r l, l = [P_Prepare r]))|].
    intros [err|] l ->; apply makes_ret; [by apply trouble_cons|by exists id].
  - apply makes_ret. right. intros [id Hid]. apply parseCRN_iff in Hid. congruence.
Qed.

Lemma crn_header b : headers pw b !! crnHeader = Some (CRN pw) ∧ headers pw b !! "Accept" = Some acceptHeader.
Proof.
  unfold headers. destruct b; split.
  - rewrite !lookup_insert_ne by differ. apply lookup_singleton_eq.
  - rewrite lookup_insert_ne by differ. apply lookup_insert_eq.
  - rewrite lookup_insert_ne by differ. apply lookup_singleton_eq.
  - apply lookup_insert_eq.
Qed.

Lemma pow_build m path params query b f id :
  names_instance (CRN pw) id → params !! "cloud" = Some id →
  pmakes idle (build pw m path params query b f) (λ r l, match r with
    | Ok rq => addressed rq ∧ rq_method rq = m ∧ rq_path rq = path ∧ rq_params rq = params ∧ rq_query rq = query ∧ rq_body rq = b
    | Err _ => trouble l end).
Proof.
  intros Hid Hc. unfold build.
  eapply (makes_bind _ _ _ _ _ (λ r l, is_Some r → trouble l)).
  { destruct b; [|by apply makes_ret; intros []]. apply makes_trigger. intros h r _. split; [done|].
    intros [err ->]. by apply trouble_cons. }
  intros [err|] l Hl; [by apply makes_ret, Hl|].
  eapply makes_bind; [by apply (makes_trigger _ _ _ _ (λ r l, l = [P_Prepare r]))|].
  intros [err|] l' ->; apply makes_ret; [by apply trouble_cons|]. split; [|done]. destruct (crn_header (match b with Some _ => true | None => false end)).
  split; [done|by exists id|done|done].
Qed.

Lemma pow_build_request m path params query b :
  (∀ id, params id !! "cloud" = Some id) →
  pmakes idle (build_request pw m path params query b) (λ r l, match r with
    | Ok rq => addressed rq ∧ rq_method rq = m ∧ rq_path rq = path ∧ rq_query rq = query ∧ rq_body rq = b ∧
        ∃ id, rq_params rq = params id
    | Err _ => trouble l end).
Proof.
  intros Hp. unfold build_request. eapply makes_bind; [apply pow_resolve|].
  intros [ps|err] l Hr; [|by apply makes_ret]. destruct Hr as (id & Hid & ->).
  eapply makes_mono; [by apply (pow_build _ _ _ _ _ _ id)|done|].
  intros [rq|err] l' _; [|by apply trouble_r]. intros (? & ? & ? & ? & ? & ?). split_and!; [done..|by exists id].
Qed.

Lemma pow_listInstances :
  pmakes reading (listInstances pw) (λ r l, match r with
    | Ok ins => Forall described_pvm ins ∧ ∃ rq, P_List rq (Ok ins) ∈ l | Err _ => trouble l end).
Proof.
  unfold listInstances. eapply makes_bind.
  { eapply makes_mono; [apply pow_build_request|apply idle_reading|intros a l _ HQ; exact HQ].
    intros id. apply lookup_singleton_eq. }
  intros [rq|err] l Hrq; [|by apply makes_ret]. destruct Hrq as (Had & _).
  eapply makes_bind.
  { apply (makes_trigger _ _ _ _ (λ r l, (∀ ins, r = Ok ins → Forall described_pvm ins) ∧ l = [P_List rq r])).
    intros h r [Hr _]. done. }
  intros r l' [Hr ->]. apply makes_ret. destruct r as [ins|]; [|by apply trouble_cons].
  split; [by apply Hr|]. exists rq. left.
Qed.

(** An answer to a get: described, or nothing but errors. *)
Lemma pow_getInstance id :
  pmakes (λ c, reading c ∧ ∀ t, c ≠ P_Now t) (getInstance pw id) (λ r l, match r with
    | Ok i => described_pvm i ∧ ∃ rq, P_Get rq (Ok i) ∈ l ∧ rq_params rq !! "pvm_instance_id" = Some id
    | Err _ => trouble l end).
Proof.
  unfold getInstance. eapply makes_bind.
  { eapply makes_mono; [apply pow_build_request|by intros []|intros a l _ HQ; exact HQ].
    intros cid. apply lookup_insert_eq. }
  intros [rq|err] l Hrq; [|by apply makes_ret]. destruct Hrq as (Had & _ & _ & _ & _ & cid & Hp).
  eapply makes_bind.
  { apply (makes_trigger _ _ _ _ (λ r l, (∀ i, r = Ok i → described_pvm i) ∧ l = [P_Get rq r])).
    intros h r [Hr _]. done. }
  intros r l' [Hr ->]. apply makes_ret. destruct r as [i|]; [|by apply trouble_cons].
  split; [by apply Hr|]. exists rq. split; [left|]. rewrite Hp. rewrite lookup_insert_ne by differ. apply lookup_singleton_eq.
Qed.

(** A request to delete an instance, with its data volumes. *)
Record deletes_instance (id : string) (r : http_request) : Prop := {
  del_addressed : addressed r;
  del_method : rq_method r = DELETE;
  del_instance : rq_params r !! "pvm_instance_id" = Some id;
  del_volumes : rq_query r !! "delete_data_volumes" = Some "true"
}.
Definition deleting (id : string) (c : pow_call) : Prop :=
  match c with P_Delete r _ => deletes_instance id r | _ => idle c end.

Lemma pow_deleteInstance id :
  pmakes (deleting id) (deleteInstance pw id) (λ _ l, (∃ rq a, P_Delete rq a ∈ l) ∨ trouble l).
Proof.
  unfold deleteInstance. eapply makes_bind.
  { eapply makes_mono; [apply pow_build_request|by intros []|intros a l _ HQ; exact HQ].
    intros cid. apply lookup_insert_eq. }
  intros [rq|err] l Hrq; [|by apply makes_ret; right].
  destruct Hrq as (Had & Hm & _ & Hq & _ & cid & Hp).
  eapply makes_bind; [|intros r l' Hl; apply makes_ret; left; exact Hl].
  apply makes_trigger. intros h r _. split; [|exists rq, r; left].
  split; [done|done|rewrite Hp, lookup_insert_ne by differ; apply lookup_singleton_eq|rewrite Hq; apply lookup_singleton_eq].
Qed.

(** A request to give a volume the configured size. *)
Record resizes_volume (volumeID : string) (r : http_request) : Prop := {
  vol_addressed : addressed r;
  vol_method : rq_method r = PUT;
  vol_volume : rq_params r !! "volume" = Some volumeID;
  vol_size : rq_body r = Some (UpdateVolume (Disk pw))
}.

Lemma pow_updateVolume v :
  pmakes (λ c, match c with P_Volume r _ => resizes_volume v r | _ => idle c end) (updateVolume pw v)
    (λ r l, (∃ u, r = Ok u) ↔ ∃ rq u, P_Volume rq (Ok u) ∈ l).
Proof.
  assert (∀ l, Forall idle l → ¬ ∃ rq u, P_Volume rq (Ok u) ∈ l) as Hidle.
  { intros l Hl (rq & u & Hin). by apply (proj1 (Forall_forall _ _) Hl) in Hin. }
  unfold updateVolume. eapply makes_bind.
  { eapply makes_mono; [apply pow_build_request|by intros []|].
    - intros cid. apply lookup_insert_eq.
    - intros a l Hl HQ. exact (conj HQ (Hidle l Hl)). }
  intros [rq|err] l [Hrq Hl]; [|apply makes_ret; naive_solver].
  destruct Hrq as (Had & Hm & _ & _ & Hb & cid & Hp).
  eapply makes_bind.
  { apply (makes_trigger _ _ _ _ (λ r l, l = [P_Volume rq r])). intros h r _. split; [|done].
    split; [done|done|rewrite Hp, lookup_insert_ne by differ; apply lookup_singleton_eq|done]. }
  intros r l' ->. apply makes_ret. split.
  - intros [u Hu]. destruct r as [u'|]; [|done]. exists rq, u'. simpl. left.
  - intros (rq' & u & Hin). simpl in Hin. apply elem_of_cons in Hin as [[= _ <-]|Hin]; [by exists u|].
    destruct Hl. by exists rq', u.
Qed.

(** ** Launches *)

(** The request for an instance for a task. *)
Record p_launch_request (id tag : string) (t : Z) (r : http_request) : Prop := {
  pl_addressed : addressed r;
  pl_method : rq_method r = POST;
  pl_body : rq_body r = Some (PVMInstanceCreate (IbmZ.instance_name tag t) (ImageId pw) (Cores pw) (ProcType pw)
              (Memory pw) (Split (Network pw) ",") (p_Key pw) (System pw) (UserData pw) [id]);
  pl_id : ∃ namespace name, valid_id id namespace name;
  pl_tag : IbmZ.validInstanceNamePattern tag = true
}.

(** No request: at most looks at the clock. *)
Definition resting (c : pow_call) : Prop := match c with P_Now _ => True | _ => idle c end.
Lemma idle_resting c : idle c → resting c.
Proof. by destruct c. Qed.

(** Why no instance is asked for: there is no client, the request cannot be made, or the
    tag or the TaskRun id is not valid. *)
Definition unlaunchable (id tag : string) (l : list pow_call) : Prop :=
  clientless l ∨ trouble l ∨ IbmZ.validInstanceNamePattern tag = false ∨ ¬ ∃ namespace name, valid_id id namespace name.

(** What [LaunchInstance] does: at most one instance is asked for, it is the answer, and
    the resize of its volume is started. *)
Inductive p_launches (id tag : string) : result string → list pow_call → Prop :=
| p_nothing err l : Forall resting l → unlaunchable id tag l → p_launches id tag (Err err) l
| p_failed t rq err err' l :
    p_launch_request id tag t rq → P_Now t ∈ l → Forall resting l →
    p_launches id tag (Err err') (P_Launch rq (Err err) :: l)
| p_launched t t' rq i ins instance l :
    p_launch_request id tag t rq → P_Now t ∈ l → Forall resting l → PvmInstanceID i = Some instance →
    p_launches id tag (Ok instance)
      (P_GoResize instance (t' + 10 * Minute) :: P_Now t' :: P_Launch rq (Ok (i :: ins)) :: l).

Lemma p_launches_map_err id tag f r l : p_launches id tag r l → p_launches id tag (map_err f r) l.
Proof. intros []; [by apply p_nothing|by eapply p_failed|by eapply p_launched]. Qed.

Definition launching (c : pow_call) : Prop :=
  match c with P_Launch r _ => addressed r | P_Now _ | P_GoResize _ _ => True | _ => idle c end.
Lemma resting_launching c : resting c → launching c.
Proof. by destruct c. Qed.

Lemma pow_resizeInstanceVolume instance :
  pmakes launching (resizeInstanceVolume (Some instance))
    (λ _ l, ∃ t', l = [P_GoResize instance (t' + 10 * Minute); P_Now t']).
Proof.
  unfold resizeInstanceVolume. eapply makes_bind; [by apply (makes_trigger _ _ _ _ (λ t l, l = [P_Now t]))|].
  intros t' l ->. apply makes_trigger. intros h u _. split; [done|]. by exists t'.
Qed.

(** [launchInstance], for the information that [LaunchInstance] passes. *)
Lemma pow_launchInstance id tag t :
  (∃ ns n, valid_id id ns n) → IbmZ.validInstanceNamePattern tag = true →
  pmakes launching (launchInstance pw {["name" := IbmZ.instance_name tag t; TaskRunTagKey := id]})
    (λ r l, ∀ l0, P_Now t ∈ l0 → Forall resting l0 → p_launches id tag r (l ++ l0)).
Proof.
  intros Hid Htag. unfold launchInstance. eapply makes_bind.
  { eapply makes_mono; [apply pow_resolve|by intros []|]. intros r l Hl HQ. exact (conj HQ Hl). }
  assert (∀ l, Forall idle l → Forall resting l) as Hrest by (intros l Hf; eapply Forall_impl; [exact Hf|apply idle_resting]).
  intros [ps|err] l [Hps Hl];
    [|apply makes_ret; intros l0 _ Hl0; apply p_nothing; [apply Forall_app_2; auto|right; left; by apply trouble_r]].
  destruct Hps as (cid & Hcid & ->).
  rewrite lookup_insert_eq, lookup_insert_ne by differ. rewrite lookup_singleton_eq.
  eapply makes_bind.
  { eapply makes_mono; [apply (pow_build _ _ _ _ _ _ cid)|by intros []|].
    - done.
    - apply lookup_singleton_eq.
    - intros r l' Hl' HQ. exact (conj HQ Hl'). }
  intros [rq|err] l' [Hrq Hl'];
    [|apply makes_ret; intros l0 _ Hl0; apply p_nothing; [repeat apply Forall_app_2; auto|right; left; by do 2 apply trouble_r]].
  destruct Hrq as (Had & Hm & _ & _ & _ & Hb).
  assert (p_launch_request id tag t rq) as Hr by by split.
  eapply makes_bind.
  { apply (makes_trigger _ _ _ _ (λ r l, (∀ ins, r = Ok ins → ins ≠ [] ∧ Forall described_pvm ins) ∧ l = [P_Launch rq r])).
    intros h r [Hok _]. done. }
  intros [[|i ins]|err] l'' [Hok ->].
  - by destruct (Hok [] eq_refl).
  - destruct (Hok _ eq_refl) as [_ Hd]. apply Forall_cons in Hd as [([instance Hi] & _) _]. rewrite Hi.
    eapply makes_bind.
    { eapply makes_mono; [apply pow_resizeInstanceVolume|done|].
      intros a l1 _ Hl1. exact Hl1. }
    intros u l1 [t' ->]. apply makes_ret. intros l0 Hin Hl0. simpl. rewrite <- !app_assoc.
    eapply p_launched; [done|rewrite !elem_of_app; auto|repeat apply Forall_app_2; auto|done].
  - apply makes_ret. intros l0 Hin Hl0. simpl. rewrite <- app_assoc.
    eapply p_failed; [done|rewrite !elem_of_app; auto|repeat apply Forall_app_2; auto].
Qed.

Lemma Forall_idle_resting l : Forall idle l → Forall resting l.
Proof. intros Hl. eapply Forall_impl; [exact Hl|apply idle_resting]. Qed.

(** [LaunchInstance], with what it did. *)
Lemma pow_LaunchInstance id tag : pmakes launching (LaunchInstance pw id tag) (p_launches id tag).
Proof.
  unfold LaunchInstance. eapply makes_bind.
  { eapply makes_mono; [apply pow_getPowerClient|by intros []|]. intros c l Hl Hc. exact (conj (Forall_idle_resting _ Hl) Hc). }
  intros [u|err] l [Hl Hc]; [|by apply makes_ret, p_nothing; [|left]].
  eapply makes_bind; [by apply (makes_trigger _ _ _ _ (λ t l, l = [P_Now t]))|]. intros t l' ->.
  assert (Forall resting ([P_Now t] ++ l)) as Hl' by by constructor.
  destruct (IbmZ.createInstanceName tag t) as [name|err] eqn:Hn.
  2: { apply makes_ret, p_nothing; [done|]. right. right. left. unfold IbmZ.createInstanceName in Hn.
       by destruct (IbmZ.validInstanceNamePattern tag). }
  destruct (createInstanceName_Ok _ _ _ Hn) as (-> & _).
  unfold IbmZ.createInstanceName in Hn. destruct (IbmZ.validInstanceNamePattern tag) eqn:Htag; [|done].
  destruct (ValidateTaskRunID id) as [err|] eqn:Hid.
  { apply makes_ret, p_nothing; [done|]. do 3 right. intros Hv%ValidateTaskRunID_iff. congruence. }
  apply ValidateTaskRunID_iff in Hid.
  eapply makes_bind; [by apply pow_launchInstance|]. intros r l' Hr. apply makes_ret.
  rewrite <- app_assoc. apply p_launches_map_err, Hr; [left|done].
Qed.

(** ** Reading the instances *)

Lemma Forall_idle_reading l : Forall idle l → Forall reading l.
Proof. intros Hl. eapply Forall_impl; [exact Hl|apply idle_reading]. Qed.

Lemma pow_fetch_instances :
  pmakes reading (fetch_instances pw) (λ r l, match r with
    | Ok ins => Forall described_pvm ins ∧ ∃ rq, P_List rq (Ok ins) ∈ l
    | Err _ => clientless l ∨ trouble l end).
Proof.
  unfold fetch_instances. eapply makes_bind.
  { eapply makes_mono; [apply pow_getPowerClient|apply idle_reading|]. intros c l _ HQ. exact HQ. }
  intros [u|err] l Hl; [|by apply makes_ret; left]. eapply makes_bind; [apply pow_listInstances|].
  intros [ins|err] l' Hr; apply makes_ret; [|right; by apply trouble_r]. destruct Hr as [Hd [rq Hrq]].
  split; [done|]. exists rq. rewrite !elem_of_app. auto.
Qed.

(** The instances that are taken for those of a tag. *)
Definition pvm_of_tag (tag : string) (i : PVMInstance) : bool :=
  match ServerName i with Some n => HasPrefix n tag | None => false end.

Lemma filter_snoc_length {A} (f : A → bool) l x :
  length (filter (λ i, f i = true) (l ++ [x])) = length (filter (λ i, f i = true) l) + (if f x then 1 else 0).
Proof.
  rewrite filter_app, length_app, filter_cons, filter_nil.
  destruct (f x); [rewrite decide_True by done|rewrite decide_False by done]; done.
Qed.

(** A loop over the instances. *)
Lemma makes_foldM {A B} P (f : B → A → pow B) (I : list A → B → list pow_call → Prop) xs :
  ∀ acc pre l0,
    I pre acc l0 →
    (∀ pre x acc l0, x ∈ xs → I pre acc l0 → pmakes P (f acc x) (λ b l, I (pre ++ [x]) b (l ++ l0))) →
    pmakes P (foldM f acc xs) (λ b l, I (pre ++ xs) b (l ++ l0)).
Proof.
  induction xs as [|x xs IH]; intros acc pre l0 HI Hf; simpl.
  - apply makes_ret. by rewrite app_nil_r.
  - eapply makes_bind; [by apply Hf; [left|]|]. intros b l Hb. cbv beta in Hb.
    eapply makes_mono; [apply (IH b (pre ++ [x]) (l ++ l0) Hb)|done|].
    + intros. apply Hf; [by right|done].
    + intros b' l' _ Hb'. by rewrite <- !app_assoc in *.
Qed.

Lemma pow_CountInstances tag :
  pmakes reading (CountInstances pw tag) (λ r l, match r with
    | Ok n => ∃ rq ins, P_List rq (Ok ins) ∈ l ∧ n = Z.of_nat (length (filter (λ i, pvm_of_tag tag i = true) ins))
    | Err _ => clientless l ∨ trouble l end).
Proof.
  unfold CountInstances. eapply makes_bind; [apply pow_fetch_instances|].
  intros [ins|err] l Hl; [|by apply makes_ret]. destruct Hl as (Hd & rq & Hrq).
  eapply makes_bind.
  { apply (makes_foldM _ _ (λ pre n _, n = Z.of_nat (length (filter (λ i, pvm_of_tag tag i = true) pre))) ins 0%Z [] []); [done|].
    intros pre i n l0 Hin ->. apply (proj1 (Forall_forall _ _) Hd) in Hin as (_ & [nm Hn] & _).
    unfold count_instance. rewrite Hn. apply makes_ret. rewrite filter_snoc_length. unfold pvm_of_tag. rewrite Hn.
    destruct (HasPrefix nm tag); lia. }
  intros n l' ->. apply makes_ret. exists rq, ins. rewrite !elem_of_app. auto.
Qed.

(** The address of an instance: a valid one, from its first network. *)
Definition pvm_address (i : PVMInstance) (ip : string) : Prop :=
  ValidateIPFormat ip = None ∧ ∃ n, Networks i !! 0 = Some (Some n) ∧
    ip = if String.eqb (ExternalIP n) "" then IPAddress n else ExternalIP n.

Lemma retrieveInstanceIp_complete i id ip : pvm_address i ip → ip ≠ "" → retrieveInstanceIp id (Networks i) = Ok ip.
Proof.
  intros (Hv & n & Hn & ->) Hne. unfold retrieveInstanceIp. destruct (Networks i) as [|n' ns]; [done|].
  injection Hn as ->. destruct (String.eqb (ExternalIP n) "") eqn:He; cbn [negb].
  - destruct (String.eqb_spec (IPAddress n) ""); [done|by rewrite Hv].
  - by rewrite He, Hv.
Qed.

(** The instance has an address. *)
Definition addressable (i : PVMInstance) : Prop := ∃ ip, pvm_address i ip ∧ ip ≠ "".

Lemma retrieveInstanceIp_Err i id err : retrieveInstanceIp id (Networks i) = Err err → ¬ addressable i.
Proof. intros He (ip & Ha & Hne). by rewrite (retrieveInstanceIp_complete _ _ _ Ha Hne) in He. Qed.

Lemma retrieveInstanceIp_Ok i id ip : retrieveInstanceIp id (Networks i) = Ok ip → pvm_address i ip ∧ ip ≠ "".
Proof.
  unfold retrieveInstanceIp, pvm_address. destruct (Networks i) as [|[n|] ns]; [done| |done].
  destruct (String.eqb (ExternalIP n) "") eqn:He; cbn [negb].
  - destruct (String.eqb_spec (IPAddress n) ""); [done|].
    destruct (ValidateIPFormat (IPAddress n)) eqn:Hv; [done|]. intros [= <-]. split; [|done]. split; [done|].
    exists n. by rewrite He.
  - rewrite He. destruct (ValidateIPFormat (ExternalIP n)) eqn:Hv; [done|]. intros [= <-].
    split; [|by apply String.eqb_neq]. split; [done|]. exists n. by rewrite He.
Qed.

(** A listed instance: it has the tag, and its address answered. *)
Definition p_lists (tag : string) (ins : list PVMInstance) (h : list pow_call) (vm : CloudVMInstance) : Prop :=
  ∃ i, i ∈ ins ∧ pvm_of_tag tag i = true ∧ PvmInstanceID i = Some (InstanceId vm) ∧ CreationDate i = StartTime vm ∧
    pvm_address i (Address vm) ∧ P_Live (Address vm) None ∈ h.

(** It is listed, has no address, or its address did not answer. *)
Definition p_considered (tag : string) (h : list pow_call) (vms : list CloudVMInstance) (i : PVMInstance) : Prop :=
  pvm_of_tag tag i = true →
  (∃ vm, vm ∈ vms ∧ PvmInstanceID i = Some (InstanceId vm)) ∨ ¬ addressable i ∨
  ∃ ip err, pvm_address i ip ∧ P_Live ip (Some err) ∈ h.

(** At most one listed instance for each that has the tag, every one as above, and none
    without a reason left out. *)
Record p_listing (tag : string) (ins : list PVMInstance) (h : list pow_call) (vms : list CloudVMInstance) : Prop := {
  pl_once : length vms ≤ length (filter (λ i, pvm_of_tag tag i = true) ins);
  pl_live : Forall (p_lists tag ins h) vms;
  pl_all : Forall (p_considered tag h vms) ins
}.

Lemma p_lists_mono tag ins ins' l h vm : p_lists tag ins h vm → p_lists tag (ins ++ ins') (l ++ h) vm.
Proof. intros (j & ? & ? & ? & ? & ? & ?). exists j. rewrite !elem_of_app. auto 10. Qed.
Lemma p_considered_mono tag l h vms vms' i : p_considered tag h vms i → p_considered tag (l ++ h) (vms ++ vms') i.
Proof.
  intros Hc Ht. destruct (Hc Ht) as [(vm & ? & ?)|[?|(ip & err & ? & ?)]]; [left|by right; left|right; right].
  - exists vm. rewrite elem_of_app. auto.
  - exists ip, err. rewrite elem_of_app. auto.
Qed.

Lemma p_listing_app tag l h ins vms : p_listing tag ins h vms → p_listing tag ins (l ++ h) vms.
Proof.
  intros [Hlen Hall Hc]. split; [done|..]; (eapply Forall_impl; [eassumption|]).
  - intros vm Hvm. rewrite <- (app_nil_r ins). by apply p_lists_mono.
  - intros i Hi. rewrite <- (app_nil_r vms). by apply p_considered_mono.
Qed.

(** An instance that is not listed, with a reason. *)
Lemma p_listing_skip tag pre i l h vms :
  p_listing tag pre h vms → p_considered tag (l ++ h) vms i → p_listing tag (pre ++ [i]) (l ++ h) vms.
Proof.
  intros Hl Hi. destruct (p_listing_app _ l _ _ _ Hl) as [Hlen Hall Hc]. split.
  - rewrite filter_snoc_length. lia.
  - eapply Forall_impl; [exact Hall|]. intros vm. apply (p_lists_mono _ _ _ []).
  - apply Forall_app_2; [done|by constructor].
Qed.

(** One that is. *)
Lemma p_listing_one tag pre i l h vms vm :
  p_listing tag pre h vms → p_lists tag [i] (l ++ h) vm → PvmInstanceID i = Some (InstanceId vm) →
  p_listing tag (pre ++ [i]) (l ++ h) (vms ++ [vm]).
Proof.
  intros Hl (j & ->%list_elem_of_singleton & Ht & Hj) Hid. destruct (p_listing_app _ l _ _ _ Hl) as [Hlen Hall Hc]. split.
  - rewrite length_app, filter_snoc_length, Ht. simpl. lia.
  - apply Forall_app_2.
    + eapply Forall_impl; [exact Hall|]. intros vm'. apply (p_lists_mono _ _ _ []).
    + repeat constructor. exists i. rewrite elem_of_app, list_elem_of_singleton. auto.
  - apply Forall_app_2.
    + eapply Forall_impl; [exact Hc|]. intros j. apply (p_considered_mono _ []).
    + apply Forall_singleton. intros _. left. exists vm. rewrite elem_of_app, list_elem_of_singleton. auto.
Qed.

Lemma pow_list_instance tag pre i vms l0 :
  described_pvm i → p_listing tag pre l0 vms →
  pmakes reading (list_instance tag vms i) (λ vms' l, p_listing tag (pre ++ [i]) (l ++ l0) vms').
Proof.
  intros ([id Hid] & [nm Hn] & _) Hl. unfold list_instance. rewrite Hn, Hid.
  eapply makes_bind; [by apply (makes_ret _ _ _ _ (λ n l, n = nm ∧ l = []))|]. intros n l [-> ->].
  assert (pvm_of_tag tag i = HasPrefix nm tag) as Ht by (unfold pvm_of_tag; by rewrite Hn).
  destruct (HasPrefix nm tag) eqn:Hp; cbn [negb]; [|apply makes_ret, p_listing_skip; [done|intros ?; congruence]].
  eapply makes_bind; [by apply (makes_ret _ _ _ _ (λ n l, n = id ∧ l = []))|]. intros n l [-> ->].
  eapply makes_bind; [by apply (makes_trigger _ _ _ _ (λ t l, l = [P_Now t]))|]. intros t l ->.
  destruct (retrieveInstanceIp id (Networks i)) as [ip|err] eqn:Hip.
  2: { apply makes_ret. apply (p_listing_skip _ _ _ ([] ++ _)); [done|]. intros _. right. left. by eapply retrieveInstanceIp_Err. }
  destruct (retrieveInstanceIp_Ok _ _ _ Hip) as [Ha _].
  eapply makes_bind; [by apply (makes_trigger _ _ _ _ (λ r l, l = [P_Live ip r]))|]. intros [err|] l ->; apply makes_ret.
  - apply (p_listing_skip _ _ _ ([] ++ [P_Live ip (Some err)] ++ [P_Now t] ++ [] ++ [])); [done|].
    intros _. right. right. exists ip, err. split; [done|left].
  - apply (p_listing_one _ _ _ ([] ++ [P_Live ip None] ++ [P_Now t] ++ [] ++ [])); [done| |done].
    exists i. split_and!; [left|done..|left].
Qed.

Lemma pow_ListInstances tag :
  pmakes reading (ListInstances pw tag) (λ r l, match r with
    | Ok vms => ∃ rq ins, P_List rq (Ok ins) ∈ l ∧ p_listing tag ins l vms
    | Err _ => clientless l ∨ trouble l end).
Proof.
  unfold ListInstances. eapply makes_bind; [apply pow_fetch_instances|].
  intros [ins|err] l Hl; [|by apply makes_ret]. destruct Hl as (Hd & rq & Hrq).
  eapply makes_bind.
  { apply (makes_foldM _ _ (λ pre vms l0, p_listing tag pre l0 vms) ins [] [] []); [by split; [|constructor..]|].
    intros pre i vms l0 Hin Hv. apply pow_list_instance; [|done]. by apply (proj1 (Forall_forall _ _) Hd) in Hin. }
  intros vms l' Hv. apply makes_ret. exists rq, ins. rewrite !elem_of_app. split; [auto|].
  cbv beta in Hv. rewrite app_nil_r in Hv. destruct Hv as [Hlen Hall Hc]. split; [done|..]; (eapply Forall_impl; [eassumption|]).
  - intros vm (j & ? & ? & ? & ? & ? & ?). exists j. rewrite !elem_of_app. auto 10.
  - intros i Hi Ht. destruct (Hi Ht) as [?|[?|(ip & err & ? & ?)]]; [by left|by right; left|right; right].
    exists ip, err. rewrite !elem_of_app. auto.
Qed.

(** ** One instance *)

(** The instance was asked for, and this is it. *)
Definition got_instance (id : string) (i : PVMInstance) (l : list pow_call) : Prop :=
  ∃ rq, P_Get rq (Ok i) ∈ l ∧ rq_params rq !! "pvm_instance_id" = Some id.

Lemma got_instance_app id i l l' : got_instance id i l → got_instance id i (l' ++ l).
Proof. intros (rq & ? & ?). exists rq. rewrite elem_of_app. auto. Qed.

(** The client, and then the instance; [PP] is what is claimed of panics. *)
Lemma pow_fetch_instance {PP : string → hist powE → Prop} {A} id (f : result PVMInstance → pow (result A)) Q h :
  (∀ err l, Forall reading (pow_calls l) → clientless (pow_calls l) → Q (Err err) (l ++ h)) →
  (∀ r l, Forall reading (pow_calls l) →
    match r with Ok i => described_pvm i ∧ got_instance id i (pow_calls l) | Err _ => trouble (pow_calls l) end →
    wpp pows PP (f r) Q (l ++ h)) →
  wpp pows PP (c ← getPowerClient pw;
    match c with Err err => mret (Err err) | Ok _ => instance ← getInstance pw id; f instance end) Q h.
Proof.
  intros HE Hf. apply wp_bind. eapply makes_wp; [apply pow_getPowerClient|]. intros r l Hl%Forall_idle_reading Hr.
  destruct r as [u|err]; [|by apply wp_ret, HE]. apply wp_bind. eapply makes_wp; [apply pow_getInstance|].
  intros r' l' Hl' Hr'. rewrite app_assoc. apply Hf; unfold pow_calls; rewrite fmap_app.
  - apply Forall_app_2; [|done]. eapply Forall_impl; [exact Hl'|]. by intros c [? _].
  - destruct r' as [i|err]; [|by apply trouble_r]. destruct Hr' as (Hd & rq & Hrq & Hp). split; [done|].
    exists rq. rewrite elem_of_app. auto.
Qed.

(** What an address means, and its absence. *)
Definition addresses (id : string) (r : result string) (l : list pow_call) : Prop :=
  match r with
  | Err _ => clientless l
  | Ok ip =>
      if String.eqb ip "" then
        trouble l ∨ ∃ i, got_instance id i l ∧
          (¬ addressable i ∨ ∃ ip err, pvm_address i ip ∧ P_Live ip (Some err) ∈ l)
      else P_Live ip None ∈ l ∧ ∃ i, got_instance id i l ∧ pvm_address i ip
  end.

Lemma wp_p_GetInstanceAddress {PP : string → hist powE → Prop} id :
  wpp pows PP (GetInstanceAddress pw id) (λ r h, Forall reading (pow_calls h) ∧ addresses id r (pow_calls h)) [].
Proof.
  unfold GetInstanceAddress. apply pow_fetch_instance; [intros err l Hl Hc; by rewrite app_nil_r|].
  intros r l Hl Hr. rewrite app_nil_r. destruct r as [i|err]; [|apply wp_ret; split; [done|by left]].
  destruct Hr as [([pid Hid] & _) Hi]. rewrite Hid. apply wp_bind, wp_ret.
  destruct (retrieveInstanceIp pid (Networks i)) as [ip|err] eqn:Hip.
  2: { apply wp_ret. split; [done|]. right. exists i. split; [done|]. left. by eapply retrieveInstanceIp_Err. }
  destruct (retrieveInstanceIp_Ok _ _ _ Hip) as [Ha Hne].
  apply wp_bind, wp_trigger. intros a _. apply wp_ret. split; [by constructor|].
  assert (got_instance id i (P_Live ip a :: pow_calls l)) as Hi' by (by apply (got_instance_app _ _ _ [P_Live ip a])).
  destruct a as [err|]; cbn [addresses].
  - right. exists i. split; [done|]. right. exists ip, err. split; [done|left].
  - destruct (String.eqb_spec ip ""); [done|]. split; [left|]. by exists i.
Qed.

(** The instance has failed. *)
Definition failed_pvm (i : PVMInstance) : bool :=
  bool_decide (Status i = Some "ERROR") && bool_decide (Health i = Some "CRITICAL").

(** What a state means. *)
Definition states (id : string) (r : result VMState) (l : list pow_call) : Prop :=
  match r with
  | Err _ => clientless l
  | Ok UnknownState => trouble l
  | Ok s => ∃ i, got_instance id i l ∧ s = if failed_pvm i then FailedState else OKState
  end.
(** How a provider may panic: [GetState], of an instance that reports no health. *)
Definition p_panics (id why : string) (h : hist powE) : Prop :=
  Forall reading (pow_calls h) ∧ ∃ i, got_instance id i (pow_calls h) ∧ omits_health i.

Lemma wp_p_GetState id :
  wpp pows (p_panics id) (GetState pw id) (λ r h, Forall reading (pow_calls h) ∧ states id r (pow_calls h)) [].
Proof.
  unfold GetState. apply pow_fetch_instance; [intros err l Hl Hc; by rewrite app_nil_r|].
  intros r l Hl Hr. rewrite app_nil_r. destruct r as [i|err]; [|by apply wp_ret].
  destruct Hr as [(_ & _ & [st Hst] & _) Hi].
  assert (∀ s, s = (if failed_pvm i then FailedState else OKState) → states id (Ok s) (pow_calls l)) as HQ.
  { intros s ->. unfold states. destruct (failed_pvm i) eqn:Hf; exists i; by rewrite Hf. }
  rewrite Hst. apply wp_bind, wp_ret. unfold failed_pvm in HQ.
  destruct (String.eqb_spec st "ERROR") as [->|Hne].
  - destruct (Health i) as [hl|] eqn:Hhl; [|split; [done|by exists i]].
    apply wp_bind, wp_ret, wp_ret. split; [done|]. apply HQ. rewrite Hst, bool_decide_true by done.
    destruct (String.eqb_spec hl "CRITICAL"); [by subst|]. by rewrite bool_decide_false by congruence.
  - apply wp_ret. split; [done|]. apply HQ. by rewrite Hst, bool_decide_false by congruence.
Qed.

(** Deletion requests for the instance, the clock, and the start of the loop. *)
Definition terminating (id : string) (c : pow_call) : Prop :=
  match c with P_Delete r _ => deletes_instance id r | P_GoDelete i _ => i = id | P_Now _ => True | _ => idle c end.
Lemma deleting_terminating id c : deleting id c → terminating id c.
Proof. by destruct c. Qed.

Lemma pow_TerminateInstance id :
  pmakes (terminating id) (TerminateInstance pw id) (λ r l, match r with
    | Ok _ => ∃ t l', l = P_GoDelete id (t + 10 * Minute) :: P_Now t :: l' ∧ Forall (deleting id) l' ∧
        ((∃ rq a, P_Delete rq a ∈ l') ∨ trouble l')
    | Err _ => Forall idle l ∧ clientless l
    end).
Proof.
  unfold TerminateInstance. eapply makes_bind.
  { eapply makes_mono; [apply pow_getPowerClient|by intros []|]. intros c l Hl Hc. exact (conj Hl Hc). }
  intros [u|err] l [Hl Hc]; [|by apply makes_ret]. eapply makes_bind.
  { eapply makes_mono; [apply pow_deleteInstance|apply deleting_terminating|]. intros r l' Hl' Hd. exact (conj Hl' Hd). }
  intros r l' [Hl' Hd]. eapply makes_bind; [by apply (makes_trigger _ _ _ _ (λ t l, l = [P_Now t]))|]. intros t l1 ->.
  eapply makes_bind; [by apply (makes_trigger _ _ _ _ (λ _ l, l = [P_GoDelete id (t + 10 * Minute)]))|]. intros u' l1 ->.
  apply makes_ret. exists t, (l' ++ l). split_and!; [done|apply Forall_app_2; [done|]|].
  - eapply Forall_impl; [exact Hl|]. by intros [].
  - destruct Hd as [(rq & a & Hd)|Hd]; [left; exists rq, a; rewrite elem_of_app; auto|right; by apply trouble_r].
Qed.

(** ** What the provider promises *)

(** For each request of the controller: the calls it makes, what its answer means, and
    what an error or the lack of an answer is due to. *)
Definition power_promise {X} (c : cloudE X) : X → list pow_call → Prop :=
  match c in cloudE X return X → list pow_call → Prop with
  | Cloud.LaunchInstance id tag tags => λ r l, Forall launching l ∧ r.1 = tags ∧ p_launches id tag r.2 l
  | Cloud.TerminateInstance i => λ r l, Forall (terminating i) l ∧
      match r with
      | Ok _ => ∃ t l', l = P_GoDelete i (t + 10 * Minute) :: P_Now t :: l' ∧ Forall (deleting i) l' ∧
          ((∃ rq a, P_Delete rq a ∈ l') ∨ trouble l')
      | Err _ => Forall idle l ∧ clientless l
      end
  | Cloud.GetInstanceAddress i => λ r l, Forall reading l ∧ addresses i r l
  | Cloud.CountInstances tag => λ r l, Forall reading l ∧
      match r with
      | Ok n => ∃ rq ins, P_List rq (Ok ins) ∈ l ∧ n = Z.of_nat (length (filter (λ i, pvm_of_tag tag i = true) ins))
      | Err _ => clientless l ∨ trouble l
      end
  | Cloud.ListInstances tag => λ r l, Forall reading l ∧
      match r with
      | Ok vms => ∃ rq ins, P_List rq (Ok ins) ∈ l ∧ p_listing tag ins l vms
      | Err _ => clientless l ∨ trouble l
      end
  | Cloud.GetState i => λ r l, Forall reading l ∧ states i r l
  end.

(** Only [GetState] may panic. *)
Definition power_panics {X} (c : cloudE X) : string → hist powE → Prop :=
  match c with Cloud.GetState i => p_panics i | _ => no_panic end.

Lemma wp_p_handle {X} (c : cloudE X) :
  wpp pows (power_panics c) (handle pw c) (λ x h, power_promise c x (pow_calls h)) [].
Proof.
  destruct c; cbn [handle power_promise power_panics].
  - apply wp_bind. eapply makes_wp; [apply pow_LaunchInstance|]. intros r l Hl Hr. rewrite app_nil_r. by apply wp_ret.
  - eapply makes_wp; [apply pow_TerminateInstance|]. intros r l Hl Hr. by rewrite app_nil_r.
  - apply wp_p_GetInstanceAddress.
  - eapply makes_wp; [apply pow_CountInstances|]. intros r l Hl Hr. by rewrite app_nil_r.
  - eapply makes_wp; [apply pow_ListInstances|]. intros r l Hl Hr. by rewrite app_nil_r.
  - apply wp_p_GetState.
Qed.
End provider.

(** ** The background loops *)

Lemma slept_reading pw l : Forall (reading pw) l → slept l = 0%Z.
Proof. induction 1 as [|[] l Hc]; simpl in *; done. Qed.

Lemma slept_idle pw l : Forall (idle pw) l → slept l = 0%Z.
Proof. by induction 1 as [|[] l Hc]; simpl in *. Qed.

Section loops.
Variables (start : Z) (pw : IBMPowerDynamicConfig) (id : string) (timeout : Z).
Abbreviation pows := (pow_spec start).
Abbreviation wpp := (wp (pow_spec start)).

Lemma pow_calls_app l h : pow_calls (l ++ h) = pow_calls l ++ pow_calls h.
Proof. apply fmap_app. Qed.

(** What the deletion loop calls. *)
Definition delete_call (c : pow_call) : Prop :=
  match c with
  | P_List r _ | P_Get r _ => addressed pw r
  | P_Delete r _ => deletes_instance pw id r
  | P_Live _ _ | P_Now _ | P_Sleep _ => True
  | _ => idle pw c
  end.
Lemma deleting_call c : deleting pw id c → delete_call c.
Proof. by destruct c. Qed.

(** The deletion requests of a history. *)
Fixpoint p_deletions (l : list pow_call) : nat :=
  match l with
  | [] => 0
  | P_Delete _ _ :: l => S (p_deletions l)
  | _ :: l => p_deletions l
  end.
Lemma p_deletions_app l l' : p_deletions (l ++ l') = p_deletions l + p_deletions l'.
Proof. induction l as [|[] l IH]; simpl; lia. Qed.

(** The deletion, with [n] rounds left after the next one. *)
Record deleting_loop (total n : nat) (h : hist powE) : Prop := {
  dl_time : (timeout < start + slept (pow_calls h) + Z.of_nat n * (10 * Second))%Z;
  dl_calls : Forall delete_call (pow_calls h);
  dl_count : p_deletions (pow_calls h) + S n ≤ total
}.
Definition deleted (total : nat) (h : hist powE) : Prop :=
  Forall delete_call (pow_calls h) ∧ p_deletions (pow_calls h) ≤ total.

Lemma deleting_facts l : Forall (idle pw) l → slept l = 0%Z ∧ p_deletions l = 0 ∧ Forall delete_call l.
Proof.
  intros Hl. split_and!.
  - by eapply slept_idle.
  - clear -Hl. by induction Hl as [|[] l Hc]; simpl in *.
  - eapply Forall_impl; [exact Hl|]. by intros [].
Qed.

(** A deletion request at most, and no time. *)
Lemma pow_deleteInstance_once :
  makes pows pow_call_of (λ _, True) (deleteInstance pw id) (λ _ l,
    slept l = 0%Z ∧ p_deletions l ≤ 1 ∧ Forall delete_call l).
Proof.
  unfold deleteInstance. eapply makes_bind.
  { eapply makes_mono; [apply pow_build_request|done|].
    - intros cid. apply lookup_insert_eq.
    - intros a l Hl HQ. exact (conj Hl HQ). }
  intros [rq|err] l [(Hs & Hd & Hl)%deleting_facts Hrq]; [|apply makes_ret; split_and!; [done|simpl; lia|done]].
  destruct Hrq as (Had & Hm & _ & Hq & _ & cid & Hp).
  assert (deletes_instance pw id rq) as Hdel.
  { split; [done|done|rewrite Hp, lookup_insert_ne by differ; apply lookup_singleton_eq|rewrite Hq; apply lookup_singleton_eq]. }
  eapply makes_bind; [by apply (makes_trigger _ _ _ _ (λ r l, l = [P_Delete rq r]))|]. intros r l' ->.
  apply makes_ret. simpl. split_and!; [lia|lia|by constructor].
Qed.

Lemma reading_facts l : Forall (λ c, reading pw c ∧ ∀ t, c ≠ P_Now t) l →
  slept l = 0%Z ∧ p_deletions l = 0 ∧ Forall delete_call l.
Proof.
  intros Hl. assert (Forall (reading pw) l) as Hr by (eapply Forall_impl; [exact Hl|by intros c [? _]]). split_and!.
  - by eapply slept_reading.
  - clear Hl. by induction Hr as [|[] l Hc].
  - eapply Forall_impl; [exact Hr|]. by intros [].
Qed.

Lemma wp_delete_round total n h :
  deleting_loop total n h →
  wpp (delete_round pw id timeout) (λ last h',
    if last then deleted total h' else match n with 0 => False | S n => deleting_loop total n h' end) h.
Proof.
  intros [Ht Hc Hn]. unfold delete_round. apply wp_bind. eapply makes_wp; [apply pow_getInstance|].
  intros r l Hl%reading_facts _. destruct Hl as (Hs & Hd & Hl).
  assert (Forall delete_call (pow_calls (l ++ h)) ∧ p_deletions (pow_calls (l ++ h)) + S n ≤ total ∧
    slept (pow_calls (l ++ h)) = slept (pow_calls h)) as (Hc' & Hn' & Hs').
  { rewrite pow_calls_app, p_deletions_app, slept_app. fold (pow_calls l) in *.
    split_and!; [by apply Forall_app_2|lia|lia]. }
  destruct r as [i|err]; [|apply wp_ret; split; [done|lia]].
  apply wp_bind. eapply makes_wp; [apply pow_deleteInstance_once|]. intros r l' _ (Hs2 & Hd2 & Hl2).
  apply wp_bind, wp_trigger. intros t [_ Htt]. fold (pow_calls l') in *.
  rewrite pow_calls_app, slept_app in Htt.
  assert (Forall delete_call (pow_calls (l' ++ l ++ h)) ∧ p_deletions (pow_calls (l' ++ l ++ h)) + n ≤ total ∧
    slept (pow_calls (l' ++ l ++ h)) = slept (pow_calls h)) as (Hc3 & Hn3 & Hs3).
  { rewrite pow_calls_app, p_deletions_app, slept_app. split_and!; [by apply Forall_app_2|lia|lia]. }
  destruct (timeout <? t)%Z eqn:Hlt; [apply wp_ret; split; [by constructor|simpl; lia]|apply Z.ltb_ge in Hlt].
  apply wp_bind, wp_trigger. intros u _. apply wp_ret.
  destruct n as [|n]; [unfold Second in *; lia|].
  split; [simpl slept; unfold Second in *; lia|by repeat constructor|simpl; lia].
Qed.

Lemma wp_delete_loop n :
  (timeout < start + Z.of_nat n * (10 * Second))%Z →
  wpp (delete_loop pw (S n) id timeout) (λ r h, r = true ∧ deleted (S n) h) [].
Proof.
  intros Hn. apply (wp_until _ _ (deleting_loop (S n)) (deleted (S n)) n).
  - intros k h. apply wp_delete_round.
  - split; [simpl; lia|constructor|simpl; lia].
Qed.

(** What the resize loop calls. *)
Definition resize_call (c : pow_call) : Prop :=
  match c with
  | P_List r _ | P_Get r _ => addressed pw r
  | P_Volume r _ => ∃ v, resizes_volume pw v r
  | P_Now _ | P_Sleep _ | P_Live _ _ => True
  | _ => idle pw c
  end.

(** How the resize ends: the time is over, the volume has the size already, or the first
    volume of the instance got it. *)
Inductive resized (l : list pow_call) : Prop :=
| r_timeout t : P_Now t ∈ l → (timeout < t)%Z → resized l
| r_same i size : got_instance id i l → DiskSize i = Some size → float_eqb size (Disk pw) = true → resized l
| r_updated i v rq u : got_instance id i l → VolumeIDs i !! 0 = Some v → P_Volume rq (Ok u) ∈ l →
    resizes_volume pw v rq → resized l.

(** The resize, with [n] rounds left after the next one. *)
Record resizing_loop (n : nat) (h : hist powE) : Prop := {
  rl_time : (timeout < start + slept (pow_calls h) + Z.of_nat (S n) * (10 * Second))%Z;
  rl_calls : Forall resize_call (pow_calls h)
}.

Lemma resize_reading l : Forall (λ c, reading pw c ∧ ∀ t, c ≠ P_Now t) l → slept l = 0%Z ∧ Forall resize_call l.
Proof.
  intros Hl. assert (Forall (reading pw) l) as Hr by (eapply Forall_impl; [exact Hl|by intros c [? _]]). split.
  - by eapply slept_reading.
  - eapply Forall_impl; [exact Hr|]. by intros [].
Qed.

Lemma wp_resize_round n h :
  resizing_loop n h →
  wpp (resize_round pw id timeout) (λ last h',
    if last then Forall resize_call (pow_calls h') ∧ resized (pow_calls h')
    else match n with 0 => False | S n => resizing_loop n h' end) h.
Proof.
  intros [Ht Hc]. unfold resize_round. apply wp_bind, wp_trigger. intros u _. apply wp_bind, wp_trigger.
  intros t [_ Htt]. cbn [pow_calls fmap list_fmap pow_call_of ev_req ev_ans slept] in Htt. fold (pow_calls h) in Htt.
  set (h1 := Ev Pow_Now t :: _).
  assert (Forall resize_call (pow_calls h1)) as Hc1 by by repeat constructor.
  assert (slept (pow_calls h1) = 10 * Second + slept (pow_calls h))%Z as Hs1 by done.
  destruct (timeout <? t)%Z eqn:Hlt.
  { apply Z.ltb_lt in Hlt. apply wp_ret. split; [done|]. apply (r_timeout _ t); [left|done]. }
  apply Z.ltb_ge in Hlt. destruct n as [|n]; [unfold Second in *; simpl in *; lia|].
  apply wp_bind. eapply makes_wp; [apply pow_getInstance|]. intros r l Hl%resize_reading Hr. destruct Hl as [Hs Hl].
  fold (pow_calls l) in *.
  assert (∀ l', slept (pow_calls l') = 0%Z → Forall resize_call (pow_calls l') → resizing_loop n (l' ++ h1)) as Hnext.
  { intros l' Hs' Hl'. split; rewrite pow_calls_app; [|by apply Forall_app_2].
    rewrite slept_app. unfold Second in *. lia. }
  destruct r as [i|err]; [|apply wp_ret; by apply Hnext].
  destruct Hr as ((_ & _ & _ & [size Hsize]) & rq & Hrq & Hp).
  destruct (VolumeIDs i) as [|v vs] eqn:Hv; [apply wp_ret; by apply Hnext|].
  assert (got_instance id i (pow_calls (l ++ h1))) as Hgot.
  { exists rq. rewrite pow_calls_app, elem_of_app. auto. }
  rewrite Hsize. apply wp_bind, wp_ret. destruct (float_eqb size (Disk pw)) eqn:He.
  { apply wp_ret. split; [rewrite pow_calls_app; by apply Forall_app_2|by eapply r_same]. }
  apply wp_bind. eapply makes_wp; [apply pow_updateVolume|]. intros r l' Hl' Hr'. fold (pow_calls l') in *.
  assert (slept (pow_calls l') = 0%Z ∧ Forall resize_call (pow_calls l')) as [Hs2 Hl2].
  { split; [clear -Hl'; by induction Hl' as [|[] ? Hc]|]. eapply Forall_impl; [exact Hl'|]. intros []; try done. by exists v. }
  apply wp_ret. destruct r as [u'|err].
  - split; [rewrite !pow_calls_app; repeat apply Forall_app_2; done|].
    destruct (proj1 Hr') as (rq' & u2 & Hin); [by exists u'|].
    eapply (r_updated _ i v rq' u2).
    + rewrite pow_calls_app. by apply got_instance_app.
    + by rewrite Hv.
    + rewrite pow_calls_app, elem_of_app. by left.
    + exact (proj1 (Forall_forall _ _) Hl' _ Hin).
  - rewrite app_assoc. apply Hnext; [rewrite pow_calls_app, slept_app; lia|rewrite pow_calls_app; by apply Forall_app_2].
Qed.

Lemma wp_resize_loop n :
  (timeout < start + Z.of_nat (S n) * (10 * Second))%Z →
  wpp (resize_loop pw (S n) id timeout) (λ r h, r = true ∧ Forall resize_call (pow_calls h) ∧ resized (pow_calls h)) [].
Proof.
  intros Hn. apply (wp_until _ _ resizing_loop (λ h, Forall resize_call (pow_calls h) ∧ resized (pow_calls h)) n).
  - intros k h. apply wp_resize_round.
  - split; [simpl slept; lia|constructor].
Qed.
End loops.

(** ** Properties *)


(** C38. The two background loops return: whatever the API answers, the deletion within 62
    rounds, after 62 deletion requests at most, each for the instance it was given; and the
    resize within 61 rounds, when the time is over, or the volume has the configured size, or the first
    volume of the instance was given it. *)
Theorem power_loops_return start pw id :
  wp (pow_spec start) (delete_loop pw 62 id (start + 10 * Minute)) (λ returned h,
    returned = true ∧ Forall (delete_call pw id) (pow_calls h) ∧ p_deletions (pow_calls h) ≤ 62) [] ∧
  wp (pow_spec start) (resize_loop pw 61 id (start + 10 * Minute)) (λ returned h,
    returned = true ∧ Forall (resize_call pw) (pow_calls h) ∧
    resized pw id (start + 10 * Minute) (pow_calls h)) [].
Proof.
  split; [apply (wp_delete_loop _ _ _ _ 61)|apply (wp_resize_loop _ _ _ _ 60)];
    unfold Minute; simpl; unfold Second; lia.
Qed.

(** [parseCRN] returns the service instance of exactly the names of ten segments that start
    with ["crn"] and name the service ["power-iaas"], a location that is not ["global"], and
    an instance. *)
Theorem parseCRN_accepts pw id : parseCRN pw = Ok id ↔ names_instance (CRN pw) id.
Proof. apply parseCRN_iff. Qed.

(** A launched Power instance has a name of its tag, and is counted for the tag exactly when
    the tag has no capital letter and no underscore. *)
Theorem launched_power_selected start pw id tag :
  wp (pow_spec start) (LaunchInstance pw id tag) (λ r h, ∀ rq a, P_Launch rq a ∈ pow_calls h →
    ∃ n img c pt m nets k sys ud, rq_body rq = Some (PVMInstanceCreate n img c pt m nets k sys ud [id]) ∧
      (HasPrefix n tag = true ↔ normalised tag = tag)) [].
Proof.
  eapply makes_wp; [apply pow_LaunchInstance|]. intros r l _ Hl rq a Hin. rewrite app_nil_r in Hin. fold (pow_calls l) in *.
  assert (∀ l, Forall (resting pw) l → P_Launch rq a ∉ l) as Hno.
  { intros l' Hb Hi. exact (proj1 (Forall_forall _ _) Hb _ Hi). }
  assert (∃ t, p_launch_request pw id tag t rq) as [t [_ _ Hb _ _]].
  { revert Hin Hl. generalize (pow_calls l). intros l' Hin Hl.
    destruct Hl as [e l' Hb _|t q e e' l' Hq _ Hb|t t' q i ins inst l' Hq _ Hb _].
    - by destruct (Hno l').
    - apply elem_of_cons in Hin as [[= -> _]|Hin]; [by exists t|by destruct (Hno l')].
    - do 2 (apply elem_of_cons in Hin as [?|Hin]; [done|]).
      apply elem_of_cons in Hin as [[= -> _]|Hin]; [by exists t|by destruct (Hno l')]. }
  rewrite Hb. do 9 eexists. split; [done|]. apply instance_name_prefix.
Qed.

(** The volume of an instance is never smaller than 100. *)
Lemma volume_size_bound disk : float_ltb (volume_size disk) (float_of_Z 100) = false.
Proof.
  unfold volume_size. destruct (ParseFloat disk) as [f|]; [|by vm_compute].
  destruct (float_ltb f (float_of_Z 100)) eqn:Hf; [by vm_compute|done].
Qed.
