(* ===== verification/ProviderFacts.v ===== *)
(** * The three clouds implement the provider interface *)
From S2P Require Import Prelude GoLib GoStrings Prog Emits Calls Kube Cloud CloudFacts Provider.
From S2P Require Import Aws AwsFacts IbmZ IbmZFacts IbmPower IbmPowerFacts.

(** An account read off the calls that a provider's facts speak about. *)
Definition account_of {E C} (call : event E → C) (ask : C → bool) (mark delete : C → string → Prop)
    (omit : C → Prop) : account E :=
  Account (λ ev, ask (call ev)) (λ ev, mark (call ev)) (λ ev, delete (call ev)) (λ ev, omit (call ev)).

Section calls.
Context {E : Type → Type} {C : Type} (call : event E → C) (ask : C → bool) (mark delete : C → string → Prop) (omit : C → Prop).
Abbreviation acc := (account_of call ask mark delete omit).

Lemma asked_calls l : asked acc l = length (filter (λ c, ask c = true) (call <$> l)).
Proof.
  unfold asked. induction l as [|ev l IH]; [done|]. rewrite fmap_cons, !filter_cons. cbn [asks account_of].
  destruct (ask (call ev)); [rewrite !decide_True by done; simpl; by f_equal|by rewrite !decide_False by done].
Qed.

(** Calls that neither ask nor delete. *)
Definition neutral (c : C) : Prop := ask c = false ∧ ∀ i, ¬ delete c i.

Lemma neutral_asked l : Forall neutral (call <$> l) → asked acc l = 0 ∧ keeps acc l.
Proof.
  intros Hl. apply (proj1 (Forall_fmap _ _ _)) in Hl. split.
  - apply asked_none. eapply Forall_impl; [exact Hl|]. by intros ev [? _].
  - intros ev i Hin. apply (proj1 (Forall_forall _ _) Hl) in Hin as [_ Hd]. apply Hd.
Qed.

(** A launch with one request at most among neutral calls. *)
Lemma launch_promise id tag tags x (l : hist E) c pre post :
  call <$> l = pre ++ c :: post → Forall neutral pre → Forall neutral post → ask c = true → mark c id →
  (∀ i, ¬ delete c i) → (∀ i, x.2 = Ok i → ValidateTaskRunID id = None) →
  provider_promise acc (LaunchInstance id tag tags) x l.
Proof.
  intros Hl Hpre Hpost Hc Hm Hd Hv.
  apply fmap_app_inv in Hl as (l1 & l2 & -> & Hl2 & ->). symmetry in Hl2.
  apply fmap_cons_inv in Hl2 as (ev & l3 & -> & -> & ->).
  apply neutral_asked in Hpre as [Ha1 Hk1], Hpost as [Ha2 Hk2].
  assert (asked acc (l1 ++ ev :: l3) = 1) as Hone.
  { rewrite asked_app, Ha1. change (ev :: l3) with ([ev] ++ l3). rewrite asked_app, Ha2.
    rewrite (asked_one _ ev []); [done|done|constructor]. }
  split_and!; [lia|intros ev'|split; [done|by apply (Hv i)]|intros ev' j].
  - rewrite elem_of_app, elem_of_cons. intros [Hin|[->|Hin]] Ha; [..|done|]; exfalso.
    + assert (asked acc l1 ≠ 0); [|done]. by eapply asked_elem.
    + assert (asked acc l3 ≠ 0); [|done]. by eapply asked_elem.
  - rewrite elem_of_app, elem_of_cons. intros [Hin|[->|Hin]]; [by eapply Hk1|apply Hd|by eapply Hk2].
Qed.

Lemma no_launch_promise id tag tags x (l : hist E) :
  Forall neutral (call <$> l) → (∀ i, x.2 ≠ Ok i) → provider_promise acc (LaunchInstance id tag tags) x l.
Proof.
  intros [Ha Hk]%neutral_asked Hx. split_and!; [lia| |by intros i ?%Hx|done].
  intros ev Hin He. by destruct (asked_elem acc ev l Hin He).
Qed.

(** A termination that deletes nothing but its instance. *)
Lemma terminate_promise i x (l : hist E) :
  Forall (λ c, ask c = false ∧ ∀ j, delete c j → j = i) (call <$> l) → provider_promise acc (TerminateInstance i) x l.
Proof.
  intros Hl. apply (proj1 (Forall_fmap _ _ _)) in Hl. split.
  - apply asked_none. eapply Forall_impl; [exact Hl|]. by intros ev [? _].
  - intros ev j Hin. apply (proj1 (Forall_forall _ _) Hl) in Hin as [_ Hd]. apply Hd.
Qed.
End calls.

(** ** AWS *)

Module Ec2Provider.
Import Ec2 AwsFacts.

Definition ask (c : ec2_call) : bool := match c with E_Run _ _ => true | _ => false end.
Definition mark (c : ec2_call) (id : string) : Prop :=
  match c with E_Run input _ => {| tag_Key := TaskRunTagKey; tag_Value := id |} ∈ ri_Tags input | _ => False end.
Definition delete (c : ec2_call) (i : string) : Prop := match c with E_Terminate ids _ => i ∈ ids | _ => False end.
Definition ec2_account : account ec2E := account_of call_of ask mark delete (λ _, False).
Abbreviation calm := (neutral ask delete).

(** Requests that neither run nor terminate instances. *)
Definition looks X (e : ec2E X) : Prop :=
  match e with RunInstances _ | TerminateInstances _ => False | _ => True end.

Lemma looks_calm l : Forall (λ ev : event ec2E, looks _ (ev_req ev)) l → Forall calm (call_of <$> l).
Proof.
  intros Hl. apply Forall_fmap. eapply Forall_impl; [exact Hl|]. intros [X e x] He. cbn [ev_req] in He.
  destruct e; try done; (split; [done|by intros i []]).
Qed.

Section looks.
Variable ec : AWSEc2DynamicConfig.

Lemma emits_getEC2Client : emits looks (getEC2Client ec).
Proof. unfold getEC2Client. by emits. Qed.
Lemma emits_counts i : emits looks (counts ec i).
Proof. unfold counts. by emits. Qed.
#[local] Hint Resolve emits_getEC2Client emits_counts : emits.
Lemma emits_validateIPAddress i : emits looks (validateIPAddress ec i).
Proof. unfold validateIPAddress. by emits. Qed.
#[local] Hint Resolve emits_validateIPAddress : emits.

Lemma emits_looking {X} (c : cloudE X) :
  match c with Cloud.LaunchInstance _ _ _ | Cloud.TerminateInstance _ => False | _ => True end → emits looks (handle ec c).
Proof.
  destruct c; try done; intros _; cbn [handle];
    unfold GetInstanceAddress, CountInstances, ListInstances, GetState, describe_tagged, count_instance, list_instance; by emits.
Qed.

#[global] Instance ec2_provider : Provider ec2_spec ec2_account (λ X, handle ec).
Proof.
  intros X c. apply wp_panics. assert (match c with Cloud.LaunchInstance _ _ _ | Cloud.TerminateInstance _ => False | _ => True end →
    wp ec2_spec (handle ec c) (λ _ l, asked ec2_account l = 0 ∧ keeps ec2_account l) []) as Hlook.
  { intros Hc. eapply wp_mono; [|by apply (wp_emits looks); [apply emits_looking|apply wp_ec2_handle]].
    intros x h (_ & l & -> & Hl). rewrite app_nil_r. by apply neutral_asked, looks_calm. }
  destruct c; try (by apply Hlook); clear Hlook; cbn [handle].
  - eapply wp_mono; [|apply wp_ec2_LaunchInstance]. intros [tags r] l Hl.
    assert (∀ l, Forall (eq E_Other) l → Forall calm l) as Ho.
    { intros l' Hl'. eapply Forall_impl; [exact Hl'|]. intros ? <-. split; [done|by intros i []]. }
    remember (calls l) as cl eqn:Hcl.
    destruct Hl as [err Hn|err l' Hl'|input o err l' Hr Hne Hl'|input i il instance l' Hr Hi Hl'].
    + apply no_launch_promise; [unfold calls in Hcl; by rewrite <- Hcl|done].
    + apply no_launch_promise; [unfold calls in Hcl; rewrite <- Hcl; auto|done].
    + eapply (launch_promise _ _ _ _ _ _ _ _ _ _ _ [] l'); [symmetry; exact Hcl|constructor|auto|done|apply Hr|by intros i []|done].
    + eapply (launch_promise _ _ _ _ _ _ _ _ _ _ _ [] l'); [symmetry; exact Hcl|constructor|auto|done|apply Hr|by intros j []|].
      intros _ _. apply ValidateTaskRunID_iff. destruct Hr as [_ _ _ _ (ns & n & Hid & _) _ _]. by exists ns, n.
  - eapply wp_mono; [|apply wp_ec2_TerminateInstance]. intros r l. cbv beta.
    destruct (String.eqb _ ""); [intros [-> _]; split; [done|by intros ? ? ?%elem_of_nil]|].
    intros [(e & Hc & _)|Hc]; apply terminate_promise; unfold calls in Hc; rewrite Hc; repeat constructor; try done.
    intros j. by intros ?%list_elem_of_singleton.
Qed.
End looks.
End Ec2Provider.

(** ** IBM Z *)

Module VpcProvider.
Import IbmZ IbmZFacts.

Definition ask (c : vpc_call) : bool := match c with Z_Create _ _ => true | _ => false end.
Definition mark (c : vpc_call) (id : string) : Prop := match c with Z_Create p _ => ip_UserTags p = [id] | _ => False end.
Definition delete (c : vpc_call) (i : string) : Prop :=
  match c with Z_Delete id _ => id = Some i | Z_Go id _ => id = i | _ => False end.
Definition vpc_account : account vpcE := account_of call_of ask mark delete omits_interface.
Abbreviation calm := (neutral ask delete).

Lemma benign_calm l : Forall benign l → Forall calm l.
Proof. intros Hl. eapply Forall_impl; [exact Hl|]. intros [] Hb; try done; (split; [done|by intros i []]). Qed.

Lemma harmless_promise (h : hist vpcE) : harmless h → asked vpc_account h = 0 ∧ keeps vpc_account h.
Proof. intros Hh%benign_calm. by apply neutral_asked. Qed.

Lemma harmless_panic why h : z_panics why h →
  asked vpc_account h = 0 ∧ keeps vpc_account h ∧ ∃ ev, ev ∈ h ∧ omits vpc_account ev.
Proof.
  intros [[Ha Hk]%harmless_promise (c & (ev & -> & Hin)%list_elem_of_fmap & Hc)]. split_and!; [done..|by exists ev].
Qed.

#[global] Instance vpc_provider start iz : Provider (vpc_spec start) vpc_account (λ X, handle iz).
Proof.
  intros X c. destruct c; cbn [handle].
  - apply wp_bind. eapply wp_mono; [|apply wp_z_LaunchInstance]. intros r l Hl. apply wp_ret.
    cbv beta in Hl. remember (calls l) as cl eqn:Hcl.
    destruct Hl as [err l' Hl'|t p err err' l' Hr _ Hl'|t p i instance l' Hr _ Hl' Hi]; apply benign_calm in Hl'.
    + apply no_launch_promise; [unfold calls in Hcl; by rewrite <- Hcl|done].
    + eapply (launch_promise _ _ _ _ _ _ _ _ _ _ _ [] l'); [symmetry; exact Hcl|constructor|auto|done|apply Hr|by intros j []|done].
    + eapply (launch_promise _ _ _ _ _ _ _ _ _ _ _ [] l'); [symmetry; exact Hcl|constructor|auto|done|apply Hr|by intros j []|].
      intros _ _. apply ValidateTaskRunID_iff. apply Hr.
  - eapply wp_mono; [|apply wp_z_TerminateInstance]. intros [u|err] l.
    + intros (t & l' & Hl & Hb%benign_calm).
      apply terminate_promise. unfold calls in Hl. rewrite Hl.
      apply Forall_cons_2; [by split; [|intros j <-]|]. apply Forall_cons_2; [by split; [|intros j []]|].
      eapply Forall_impl; [exact Hb|]. intros c [Ha Hd]. split; [done|]. intros j Hj. by destruct (Hd j).
    + intros [Ha Hk]%harmless_promise. split; [done|]. intros ev j Hin Hd. by destruct (Hk ev j).
  - eapply wp_mono; [|by apply wp_z_GetInstanceAddress, harmless_panic]. intros r l [Hh _]. by apply harmless_promise.
  - eapply wp_mono; [|apply wp_z_CountInstances]. intros r l [Hh _]. by apply harmless_promise.
  - eapply wp_mono; [|by apply wp_z_ListInstances, harmless_panic]. intros r l [Hh _]. by apply harmless_promise.
  - eapply wp_mono; [|apply wp_z_GetState]. intros r l Hh. by apply harmless_promise.
Qed.
End VpcProvider.

(** ** IBM Power *)

Module PowerProvider.
Import Power IbmPowerFacts.

Definition ask (c : pow_call) : bool := match c with P_Launch _ _ => true | _ => false end.
Definition mark (c : pow_call) (id : string) : Prop :=
  match c with
  | P_Launch r _ => ∃ n img co pt m nets k sys ud, rq_body r = Some (PVMInstanceCreate n img co pt m nets k sys ud [id])
  | _ => False
  end.
Definition delete (c : pow_call) (i : string) : Prop :=
  match c with
  | P_Delete r _ => rq_params r !! "pvm_instance_id" = Some i
  | P_GoDelete id _ => id = i
  | _ => False
  end.
(** An instance in error without its health. *)
Definition omit (c : pow_call) : Prop := match c with P_Get _ (Ok i) => omits_health i | _ => False end.
Definition power_account : account powE := account_of pow_call_of ask mark delete omit.
Abbreviation calm := (neutral ask delete).

Lemma reading_promise pw (h : hist powE) :
  Forall (reading pw) (pow_calls h) → asked power_account h = 0 ∧ keeps power_account h.
Proof.
  intros Hh. apply neutral_asked. eapply Forall_impl; [exact Hh|].
  intros [] Hb; try done; (split; [done|by intros i []]).
Qed.

#[global] Instance power_provider start pw : Provider (pow_spec start) power_account (λ X, handle pw).
Proof.
  intros X c. apply (wpp_panics _ (power_panics pw c)).
  { destruct c; try done. intros why l [[Ha Hk]%reading_promise (i & (rq & Hin & _) & Ho)].
    apply list_elem_of_fmap in Hin as (ev & Hev & Hin). split_and!; [done..|]. exists ev. split; [done|].
    cbn [omits power_account account_of]. by rewrite <- Hev. }
  eapply wp_mono; [|apply wp_p_handle]. intros x l.
  destruct c; cbn [power_promise]; try (intros [Hr _]; by eapply reading_promise).
  - intros (_ & _ & Hl). cbv beta in Hl. remember (pow_calls l) as cl eqn:Hcl.
    assert (∀ l, Forall (resting pw) l → Forall calm l) as Ho.
    { intros l' Hl'. eapply Forall_impl; [exact Hl'|]. intros [] Hb; try done; (split; [done|by intros i []]). }
    remember x.2 as r eqn:Hx.
    destruct Hl as [err l' Hl' _|t rq err err' l' Hr _ Hl'|t t' rq i ins instance l' Hr _ Hl' Hi].
    + apply no_launch_promise; [unfold pow_calls in Hcl; rewrite <- Hcl; auto|by rewrite <- Hx].
    + eapply (launch_promise _ _ _ _ _ _ _ _ _ _ _ [] l'); [symmetry; exact Hcl|constructor|auto|done| |by intros j []|by rewrite <- Hx].
      destruct Hr as [_ _ Hb _ _]. by do 9 eexists.
    + eapply (launch_promise _ _ _ _ _ _ _ _ _ _ _ [_; _] l'); [symmetry; exact Hcl| |auto|done| |by intros j []|].
      * by repeat constructor; intros j [].
      * destruct Hr as [_ _ Hb _ _]. by do 9 eexists.
      * intros _ _. apply ValidateTaskRunID_iff. apply Hr.
  - intros [Ht _]. apply terminate_promise.
    eapply Forall_impl; [exact Ht|]. intros [] Hb; try done; (split; [done|]); try by intros j []; try by intros j <-.
    intros j Hj. destruct Hb as [_ _ Hi _]. cbn [delete] in Hj. congruence.
Qed.
End PowerProvider.
