(* ===== verification/SystemFacts.v ===== *)
(** * The controller put together: what is proved of the reconciler, of the retrying client
      and of the clouds, of one program *)
From S2P Require Import Prelude GoLib GoStrings Prog Exec Kube Cloud CloudFacts Effects Metrics Update Provision.
From S2P Require Import Reconciler RetryClient Provider Aws AwsFacts IbmZ IbmZFacts IbmPower IbmPowerFacts ProviderFacts System.
From S2P Require Import Trace DynamicFacts EffectFacts RetryFacts.

(** An account keeps its counts along an embedding. *)
Lemma panic_fmap {E F} (acc : account E) (acc' : account F) (g : event E → event F) {X} (c : cloudE X) why l :
  (∀ ev, asks acc' (g ev) = asks acc ev) → (∀ ev i, deletes acc' (g ev) i ↔ deletes acc ev i) →
  (∀ ev, omits acc' (g ev) ↔ omits acc ev) →
  provider_panic acc c why l → provider_panic acc' c why (g <$> l).
Proof.
  intros Ha Hd Ho Hp. assert (asked acc l = 0 ∧ keeps acc l ∧ (∃ ev, ev ∈ l ∧ omits acc ev) →
    asked acc' (g <$> l) = 0 ∧ keeps acc' (g <$> l) ∧ ∃ ev, ev ∈ g <$> l ∧ omits acc' ev) as Hall; [|destruct c; try done; by apply Hall].
  intros (Hz & Hk & ev & Hev & Hom). split_and!.
  - rewrite <- Hz. clear -Ha. unfold asked. induction l as [|ev l IH]; [done|]. rewrite fmap_cons, !filter_cons, Ha.
    case_decide; simpl; by rewrite ?IH.
  - intros ev' i (ev0 & -> & Hin)%list_elem_of_fmap. rewrite Hd. by apply Hk.
  - exists (g ev). rewrite Ho. split; [|done]. by apply list_elem_of_fmap_2.
Qed.

Lemma promise_fmap {E F} (acc : account E) (acc' : account F) (g : event E → event F) {X} (c : cloudE X) x l :
  (∀ ev, asks acc' (g ev) = asks acc ev) → (∀ ev i, marks acc' (g ev) i ↔ marks acc ev i) →
  (∀ ev i, deletes acc' (g ev) i ↔ deletes acc ev i) →
  provider_promise acc c x l → provider_promise acc' c x (g <$> l).
Proof.
  intros Ha Hm Hd.
  assert (asked acc' (g <$> l) = asked acc l) as Hasked.
  { unfold asked. induction l as [|ev l IH]; [done|]. rewrite fmap_cons, !filter_cons, Ha.
    case_decide; simpl; by rewrite ?IH. }
  assert (keeps acc l → keeps acc' (g <$> l)) as Hk.
  { intros Hk ev i (ev' & -> & Hin)%list_elem_of_fmap. rewrite Hd. by apply Hk. }
  destruct c; cbn [provider_promise]; rewrite Hasked; try (intros [? ?]; by auto).
  - intros (? & Hmark & Hok & Hkeep). split_and!; [done| |done|by apply Hk].
    intros ev (ev' & -> & Hin)%list_elem_of_fmap. rewrite Ha, Hm. by apply Hmark.
  - intros [? Hdel]. split; [done|]. intros ev j (ev' & -> & Hin)%list_elem_of_fmap. rewrite Hd. by apply Hdel.
Qed.

(** ** The contract and the account of the whole *)

(** The parts of a history. *)
Definition base_ev (ev : event sysE) : option (event mpcE) :=
  (match ev_req ev in sysE X return X → option (event mpcE) with
   | Base e => λ x, Some (Ev e x) | _ => λ _, None end) (ev_ans ev).
Definition vpc_ev (ev : event sysE) : option (event IbmZ.vpcE) :=
  (match ev_req ev in sysE X return X → option (event IbmZ.vpcE) with
   | OnVpc e => λ x, Some (Ev e x) | _ => λ _, None end) (ev_ans ev).
Definition power_ev (ev : event sysE) : option (event Power.powE) :=
  (match ev_req ev in sysE X return X → option (event Power.powE) with
   | OnPower e => λ x, Some (Ev e x) | _ => λ _, None end) (ev_ans ev).

(** Each part keeps to its own contract; the clocks of the clouds have passed [start]. *)
Definition sys_spec (m0 : memory) (start : Z) : contract sysE := λ h X e,
  match e in sysE X return X → Prop with
  | Base e => answer_ok (mem_of m0 (omap base_ev h)) e
  | OnEc2 e => ec2_ok e
  | OnVpc e => vpc_spec start (omap vpc_ev h) _ e
  | OnPower e => pow_spec start (omap power_ev h) _ e
  end.

Definition on_cloud {A} (ev : event sysE) (none : A) (ec2 : event Ec2.ec2E → A) (vpc : event IbmZ.vpcE → A)
    (power : event Power.powE → A) : A :=
  (match ev_req ev in sysE X return X → A with
   | Base _ => λ _, none
   | OnEc2 e => λ x, ec2 (Ev e x)
   | OnVpc e => λ x, vpc (Ev e x)
   | OnPower e => λ x, power (Ev e x)
   end) (ev_ans ev).
Definition sys_account : account sysE := {|
  asks ev := on_cloud ev false (asks Ec2Provider.ec2_account) (asks VpcProvider.vpc_account) (asks PowerProvider.power_account);
  marks ev := on_cloud ev (λ _, False) (marks Ec2Provider.ec2_account) (marks VpcProvider.vpc_account) (marks PowerProvider.power_account);
  deletes ev := on_cloud ev (λ _, False) (deletes Ec2Provider.ec2_account) (deletes VpcProvider.vpc_account) (deletes PowerProvider.power_account);
  omits ev := on_cloud ev False (omits Ec2Provider.ec2_account) (omits VpcProvider.vpc_account) (omits PowerProvider.power_account)
|}.

(** ** Providers *)

Lemma elapsed_embed l h : elapsed (omap vpc_ev ((inj_ev (@OnVpc) <$> l) ++ h)) = (elapsed l + elapsed (omap vpc_ev h))%Z.
Proof. induction l as [|[X e x] l IH]; [done|]. cbn. rewrite IH. lia. Qed.

Lemma slept_embed l h :
  slept (pow_calls (omap power_ev ((inj_ev (@OnPower) <$> l) ++ h))) =
  (slept (pow_calls l) + slept (pow_calls (omap power_ev h)))%Z.
Proof.
  rewrite <- slept_app, <- pow_calls_app. f_equal. f_equal.
  induction l as [|[X e x] l IH]; [done|]. cbn. by rewrite IH.
Qed.

(** What a provider does for the reconciler: it keeps its promise, and does nothing else. *)
Definition provided {X} (c : cloudE X) (x : X) (l : hist sysE) : Prop :=
  provider_promise sys_account c x l ∧ omap base_ev l = [].

(** What it has done when it panics. *)
Definition gives_up {X} (c : cloudE X) (why : string) (h h' : hist sysE) : Prop :=
  ∃ l, h' = l ++ h ∧ provider_panic sys_account c why l.

(** Any implementation of the interface, whose requests the whole passes on. *)
Lemma wp_provided {E} (S : contract E) (acc : account E) handle `{!Provider S acc handle}
    (inj : ∀ X, E X → sysE X) m0 start {X} (c : cloudE X) h :
  (∀ l X (e : E X) x, sys_spec m0 start ((inj_ev inj <$> l) ++ h) X (inj X e) x → S l X e x) →
  (∀ ev, asks sys_account (inj_ev inj ev) = asks acc ev) →
  (∀ ev i, marks sys_account (inj_ev inj ev) i ↔ marks acc ev i) →
  (∀ ev i, deletes sys_account (inj_ev inj ev) i ↔ deletes acc ev i) →
  (∀ ev, omits sys_account (inj_ev inj ev) ↔ omits acc ev) →
  (∀ ev, base_ev (inj_ev inj ev) = None) →
  wpp (sys_spec m0 start) (λ why, gives_up c why h) (interp (λ Y e, trigger (inj Y e)) (handle X c))
    (λ x h', ∃ l, h' = l ++ h ∧ provided c x l) h.
Proof.
  intros Hle Ha Hm Hd Ho Hb. eapply wpp_panics; [|eapply wp_mono; [|by apply (wp_embed S); [|apply provider_keeps]]].
  - intros why h' (l & -> & Hl). eexists. split; [done|]. by eapply panic_fmap.
  - intros x h' (l & -> & Hl). eexists. split; [done|]. split; [by eapply promise_fmap|].
    clear Hl. induction l as [|ev l IH]; [done|]. cbn. by rewrite Hb.
Qed.

Lemma wp_provide m0 start {X} (p : CloudProvider) (c : cloudE X) h :
  wpp (sys_spec m0 start) (λ why, gives_up c why h) (provide p c) (λ x h', ∃ l, h' = l ++ h ∧ provided c x l) h.
Proof.
  unfold provide. destruct (cp_ctor p).
  - by apply (wp_provided ec2_spec Ec2Provider.ec2_account (λ X, Ec2.handle _) (@OnEc2)).
  - apply (wp_provided (vpc_spec (start + elapsed (omap vpc_ev h))) VpcProvider.vpc_account (λ X, IbmZ.handle _) (@OnVpc)); try done.
    intros l Y e y [Hok Ht]. split; [done|]. destruct e; try done. rewrite elapsed_embed in Ht. lia.
  - apply (wp_provided (pow_spec (start + slept (pow_calls (omap power_ev h)))) PowerProvider.power_account (λ X, Power.handle _) (@OnPower)); try done.
    intros l Y e y [Hok Ht]. split; [done|]. destruct e; try done. rewrite slept_embed in Ht. lia.
Qed.

(** ** The whole *)

(** The calls of the reconciler, and the calls by which they were carried out. *)
Definition of_cloud {X} (e : mpcE X) : bool := match e with Cloud _ _ => true | _ => false end.

Inductive carried : hist mpcE → hist sysE → Prop :=
| carried_nil : carried [] []
| carried_base {X} (e : mpcE X) x hE hF : of_cloud e = false → carried hE hF → carried (Ev e x :: hE) (Ev (Base e) x :: hF)
| carried_cloud {X} (p : CloudProvider) (c : cloudE X) x l hE hF :
    carried hE hF → provided c x l → carried (Ev (Cloud p c) x :: hE) (l ++ hF).

Lemma omap_app_ev {A B} (f : A → option B) (l l' : list A) : omap f (l ++ l') = omap f l ++ omap f l'.
Proof. induction l as [|a l IH]; [done|]. cbn. destruct (f a); cbn; by rewrite IH. Qed.

Lemma mem_of_carried m0 hE hF : carried hE hF → mem_of m0 hE = mem_of m0 (omap base_ev hF).
Proof.
  induction 1 as [|X e x hE hF _ Hc IH|X p c x l hE hF Hc IH [_ Hb]]; [done|..].
  - cbn. by rewrite IH.
  - rewrite omap_app_ev, Hb. exact IH.
Qed.

(** A request at which a panic may happen. *)
Definition panics_at {X} (e : mpcE X) (why : string) (h h' : hist sysE) : Prop :=
  match e with Cloud p c => gives_up c why h h' | _ => False end.

(** Whatever is proved of the reconciler holds of the whole: a panic is explained by the
    beginning of a run. *)
Lemma wp_carry_out m0 start {A} (p : mpc A) Q :
  wp (go_spec m0) p Q [] →
  wpp (sys_spec m0 start)
    (λ why hF, ∃ a l hE hF0 X (e : mpcE X), Q a (l ++ hE) ∧ carried hE hF0 ∧ panics_at e why hF0 hF)
    (interp (λ X, carry_out) p) (λ a hF, ∃ hE, carried hE hF ∧ Q a hE) [].
Proof.
  intros Hp. apply (wpp_interp (go_spec m0) (sys_spec m0 start) _ carried (λ X, panics_at) _ _ [] []);
    [apply go_spec_answers| |constructor|done].
  clear Hp p Q. intros hE hF X e HR.
  assert (∀ (e' : mpcE X), of_cloud e' = false → wpp (sys_spec m0 start) (λ why, panics_at e why hF) (trigger (Base e'))
    (λ x hF', go_spec m0 hE X e' x ∧ carried (Ev e' x :: hE) hF') hF) as Hbase.
  { intros e' He'. apply wp_trigger. intros x Hx. split; [|by apply carried_base].
    unfold go_spec. by rewrite (mem_of_carried _ _ _ HR). }
  destruct e; try by apply Hbase. eapply wp_mono; [|apply wp_provide].
  intros x hF' (l & -> & Hl). split; [done|]. by apply carried_cloud.
Qed.

(** Requests for instances are those of the reconciler. *)
Lemma carried_asked hE hF : carried hE hF →
  asked sys_account hF ≤ launch_count (actions hE) ∧
  (∀ ev, ev ∈ hF → asks sys_account ev = true →
    ∃ p id tag x, A_Launch p id tag x ∈ actions hE ∧ marks sys_account ev id) ∧
  (∀ ev i, ev ∈ hF → deletes sys_account ev i → ∃ p r, A_Terminate p i r ∈ actions hE).
Proof.
  induction 1 as [|X e x hE hF _ Hc (IHa & IHm & IHd)|X p c x l hE hF Hc (IHa & IHm & IHd) [Hp _]].
  - split_and!; [done|by intros ev ?%elem_of_nil|by intros ev i ?%elem_of_nil].
  - split_and!.
    + etrans; [|etrans; [apply IHa|]]; [done|]. change (actions (Ev e x :: hE)) with ([action_of (Ev e x)] ++ actions hE).
      rewrite launch_count_app. lia.
    + intros ev [->|Hin]%elem_of_cons; [done|]. intros Ha. destruct (IHm ev Hin Ha) as (p & id & tag & y & ? & ?).
      exists p, id, tag, y. split; [by right|done].
    + intros ev i [->|Hin]%elem_of_cons; [done|]. intros Hd. destruct (IHd ev i Hin Hd) as (p & r & ?).
      exists p, r. by right.
  - assert (∀ ev, ev ∈ l → asks sys_account ev = true → asked sys_account l ≠ 0) as Hel by (intros; by eapply asked_elem).
    rewrite asked_app. change (actions (Ev (Cloud p c) x :: hE)) with (action_of (Ev (Cloud p c) x) :: actions hE).
    assert (∀ (P : event sysE → Prop), (∀ ev, ev ∈ l → P ev) → (∀ ev, ev ∈ hF → P ev) → ∀ ev, ev ∈ l ++ hF → P ev) as Happ.
    { intros P Hl Hh ev [?|?]%elem_of_app; auto. }
    split_and!.
    + destruct c; cbn [provider_promise] in Hp; destruct Hp as [Hz _]; simpl; lia.
    + apply (Happ (λ ev, asks sys_account ev = true →
        ∃ p id tag x, A_Launch p id tag x ∈ _ ∧ marks sys_account ev id)); [|intros ev Hin Ha; destruct (IHm ev Hin Ha) as (q & id & tag & y & ? & ?); exists q, id, tag, y; split; [by right|done]].
      intros ev Hin Ha. destruct c; cbn [provider_promise] in Hp; try by destruct (Hel ev Hin Ha), Hp.
      destruct Hp as (_ & Hm & _). eexists _, _, _, _. split; [left|by apply Hm].
    + intros ev i. revert ev. apply (Happ (λ ev, deletes sys_account ev i → ∃ p r, A_Terminate p i r ∈ _)); [|intros ev Hin Hd; destruct (IHd ev i Hin Hd) as (q & r & ?); exists q, r; by right].
      intros ev Hin Hd. destruct c; cbn [provider_promise] in Hp.
      * destruct Hp as (_ & _ & _ & Hk). by destruct (Hk ev i).
      * destruct Hp as (_ & Hj). rewrite (Hj ev i Hin Hd). eexists _, _. left.
      * destruct Hp as (_ & Hk). by destruct (Hk ev i).
      * destruct Hp as (_ & Hk). by destruct (Hk ev i).
      * destruct Hp as (_ & Hk). by destruct (Hk ev i).
      * destruct Hp as (_ & Hk). by destruct (Hk ev i).
Qed.

Section retries.
Context `{RetryLaws}.

(** Retries neither launch nor terminate. *)
Lemma attempts_action {X} (c : clientE X) xs a : a ∈ actions (attempts_of c xs) → ∃ x, a = client_action c x.
Proof. intros (ev & -> & (x & -> & _)%list_elem_of_fmap)%list_elem_of_fmap. by exists x. Qed.

Lemma attempts_no_launches {X} (c : clientE X) xs : no_launches (attempts_of c xs).
Proof.
  induction xs as [|x xs IH]; [apply no_launches_nil|]. apply (no_launches_app [_]); [|exact IH].
  split; [by destruct c; simpl; lia|]. intros p id tag y Hin%list_elem_of_singleton. by destruct c.
Qed.

Lemma collapses_launches hE hF : collapses hE hF →
  launch_count (actions hF) = launch_count (actions hE) ∧
  (∀ p id tag x, A_Launch p id tag x ∈ actions hF → A_Launch p id tag x ∈ actions hE) ∧
  (∀ p i r, A_Terminate p i r ∈ actions hF → A_Terminate p i r ∈ actions hE).
Proof.
  induction 1 as [|X c x l hE hF Hc (IHc & IHl & IHt) (xs & -> & _)|X e x hE hF _ Hc (IHc & IHl & IHt)]; [done|..].
  - pose proof (attempts_no_launches c (x :: xs)) as Hn. split_and!.
    + rewrite actions_app, launch_count_app, (no_launches_count _ Hn), IHc. by destruct c.
    + intros p id tag y [Hin|Hin]%elem_of_actions_app; [by destruct (proj2 Hn _ _ _ _ Hin)|right; by apply IHl].
    + intros p i r [Hin|Hin]%elem_of_actions_app; [|right; by apply IHt].
      apply attempts_action in Hin as [y Hy]. by destruct c.
  - change (actions (Ev e x :: ?h)) with ([action_of (Ev e x)] ++ actions h). rewrite !launch_count_app, IHc.
    split_and!; [done|..]; intros; rewrite ?elem_of_app in *; naive_solver.
Qed.

(** What the clouds did for a run [hR] of the reconciler. *)
Record accounted (request : NamespacedName) (hR : hist mpcE) (h : hist sysE) : Prop := {
  ac_once : asked sys_account h ≤ 1;
  ac_marked ev : ev ∈ h → asks sys_account ev = true →
    marks sys_account ev (key_namespace request +:+ ":" +:+ key_name request);
  ac_fresh : one_launch (own_launch request hR) hR;
  ac_deleted ev i : ev ∈ h → deletes sys_account ev i → ∃ p r, A_Terminate p i r ∈ actions hR
}.

(** What carries out the beginning of a run is within the bounds of the run. *)
Lemma carried_accounted request hR l hE h :
  collapses hR (l ++ hE) → one_launch (own_launch request hR) hR → carried hE h → accounted request hR h.
Proof.
  intros Hcol [Hle Hown] Hc. destruct (carried_asked _ _ Hc) as (Ha & Hm & Hd).
  destruct (collapses_launches _ _ Hcol) as (Hcount & Hl & Ht). rewrite actions_app, launch_count_app in Hcount.
  split; [lia| |done|].
  - intros ev Hin Hask. destruct (Hm ev Hin Hask) as (p & id & tag & x & Hlaunch & Hmark).
    assert (A_Launch p id tag x ∈ actions (l ++ hE)) as Hlaunch' by (rewrite elem_of_actions_app; by right).
    destruct (Hown _ _ _ _ (Hl _ _ _ _ Hlaunch')) as [-> _ _]. done.
  - intros ev i Hin Hdel. destruct (Hd ev i Hin Hdel) as (p & r & Hterm). exists p, r. apply Ht.
    rewrite elem_of_actions_app. by right.
Qed.

(** Calls that neither ask nor delete change nothing. *)
Lemma accounted_app request hR h h' :
  asked sys_account h' = 0 → keeps sys_account h' → accounted request hR h → accounted request hR (h' ++ h).
Proof.
  intros Hz Hk [Ho Hm Hf Hd]. split; [rewrite asked_app; lia| |done|].
  - intros ev [Hin|Hin]%elem_of_app; [|by apply Hm]. intros Ha. by destruct (asked_elem _ _ _ Hin Ha).
  - intros ev i [Hin|Hin]%elem_of_app; [|by apply Hd]. intros Hdel. by destruct (Hk ev i).
Qed.
End retries.

(** ** Properties *)


#[local] Existing Instances example_k8s example_k8s_laws example_retry example_retry_laws.

