(* ===== verification/Cluster.v ===== *)
(** * A cluster: the TaskRuns the API server stores, and how the controller and its users
      change them

    The store is what the accepted requests of a history leave. The contract
    [cluster_spec] is that of the reconciler with answers that are up to date; [step] is
    the state machine of a static platform: atomic allocations by [HostPool.Allocate], and
    whatever else happens. *)
From S2P Require Import Prelude GoLib GoStrings Prog Exec Kube Cloud Effects HostPools Trace HostPoolFacts.

#[global] Instance NamespacedName_countable : Countable NamespacedName.
Proof.
  apply (inj_countable' (λ k, (key_namespace k, key_name k)) (λ '(ns, n), Key ns n)). by intros [].
Defined.

(** ** The store *)

Abbreviation store := (gmap NamespacedName TaskRun).

(** An accepted request. *)
Definition act_effect (a : action) (σ : store) : store :=
  match a with
  | A_Create _ (Ok tr) | A_Update _ (Ok tr) => <[ObjectKeyFromObject tr := tr]> σ
  | A_Delete tr (Ok _) => delete (ObjectKeyFromObject tr) σ
  | _ => σ
  end.
(** The store after the calls of a history. *)
Definition after (σ : store) (h : hist mpcE) : store := foldr act_effect σ (actions h).

Definition tasks (σ : store) : list TaskRun := (map_to_list σ).*2.

(** The tasks of users on a host, and the number of its spots they take. *)
Definition occupants (host : string) (σ : store) : gset NamespacedName :=
  dom (filter (λ p : NamespacedName * TaskRun, occupies host p.2 = true) σ).
Definition load (host : string) (σ : store) : nat := size (occupants host σ).

#[global] Instance selects_dec o m : Decision (selects o m).
Proof.
  destruct o as [ks|ls|ns]; simpl.
  - apply _.
  - refine (cast_if (decide (map_Forall (λ k v, map_lookup (Labels m) k = Some v) ls))); by unfold map_Forall in *.
  - apply _.
Defined.

(** ** The contract *)

(** Answers of an API server with the store [σ]: lists and gets are up to date, an update
    is accepted only of a TaskRun that exists, a creation only of one that does not, and
    it stores the labels it was given. *)
Definition current {X} (σ : store) (c : clientE X) : X → Prop :=
  match c in clientE X return X → Prop with
  | Get_TaskRun key => λ r, ∀ tr, r = Ok tr → σ !! key = Some tr
  | List_TaskRuns o => λ r, ∀ trs, r = Ok trs → trs ≡ₚ filter (λ tr, selects o (tr_meta tr)) (tasks σ)
  | Update_TaskRun tr => λ r, ∀ tr', r = Ok tr' → is_Some (σ !! ObjectKeyFromObject tr)
  | Create_TaskRun tr => λ r, ∀ tr', r = Ok tr' →
      σ !! ObjectKeyFromObject tr' = None ∧ tr_Labels tr' = tr_Labels tr
  | _ => λ _, True
  end.

Definition cluster_spec (m0 : memory) (σ : store) : contract mpcE := λ h X e x,
  go_spec m0 h X e x ∧
  match e in mpcE X return X → Prop with
  | Client c | APIReader c => current (after σ h) c
  | _ => λ _, True
  end x.

(** An API server that refuses nothing it need not refuse: it lists, has the
    secrets of the controller, accepts the updates of what it stores, and creates what is not there. *)
Definition accepts {X} (operatorNamespace : string) (σ : store) (c : clientE X) : X → Prop :=
  match c in clientE X return X → Prop with
  | List_TaskRuns o => λ r, ∃ trs, r = Ok trs
  | Get_Secret key => λ r, key_namespace key = operatorNamespace → ∃ s, r = Ok s
  | Update_TaskRun tr => λ r, is_Some (σ !! ObjectKeyFromObject tr) → ∃ tr', r = Ok tr'
  | Create_TaskRun tr => λ r, ∀ err, r = Err err → IsAlreadyExists err = true
  | _ => λ _, True
  end.

Definition willing_spec (operatorNamespace : string) (m0 : memory) (σ : store) : contract mpcE := λ h X e x,
  cluster_spec m0 σ h X e x ∧
  match e in mpcE X return X → Prop with Client c => accepts operatorNamespace (after σ h) c | _ => λ _, True end x.

(** ** The state machine *)

Section machine.
Context `{K8s} `{Retry}.
Variables (operatorNamespace : string) (hp : HostPool).

(** [σ'] has no task of a user on a host of the pool that was not there in [σ]. *)
Definition no_new_tasks (σ σ' : store) : Prop :=
  ∀ key tr' k, is_Some (hosts hp !! k) → σ' !! key = Some tr' → occupies k tr' = true →
    ∃ tr, σ !! key = Some tr ∧ occupies k tr = true.

(** One step: an allocation from the pool for a stored TaskRun of a user without a host,
    by itself; or a change by anyone that puts no task on a host of the pool: TaskRuns are
    created, run, finish, are released and deleted. *)
Inductive step (σ : store) : store → Prop :=
| step_allocate m tr secretName r l :
    σ !! ObjectKeyFromObject tr = Some tr → label tr TaskTypeLabel = "" → label tr AssignedHost = "" →
    is_Some (tr_Labels tr) →
    exec (cluster_spec m σ) (HostPool.Allocate operatorNamespace hp tr secretName) [] r l →
    step σ (after σ l)
| step_other σ' : no_new_tasks σ σ' → step σ σ'.

(** No host of the pool has more tasks than it may run at once. *)
Definition within_capacity (σ : store) : Prop :=
  ∀ k host, hosts hp !! k = Some host → (Z.of_nat (load k σ) ≤ h_Concurrency host)%Z.

(** A pool as the configuration makes it: hosts have the names of their keys. *)
Definition named_hosts : Prop := ∀ k host, hosts hp !! k = Some host → h_Name host = k ∧ k ≠ "".
End machine.

(** ** An API server *)

(** It has the secrets of the controller's namespace, ssh keys among them, and the host
    configuration that is given; the clouds know nothing. *)
Section server.
Variable config : result ConfigMap.

Definition api_answer (σ : store) {X} (c : clientE X) : X :=
  match c in clientE X return X with
  | Get_TaskRun key => match σ !! key with Some tr => Ok tr | None => Err (ApiStatus ReasonNotFound "not found") end
  | Get_Secret key =>
      if String.eqb (key_namespace key) "mpc" then Ok {| sec_meta := zero_meta; sec_Data := ∅ |}
      else Err (ApiStatus ReasonNotFound "not found")
  | Get_ConfigMap key => config
  | List_TaskRuns o => Ok (filter (λ tr, selects o (tr_meta tr)) (tasks σ))
  | List_Pods o => Ok []
  | Create_TaskRun tr =>
      match σ !! ObjectKeyFromObject tr with
      | Some _ => Err (ApiStatus ReasonAlreadyExists "exists")
      | None => Ok tr
      end
  | Create_Secret s => Ok s
  | Update_TaskRun tr =>
      match σ !! ObjectKeyFromObject tr with
      | Some _ => Ok tr
      | None => Err (ApiStatus ReasonNotFound "not found")
      end
  | Update_Pod p => Ok p
  | Delete_TaskRun tr => Ok tt
  | Delete_Secret s => Ok tt
  end.

Definition cloud_answer {X} (c : cloudE X) : X :=
  match c in cloudE X return X with
  | LaunchInstance _ _ tags => (tags, Err (ErrText "unknown"))
  | TerminateInstance _ => Err (ErrText "unknown")
  | GetInstanceAddress _ => Err (ErrText "unknown")
  | CountInstances _ => Err (ErrText "unknown")
  | ListInstances _ => Err (ErrText "unknown")
  | GetState _ => Err (ErrText "unknown")
  end.

Definition mem_answer (m : memory) {X} (e : memE X) : X :=
  match e in memE X return X with
  | Get_configMapResourceVersion => m_version m
  | Set_configMapResourceVersion _ => tt
  | Get_platformConfig p => m_cache m !! p
  | Set_platformConfig _ _ => tt
  | Clear_platformConfig => tt
  | New_tags _ => fresh (dom (m_tags m))
  | Read_tags l => default ∅ (m_tags m !! l)
  | Write_tags _ _ => tt
  end.

Definition metric_answer (m : memory) {X} (e : metricE X) : X :=
  match e in metricE X return X with
  | Has_platform p => bool_decide (p ∈ m_platforms m)
  | Put_platform _ => tt
  | Registry_Register _ _ => None
  | Set_poolSize _ _ => tt
  | Inc _ _ => tt
  | Observe _ _ _ => tt
  | Set_gauge _ _ _ _ => tt
  end.

Definition server_answer (σ : store) (m : memory) {X} (e : mpcE X) : X :=
  match e in mpcE X return X with
  | Client c => api_answer σ c
  | APIReader c => api_answer σ c
  | Cloud p c => cloud_answer c
  | Mem c => mem_answer m c
  | Metric c => metric_answer m c
  | Now => 0%Z
  | RangeMap keys => keys
  | RandRead _ => Err (ErrText "no entropy")
  | RecordEvent _ _ _ _ => tt
  | Caller => ("taskrun.go", 0%Z)
  end.

(** The server and the process's memory, each changed by every request. *)
Definition api_server : environment mpcE (store * memory) := λ X e '(σ, m),
  let x := server_answer σ m e in (x, (act_effect (action_of (Ev e x)) σ, event_effect e x m)).
End server.

(** The answer of a server that has no configuration. *)
Definition no_config : result ConfigMap := Err (ApiStatus ReasonNotFound "not found").
