(* ===== verification/Fleet.v ===== *)
(** * The static hosts of a configuration, and reconciles that come and go

    The state machine [reconciles] of a controller that handles one TaskRun at a time: a
    reconcile of any TaskRun, which may stop after any of its calls, a restart of the
    process, or a change by the users of the cluster. The manager's client reads from a
    cache, which may be behind the API server. *)
From S2P Require Import Prelude GoLib GoStrings Prog Exec Safe Kube NetIP Config Cloud Effects Platforms Reconciler.
From S2P Require Import Trace HostPoolFacts ConfigFacts PlatformFacts Cluster.

(** ** Versions *)

(** The versions of TaskRuns that were ever stored: those at the start, and what the API
    server has stored since. *)
Abbreviation archive := (list TaskRun).
Definition stores (a : action) : list TaskRun :=
  match a with A_Create _ (Ok t) | A_Update _ (Ok t) => [t] | _ => [] end.
Definition versions (A : archive) (h : hist mpcE) : archive := (actions h ≫= stores) ++ A.

Definition version_of (tr : TaskRun) : NamespacedName * string := (ObjectKeyFromObject tr, ResourceVersion (tr_meta tr)).
(** A resource version is that of one version of the object. *)
Definition unique_versions (A : archive) : Prop := ∀ v v', v ∈ A → v' ∈ A → version_of v = version_of v' → v = v'.

Section fleet.
Context `{K8s} `{Retry}.
Variables (operatorNamespace : string) (data : smap).

(** [k] is the name of a static host, and [host] the host that is configured so. *)
Definition pooled (k : string) : Prop := k ≠ "" ∧ names_host data k.
Definition configured (k : string) (host : Host) : Prop :=
  names_host data k ∧ ∃ c, static_valid data k c ∧ host = static_host k c.

(** A cached static platform has hosts that are configured. *)
Definition good_config (c : PlatformConfig) : Prop :=
  match c with
  | Static hp => ∀ k host, hosts hp !! k = Some host → configured k host
  | _ => True
  end.
Definition good_cache (m : memory) : Prop := map_Forall (λ _, good_config) (m_cache m).

(** Every TaskRun is stored under its key; the instance of a user's task is not a static
    host, nor was it. *)
Record sane (σ : store) (A : archive) : Prop := {
  sane_stored key tr : σ !! key = Some tr → ObjectKeyFromObject tr = key ∧ tr ∈ A;
  sane_instance v : v ∈ A → label v TaskTypeLabel = "" → ¬ pooled (annotation v CloudInstanceId);
  sane_versions : unique_versions A
}.

(** No static host has more tasks than it may run at once, and [lag] more. *)
Definition fits_hosts (lag : nat) (σ : store) : Prop := ∀ k host,
  k ≠ "" → configured k host → (Z.of_nat (load k σ) ≤ h_Concurrency host + Z.of_nat lag)%Z.

(** Answers of an API server with the store [σ], and of the manager's client, whose cache
    lags behind: what it gets and lists are versions that were stored at some time; of the
    tasks that are assigned to a host, a list misses [lag] at most. An update is accepted
    only of the stored version, a creation only of a TaskRun that does not exist, and the
    result is a new version. The API reader does not use the cache. *)
Definition fresh_version (A : archive) (h : hist mpcE) (tr : TaskRun) : Prop :=
  ∀ v, v ∈ versions A h → version_of v ≠ version_of tr.
Definition cache_answer {X} (lag : nat) (A : archive) (σ : store) (h : hist mpcE) (c : clientE X) : X → Prop :=
  match c in clientE X return X → Prop with
  | Get_TaskRun key => λ r, ∀ tr, r = Ok tr → tr ∈ versions A h
  | List_TaskRuns o => λ r, ∀ trs, r = Ok trs → Forall (λ tr, tr ∈ versions A h) trs ∧
      (o = HasLabels [AssignedHost] → ∀ k, k ≠ "" →
        load k (after σ h) ≤ length (filter (λ tr, occupies k tr = true) trs) + lag)
  | Update_TaskRun tr => λ r, ∀ tr', r = Ok tr' →
      (∃ st, after σ h !! ObjectKeyFromObject tr = Some st ∧ version_of st = version_of tr) ∧ fresh_version A h tr'
  | Create_TaskRun tr => λ r, ∀ tr', r = Ok tr' →
      after σ h !! ObjectKeyFromObject tr' = None ∧ tr_Labels tr' = tr_Labels tr ∧ fresh_version A h tr'
  | _ => λ _, True
  end.
Definition reader_answer {X} (σ : store) (h : hist mpcE) (c : clientE X) : X → Prop :=
  match c in clientE X return X → Prop with
  | Get_TaskRun key => λ r, ∀ tr, r = Ok tr → after σ h !! key = Some tr
  | _ => λ _, True
  end.

(** While the configuration stays the same, and the clouds give no instance the name of a
    static host. *)
Definition world_answer {X} (e : mpcE X) : X → Prop :=
  match e in mpcE X return X → Prop with
  | Client c =>
      match c in clientE X return X → Prop with
      | Get_ConfigMap _ => λ r, ∀ cm, r = Ok cm → cm_Data cm = data
      | _ => λ _, True
      end
  | Cloud p c =>
      match c in cloudE X return X → Prop with
      | LaunchInstance _ _ _ => λ r, ∀ id, r.2 = Ok id → ¬ pooled id
      | ListInstances _ => λ r, ∀ insts, r = Ok insts → Forall (λ i, ¬ pooled (InstanceId i)) insts
      | _ => λ _, True
      end
  | _ => λ _, True
  end.
Definition world_spec (lag : nat) (m : memory) (σ : store) (A : archive) : contract mpcE := λ h X e x,
  go_spec m h X e x ∧ world_answer e x ∧
  match e in mpcE X return X → Prop with
  | Client c => cache_answer lag A σ h c
  | APIReader c => reader_answer σ h c
  | _ => λ _, True
  end x.

(** A change that puts no task on a static host. *)
Definition places_none (σ σ' : store) : Prop := ∀ key tr',
  σ' !! key = Some tr' → label tr' TaskTypeLabel = "" → pooled (label tr' AssignedHost) →
    ∃ tr, σ !! key = Some tr ∧ occupies (label tr' AssignedHost) tr = true.

(** The store, the versions that were stored, and the process's memory. *)
Inductive reconciles (lag : nat) : store * archive * memory → store * archive * memory → Prop :=
| reconcile σ A m request l :
    reach (world_spec lag m σ A) (Reconcile operatorNamespace request) [] l →
    reconciles lag (σ, A, m) (after σ l, versions A l, mem_of m l)
| restart σ A m : reconciles lag (σ, A, m) (σ, A, empty_memory)
| users σ A σ' A' m : places_none σ σ' → A ⊆ A' → sane σ' A' → reconciles lag (σ, A, m) (σ', A', m).
End fleet.
