(* ===== verification/ClusterFacts.v ===== *)
(** * The capacity of static hosts: kept by atomic allocations, not by concurrent ones *)
From S2P Require Import Prelude GoLib GoStrings Prog Emits Exec Kube Cloud Effects Metrics Update Provision HostPools.
From S2P Require Import Trace UpdateFacts ProvisionFacts HostPoolFacts Cluster.

(** ** Loads *)

Lemma elem_of_occupants k key σ :
  key ∈ occupants k σ ↔ ∃ tr, σ !! key = Some tr ∧ occupies k tr = true.
Proof.
  unfold occupants. rewrite elem_of_dom. unfold is_Some. setoid_rewrite map_lookup_filter_Some. done.
Qed.

Lemma load_mono k σ σ' : occupants k σ ⊆ occupants k σ' → load k σ ≤ load k σ'.
Proof. apply subseteq_size. Qed.

Lemma load_add k key σ σ' : occupants k σ' ⊆ occupants k σ ∪ {[key]} → load k σ' ≤ S (load k σ).
Proof.
  intros Hs. etrans; [by apply subseteq_size|]. rewrite size_union_alt. unfold load.
  assert (size ({[key]} ∖ occupants k σ) ≤ size ({[key]} : gset NamespacedName)) as Hd by (apply subseteq_size; set_solver).
  rewrite size_singleton in Hd. lia.
Qed.

(** The listed tasks, all of them, give the load. *)
Lemma filter_tasks (P : TaskRun → Prop) `{∀ tr, Decision (P tr)} (σ : store) :
  filter P (tasks σ) ≡ₚ (map_to_list (filter (λ p : NamespacedName * TaskRun, P p.2) σ)).*2.
Proof.
  rewrite map_filter_alt, map_to_list_to_map.
  - unfold tasks. induction (map_to_list σ) as [|[k tr] l IH]; [done|].
    rewrite fmap_cons, !filter_cons. cbn [fst snd]. repeat case_decide; try done; cbn; by rewrite IH.
  - eapply sublist_NoDup; [apply (NoDup_fst_map_to_list σ)|]. apply fmap_sublist, sublist_filter.
Qed.

Lemma load_listed k σ items :
  k ≠ "" → items ≡ₚ filter (λ tr, selects (HasLabels [AssignedHost]) (tr_meta tr)) (tasks σ) →
  length (filter (λ tr, occupies k tr = true) items) = load k σ.
Proof.
  intros Hk Hitems. rewrite Hitems, list_filter_filter_l.
  2: { intros tr Ho. unfold occupies in Ho. apply andb_true_iff in Ho as [_ Ho%String.eqb_eq].
    repeat constructor. unfold label, map_get in Ho. change (Labels (tr_meta tr)) with (tr_Labels tr).
    destruct (tr_Labels tr) as [g|]; [|done]. simpl in *. apply not_eq_None_Some. intros Hg. destruct Hk.
    rewrite <- Ho. exact (f_equal (default "") Hg). }
  rewrite filter_tasks, length_fmap. unfold load, occupants. rewrite size_dom. apply length_map_to_list.
Qed.

(** ** What an allocation sends *)

Section sends.
Context `{K8sLaws} `{RetryLaws}.
Variable operatorNamespace : string.

(** Calls that change TaskRuns: updates of [tr] that leave it unassigned or put it on
    [target], and the creation of tasks of the controller's own. *)
Definition sends (tr : TaskRun) (target : string) (a : action) : Prop :=
  match a with
  | A_Update t _ => ObjectKeyFromObject t = ObjectKeyFromObject tr ∧
      (label t AssignedHost = "" ∨ label t AssignedHost = target)
  | A_Create t _ => label t TaskTypeLabel ≠ ""
  | _ => True
  end.

Lemma map_get_lookup m m' k : map_lookup m k = map_lookup m' k → map_get m k = map_get m' k.
Proof. apply (f_equal (default "")). Qed.

Lemma update_only_sent tr tr1 target l :
  ObjectKeyFromObject tr1 = ObjectKeyFromObject tr → (label tr1 AssignedHost = "" ∨ label tr1 AssignedHost = target) →
  update_only tr1 l → Forall (sends tr target) (actions l).
Proof.
  intros Hk Hl Hu. eapply Forall_impl; [exact Hu|]. intros []; try done. intros [Hck Hcl _ _]. simpl.
  assert (label tr0 AssignedHost = label tr1 AssignedHost) as ->; [|by rewrite Hck].
  apply map_get_lookup, Hcl. unfold managedLabels. left.
Qed.

(** Requests that change no TaskRun but [tr], of which they keep the labels. *)
Definition keeping (tr : TaskRun) X (e : mpcE X) : Prop :=
  match e with
  | Client c | APIReader c =>
      match c with
      | Update_TaskRun t => ObjectKeyFromObject t = ObjectKeyFromObject tr ∧ tr_Labels t = tr_Labels tr
      | Create_TaskRun t => label t TaskTypeLabel = TaskTypeProvision
      | Delete_TaskRun _ => False
      | _ => True
      end
  | _ => True
  end.

Lemma emits_provisioning tr secretName sshSecret address user platform sudo :
  emits (keeping tr) (launchProvisioningTask operatorNamespace tr secretName sshSecret address user platform sudo).
Proof. unfold launchProvisioningTask, createErrorSecret, create_owned_secret, client. by emits. Qed.

Lemma keeping_sent tr tr1 target l :
  ObjectKeyFromObject tr1 = ObjectKeyFromObject tr → (label tr1 AssignedHost = "" ∨ label tr1 AssignedHost = target) →
  Forall (λ ev : event mpcE, keeping tr1 _ (ev_req ev)) l → Forall (sends tr target) (actions l).
Proof.
  intros Hk Ht Hl. apply Forall_fmap. eapply Forall_impl; [exact Hl|]. intros [X e x] He. cbn [ev_req] in He.
  destruct e as [Y c|Y c|Y q c|Y c|Y c| | | | |]; try done; unfold compose; cbn; try (by destruct c).
  destruct c; try done; cbn in *.
  - by rewrite He.
  - destruct He as [-> Hlab]. split; [done|]. unfold label in *. by rewrite Hlab.
Qed.

Lemma spec_provisioning tr tr1 target secretName sshSecret address user platform sudo :
  ObjectKeyFromObject tr1 = ObjectKeyFromObject tr → (label tr1 AssignedHost = "" ∨ label tr1 AssignedHost = target) →
  spec (launchProvisioningTask operatorNamespace tr1 secretName sshSecret address user platform sudo)
    (λ '(tr2, err) l, ObjectKeyFromObject tr2 = ObjectKeyFromObject tr ∧ Forall (sends tr target) (actions l)).
Proof.
  intros Hk Ht m. eapply wp_mono; [|eapply wp_emits; [apply emits_provisioning|apply wp_launchProvisioningTask]].
  intros [tr2 err] l [Hp%provision_outcome_same (l' & -> & Hl)]. rewrite app_nil_r.
  split; [rewrite (sbf_key _ _ Hp); done|]. by eapply keeping_sent.
Qed.

(** The host, if any, on which an allocation puts [tr]: one with a free spot among the
    tasks that its first call listed. *)
Definition lands (hp : HostPool) (tr : TaskRun) (target : string) (l : hist mpcE) : Prop :=
  target = "" ∨ ∃ items k host,
    suffix [Ev (Client (List_TaskRuns (HasLabels [AssignedHost]))) (Ok items)] l ∧ target = h_Name host ∧
    HostPoolFacts.best hp (Split (annotation tr FailedHosts) ",") (HostPool.count_assigned items) k host.

Lemma lands_app hp tr target l h : lands hp tr target h → lands hp tr target (l ++ h).
Proof. intros [?|(items & k & host & Hs & ?)]; [by left|right]. exists items, k, host. split; [by apply suffix_app_r|done]. Qed.

(** From the point where the host is chosen: whatever happens, [tr] is on it or on none. *)
Definition sends_to (hp : HostPool) (tr : TaskRun) (target : string) (l : hist mpcE) : Prop :=
  Forall (sends tr target) (actions l) ∧ lands hp tr target l.

Lemma sends_to_app hp tr target l h :
  Forall (sends tr target) (actions l) → sends_to hp tr target h → sends_to hp tr target (l ++ h).
Proof. intros Hl [Hh Hla]. split; [|by apply lands_app]. rewrite actions_app. by apply Forall_app_2. Qed.

Lemma allocate_waits_sends hp tr h m :
  is_Some (tr_Labels tr) → label tr AssignedHost = "" → sends_to hp tr "" h →
  wp (go_spec m)
    (waits_branch hp tr)
    (λ _ l, ∃ target, sends_to hp tr target l) h.
Proof.
  intros Hl Ha Hh. unfold waits_branch. destruct (String.eqb _ _); [apply wp_ret; by eexists|].
  apply wp_bind, wp_set_label; [done|]. intros g Hg.
  replace (with_labels tr _) with (waiting tr (targetPlatform hp)) by (unfold waiting; by rewrite Hg).
  eapply wp_call; [apply wp_UpdateTaskRunWithRetry|]. intros [tr1 err] l (_ & Hu & _).
  assert (sends_to hp tr "" (l ++ h)).
  { apply sends_to_app; [|done]. eapply update_only_sent; [|left|done]; [done|]. by rewrite assigned_label_waiting. }
  destruct err; apply wp_ret; by eexists.
Qed.

Lemma allocate_assigns_sends hp tr secretName host h m :
  is_Some (tr_Labels tr) → sends_to hp tr (h_Name host) h →
  wp (go_spec m)
    (assigns_branch operatorNamespace hp tr secretName host)
    (λ _ l, ∃ target, sends_to hp tr target l) h.
Proof.
  intros Hl Hh. unfold assigns_branch. apply wp_bind, wp_set_label; [done|]. intros g Hg. cbv zeta.
  replace (with_finalizers (delete_label (with_labels tr _) _) _) with (assigned tr (h_Name host))
    by (unfold assigned; by rewrite Hg).
  eapply wp_call; [apply wp_UpdateTaskRunWithRetry|]. intros [tr1 err] l (Hsame & Hu & _).
  assert (sends_to hp tr (h_Name host) (l ++ h)).
  { apply sends_to_app; [|done]. eapply update_only_sent; [|right|done]; [done|]. apply label_assigned. }
  destruct err; [apply wp_ret; by eexists|].
  eapply wp_call; [apply (spec_provisioning tr tr1 (h_Name host))|].
  - by rewrite (same_key _ _ Hsame).
  - right. rewrite (label_same _ _ _ (same_labels _ _ Hsame)). apply label_assigned.
  - intros [tr2 err] l1 [Hk Hl1].
    assert (sends_to hp tr (h_Name host) (l1 ++ l ++ h)) by (by apply sends_to_app).
    destruct err; [|apply wp_ret; by eexists].
    eapply wp_call; [apply wp_UpdateTaskRunWithRetry|]. intros [tr3 err'] l0 (_ & Hu' & _).
    assert (sends_to hp tr (h_Name host) (l0 ++ l1 ++ l ++ h)).
    { apply sends_to_app; [|done]. eapply update_only_sent; [|left|exact Hu']; [done|]. apply (label_unassigned tr2). }
    destruct err'; apply wp_ret; by eexists.
Qed.

Lemma wp_HostPool_Allocate_sends hp tr secretName :
  is_Some (tr_Labels tr) → label tr AssignedHost = "" →
  spec (HostPool.Allocate operatorNamespace hp tr secretName) (λ _ l, ∃ target, sends_to hp tr target l).
Proof.
  intros Hl Ha m. unfold HostPool.Allocate.
  assert (sends_to hp tr "" []) as Hnil by (split; [constructor|by left]).
  case_bool_decide; [apply wp_ret; by eexists|].
  unfold client at 1. apply wp_bind, wp_trigger. intros [items|err] _;
    [|apply wp_ret; exists ""; by apply (sends_to_app _ _ _ [_]); [repeat constructor|]].
  apply wp_bind, wp_range. intros keys Hkeys. cbv zeta.
  destruct (select_host_cases hp (Split (annotation tr FailedHosts) ",") (HostPool.count_assigned items) keys Hkeys)
    as (_ & _ & Hs).
  set (s := HostPool.select_host _ _ _ _) in *. set (h := [_; _]).
  assert (Forall (sends tr "") (actions h)) as Hq by (by repeat constructor).
  assert (sends_to hp tr "" h) as Hh by (by split; [|left]).
  destruct (negb _); [apply wp_ret; by eexists|]. destruct (HostPool.allPlatformHostsFailed s); [apply wp_ret; by eexists|].
  destruct (HostPool.selected s) as [host|].
  - destruct Hs as [k Hbest]. apply allocate_assigns_sends; [done|]. split; [by repeat constructor|].
    right. exists items, k, host. split; [by apply suffix_cons_r|done].
  - by apply allocate_waits_sends.
Qed.
End sends.

(** ** Capacity *)

Section capacity.
Context `{K8sLaws} `{RetryLaws}.
Variable operatorNamespace : string.

Lemma occupies_label k tr : occupies k tr = true ↔ label tr TaskTypeLabel = "" ∧ label tr AssignedHost = k.
Proof. unfold occupies. by rewrite andb_true_iff, !String.eqb_eq. Qed.

Lemma occupants_insert k key tr σ key' :
  key' ∈ occupants k (<[key := tr]> σ) → key' ∈ occupants k σ ∨ key' = key ∧ occupies k tr = true.
Proof.
  rewrite !elem_of_occupants. intros (t & [[-> ->]|[_ Hl]]%lookup_insert_Some & Ho); [by right|left]. by exists t.
Qed.
Lemma occupants_delete k key σ : occupants k (delete key σ) ⊆ occupants k σ.
Proof.
  intros key'. rewrite !elem_of_occupants. intros (t & [_ Hl]%lookup_delete_Some & Ho). by exists t.
Qed.

(** One answered call. *)
Lemma occupants_act m σ tr target k l (ev : event mpcE) key :
  k ≠ "" → cluster_spec m σ l _ (ev_req ev) (ev_ans ev) → sends tr target (action_of ev) →
  key ∈ occupants k (after σ (ev :: l)) →
  key ∈ occupants k (after σ l) ∨ k = target ∧ key = ObjectKeyFromObject tr.
Proof.
  intros Hk [Hgo Hcur] Hs. unfold after. cbn [actions fmap list_fmap foldr].
  fold (actions l). fold (after σ l). destruct ev as [X e x]. cbn [ev_req ev_ans] in *.
  destruct e as [Y c|Y c|Y q c|Y c|Y c| | | | |]; try (by left); [|destruct c; by left|destruct c; by left|destruct c; by left].
  destruct c; try (by left); destruct x as [t'|err]; try (by left);
    cbn [action_of ev_req ev_ans client_action act_effect] in *.
  - intros [Hin|[-> [Hty Ha]%occupies_label]]%occupants_insert; [by left|].
    destruct (Hcur _ eq_refl) as [_ Hl]. exfalso. apply Hs. by rewrite <- (label_same _ _ _ Hl).
  - destruct (Hgo _ eq_refl) as (Hkey & Hl & _). destruct Hs as [Hkt Ht].
    intros [Hin|[-> [_ Ha]%occupies_label]]%occupants_insert; [by left|].
    rewrite (label_same _ _ _ Hl) in Ha. rewrite Hkey, Hkt. right. naive_solver.
  - intros Hin. left. by eapply occupants_delete.
Qed.

Lemma occupants_after m σ tr target k l key :
  k ≠ "" → meets (cluster_spec m σ) l [] → Forall (sends tr target) (actions l) →
  key ∈ occupants k (after σ l) → key ∈ occupants k σ ∨ k = target ∧ key = ObjectKeyFromObject tr.
Proof.
  intros Hk. induction l as [|[X e x] l IH]; [by left|]. intros [He Hm] [Hs Hl]%Forall_cons Hin.
  rewrite app_nil_r in He. eapply (occupants_act m σ tr target k l (Ev e x)) in Hin as [Hin|?]; [by apply IH|by right|done..].
Qed.

(** An allocation executed by itself keeps every host within its capacity. *)
Lemma allocate_keeps_capacity hp m σ tr secretName r l :
  named_hosts hp → within_capacity hp σ → is_Some (tr_Labels tr) → label tr AssignedHost = "" →
  exec (cluster_spec m σ) (HostPool.Allocate operatorNamespace hp tr secretName) [] r l →
  within_capacity hp (after σ l).
Proof.
  intros Hn Hc Hl Ha Hx k host Hk. destruct (Hn _ _ Hk) as [Hname Hk0].
  assert (∃ target, sends_to hp tr target l) as (target & Hs & Hla).
  { apply (exec_contract_le (go_spec m)) in Hx; [|by intros ???? []].
    exact (wp_exec _ _ _ _ _ _ (wp_HostPool_Allocate_sends operatorNamespace hp tr secretName Hl Ha m) Hx). }
  destruct (exec_meets _ _ _ _ _ Hx) as (l' & -> & Hm). rewrite app_nil_r in *.
  destruct (decide (k = target)) as [<-|Hne].
  - destruct Hla as [?|(items & k' & host' & [l0 ->] & Hk' & [[Hh' _] _] & Hfree & _)]; [done|].
    destruct (Hn _ _ Hh') as [Hname' _]. rewrite Hk', Hname' in *. simplify_eq.
    pose proof (proj1 (meets_app _ _ _ _) Hm) as [_ [[_ Hitems] _]].
    unfold free_spots in Hfree. rewrite count_assigned_spec, (load_listed _ σ) in Hfree; [|congruence|by apply Hitems].
    enough (load (h_Name host) (after σ (l0 ++ [Ev (Client (List_TaskRuns (HasLabels [AssignedHost]))) (Ok items)])) ≤ S (load (h_Name host) σ)) by lia.
    apply (load_add _ (ObjectKeyFromObject tr)). intros key Hin.
    eapply (occupants_after m σ tr (h_Name host)) in Hin as [?|[_ ->]];
      [by apply elem_of_union_l|by apply elem_of_union_r, elem_of_singleton|done..].
  - etrans; [|by eapply Hc]. apply inj_le, load_mono. intros key Hin.
    by eapply occupants_after in Hin as [?|[? _]].
Qed.

Lemma step_keeps_capacity hp σ σ' :
  named_hosts hp → within_capacity hp σ → step operatorNamespace hp σ σ' → within_capacity hp σ'.
Proof.
  intros Hn Hc. destruct 1 as [m tr secretName r l _ _ Ha Hl Hx|σ' Hnew]; [by eapply allocate_keeps_capacity|].
  intros k host Hk. etrans; [|by eapply Hc]. apply inj_le, load_mono. intros key.
  rewrite !elem_of_occupants. intros (tr' & Htr' & Ho). by eapply Hnew.
Qed.
End capacity.

(** When allocations do not overlap, no static host ever has more tasks than it may run
    at once, whatever else happens in the cluster in between: the invariant of every
    state the machine [step] reaches. *)
Theorem capacity_kept `{K8sLaws} `{RetryLaws} operatorNamespace hp σ σ' :
  named_hosts hp → within_capacity hp σ → rtc (step operatorNamespace hp) σ σ' → within_capacity hp σ'.
Proof. intros Hn Hc. induction 1; [done|]. eauto using step_keeps_capacity. Qed.

(** ** The API server keeps to the contract *)

(** Every stored TaskRun is under its key. *)
Definition keyed (σ : store) : Prop := map_Forall (λ key tr, ObjectKeyFromObject tr = key) σ.

Lemma selects_filter o (l : list TaskRun) : Forall (λ tr, selects o (tr_meta tr)) (filter (λ tr, selects o (tr_meta tr)) l).
Proof. apply Forall_forall. by intros tr [? _]%list_elem_of_filter. Qed.

Lemma api_answer_ok config σ {X} (c : clientE X) :
  keyed σ → client_answer_ok c (api_answer config σ c) ∧ current σ c (api_answer config σ c).
Proof.
  intros Hσ. destruct c as [key| | |o|p|tr|s|tr|p|tr|s]; try (split; intros; exact I); cbn [api_answer client_answer_ok current].
  - destruct (σ !! key) as [tr|] eqn:Htr; split; intros; simplify_eq; [by apply Hσ|done].
  - split; intros trs [= <-]; [apply selects_filter|done].
  - split; [exact I|]. destruct (σ !! _) eqn:Htr; [done|]. by intros tr' [= <-].
  - destruct (σ !! _) eqn:Htr; split; intros tr' Heq; by simplify_eq.
Qed.

Lemma keyed_act σ a : keyed σ → keyed (act_effect a σ).
Proof.
  intros Hσ. destruct a as [| | | | | | | |? []|? []|? []| | | | | | | |]; simpl; try done.
  - by apply map_Forall_insert_2.
  - by apply map_Forall_insert_2.
  - by apply map_Forall_delete.
Qed.

Definition in_step (m0 : memory) (σ0 : store) (h : hist mpcE) (w : store * memory) : Prop :=
  w = (after σ0 h, mem_of m0 h) ∧ keyed (after σ0 h).

Lemma api_server_ok config m0 σ0 h w X (e : mpcE X) :
  in_step m0 σ0 h w →
  cluster_spec m0 σ0 h X e (api_server config X e w).1 ∧ in_step m0 σ0 (Ev e (api_server config X e w).1 :: h) (api_server config X e w).2.
Proof.
  intros [-> Hσ]. split.
  - destruct e as [Y c|Y c|Y q c|Y c|Y c| | | | |]; try done.
    + by apply api_answer_ok.
    + by apply api_answer_ok.
    + split; [|done]. destruct c; try done. apply not_elem_of_dom, is_fresh.
    + split; [|done]. by destruct c.
    + split; [apply Permutation_refl|exact I].
  - split; [done|]. by apply keyed_act.
Qed.

#[local] Existing Instances example_k8s example_k8s_laws example_retry example_retry_laws.

(** An allocation that the server carries out, by itself, in the store [σ]. *)
Definition allocation (tr : TaskRun) : mpc (TaskRun * Result * option error) :=
  HostPool.Allocate "mpc" example_pool tr "ssh".
Definition allocated (σ : store) (tr : TaskRun) : outcome (TaskRun * Result * option error) * (store * memory) :=
  run (api_server no_config) (allocation tr) (σ, empty_memory).

Lemma allocated_step σ tr :
  keyed σ → σ !! ObjectKeyFromObject tr = Some tr → label tr TaskTypeLabel = "" → label tr AssignedHost = "" →
  is_Some (tr_Labels tr) → (∃ r, (allocated σ tr).1 = Done r) → step "mpc" example_pool σ (allocated σ tr).2.1.
Proof.
  unfold allocated. intros Hσ Htr Hty Ha Hl [r Hr].
  destruct (run (api_server no_config) (allocation tr) (σ, empty_memory)) as [o w] eqn:Hrun. cbn [fst snd] in *. subst o.
  destruct (run_exec (cluster_spec empty_memory σ) (api_server no_config) (in_step empty_memory σ) _ [] _ _ _
              (λ h w X e, api_server_ok _ _ _ h w X e) (conj eq_refl Hσ) Hrun) as (l & Hx & -> & _).
  by eapply step_allocate.
Qed.

Lemma example_pool_hosts k host :
  hosts example_pool !! k = Some host → k = "a" ∧ host = example_host "a" 2 ∨ k = "b" ∧ host = example_host "b" 4.
Proof. unfold example_pool. cbn [hosts]. intros [[<- <-]|[_ [<- <-]%lookup_singleton_Some]]%lookup_insert_Some; auto. Qed.
Lemma example_pool_named : named_hosts example_pool.
Proof. by intros k host [[-> ->]|[-> ->]]%example_pool_hosts. Qed.

Definition example_store : store := {[ObjectKeyFromObject example_task := example_task]}.

Lemma capacity_kept_witness :
  let σ := (allocated example_store example_task).2.1 in
  rtc (step "mpc" example_pool) example_store σ ∧ load "b" σ = 1 ∧ within_capacity example_pool σ.
Proof.
  assert (rtc (step "mpc" example_pool) example_store (allocated example_store example_task).2.1) as Hsteps.
  { apply rtc_once, allocated_step; [by apply map_Forall_singleton|reflexivity..|by eexists|].
    eexists. vm_compute. reflexivity. }
  split; [exact Hsteps|]. split; [vm_compute; reflexivity|].
  refine (capacity_kept "mpc" example_pool example_store _ example_pool_named _ Hsteps).
  intros k host [[-> ->]|[-> ->]]%example_pool_hosts; vm_compute; discriminate.
Defined.

(** ** Overlapping allocations *)

Definition small_pool : HostPool :=
  {| hosts := {["a" := example_host "a" 1]}; targetPlatform := "linux/arm64" |}.
Definition named_task (name : string) : TaskRun :=
  let m := tr_meta example_task in
  {| tr_meta := {| Name := name; Namespace := Namespace m; GenerateName := ""; Labels := Labels m; Annotations := None;
                   Finalizers := []; OwnerReferences := []; ResourceVersion := "1"; CreationTimestamp := 0;
                   DeletionTimestamp := None |};
     tr_Spec := tr_Spec example_task; tr_Status := zero_status |}.
Definition two_tasks : store :=
  {[Key "team" "one" := named_task "one"; Key "team" "two" := named_task "two"]}.

(** The two reconciles take turns: the schedule lists whose call is answered next. *)
Definition two_allocations (schedule : list nat) : list (option (option error)) * nat :=
  let '(ps, (σ, _)) := par_run (api_server no_config) schedule
    ((λ name, HostPool.Allocate "mpc" small_pool (named_task name) "ssh") <$> ["one"; "two"]) (two_tasks, empty_memory) in
  ((λ p, snd <$> returned p) <$> ps, load "a" σ).

(** Reconciles run concurrently, and nothing makes the count of a host's tasks and the
    update that adds one to it atomic: two allocations that both count before either
    updates put two tasks on a host that may run one. One after the other, the second
    task waits. *)
Theorem overlapping_allocations_overcommit :
  two_allocations (replicate 6 0 ++ replicate 6 1) = ([Some None; Some None], 1) ∧
  two_allocations ([0; 1] ++ replicate 5 0 ++ replicate 5 1) = ([Some None; Some None], 2).
Proof. split; vm_compute; reflexivity. Qed.
