(* ===== verification/FleetTypes.v ===== *)
(** * What a reconcile may store, as a type

    A reconcile is typed by what it may store: a user's TaskRun is on a static host only
    when it was there before, or when it is the reconciled one and the host had room. The
    types of the functions compose to that of [Reconcile], whatever branch is taken and
    wherever the run stops. *)
From S2P Require Import Prelude GoLib GoStrings Prog Emits Exec Safe Kube NetIP Config Cloud Effects Metrics Update Provision.
From S2P Require Import HostPools LocalHost Dynamics DynamicPools Platforms Reconciler.
From S2P Require Import Trace UpdateFacts ProvisionFacts HostPoolFacts ConfigFacts PlatformFacts ReconcilerFacts Cluster ClusterFacts Fleet.

Section typing.
Context `{K8sLaws} `{RetryLaws}.
Variables (operatorNamespace : string) (data : smap).
Variables (lag : nat) (m : memory) (σ : store) (past : archive) (request : NamespacedName).
Hypothesis σ_sane : sane data σ past.
Hypothesis m_good : good_cache data m.
Hypothesis local_apart : ¬ pooled data "localhost".

(** ** What may be stored *)

(** The host has room before the reconcile, as far as a list tells. *)
Definition room (k : string) : Prop := ∀ host,
  configured data k host → (Z.of_nat (load k σ) < h_Concurrency host + Z.of_nat lag)%Z.
Definition known (key : NamespacedName) (k : string) : Prop :=
  key ∈ occupants k σ ∨ key = request ∧ room k.
Definition fits (tr : TaskRun) : Prop :=
  label tr TaskTypeLabel = "" →
  (pooled data (label tr AssignedHost) → known (ObjectKeyFromObject tr) (label tr AssignedHost)) ∧
  ¬ pooled data (annotation tr CloudInstanceId).

Definition act_ok (a : action) : Prop :=
  match a with
  | A_Update _ (Ok t) | A_Create _ (Ok t) => fits t
  | A_Cache _ c => good_config data c
  | _ => True
  end.
Record history_ok (h : hist mpcE) : Prop := {
  actions_ok : Forall act_ok (actions h);
  versions_unique : unique_versions (versions past h)
}.

(** A version that was stored once and that may be out of date, but for changes of no
    consequence here. *)
Definition derives (v tr : TaskRun) : Prop :=
  version_of tr = version_of v ∧ label tr TaskTypeLabel = label v TaskTypeLabel ∧
  label tr AssignedHost = label v AssignedHost ∧ annotation tr CloudInstanceId = annotation v CloudInstanceId.
Definition cached (tr : TaskRun) : Prop := fits tr ∨ ∃ v, v ∈ past ∧ derives v tr.

Abbreviation world := (world_spec data lag m σ past).
Abbreviation typed := (typed world history_ok).
Abbreviation safe := (safe world history_ok).

Lemma not_pooled_empty : ¬ pooled data "".
Proof. by intros []. Qed.

(** Objects that differ elsewhere. *)
Lemma fits_same tr tr' :
  fits tr → ObjectKeyFromObject tr' = ObjectKeyFromObject tr → label tr' TaskTypeLabel = label tr TaskTypeLabel →
  label tr' AssignedHost = label tr AssignedHost ∨ ¬ pooled data (label tr' AssignedHost) →
  annotation tr' CloudInstanceId = annotation tr CloudInstanceId ∨ ¬ pooled data (annotation tr' CloudInstanceId) →
  fits tr'.
Proof.
  intros Hf Hk Ht Hl Ha Hty. rewrite Ht in Hty. destruct (Hf Hty) as [Hh Hi]. rewrite Hk. split.
  - destruct Hl as [->|Hn]; [done|]. by intros ?%Hn.
  - by destruct Ha as [->|?].
Qed.

Lemma fits_own tr : label tr TaskTypeLabel ≠ "" → fits tr.
Proof. by intros Hn Ht. Qed.

Lemma history_nil : history_ok [].
Proof. split; [constructor|]. exact (sane_versions _ _ _ σ_sane). Qed.

(** A call that stores nothing, and one that stores a new version. *)
Lemma history_cons ev h : act_ok (action_of ev) → stores (action_of ev) = [] → history_ok h → history_ok (ev :: h).
Proof.
  intros Ha Hs [Hh Hu]. split; [by constructor|]. unfold versions. cbn [actions fmap list_fmap mbind list_bind].
  rewrite Hs. exact Hu.
Qed.
Lemma history_stores ev h tr :
  act_ok (action_of ev) → stores (action_of ev) = [tr] → fresh_version past h tr → history_ok h → history_ok (ev :: h).
Proof.
  intros Ha Hs Hf [Hh Hu]. split; [by constructor|].
  assert (versions past (ev :: h) = tr :: versions past h) as ->
    by (unfold versions; cbn [actions fmap list_fmap mbind list_bind]; by rewrite Hs).
  intros v v' [->|Hv]%elem_of_cons [->|Hv']%elem_of_cons Heq; [done| | |by apply Hu].
  - by destruct (Hf v' Hv').
  - by destruct (Hf v Hv).
Qed.

Lemma elem_of_versions v h : v ∈ versions past h ↔ (∃ a, a ∈ actions h ∧ v ∈ stores a) ∨ v ∈ past.
Proof. unfold versions. rewrite elem_of_app, list_elem_of_bind. naive_solver. Qed.

(** The versions that were stored. *)
Lemma version_cached h v : history_ok h → v ∈ versions past h → cached v.
Proof.
  intros [Hh _] [(a & Ha & Hv)|Hv]%elem_of_versions; [left|by right; exists v].
  apply (proj1 (Forall_forall _ _) Hh) in Ha. destruct a as [| | | | | | | |? []|? []| | | | | | | | |]; try (by apply not_elem_of_nil in Hv);
    apply list_elem_of_singleton in Hv as ->; exact Ha.
Qed.
Lemma stored_version h key st : after σ h !! key = Some st → st ∈ versions past h.
Proof.
  rewrite elem_of_versions. revert key st. induction h as [|ev h IH]; intros key st.
  - intros Hst. right. by eapply (sane_stored _ _ _ σ_sane).
  - unfold after in *. cbn [actions fmap list_fmap foldr]. fold (actions h). intros Hst.
    assert (foldr act_effect σ (actions h) !! key = Some st ∨ st ∈ stores (action_of ev)) as [Hst'|Hin].
    { destruct (action_of ev) as [| | | | | | | |? []|? []|? []| | | | | | | |]; simpl in *; try (by left).
      - apply lookup_insert_Some in Hst as [[_ ->]|[_ ?]]; [right; left|by left].
      - apply lookup_insert_Some in Hst as [[_ ->]|[_ ?]]; [right; left|by left].
      - apply lookup_delete_Some in Hst as [_ ?]. by left. }
    + destruct (IH _ _ Hst') as [(a & ? & ?)|?]; [left|by right]. exists a. split; [by right|done].
    + left. exists (action_of ev). split; [left|done].
Qed.

(** Everything stored is as the invariant says. *)
Lemma stored_fits h :
  history_ok h → map_Forall (λ key tr, ObjectKeyFromObject tr = key ∧ fits tr) (after σ h).
Proof.
  intros [Hh _]. induction h as [|ev h IH].
  - intros key tr Htr. destruct (sane_stored _ _ _ σ_sane key tr Htr) as [Hk Ha]. split; [done|]. intros Hty.
    split; [|by apply (sane_instance _ _ _ σ_sane)].
    intros _. left. apply elem_of_occupants. exists tr. rewrite Hk. split; [done|]. by apply occupies_label.
  - apply Forall_cons in Hh as [Ha Hh]. specialize (IH Hh). unfold after in *. cbn [actions fmap list_fmap foldr].
    fold (actions h). destruct (action_of ev) as [| | | | | | | |? []|? []|? []| | | | | | | |]; simpl in *; try done.
    + by apply map_Forall_insert_2.
    + by apply map_Forall_insert_2.
    + by apply map_Forall_delete.
Qed.

Lemma cached_good h : history_ok h → good_cache data (mem_of m h).
Proof.
  intros [Hh _]. induction h as [|[X e x] h IH]; [done|]. apply Forall_cons in Hh as [Ha Hh]. specialize (IH Hh). cbn [mem_of].
  destruct e as [Y c|Y c|Y q c|Y c|Y c| | | | |]; try done; [|by destruct c].
  destruct c; try done. by apply map_Forall_insert_2.
Qed.

(** The occupants of a host at any point, and the capacity. *)
Lemma occupants_known k h : pooled data k → history_ok h → occupants k (after σ h) ⊆ occupants k σ ∪ {[request]} ∧
  (¬ room k → occupants k (after σ h) ⊆ occupants k σ).
Proof.
  intros Hk Hh. assert (∀ key, key ∈ occupants k (after σ h) → known key k) as Hkn.
  { intros key (tr & Htr & [Hty Hl]%occupies_label)%elem_of_occupants.
    destruct (stored_fits _ Hh key tr Htr) as [Hkey Hf]. destruct (Hf Hty) as [Hhost _]. rewrite Hkey, Hl in Hhost. by apply Hhost. }
  split; [intros key [?|[-> _]]%Hkn; set_solver|]. intros Hr key [?|[_ ?]]%Hkn; done.
Qed.

Lemma configured_fun k host host' : configured data k host → configured data k host' → host' = host.
Proof.
  intros (_ & c & Hc & ->) (_ & c' & Hc' & ->). rewrite <- ParseStaticHostConfig_iff in Hc, Hc'. congruence.
Qed.

Lemma history_fits_hosts h : fits_hosts data lag σ → history_ok h → fits_hosts data lag (after σ h).
Proof.
  intros Hcap Hh k host Hk0 Hk. pose proof (Hcap k host Hk0 Hk) as Hle.
  destruct (occupants_known k h (conj Hk0 (proj1 Hk)) Hh) as [Hadd Hno].
  destruct (decide (Z.of_nat (load k σ) < h_Concurrency host + Z.of_nat lag)%Z) as [Hlt|Hge].
  - apply load_add in Hadd. lia.
  - assert (load k (after σ h) ≤ load k σ); [|lia]. apply load_mono, Hno. intros Hr. by specialize (Hr _ Hk).
Qed.

Lemma cached_instance tr : cached tr → label tr TaskTypeLabel = "" → ¬ pooled data (annotation tr CloudInstanceId).
Proof.
  intros [Hf|(v & Hv & _ & Ht & _ & ->)] Hty; [by apply Hf|]. apply (sane_instance _ _ _ σ_sane v Hv). congruence.
Qed.

Lemma history_sane h : history_ok h → sane data (after σ h) (versions past h).
Proof.
  intros Hh. split.
  - intros key tr Htr. split; [by apply (stored_fits _ Hh key tr)|by eapply stored_version].
  - intros v Hv. eapply cached_instance, version_cached; done.
  - apply Hh.
Qed.

(** ** Requests *)

(** The requests that neither store a TaskRun nor cache a platform with other hosts. *)
Definition tame (X : Type) (e : mpcE X) : Prop :=
  match e with
  | Client c => match c with Update_TaskRun _ | Create_TaskRun _ => False | _ => True end
  | Mem c => match c with Set_platformConfig _ c => good_config data c | _ => True end
  | _ => True
  end.

Lemma tame_act X (e : mpcE X) x : tame X e → act_ok (action_of (Ev e x)) ∧ stores (action_of (Ev e x)) = [].
Proof.
  destruct e as [Y c|Y c|Y q c|Y c|Y c| | | | |]; try done; destruct c; try done; cbn; intros; by destruct x.
Qed.
Lemma history_tame X (e : mpcE X) x h : tame X e → history_ok h → history_ok (Ev e x :: h).
Proof. intros [Ha Hs]%(tame_act X e x) Hh. by apply history_cons. Qed.

Lemma typed_tame {A} (p : mpc A) : emits tame p → typed p (λ _, True).
Proof.
  intros Hp. apply typed_emits. eapply emits_mono; [|exact Hp]. intros X e He h x Hh _. by apply history_tame.
Qed.

(** What is known of an answer to a request that stores nothing. *)
Lemma typed_asks {X} (e : mpcE X) (Q : X → Prop) :
  tame X e → (∀ h x, history_ok h → world h X e x → Q x) → typed (trigger e) Q.
Proof. intros He HQ. apply typed_trigger. intros h x Hh Hx. split; [by apply history_tame|by eapply HQ]. Qed.

Lemma typed_get key : typed (client (Get_TaskRun key)) (λ r, ∀ tr, r = Ok tr → cached tr ∧ ObjectKeyFromObject tr = key).
Proof.
  apply typed_asks; [done|]. intros h r Hh (Hk & _ & Hc) tr ->. split; [by eapply version_cached, Hc|by apply Hk].
Qed.
Lemma typed_read key : typed (apiReader (Get_TaskRun key)) (λ r, ∀ tr, r = Ok tr → fits tr ∧ ObjectKeyFromObject tr = key).
Proof.
  apply typed_asks; [done|]. intros h r Hh (_ & _ & Hc) tr ->. by destruct (stored_fits _ Hh _ _ (Hc _ eq_refl)).
Qed.
Lemma typed_list o : typed (client (List_TaskRuns o)) (λ r, ∀ trs, r = Ok trs → Forall cached trs).
Proof.
  apply typed_asks; [done|]. intros h r Hh (_ & _ & Hc) trs ->. destruct (Hc _ eq_refl) as [Hv _].
  eapply Forall_impl; [exact Hv|]. intros tr. by apply version_cached.
Qed.

Lemma fits_object tr tr' : fits tr → same_object tr tr' → fits tr'.
Proof.
  intros Hf [Hk Hl Ha _ _ _]. eapply fits_same; [done..|by apply label_same|left; by apply label_same|left; by apply annotation_same].
Qed.
Lemma fits_cached tr : fits tr → cached tr.
Proof. by left. Qed.

(** An update of a version that was read from the cache is accepted only when the version
    is still the stored one. *)
Lemma typed_put_cached tr :
  cached tr → typed (client (Update_TaskRun tr)) (λ r, ∀ tr', r = Ok tr' → same_object tr tr' ∧ fits tr').
Proof.
  intros Hf. apply typed_trigger. intros h r Hh (Hok & _ & Hc). destruct r as [tr'|err]; [|split; [by apply history_cons|done]].
  destruct (Hok _ eq_refl) as (?&?&?&?&?&?). destruct (Hc _ eq_refl) as [(st & Hst & Hv) Hfresh].
  assert (same_object tr tr') as Hs by (by split).
  assert (fits tr') as Hf'.
  { destruct Hf as [Hf|(v & Hin & Hver & Ht & Hl & Ha)]; [by eapply fits_object|].
    assert (st = v) as ->.
    { apply (versions_unique _ Hh); [by eapply stored_version|apply elem_of_versions; by right|congruence]. }
    eapply fits_object; [|exact Hs]. destruct (stored_fits _ Hh _ _ Hst) as [Hk Hfv].
    eapply fits_same; [exact Hfv|by rewrite Hk|done|by left|by left]. }
  split; [by eapply history_stores|]. by intros ? [= <-].
Qed.
Lemma typed_put tr : fits tr → typed (client (Update_TaskRun tr)) (λ r, ∀ tr', r = Ok tr' → same_object tr tr' ∧ fits tr').
Proof. intros Hf. by apply typed_put_cached, fits_cached. Qed.

Lemma typed_create tr : label tr TaskTypeLabel ≠ "" → typed (client (Create_TaskRun tr)) (λ _, True).
Proof.
  intros Hl. apply typed_trigger. intros h r Hh (_ & _ & Hc). split; [|done].
  destruct r as [tr'|]; [|by apply history_cons]. destruct (Hc _ eq_refl) as (_ & Hl' & Hfresh).
  eapply history_stores; [|done..]. apply fits_own. by rewrite (label_same _ _ _ Hl').
Qed.

(** ** Changes of an object *)

Lemma fits_finalizers tr fs : fits tr → fits (with_finalizers tr fs).
Proof. intros Hf. eapply fits_same; [done..|by left|by left]. Qed.
Lemma fits_delete_label tr k : k ≠ TaskTypeLabel → fits tr → fits (delete_label tr k).
Proof.
  intros Hk Hf. eapply fits_same; [done..| | |by left].
  - rewrite label_delete_label. by case_decide.
  - rewrite label_delete_label. case_decide; [right; apply not_pooled_empty|by left].
Qed.
Lemma fits_delete_annotation tr k : fits tr → fits (delete_annotation tr k).
Proof.
  intros Hf. eapply fits_same; [done..|by left|]. rewrite annotation_delete_annotation.
  case_decide; [right; apply not_pooled_empty|by left].
Qed.
Lemma fits_annotations tr : fits tr → fits (with_annotations tr (make_if_nil (tr_Annotations tr))).
Proof. intros Hf. eapply fits_same; [done..|by left|]. left. apply map_get_make_if_nil. Qed.
Lemma fits_labels tr : fits tr → fits (with_labels tr (make_if_nil (tr_Labels tr))).
Proof. intros Hf. eapply fits_same; [done..|apply map_get_make_if_nil|left; apply map_get_make_if_nil|by left]. Qed.

Lemma label_inserted tr g k v k' :
  tr_Labels tr = Some g → label (with_labels tr (Some (<[k:=v]> g))) k' = if decide (k = k') then v else label tr k'.
Proof. intros Hg. unfold label, map_get. rewrite Hg. apply sget_insert. Qed.
Lemma annotation_inserted tr g k v k' :
  tr_Annotations tr = Some g →
  annotation (with_annotations tr (Some (<[k:=v]> g))) k' = if decide (k = k') then v else annotation tr k'.
Proof. intros Hg. unfold annotation, map_get. rewrite Hg. apply sget_insert. Qed.

(** The same of a version that may be out of date. *)
Lemma cached_same tr tr' :
  cached tr → version_of tr' = version_of tr → label tr' TaskTypeLabel = label tr TaskTypeLabel →
  label tr' AssignedHost = label tr AssignedHost → annotation tr' CloudInstanceId = annotation tr CloudInstanceId →
  cached tr'.
Proof.
  intros [Hf|(v & Hv & ? & ? & ? & ?)] Hver Ht Hl Ha.
  - left. eapply fits_same; [done|exact (f_equal fst Hver)|done|by left|by left].
  - right. exists v. split; [done|]. split_and!; congruence.
Qed.
Lemma cached_finalizers tr fs : cached tr → cached (with_finalizers tr fs).
Proof. intros Hc. by eapply cached_same. Qed.

(** An assigned label may also name what is no static host. *)
Lemma typed_set_label tr k v :
  k ≠ TaskTypeLabel → k ≠ AssignedHost ∨ ¬ pooled data v → fits tr → typed (set_label tr k v) fits.
Proof.
  intros Hk Hv Hf. eapply typed_bind; [by apply (typed_map_assign _ _ _ _ _ (λ l, ∃ g, tr_Labels tr = Some g ∧ l = Some (<[k:=v]> g))); eauto|].
  intros l (g & Hg & ->). apply typed_ret. eapply fits_same; [done..| | |by left]; rewrite (label_inserted _ _ _ _ _ Hg).
  - by rewrite decide_False.
  - case_decide; [right; by destruct Hv|by left].
Qed.
Lemma typed_set_label_key tr k v :
  k ≠ TaskTypeLabel → k ≠ AssignedHost → fits tr →
  typed (set_label tr k v) (λ tr', fits tr' ∧ ObjectKeyFromObject tr' = ObjectKeyFromObject tr).
Proof.
  intros Hk Hv Hf h Hh. pose proof (typed_set_label tr k v Hk (or_introl Hv) Hf h Hh) as Hs.
  unfold set_label, map_assign in *. by destruct (tr_Labels tr).
Qed.
Lemma typed_set_annotation tr k v :
  k ≠ CloudInstanceId ∨ ¬ pooled data v → fits tr → typed (set_annotation tr k v) fits.
Proof.
  intros Hv Hf. eapply typed_bind; [by apply (typed_map_assign _ _ _ _ _ (λ l, ∃ g, tr_Annotations tr = Some g ∧ l = Some (<[k:=v]> g))); eauto|].
  intros l (g & Hg & ->). apply typed_ret. eapply fits_same; [done..|by left|]; rewrite (annotation_inserted _ _ _ _ _ Hg).
  case_decide; [right; by destruct Hv|by left].
Qed.

(** ** Updates, secrets, provisioning *)

Lemma typed_update tr : fits tr → typed (UpdateTaskRunWithRetry tr) (λ p, fits p.1).
Proof.
  intros Hf. unfold UpdateTaskRunWithRetry. eapply typed_bind; [by apply typed_put|]. intros r Hr.
  destruct r as [tr'|err]; [apply typed_ret; by destruct (Hr _ eq_refl)|]. destruct (IsConflict err); [|by apply typed_ret].
  destruct DefaultRetry_S as [n Hn]. rewrite (RetryOnConflict_attempts _ _ _ _ _ Hn).
  eapply typed_bind; [apply (typed_attempts _ _ _ _ _ (λ _, True))|intros; by apply typed_ret].
  unfold updateTaskRun. eapply typed_bind; [apply typed_read|]. intros [latest|e] Hl; [|by apply typed_ret].
  destruct (Hl _ eq_refl) as [_ Hk]. destruct (merge_carries latest tr Hk) as [Hck Hcl Hca _].
  eapply typed_bind; [apply typed_put|intros; by apply typed_ret]. eapply fits_same; [done..| | |].
  - apply map_get_lookup, Hcl. do 5 right. left.
  - left. apply map_get_lookup, Hcl. left.
  - left. apply map_get_lookup, Hca. right. left.
Qed.

(** What is known of the TaskRun of an error secret is known afterwards. *)
Lemma typed_error_secret_of (F : TaskRun → Prop) tr platform sn msg :
  (∀ tr fs, F tr → F (with_finalizers tr fs)) → (∀ tr, fits tr → F tr) → (∀ tr, F tr → cached tr) →
  F tr → typed (createErrorSecret tr platform sn msg) (λ p, F p.1).
Proof.
  intros Hfin Hfits Hcached Hf. unfold createErrorSecret. destruct (AddFinalizer _ _) as [fs added].
  eapply (typed_bind _ _ _ _ (λ p, F p.1)).
  - destruct added; [|by apply typed_ret]. eapply typed_bind; [by apply typed_put_cached, Hcached, Hfin|].
    intros [tr'|err] Hr; apply typed_ret; [by apply Hfits, Hr|by apply Hfin].
  - intros [tr' [err|]] Hf'; [by apply typed_ret|]. destruct (SetOwnerReference _ _) as [s|err]; [|by apply typed_ret].
    eapply typed_bind; [by apply typed_tame, emits_trigger|]. intros [file line] _.
    eapply typed_bind; [apply typed_tame; unfold create_owned_secret, client; by emits|]. intros err _. by apply typed_ret.
Qed.

Lemma typed_error_secret tr platform sn msg : fits tr → typed (createErrorSecret tr platform sn msg) (λ p, fits p.1).
Proof. apply typed_error_secret_of; [apply fits_finalizers|done|apply fits_cached]. Qed.
Lemma typed_error_secret_cached tr platform sn msg : cached tr → typed (createErrorSecret tr platform sn msg) (λ p, cached p.1).
Proof. apply typed_error_secret_of; [apply cached_finalizers|apply fits_cached|done]. Qed.

Lemma typed_provisioning tr sn ssh address user platform sudo :
  fits tr → typed (launchProvisioningTask operatorNamespace tr sn ssh address user platform sudo) (λ p, fits p.1).
Proof.
  intros Hf. unfold launchProvisioningTask. eapply typed_bind; [by apply typed_tame, emits_trigger|].
  intros [s|err] _; [|by apply typed_error_secret]. eapply typed_bind; [by apply typed_tame, emits_trigger|]. intros cfg _.
  cbv zeta. eapply typed_bind; [by apply typed_create|]. intros r _. by apply typed_ret.
Qed.

Create HintDb typed discriminated.
#[local] Hint Resolve fits_finalizers fits_annotations fits_labels fits_delete_annotation typed_update typed_error_secret
  typed_provisioning typed_get typed_list typed_put typed_error_secret_cached : typed.
#[local] Hint Extern 2 (fits (delete_label _ _)) => apply fits_delete_label; [differ|] : typed.
#[local] Hint Extern 2 (Safe.typed _ _ (set_label _ _ _) _) => apply typed_set_label; [differ|left; differ|] : typed.
#[local] Hint Extern 2 (Safe.typed _ _ (set_annotation _ _ _) _) => apply typed_set_annotation; [left; differ|] : typed.
#[local] Hint Extern 3 (Safe.typed _ _ (trigger _) _) => apply typed_tame; apply emits_trigger; exact I : typed.
#[local] Hint Extern 3 (Safe.typed _ _ now _) => apply typed_tame; apply emits_trigger; exact I : typed.
#[local] Hint Extern 3 (Safe.typed _ _ (client _) _) => apply typed_tame; apply emits_trigger; exact I : typed.
#[local] Hint Extern 3 (Safe.typed _ _ (cloud _ _) _) => apply typed_tame; apply emits_trigger; exact I : typed.
#[local] Hint Extern 3 (Safe.typed _ _ (mem _) _) => apply typed_tame; apply emits_trigger; exact I : typed.
#[local] Hint Extern 3 (Safe.typed _ _ (recordEvent _ _ _ _) _) => apply typed_tame; apply emits_trigger; exact I : typed.

(** What is known of an answer that is known. *)
Ltac answered := repeat match goal with
  | Hr : ∀ x, Ok ?a = Ok x → _ |- _ => specialize (Hr a eq_refl)
  | Hr : ∀ x, Err _ = Ok x → _ |- _ => clear Hr
  | Hr : _ ∧ _ |- _ => destruct Hr
  end.

(** One step on a program: a call is typed by the database, or by the requests it makes,
    and what it returned is taken apart. *)
Ltac typed_step :=
  lazymatch goal with
  | |- Safe.typed _ _ (mbind _ _) _ =>
      eapply typed_bind; [first [solve [eauto with typed]|apply typed_tame; solve [emits]]|intros ? ?; cbn [fst snd] in *; cbv beta]
  | |- Safe.typed _ _ (mret _) _ => apply typed_ret; cbn [fst snd]; intros
  | |- Safe.typed _ _ (Panic _) _ => apply typed_Panic
  | |- Safe.typed _ _ (match ?x with _ => _ end) _ => destruct x eqn:?; simplify_eq; cbn [fst snd] in *; answered
  | |- Safe.typed _ _ (let _ := _ in _) _ => cbv zeta
  end.
Ltac typing := repeat (first [typed_step|solve [eauto with typed]]).

Lemma emits_user_secret tr sn d : emits tame (createUserTaskSecret tr sn d).
Proof. unfold createUserTaskSecret, create_owned_secret, client. by emits. Qed.
Lemma emits_tame_metrics p f : (∀ p, emits tame (f p)) → emits tame (HandleMetrics p f).
Proof. intros Hf. unfold HandleMetrics, metric. by emits. Qed.
#[local] Hint Resolve emits_user_secret emits_tame_metrics : emits.

Lemma typed_LocalHost tr sn : fits tr → typed (LocalHost.Allocate tr sn) (λ p, fits p.1.1).
Proof.
  intros Hf. unfold LocalHost.Allocate.
  eapply typed_bind; [apply typed_set_label; [differ|by right|done]|]. intros tr1 Hf1. typing.
Qed.

(** *** Static pools *)

Lemma typed_waits hp tr : fits tr → typed (waits_branch hp tr) (λ p, fits p.1.1).
Proof. intros Hf. unfold waits_branch. typing. Qed.

Lemma typed_assigns hp tr sn host :
  (is_Some (tr_Labels tr) → fits (assigned tr (h_Name host))) →
  typed (assigns_branch operatorNamespace hp tr sn host) (λ p, fits p.1.1).
Proof.
  intros Hf. unfold assigns_branch.
  eapply (typed_bind _ _ _ _ (λ tr1, fits (with_finalizers (delete_label tr1 WaitingForPlatformLabel)
    (AddFinalizer (tr_Finalizers (delete_label tr1 WaitingForPlatformLabel)) PipelineFinalizer).1))).
  - unfold set_label. eapply typed_bind; [by apply (typed_map_assign _ _ _ _ _ (λ l, ∃ g, tr_Labels tr = Some g ∧ l = Some (<[AssignedHost:=h_Name host]> g))); eauto|].
    intros l (g & Hg & ->). apply typed_ret. unfold assigned in Hf. rewrite Hg in Hf. by apply Hf.
  - intros tr1 Hf1. typing.
Qed.

(** An allocation from a pool, if what it selects may be assigned. *)
Lemma safe_HostPool_Allocate hp tr sn h :
  fits tr → history_ok h →
  (∀ items k host, world h _ (Client (List_TaskRuns (HasLabels [AssignedHost]))) (Ok items) →
    best hp (Split (annotation tr FailedHosts) ",") (HostPool.count_assigned items) k host →
    is_Some (tr_Labels tr) → fits (assigned tr (h_Name host))) →
  safe (HostPool.Allocate operatorNamespace hp tr sn) (λ p _, fits p.1.1) h.
Proof.
  intros Hf Hh Hsel. unfold HostPool.Allocate. case_bool_decide; [by apply safe_ret|].
  apply safe_bind, safe_trigger. intros r Hr. set (h1 := Ev _ r :: h).
  assert (history_ok h1) as Hh1 by by apply history_tame. split; [done|]. destruct r as [items|err]; [|by apply safe_ret].
  apply safe_bind, safe_trigger. intros keys (Hkeys & _). set (h2 := Ev _ keys :: h1).
  assert (history_ok h2) as Hh2 by by apply history_tame. split; [done|]. cbv zeta.
  pose proof (select_host_cases hp (Split (annotation tr FailedHosts) ",") (HostPool.count_assigned items) keys Hkeys) as (_ & _ & Hs).
  set (s := HostPool.select_host _ _ _ _) in *.
  destruct (negb _); [by apply safe_ret|]. destruct (HostPool.allPlatformHostsFailed s); [by apply safe_ret|].
  destruct (HostPool.selected s) as [host|].
  - destruct Hs as [k Hbest]. apply typed_assigns; [|done]. by eapply Hsel.
  - by apply typed_waits.
Qed.

Lemma fits_assigned tr host :
  fits tr → is_Some (tr_Labels tr) → (pooled data host → known (ObjectKeyFromObject tr) host) → fits (assigned tr host).
Proof.
  intros Hf [g Hg] Hk Hty. rewrite label_assigned. split; [exact Hk|].
  assert (label (assigned tr host) TaskTypeLabel = label tr TaskTypeLabel) as Heq; [|rewrite Heq in Hty; by apply Hf].
  unfold assigned. rewrite Hg. etrans; [apply (label_delete_label (with_labels tr _))|]. rewrite decide_False by differ.
  etrans; [by apply label_inserted|]. by rewrite decide_False by differ.
Qed.

(** Pools of hosts that are no static hosts. *)
Lemma typed_foreign_pool hp tr sn :
  fits tr → (∀ k host, hosts hp !! k = Some host → ¬ pooled data (h_Name host)) →
  typed (HostPool.Allocate operatorNamespace hp tr sn) (λ p, fits p.1.1).
Proof.
  intros Hf Hn h Hh. apply safe_HostPool_Allocate; [done..|]. intros items k host _ [[[Hk _] _] _] Hl.
  apply fits_assigned; [done..|]. by intros ?%(Hn _ _ Hk).
Qed.

(** The pool of a configuration, for the reconciled TaskRun, as long as nothing changed. *)
Lemma safe_static_pool hp tr sn h :
  good_config data (Static hp) → fits tr → ObjectKeyFromObject tr = request → history_ok h → after σ h = σ →
  safe (HostPool.Allocate operatorNamespace hp tr sn) (λ p _, fits p.1.1) h.
Proof.
  intros Hgood Hf Hkey Hh Hσ. apply safe_HostPool_Allocate; [done..|].
  intros items k host (_ & _ & Hitems) [[[Hk _] _] [Hfree _]] Hl. apply fits_assigned; [done..|].
  destruct (Hitems _ eq_refl) as [_ Hlist]. specialize (Hlist eq_refl). rewrite Hσ in Hlist. pose proof (Hgood _ _ Hk) as Hc.
  assert (h_Name host = k) as -> by (destruct Hc as (_ & c & _ & ->); done).
  intros [Hk0 _]. right. split; [done|]. intros host' Hc'. rewrite (configured_fun _ _ _ Hc Hc').
  unfold free_spots in Hfree. rewrite count_assigned_spec in Hfree. specialize (Hlist k Hk0). lia.
Qed.

(** *** Dynamic platforms *)

Lemma typed_terminate_and_unassign r tr report :
  fits tr → (∀ tr, emits tame (report tr)) → typed (DynamicResolver.terminate_and_unassign r tr report) fits.
Proof.
  intros Hf Hr. unfold DynamicResolver.terminate_and_unassign, DynamicResolver.removeInstanceFromTask.
  eapply typed_bind; [eauto with typed|]. intros terr _.
  eapply (typed_bind _ _ _ _ fits); [|intros tr1 Hf1; typing].
  destruct terr; [typing|]. eapply typed_bind; [by apply typed_tame|]. intros u _. typing.
Qed.

Lemma emits_report_terminate r tr : emits tame (DynamicResolver.report_terminate_failed r tr).
Proof. by apply emits_trigger. Qed.
Lemma emits_report_nothing tr : emits tame (DynamicResolver.report_nothing tr).
Proof. apply emits_ret. Qed.
#[local] Hint Resolve typed_terminate_and_unassign : typed.
#[local] Hint Extern 1 (∀ _, emits tame (DynamicResolver.report_terminate_failed _ _)) => exact (emits_report_terminate _) : typed.
#[local] Hint Extern 1 (∀ _, emits tame (DynamicResolver.report_nothing _)) => exact emits_report_nothing : typed.

(** The task is assigned to its instance, which is no static host. *)
Lemma typed_provision_instance r tr sn address :
  fits tr → typed (DynamicResolver.provision_instance operatorNamespace r tr sn address) (λ p, fits p.1.1).
Proof.
  intros Hf. unfold DynamicResolver.provision_instance.
  destruct (decide (label tr TaskTypeLabel = "")) as [Hty|Hty].
  - eapply typed_bind; [apply typed_set_label; [differ|right; by apply Hf|done]|]. intros tr1 Hf1. typing.
  - eapply (typed_bind _ _ _ _ fits).
    + unfold set_label. eapply typed_bind; [by apply (typed_map_assign _ _ _ _ _ (λ l, ∃ g, tr_Labels tr = Some g ∧ l = Some (<[AssignedHost:=annotation tr CloudInstanceId]> g))); eauto|].
      intros l (g & Hg & ->). apply typed_ret, fits_own. rewrite (label_inserted _ _ _ _ _ Hg). by rewrite decide_False by differ.
    + intros tr1 Hf1. typing.
Qed.

Lemma typed_await_address r tr : fits tr → typed (DynamicResolver.await_address r tr) (λ p, fits p.1.1).
Proof. intros Hf. unfold DynamicResolver.await_address. typing. Qed.
#[local] Hint Resolve typed_provision_instance typed_await_address : typed.
Lemma typed_continue_instance r tr sn :
  fits tr → typed (DynamicResolver.continue_instance operatorNamespace r tr sn) (λ p, fits p.1.1).
Proof. intros Hf. unfold DynamicResolver.continue_instance. typing. Qed.

Lemma typed_launch r tr : typed (DynamicResolver.launch r tr) (λ res, ∀ id, res = Ok id → ¬ pooled data id).
Proof.
  unfold DynamicResolver.launch. cbv zeta. eapply typed_bind; [eauto with typed|]. intros tags _.
  eapply (typed_bind _ _ _ _ (λ p, ∀ id, p.2 = Ok id → ¬ pooled data id)).
  - apply typed_asks; [done|]. intros h x Hh (_ & Hx & _). exact Hx.
  - intros [tags' inst] Hi. typing.
Qed.
Lemma typed_launch_failed tr err : fits tr → typed (DynamicResolver.launch_failed tr err) (λ p, fits p.1.1).
Proof. intros Hf. unfold DynamicResolver.launch_failed. typing. Qed.
#[local] Hint Resolve typed_continue_instance typed_launch typed_launch_failed : typed.

Lemma typed_launch_instance r tr n : fits tr → typed (DynamicResolver.launch_instance r tr n) (λ p, fits p.1.1).
Proof.
  intros Hf. unfold DynamicResolver.launch_instance. cbv zeta.
  do 3 typed_step. eapply typed_bind; [apply typed_launch|]. intros [id|err] Hid; [|typing]. specialize (Hid _ eq_refl).
  typed_step. eapply typed_bind; [apply typed_set_annotation; [by right|done]|]. intros tr1 Hf1. typing.
Qed.
Lemma typed_wait_for_capacity r tr n : fits tr → typed (DynamicResolver.wait_for_capacity r tr n) (λ p, fits p.1.1).
Proof. intros Hf. unfold DynamicResolver.wait_for_capacity. typing. Qed.
#[local] Hint Resolve typed_launch_instance typed_wait_for_capacity : typed.

Lemma typed_Dynamic_Allocate r tr sn :
  fits tr → typed (DynamicResolver.Allocate operatorNamespace r tr sn) (λ p, fits p.1.1).
Proof.
  intros Hf. unfold DynamicResolver.Allocate. cbv zeta. destruct (negb _); [typing|].
  eapply typed_bind; [apply typed_tame; unfold DynamicResolver.allocation_timed_out, now; by emits|]. intros b _. typing.
Qed.

(** *** Dynamic host pools *)

Definition foreign_pool (hp : HostPool) : Prop := ∀ k host, hosts hp !! k = Some host → ¬ pooled data (h_Name host).

Lemma typed_buildHostPool a tag :
  typed (DynamicHostPool.buildHostPool a tag) (λ r, ∀ hp n, r = Ok (hp, n) → foreign_pool hp).
Proof.
  unfold DynamicHostPool.buildHostPool.
  eapply (typed_bind _ _ _ _ (λ r, ∀ insts, r = Ok insts → Forall (λ i, ¬ pooled data (InstanceId i)) insts)).
  { apply typed_asks; [done|]. intros h x Hh (_ & Hx & _). exact Hx. }
  intros [insts|err] Hi; [|by apply typed_ret]. specialize (Hi _ eq_refl).
  eapply (typed_bind _ _ _ _ (λ p, ∀ k host, p.1 !! k = Some host → ¬ pooled data (h_Name host))).
  - apply typed_foldM; [by intros k host|]. intros [ret n] inst Hin Hret. unfold DynamicHostPool.visit_instance.
    eapply typed_bind; [eauto with typed|]. intros t _. destruct (_ <? _)%Z.
    + eapply typed_bind; [apply typed_tame; unfold DynamicHostPool.isHostIdle, client; by emits|]. intros idle _.
      eapply typed_bind; [apply typed_tame; unfold cloud; by emits|]. intros u _. by apply typed_ret.
    + apply typed_ret. cbn [fst]. intros k host [[<- <-]|[_ ?]]%lookup_insert_Some; [|by eapply Hret].
      by apply (proj1 (Forall_forall _ _) Hi).
  - intros [ret n] Hret. apply typed_ret. intros hp n' [= <- <-]. exact Hret.
Qed.
#[local] Hint Resolve typed_buildHostPool : typed.

Lemma typed_start_instance a tr n err : fits tr → typed (DynamicHostPool.start_instance a tr n err) (λ p, fits p.1.1).
Proof. intros Hf. unfold DynamicHostPool.start_instance, DynamicHostPool.getRandomString. typing. Qed.
#[local] Hint Resolve typed_start_instance : typed.

Lemma typed_Pool_Allocate a tr sn :
  fits tr → typed (DynamicHostPool.Allocate operatorNamespace a tr sn) (λ p, fits p.1.1).
Proof.
  intros Hf. unfold DynamicHostPool.Allocate. eapply typed_bind; [eauto with typed|].
  intros [[hp n]|err] Hp; [|typing]. destruct (bool_decide _); [eauto with typed|].
  eapply typed_bind; [by apply typed_foreign_pool; [|eapply Hp]|]. intros [[tr1 res] err] Hf1. typing.
Qed.

(** *** Releases *)

Lemma emits_isHostIdle host : emits tame (DynamicHostPool.isHostIdle host).
Proof. unfold DynamicHostPool.isHostIdle, client. by emits. Qed.
#[local] Hint Resolve emits_isHostIdle : emits.

Lemma typed_HostPool_Deallocate hp tr sn host : typed (HostPool.Deallocate operatorNamespace hp tr sn host) (λ _, True).
Proof.
  unfold HostPool.Deallocate. destruct (hosts hp !! host) as [v|]; [|by apply typed_ret].
  eapply typed_bind; [eauto with typed|]. intros r _. destruct (match r with Ok (_ :: _) => true | _ => false end); [by apply typed_ret|].
  eapply typed_bind; [by apply typed_create|]. intros r' _. by apply typed_ret.
Qed.
#[local] Hint Resolve typed_HostPool_Deallocate : typed.

Lemma typed_Deallocate c tr sn host : fits tr → typed (Deallocate operatorNamespace c tr sn host) (λ p, fits p.1).
Proof.
  intros Hf. destruct c as [|r|a|hp]; cbn [Deallocate].
  - unfold LocalHost.Deallocate. eapply typed_bind; [by apply typed_tame, emits_ret|]. intros err _. by apply typed_ret.
  - unfold DynamicResolver.Deallocate. typing.
  - eapply (typed_bind _ _ _ _ (λ _, True)); [|intros err _; by apply typed_ret].
    unfold DynamicHostPool.Deallocate. typing.
  - typing.
Qed.

(** *** The configuration *)

Lemma emits_register p n : emits tame (RegisterPlatformMetrics p n).
Proof. unfold RegisterPlatformMetrics, collector_names, metric. cbn [register_collectors]. unfold metric. by emits. Qed.
#[local] Hint Resolve emits_register : emits.
#[local] Hint Resolve typed_Deallocate typed_Pool_Allocate typed_Dynamic_Allocate typed_LocalHost : typed.

Lemma typed_static_platform platform :
  typed (static_platform data platform) (λ r, ∀ c, r = Ok c → good_config data c).
Proof.
  unfold static_platform. eapply (typed_bind _ _ _ _ (λ keys, keys ≡ₚ (map_to_list data).*1)).
  { apply typed_asks; [done|]. intros h x Hh (Hx & _). exact Hx. }
  intros keys Hkeys. eapply (typed_bind _ _ _ _ (λ names, names ≡ₚ (map_to_list (static_host_names keys)).*1)).
  { apply typed_asks; [done|]. intros h x Hh (Hx & _). exact Hx. }
  intros names Hnames. destruct (parse_static_hosts data platform ∅ names) as [hs|err] eqn:Hp; [|by apply typed_ret].
  apply parse_static_hosts_Ok in Hp as [_ Hh]; [|by eapply NoDup_range_keys|done].
  assert (good_config data (Static {| hosts := hs; targetPlatform := platform |})) as Hgood.
  { intros k host [Hn|(Hin & c & Hc & _ & ->)]%Hh; [done|]. split; [|by exists c].
    apply (elem_of_range_keys _ _ _ Hnames), lookup_static_host_names in Hin as (key & Hkey & Hname).
    exists key. split; [|done]. by apply (elem_of_range_keys _ _ _ Hkeys). }
  eapply typed_bind; [by apply typed_tame, emits_trigger|]. intros order _. cbv zeta.
  eapply typed_bind; [by apply typed_tame, emits_trigger|]. intros u _.
  eapply typed_bind; [apply typed_tame; by emits|]. intros [err|] _; apply typed_ret; [done|]. by intros c [= <-].
Qed.

Lemma typed_dynamic_platform platform tags :
  typed (dynamic_platform operatorNamespace data platform tags) (λ r, ∀ c, r = Ok c → good_config data c).
Proof.
  unfold dynamic_platform. destruct (ParseDynamicPlatformConfig _ _); [|by apply typed_ret].
  eapply typed_bind; [apply typed_tame; unfold buildDynamicResolver, new_provider; by emits|].
  intros [r|err] _; [|by apply typed_ret]. eapply typed_bind; [by apply typed_tame, emits_trigger|].
  intros u _. apply typed_ret. by intros c [= <-].
Qed.
Lemma typed_dynamic_pool_platform platform tags :
  typed (dynamic_pool_platform operatorNamespace data platform tags) (λ r, ∀ c, r = Ok c → good_config data c).
Proof.
  unfold dynamic_pool_platform. destruct (ParseDynamicPoolPlatformConfig _ _); [|by apply typed_ret].
  eapply typed_bind; [apply typed_tame; unfold buildDynamicHostPool, new_provider; by emits|].
  intros [r|err] _; [|by apply typed_ret]. eapply typed_bind; [by apply typed_tame, emits_trigger|].
  intros u _. apply typed_ret. by intros c [= <-].
Qed.

Lemma typed_getPlatformConfig platform ns :
  typed (getPlatformConfig operatorNamespace platform ns) (λ r, ∀ c, r = Ok c → good_config data c).
Proof.
  unfold getPlatformConfig. eapply (typed_bind _ _ _ _ (λ r, ∀ cm, r = Ok cm → cm_Data cm = data)).
  { apply typed_asks; [done|]. intros h x Hh (_ & Hx & _). exact Hx. }
  intros [cm|err] Hcm; [|by apply typed_ret]. rewrite (Hcm _ eq_refl).
  eapply typed_bind; [apply typed_tame; unfold refresh_cache, mem; by emits|]. intros u _.
  eapply (typed_bind _ _ _ _ (λ c, ∀ c', c = Some c' → good_config data c')).
  { apply typed_asks; [done|]. intros h x Hh (Hx & _) c ->. by eapply cached_good. }
  intros [c|] Hc; [apply typed_ret; intros c' [= <-]; by apply Hc|].
  eapply typed_bind; [eauto with typed|]. intros tags _. unfold resolve_platform.
  destruct (ParsePlatformList _ PlatformTypeLocal); [|by apply typed_ret]. destruct (bool_decide _); [by apply typed_ret; intros c [= <-]|].
  destruct (ParsePlatformList _ PlatformTypeDynamic); [|by apply typed_ret]. destruct (bool_decide _); [apply typed_dynamic_platform|].
  destruct (ParsePlatformList _ PlatformTypeDynamicPool); [|by apply typed_ret].
  destruct (bool_decide _); [apply typed_dynamic_pool_platform|apply typed_static_platform].
Qed.

(** ** The handlers *)

Lemma typed_handleCleanTask tr : typed (handleCleanTask tr) (λ _, True).
Proof.
  apply typed_tame. unfold handleCleanTask, client, now, inc. emits.
  all: try (apply emits_tame_metrics; intros; unfold metric; by emits).
Qed.

(** Out of date or not: it is on no host then. *)
Lemma fits_unassign_failed_host tr host : cached tr → fits (unassign_failed_host tr host).
Proof.
  intros Hc Hty. assert (label tr TaskTypeLabel = "") as Hty'.
  { rewrite <- Hty. symmetry. etrans; [apply label_delete_label|]. by rewrite decide_False by differ. }
  assert (label (unassign_failed_host tr host) AssignedHost = "") as -> by (etrans; [apply label_delete_label|]; by rewrite decide_True).
  split; [by intros ?%not_pooled_empty|]. intros Hp. apply (cached_instance tr Hc Hty').
  replace (annotation tr CloudInstanceId) with (annotation (unassign_failed_host tr host) CloudInstanceId); [exact Hp|].
  etrans; [apply sget_insert|]. rewrite decide_False by differ. unfold annotation, map_get, sget. by destruct (tr_Annotations tr).
Qed.

Lemma emits_inc p c : emits tame (HandleMetrics p (inc c)).
Proof. apply emits_tame_metrics. intros. unfold inc, metric. by emits. Qed.
#[local] Hint Resolve emits_inc : emits.
#[local] Hint Resolve fits_unassign_failed_host : typed.

Lemma typed_handleProvisionTask tr : fits tr → typed (handleProvisionTask tr) (λ _, True).
Proof.
  intros Hf. unfold handleProvisionTask. destruct (negb _); [by apply typed_ret|].
  destruct (CompletionTime _); [|by apply typed_ret]. cbv zeta. destruct (String.eqb _ _).
  { apply typed_tame. unfold retire_provision_task, client, now. by emits. }
  eapply typed_bind; [apply typed_set_annotation; [left; differ|by apply fits_annotations]|]. intros tr1 Hf1.
  eapply (typed_bind _ _ _ _ (λ _, True)); [|intros [err|] _; typing].
  destruct (negb _).
  - unfold provision_failed. eapply typed_bind; [apply typed_tame, emits_inc|]. intros u _. typing.
  - unfold provision_succeeded. typed_step. eapply (typed_bind _ _ _ _ (λ _, True)).
    + unfold verify_secret. typing.
    + intros [err|] _; [by apply typed_ret|]. eapply typed_bind; [|intros; by apply typed_ret].
      apply typed_tame. unfold bump_pods, client. by emits.
Qed.

Lemma typed_handleWaitingTasks platform : typed (handleWaitingTasks platform) (λ _, True).
Proof.
  unfold handleWaitingTasks. eapply typed_bind; [apply typed_list|]. intros [items|err] Hi; [|by apply typed_ret].
  destruct (oldest_of items) as [o|] eqn:Ho; [|by apply typed_ret].
  assert (cached o) as Hf by by eapply (proj1 (Forall_forall _ _) (Hi _ eq_refl)), oldest_of_elem.
  unfold set_label. eapply typed_bind.
  { eapply typed_bind; [by apply (typed_map_assign _ _ _ _ _ (λ l, ∃ g, tr_Labels o = Some g ∧ l = Some (<[FinishedWaitingLabel:="true"]> g))); eauto|].
    intros l (g & Hg & ->). apply (typed_ret _ _ _ cached). eapply cached_same; [done..| | |done];
      rewrite (label_inserted _ _ _ _ _ Hg); by rewrite decide_False by differ. }
  intros o' Ho'. eapply typed_bind; [by apply typed_put_cached|]. intros r _. by apply typed_ret.
Qed.
Lemma emits_cleanup_secret tr sn : emits tame (cleanup_secret tr sn).
Proof. unfold cleanup_secret, client. by emits. Qed.
#[local] Hint Resolve emits_cleanup_secret : emits.
#[local] Hint Resolve typed_handleWaitingTasks : typed.

Lemma typed_handleHostAssigned tr sn : fits tr → typed (handleHostAssigned operatorNamespace tr sn) (λ _, True).
Proof.
  intros Hf. unfold handleHostAssigned. cbv zeta. destruct (negb _); [by apply typed_ret|].
  destruct (ExtractPlatform tr) as [platform|err]; [|by apply typed_ret].
  eapply typed_bind; [apply typed_getPlatformConfig|]. intros [c|err] _; [|by apply typed_ret]. unfold release_host.
  eapply typed_bind; [by apply typed_Deallocate|]. intros [tr1 err] Hf1. cbn [fst] in Hf1. cbv zeta.
  eapply typed_bind; [apply typed_update; eauto with typed|]. intros [tr2 [err'|]] Hf2; [by apply typed_ret|].
  eapply typed_bind; [by apply typed_tame, emits_trigger|]. intros t _. cbv zeta.
  eapply typed_bind; [apply typed_tame, emits_tame_metrics; intros; unfold metric; by emits|]. intros u _.
  eapply typed_bind; [apply typed_tame; by emits|]. intros [err'|] _; [by apply typed_ret|]. typing.
Qed.

(** *** The allocation *)

(** Requests that leave the stored TaskRuns alone. *)
Definition aside (X : Type) (e : mpcE X) : Prop :=
  match e with
  | Client c => match c with Update_TaskRun _ | Create_TaskRun _ | Delete_TaskRun _ => False | _ => True end
  | _ => True
  end.
Definition pristine (h : hist mpcE) : Prop := history_ok h ∧ after σ h = σ.

Lemma aside_after (l : hist mpcE) h : Forall (λ ev, aside _ (ev_req ev)) l → after σ (l ++ h) = after σ h.
Proof.
  induction l as [|[X e x] l IH]; [done|]. intros [He Hl]%Forall_cons. rewrite <- IH by done. unfold after.
  cbn [app actions fmap list_fmap foldr]. destruct e as [Y c|Y c|Y q c|Y c|Y c| | | | |]; try done; by destruct c.
Qed.

(** A call that leaves the stored TaskRuns alone, at the start. *)
Lemma safe_aside {A B} (p : mpc A) (f : A → mpc B) Q1 Q h :
  emits aside p → typed p Q1 → pristine h → (∀ a h', pristine h' → Q1 a → safe (f a) Q h') → safe (p ≫= f) Q h.
Proof.
  intros He Hp [Hh Hσ] Hf. apply safe_bind. eapply safe_mono; [|apply safe_inv, safe_emits; [exact Hh|exact He|by apply Hp]].
  intros a h' [[HQ (l & -> & Hl)] HI]. apply Hf; [|done]. split; [done|]. by rewrite aside_after.
Qed.

Lemma emits_aside_getPlatformConfig platform ns : emits aside (getPlatformConfig operatorNamespace platform ns).
Proof.
  assert (∀ p n, emits aside (RegisterPlatformMetrics p n)) as Hr.
  { intros. unfold RegisterPlatformMetrics, collector_names, metric. cbn [register_collectors]. unfold metric. by emits. }
  unfold getPlatformConfig, refresh_cache, resolve_platform, dynamic_platform, dynamic_pool_platform, static_platform,
    buildDynamicResolver, buildDynamicHostPool, new_provider, client, mem, range. by emits.
Qed.

Lemma safe_Allocate c tr sn h :
  good_config data c → fits tr → ObjectKeyFromObject tr = request → pristine h →
  safe (Allocate operatorNamespace c tr sn) (λ p _, fits p.1.1) h.
Proof.
  intros Hc Hf Hk [Hh Hσ]. destruct c as [|r|a|hp]; cbn [Allocate].
  - by apply typed_LocalHost.
  - by apply typed_Dynamic_Allocate.
  - by apply typed_Pool_Allocate.
  - by apply safe_static_pool.
Qed.

Lemma emits_observe p h (f : Z → observation) : emits tame (HandleMetrics p (λ p, t ← now; metric (Observe p h (f t)))).
Proof. apply emits_tame_metrics. intros. unfold now, metric. by emits. Qed.

Lemma safe_allocate_host c tr sn platform h :
  good_config data c → fits tr → ObjectKeyFromObject tr = request → pristine h →
  safe (allocate_host operatorNamespace c tr sn platform) (λ p _, fits p.1.1) h.
Proof.
  intros Hc Hf Hk Hh. unfold allocate_host. cbv zeta.
  eapply safe_aside; [unfold allocation_start, now; by emits|apply typed_tame; unfold allocation_start, now; by emits|done|].
  intros start h1 Hh1 _. apply safe_bind. eapply safe_mono; [|apply safe_inv, safe_Allocate; [apply Hh1|done|by apply fits_annotations|done..]].
  intros [[tr1 res] [err|]] h2 [Hf1 Hh2]; cbn [fst] in Hf1; cbv zeta.
  - eapply (typed_bind _ _ _ _ (λ _, True) (λ p, fits p.1.1)); [apply typed_tame, emits_inc|intros; by apply typed_ret|done].
  - eapply (typed_bind _ _ _ _ (λ _, True) (λ p, fits p.1.1)); [| |done].
    + apply typed_tame. destruct (negb _); [apply (emits_observe _ _ (λ t, InSeconds _))|apply emits_ret].
    + intros u _. eapply (typed_bind _ _ _ _ (λ _, True)); [|intros; by apply typed_ret].
      apply typed_tame. destruct (_ && _); [apply (emits_observe _ _ (λ t, InSeconds _))|apply emits_ret].
Qed.

Lemma safe_handleHostAllocation tr sn platform h :
  fits tr → ObjectKeyFromObject tr = request → pristine h →
  safe (handleHostAllocation operatorNamespace tr sn platform) (λ p _, fits p.1.1) h.
Proof.
  intros Hf Hk Hh. unfold handleHostAllocation.
  eapply safe_aside; [by apply emits_trigger|by apply typed_tame, emits_trigger|done|].
  intros [s|err] h1 Hh1 _; [by apply safe_ret|]. destruct (negb _); [by apply safe_ret|].
  eapply safe_aside; [apply emits_aside_getPlatformConfig|apply typed_getPlatformConfig|done|].
  intros [c|err'] h2 Hh2 Hc; [by apply safe_allocate_host; [apply Hc|..]|].
  eapply (typed_bind _ _ _ _ (λ _, True) (λ p, fits p.1.1)); [apply typed_tame, emits_inc| |apply Hh2].
  intros u _. eapply typed_bind; [by apply typed_error_secret|]. intros [tr1 err1] Hf1. by apply typed_ret.
Qed.

Lemma safe_request_host tr sn platform h :
  fits tr → ObjectKeyFromObject tr = request → pristine h →
  safe (request_host operatorNamespace tr sn platform) (λ _ _, True) h.
Proof.
  intros Hf Hk Hh. unfold request_host. cbv zeta.
  eapply (safe_aside _ _ (λ tr1, fits tr1 ∧ ObjectKeyFromObject tr1 = request)); [| |done|].
  - unfold set_label. by emits.
  - apply fits_labels in Hf. destruct (String.eqb _ ""); [|by apply typed_ret]. eapply typed_mono; [|by apply typed_set_label_key]. intros tr1 [? Hk1]. split; [done|]. by rewrite Hk1.
  - intros tr1 h1 Hh1 [Hf1 Hk1]. apply safe_bind. eapply safe_mono; [|apply safe_inv, safe_handleHostAllocation; [apply Hh1|done..]].
    intros [[tr2 res] err] h2 [Hf2 Hh2]. cbn [fst] in Hf2.
    eapply (typed_bind _ _ _ _ (λ _, True) (λ _, True)); [|intros; by apply typed_ret|done].
    destruct err as [err|]; [|by apply typed_ret]. destruct (IsConflict err); [by apply typed_ret|].
    eapply typed_bind; [apply typed_tame, emits_inc|]. intros u _.
    eapply typed_bind; [by apply typed_error_secret|]. intros p _. by apply typed_ret.
Qed.

Lemma safe_handleUserTask tr h :
  fits tr → ObjectKeyFromObject tr = request → pristine h → safe (handleUserTask operatorNamespace tr) (λ _ _, True) h.
Proof.
  intros Hf Hk Hh. unfold handleUserTask. cbv zeta.
  destruct (negb _); [by apply typed_handleHostAssigned; [|apply Hh]|]. destruct (finished tr).
  { destruct (ContainsFinalizer _ _); [by apply typed_handleHostAssigned; [|apply Hh]|by apply safe_ret]. }
  destruct (ValidatePlatform tr) as [platform|err]; [by apply safe_request_host|].
  eapply (typed_bind _ _ _ _ (λ p, fits p.1) (λ _, True)); [by apply typed_error_secret|intros; by apply typed_ret|apply Hh].
Qed.

Lemma safe_Reconcile : safe (Reconcile operatorNamespace request) (λ _ _, True) [].
Proof.
  assert (pristine []) as Hnil by (split; [apply history_nil|done]). unfold Reconcile.
  eapply safe_aside; [by apply emits_trigger|apply typed_read|exact Hnil|].
  intros [tr|err] h Hh Hr; [|by apply safe_ret]. destruct (Hr _ eq_refl) as [Hf Hk]. unfold handleTaskRunReceived. cbv zeta.
  destruct (negb _); [|destruct (wants_host tr); [by apply safe_handleUserTask|by apply safe_ret]].
  destruct (String.eqb _ TaskTypeClean); [apply typed_handleCleanTask, Hh|].
  destruct (String.eqb _ TaskTypeProvision); [by apply typed_handleProvisionTask; [|apply Hh]|by apply safe_ret].
Qed.

(** Wherever a reconcile stops. *)
Lemma reach_history_ok h : reach world (Reconcile operatorNamespace request) [] h → history_ok h.
Proof. intros Hr. eapply safe_reach; [apply history_nil|apply safe_Reconcile|exact Hr]. Qed.
End typing.
