(* ===== verification/Examples.v ===== *)
(** * The controller at work: reconciles executed against the API server of [Cluster] *)
From S2P Require Import Prelude GoLib GoStrings Md5 NetIP Prog Exec Kube Config Cloud Effects Metrics Update Provision.
From S2P Require Import HostPools LocalHost Dynamics DynamicPools Platforms Reconciler.
From S2P Require Import Trace Cluster.

#[local] Existing Instances example_k8s example_retry.

(** One static host for linux/arm64, which may run one task. *)
Definition host_config : result ConfigMap := Ok {|
  cm_meta := {| Name := HostConfig; Namespace := "mpc"; GenerateName := ""; Labels := None; Annotations := None;
                Finalizers := []; OwnerReferences := []; ResourceVersion := "7"; CreationTimestamp := 0;
                DeletionTimestamp := None |};
  cm_Data := list_to_map [("host.a.address", "10.0.0.1"); ("host.a.platform", "linux/arm64"); ("host.a.user", "ec2-user");
                          ("host.a.secret", "awskeys"); ("host.a.concurrency", "1")] |}.

(** A TaskRun of a user that wants a host: it mounts a multi-platform secret. *)
Definition user_task (name : string) (annotations : gomap) : TaskRun :=
  {| tr_meta := {| Name := name; Namespace := "team"; GenerateName := ""; Labels := None; Annotations := annotations;
                   Finalizers := []; OwnerReferences := []; ResourceVersion := "1"; CreationTimestamp := 0;
                   DeletionTimestamp := None |};
     tr_Spec := tr_Spec example_task;
     tr_Status := {| CompletionTime := None; Succeeded := None;
                     st_TaskSpec := Some {| Volumes := Some [{| v_Secret := Some (SecretPrefix +:+ name) |}] |} |} |}.
Definition with_task (tr : TaskRun) : store := {[ObjectKeyFromObject tr := tr]}.

(** A reconcile of the stored TaskRun, and the history it leaves. *)
Definition reconciled (σ : store) (key : NamespacedName) : outcome (Result * option error) * (store * memory * hist mpcE) :=
  run (logged (api_server host_config)) (Reconcile "mpc" key) (σ, empty_memory, []).
(** What the API server stores of each TaskRun: its name, its host, its type. *)
Definition summary (σ : store) : list (string * string * string) :=
  (λ tr, (tr_Name tr, label tr AssignedHost, label tr TaskTypeLabel)) <$> tasks σ.

(** The first reconcile of a TaskRun puts it on the host and starts its provisioning. *)
Example first_reconcile :
  let '(o, (σ, m, h)) := reconciled (with_task (user_task "build" None)) (Key "team" "build") in
  o = Done (no_requeue, None) ∧
  summary σ = [("build-prov-190da", "a", TaskTypeProvision); ("build", "a", "")] ∧
  m_cache m !! "linux/arm64" =
    Some (Static {| hosts := {["a" := {| h_Address := "10.0.0.1"; h_Name := "a"; h_User := "ec2-user"; h_Concurrency := 1;
                                         h_Platform := "linux/arm64"; h_Secret := "awskeys"; h_StartTime := None |}]};
                    targetPlatform := "linux/arm64" |}).
Proof. vm_compute. split_and!; reflexivity. Qed.

(** How often a counter was incremented. *)
Definition increments (platform : string) (c : counter) (a : action) : bool :=
  match a with A_Inc p c' => bool_decide (p = platform ∧ c' = c) | _ => false end.
Definition incremented (platform : string) (c : counter) (h : hist mpcE) : nat :=
  length (filter (λ a, increments platform c a = true) (actions h)).

(** One allocation that fails is counted as two: [handleHostAllocation] counts the failure
    it returns, and [handleUserTask] counts what it returned. *)
Theorem failed_allocation_counted_twice :
  let '(o, (_, _, h)) :=
    reconciled (with_task (user_task "build" (Some {[FailedHosts := "a"]}))) (Key "team" "build") in
  o = Done (no_requeue, Some (ErrWrap "" (ErrSentinel ErrAllHostsFailed) ": a")) ∧
  incremented "linux-arm64" HostAllocationFailures h = 2.
Proof. vm_compute. split; reflexivity. Qed.
