(* ===== verification/FleetFacts.v ===== *)
(** * Sequential reconciles keep the capacity of every static host *)
From S2P Require Import Prelude GoLib GoStrings Prog Exec Safe Kube NetIP Config Cloud Effects HostPools Platforms Reconciler.
From S2P Require Import Trace HostPoolFacts ConfigFacts PlatformFacts Cluster ClusterFacts Fleet FleetTypes Examples.
From stdpp Require Import pretty.

(** ** The machine *)

Section machine.
Context `{K8sLaws} `{RetryLaws}.
Variables (operatorNamespace : string) (data : smap) (lag : nat).
Hypothesis local_apart : ¬ pooled data "localhost".

(** The invariant of every state that is reached. *)
Definition in_capacity (s : store * archive * memory) : Prop :=
  let '(σ, A, m) := s in sane data σ A ∧ good_cache data m ∧ fits_hosts data lag σ.

Lemma step_in_capacity s s' : in_capacity s → reconciles operatorNamespace data lag s s' → in_capacity s'.
Proof.
  destruct s as [[σ0 A0] m0]. intros (Hs & Hm & Hc). inversion 1 as [σ A m request l Hr|σ A m|σ A σ' A' m Hp _ Hs']; subst.
  - apply reach_history_ok in Hr; [|done..]. split_and!.
    + by eapply history_sane.
    + by eapply cached_good.
    + by eapply history_fits_hosts.
  - by split_and!.
  - split_and!; [done..|]. intros k host Hk0 Hk. etrans; [|by eapply Hc]. apply inj_le, load_mono. intros key.
    rewrite !elem_of_occupants. intros (tr' & Htr' & [Hty Hl]%occupies_label). subst k.
    apply (Hp key tr'); [done..|]. by split; [|apply Hk].
Qed.
End machine.

(** C3. When reconciles do not overlap, no static host of the configuration ever has more
    tasks than it may run at once, and [lag] more, where [lag] is the number of the tasks of
    a host that a list of the assigned TaskRuns, which is read from the manager's cache, may
    miss: none, when the cache is up to date. This holds whatever TaskRuns are reconciled,
    in any order, whatever versions of them the cache has, wherever a reconcile stops (the
    process dies, or a panic is recovered), and whatever the users do that puts no task on a
    static host. The ConfigMap's data stays [data]; no static host is named [localhost]; the
    cloud instance of a user's task never has the name of a static host. *)
Theorem Reconcile_keeps_capacity `{K8sLaws} `{RetryLaws} operatorNamespace data lag σ A m σ' A' m' :
  ¬ pooled data "localhost" → sane data σ A → good_cache data m → fits_hosts data lag σ →
  rtc (reconciles operatorNamespace data lag) (σ, A, m) (σ', A', m') → fits_hosts data lag σ'.
Proof.
  intros Hl Hs Hm Hc Hr. assert (in_capacity data lag (σ', A', m')) as (_ & _ & ?); [|done].
  revert Hr. generalize (σ', A', m') as s'. intros s' Hr. assert (in_capacity data lag (σ, A, m)) as HI by done.
  revert HI. induction Hr; [done|]. eauto using step_in_capacity.
Qed.

(** ** An API server with resource versions *)

#[local] Existing Instances example_k8s example_k8s_laws example_retry example_retry_laws.

Definition revision (n : nat) : string := pretty n.
Definition with_version (version : string) (tr : TaskRun) : TaskRun :=
  let m := tr_meta tr in
  {| tr_meta := {| Name := Name m; Namespace := Namespace m; GenerateName := GenerateName m; Labels := Labels m;
                   Annotations := Annotations m; Finalizers := Finalizers m; OwnerReferences := OwnerReferences m;
                   ResourceVersion := version; CreationTimestamp := CreationTimestamp m;
                   DeletionTimestamp := DeletionTimestamp m |};
     tr_Spec := tr_Spec tr; tr_Status := tr_Status tr |}.

(** What is stored gets the next revision; an update of another version is a conflict. *)
Definition versioned_answer (σ : store) (n : nat) {X} (c : clientE X) : X :=
  match c in clientE X return X with
  | Create_TaskRun tr =>
      match σ !! ObjectKeyFromObject tr with
      | Some _ => Err (ApiStatus ReasonAlreadyExists "exists")
      | None => Ok (with_version (revision n) tr)
      end
  | Update_TaskRun tr =>
      match σ !! ObjectKeyFromObject tr with
      | Some st =>
          if String.eqb (ResourceVersion (tr_meta st)) (ResourceVersion (tr_meta tr))
          then Ok (with_version (revision n) tr) else Err (ApiStatus ReasonConflict "conflict")
      | None => Err (ApiStatus ReasonNotFound "not found")
      end
  | c => api_answer host_config σ c
  end.
Definition world_server : environment mpcE (store * memory * nat) := λ X e '(σ, m, n),
  let x := match e in mpcE X return X with
           | Client c => versioned_answer σ n c
           | e => server_answer host_config σ m e
           end in
  (x, (act_effect (action_of (Ev e x)) σ, event_effect e x m, S n)).

Definition host_data : smap := match host_config with Ok cm => cm_Data cm | Err _ => ∅ end.

(** The revisions are used up to [n]. *)
Definition revised (A : archive) (n : nat) : Prop :=
  ∀ v, v ∈ A → ∃ j, j < n ∧ ResourceVersion (tr_meta v) = revision j.

Record in_world (m0 : memory) (σ0 : store) (A : archive) (h : hist mpcE) (w : store * memory * nat) : Prop := {
  iw_state : w.1 = (after σ0 h, mem_of m0 h);
  iw_keyed : keyed (after σ0 h);
  iw_stored : ∀ key st, after σ0 h !! key = Some st → st ∈ versions A h;
  iw_revised : revised (versions A h) w.2
}.

Lemma revised_fresh A h n tr : revised (versions A h) n → fresh_version A h (with_version (revision n) tr).
Proof.
  intros Hr v Hv Heq. destruct (Hr v Hv) as (j & Hj & Hjv). apply (f_equal snd) in Heq. cbn in Heq.
  rewrite Hjv in Heq. apply (inj pretty) in Heq. lia.
Qed.

Lemma world_answers {X} σ m (e : mpcE X) : world_answer host_data e (server_answer host_config σ m e).
Proof.
  destruct e as [Y c|Y c|Y q c|Y c|Y c| | | | |]; try exact I; destruct c; try exact I; simpl; by intros ? [= <-].
Qed.

Lemma versioned_client m0 σ0 A h w X (c : clientE X) :
  in_world m0 σ0 A h w →
  let x := versioned_answer (after σ0 h) w.2 c in
  client_answer_ok c x ∧ world_answer host_data (Client c) x ∧ cache_answer 0 A σ0 h c x ∧
  ∀ t, t ∈ stores (action_of (Ev (Client c) x)) → ResourceVersion (tr_meta t) = revision w.2.
Proof.
  intros [_ Hk Hs Hr]. set (σ := after σ0 h) in *. destruct (api_answer_ok host_config σ c Hk) as [Hok Hcur].
  destruct c as [key|key|key|o|p|tr|s|tr|p|tr|s]; cbv zeta;
    try (split_and!; [exact Hok|try exact I|exact I|by intros t ?%not_elem_of_nil]; try (by intros cm [= <-])).
  - split_and!; [exact Hok|exact I| |by intros t ?%not_elem_of_nil]. intros tr Htr. by apply (Hs key), Hcur.
  - split_and!; [exact Hok|exact I| |by intros t ?%not_elem_of_nil]. intros trs Htrs. split.
    + apply Forall_forall. intros tr Hin. rewrite (Hcur _ Htrs) in Hin. apply list_elem_of_filter in Hin as [_ Hin].
      apply list_elem_of_fmap in Hin as ([key t] & -> & Hin%elem_of_map_to_list). by eapply Hs.
    + intros -> k Hk0. rewrite (load_listed k σ) by (try done; by apply Hcur). subst σ; lia.
  - cbn [versioned_answer]. destruct (σ !! ObjectKeyFromObject tr) as [st|] eqn:Htr;
      [split_and!; try done; by intros t ?%not_elem_of_nil|]. split_and!; [done..| |].
    + intros tr' [= <-]. split_and!; [exact Htr|done|by apply revised_fresh].
    + intros t ->%list_elem_of_singleton. done.
  - cbn [versioned_answer]. destruct (σ !! ObjectKeyFromObject tr) as [st|] eqn:Htr; [|split_and!; try done; by intros t ?%not_elem_of_nil].
    destruct (String.eqb_spec (ResourceVersion (tr_meta st)) (ResourceVersion (tr_meta tr))) as [Hv|];
      [|split_and!; try done; by intros t ?%not_elem_of_nil].
    split_and!; [by intros tr' [= <-]|exact I| |by intros t ->%list_elem_of_singleton].
    intros tr' [= <-]. split; [|by apply revised_fresh]. exists st. split; [done|]. unfold version_of. by rewrite Hv, (Hk _ _ Htr).
Qed.

Lemma stored_in_versions σ0 A h ev :
  (∀ key st, after σ0 h !! key = Some st → st ∈ versions A h) →
  ∀ key st, after σ0 (ev :: h) !! key = Some st → st ∈ versions A (ev :: h).
Proof.
  intros Hs key st. unfold after, versions in *. cbn [actions fmap list_fmap foldr mbind list_bind]. fold (actions h).
  rewrite <- app_assoc, elem_of_app.
  destruct (action_of ev) as [| | | | | | | |? []|? []|? []| | | | | | | |]; simpl; try (by right; eapply Hs).
  - intros [[_ ->]|[_ ?]]%lookup_insert_Some; [left; left|by right; eapply Hs].
  - intros [[_ ->]|[_ ?]]%lookup_insert_Some; [left; left|by right; eapply Hs].
  - intros [_ ?]%lookup_delete_Some. by right; eapply Hs.
Qed.

Lemma stores_nothing X (e : mpcE X) x : (match e with Client _ => False | _ => True end) → stores (action_of (Ev e x)) = [].
Proof. destruct e as [Y c|Y c|Y q c|Y c|Y c| | | | |]; try done; by destruct c. Qed.

(** The server keeps to the contract, without a lag. *)
Lemma world_server_ok m0 σ0 A h w X (e : mpcE X) :
  in_world m0 σ0 A h w →
  world_spec host_data 0 m0 σ0 A h X e (world_server X e w).1 ∧
  in_world m0 σ0 A (Ev e (world_server X e w).1 :: h) (world_server X e w).2.
Proof.
  intros HI. destruct w as [[σ m] n]. pose proof (iw_state _ _ _ _ _ HI) as [= -> ->]. destruct HI as [_ Hk Hs Hr].
  cbn [world_server fst snd] in *.
  set (x := match e in mpcE X return X with Client c => versioned_answer (after σ0 h) n c
            | e => server_answer host_config (after σ0 h) (mem_of m0 h) e end).
  assert (world_spec host_data 0 m0 σ0 A h X e x ∧ ∀ t, t ∈ stores (action_of (Ev e x)) → ResourceVersion (tr_meta t) = revision n)
    as [Hok Hst].
  { assert (in_world m0 σ0 A h (after σ0 h, mem_of m0 h, n)) as HI by by split.
    assert ((match e with Client _ => False | _ => True end) →
      world_spec host_data 0 m0 σ0 A h X e (server_answer host_config (after σ0 h) (mem_of m0 h) e) ∧
      ∀ t, t ∈ stores (action_of (Ev e (server_answer host_config (after σ0 h) (mem_of m0 h) e))) → ResourceVersion (tr_meta t) = revision n) as Hother.
    { intros He. destruct (api_server_ok host_config m0 σ0 h (after σ0 h, mem_of m0 h) X e (conj eq_refl Hk)) as [[Hgo Hc] _].
      split; [|rewrite stores_nothing by done; by intros t ?%not_elem_of_nil]. split; [exact Hgo|]. split; [apply world_answers|].
      destruct e as [Y c|Y c|Y q c|Y c|Y c| | | | |]; try done. destruct c; try exact I. exact Hc. }
    destruct e as [Y c|Y c|Y q c|Y c|Y c| | | | |]; try (by apply Hother).
    destruct (versioned_client m0 σ0 A h _ Y c HI) as (? & ? & ? & ?). by split_and!. }
  split; [exact Hok|]. split; cbn [fst snd].
  - done.
  - by apply keyed_act.
  - by apply stored_in_versions.
  - intros v. unfold versions. cbn [actions fmap list_fmap mbind list_bind]. rewrite <- app_assoc, elem_of_app.
    intros [Hv|Hv]; [exists n; split; [lia|by apply Hst]|]. destruct (Hr v Hv) as (j & ? & ?). exists j. split; [lia|done].
Qed.

(** ** Two TaskRuns, and a host for one *)

Definition two_user_tasks : store :=
  {[Key "team" "one" := user_task "one" None; Key "team" "two" := user_task "two" None]}.
(** A reconcile by a process that has just started, when [n] is the next revision; what it
    leaves, and its calls. *)
Definition served (σ : store) (n : nat) (key : NamespacedName) :
    outcome (Result * option error) * (store * memory * nat * hist mpcE) :=
  run (logged world_server) (Reconcile "mpc" key) (σ, empty_memory, n, []).

Lemma run_logged {A W} (env : environment mpcE W) (I : hist mpcE → W → Prop) (S : contract mpcE) (p : mpc A) h w a w' h' :
  (∀ h w X (e : mpcE X), I h w → S h X e (env X e w).1 ∧ I (Ev e (env X e w).1 :: h) (env X e w).2) →
  I h w → run (logged env) p (w, h) = (Done a, (w', h')) → exec S p h a h' ∧ I h' w'.
Proof.
  intros Henv. revert h w. induction p as [b|s|X e k IH]; intros h w HI; simpl.
  - intros [= <- <- <-]. by split; [constructor|].
  - done.
  - destruct (Henv h w X e HI) as [HS HI']. destruct (env X e w) as [x w1] eqn:Hx. simpl in *. intros Hrun.
    destruct (IH x _ _ HI' Hrun) as [Hex HI'']. split; [by econstructor|done].
Qed.

Lemma served_reconciles σ A m n key r σ' m' n' h' :
  keyed σ → (∀ k st, σ !! k = Some st → st ∈ A) → revised A n →
  served σ n key = (Done r, (σ', m', n', h')) →
  rtc (reconciles "mpc" host_data 0) (σ, A, m) (σ', versions A h', m') ∧
  keyed σ' ∧ (∀ k st, σ' !! k = Some st → st ∈ versions A h') ∧ revised (versions A h') n'.
Proof.
  unfold served. intros Hk Hs Hn Hrun.
  assert (in_world empty_memory σ A [] (σ, empty_memory, n)) as HI.
  { split; [reflexivity|exact Hk|exact Hs|exact Hn]. }
  destruct (run_logged world_server (in_world empty_memory σ A) (world_spec host_data 0 empty_memory σ A) _ [] _ _ _ _
    (world_server_ok _ _ _) HI Hrun) as [Hx [Hw Hk' Hs' Hr']].
  cbn [fst snd] in *. injection Hw as -> ->. split_and!; [|done..].
  eapply rtc_l; [apply restart|]. apply rtc_once, (reconcile "mpc" host_data 0 σ A _ key). by eapply exec_reach.
Qed.

Lemma host_data_names name : names_host host_data name → name = "a".
Proof.
  intros (k & [v Hv] & Hname). unfold host_data, host_config in Hv. cbn [cm_Data] in Hv.
  apply elem_of_list_to_map_2 in Hv. rewrite !elem_of_cons, elem_of_nil in Hv.
  repeat (destruct Hv as [Hv|Hv]; [simplify_eq; vm_compute in Hname; congruence|]). done.
Qed.
Lemma host_data_capacity k host : configured host_data k host → h_Concurrency host = 1%Z.
Proof.
  intros [->%host_data_names (c & Hc & ->)]. apply ParseStaticHostConfig_iff in Hc. vm_compute in Hc. by simplify_eq.
Qed.

Lemma two_user_tasks_all key tr : two_user_tasks !! key = Some tr →
  ObjectKeyFromObject tr = key ∧ tr ∈ [user_task "one" None; user_task "two" None] ∧ label tr AssignedHost = "".
Proof.
  unfold two_user_tasks. intros [[<- <-]|[_ [<- <-]%lookup_singleton_Some]]%lookup_insert_Some;
    (split_and!; [done| |done]); [left|right; left].
Qed.
Lemma two_user_tasks_fit : fits_hosts host_data 0 two_user_tasks.
Proof.
  intros k host Hk Hc. rewrite (host_data_capacity _ _ Hc).
  assert (occupants k two_user_tasks ⊆ ∅) as Hl%subseteq_size; [|unfold load; rewrite size_empty in Hl; lia].
  intros key (tr & (_ & _ & Ha)%two_user_tasks_all & [_ Ho]%occupies_label)%elem_of_occupants. congruence.
Qed.
Lemma two_user_tasks_sane : sane host_data two_user_tasks [user_task "one" None; user_task "two" None].
Proof.
  split.
  - by intros key tr (? & ? & _)%two_user_tasks_all.
  - intros v [->|[->|[]%elem_of_nil]%elem_of_cons]%elem_of_cons _ [Hn _]; by apply Hn.
  - intros v v' [->|[->|[]%elem_of_nil]%elem_of_cons]%elem_of_cons [->|[->|[]%elem_of_nil]%elem_of_cons]%elem_of_cons;
      first [done|intros [=]].
Qed.

Lemma Reconcile_keeps_capacity_witness :
  let '(o1, (σ1, m1, n1, h1)) := served two_user_tasks 2 (Key "team" "one") in
  let '(o2, (σ2, m2, n2, h2)) := served σ1 n1 (Key "team" "two") in
  let A := [user_task "one" None; user_task "two" None] in
  rtc (reconciles "mpc" host_data 0) (two_user_tasks, A, empty_memory) (σ2, versions (versions A h1) h2, m2) ∧
  load "a" σ2 = 1 ∧ fits_hosts host_data 0 σ2.
Proof.
  destruct (served two_user_tasks 2 (Key "team" "one")) as [o1 [[[σ1 m1] n1] h1]] eqn:H1.
  destruct (served σ1 n1 (Key "team" "two")) as [o2 [[[σ2 m2] n2] h2]] eqn:H2. cbv zeta.
  assert (load "a" σ2 = 1 ∧ is_Some (match o1 with Done r => Some r | _ => None end) ∧
    is_Some (match o2 with Done r => Some r | _ => None end)) as (Hload & [r1 Ho1] & [r2 Ho2]).
  { replace σ2 with (served σ1 n1 (Key "team" "two")).2.1.1.1 by by rewrite H2.
    replace o2 with (served σ1 n1 (Key "team" "two")).1 by by rewrite H2. clear H2.
    replace σ1 with (served two_user_tasks 2 (Key "team" "one")).2.1.1.1 by by rewrite H1.
    replace n1 with (served two_user_tasks 2 (Key "team" "one")).2.1.2 by by rewrite H1.
    replace o1 with (served two_user_tasks 2 (Key "team" "one")).1 by by rewrite H1. clear H1.
    split_and!; [vm_compute; reflexivity|eexists; vm_compute; reflexivity..]. }
  destruct o1; [|done]. destruct o2; [|done].
  pose (A := [user_task "one" None; user_task "two" None]).
  destruct (served_reconciles two_user_tasks A empty_memory 2 _ _ _ _ _ _ ltac:(by intros key tr (? & _)%two_user_tasks_all)
    ltac:(by intros key tr (_ & ? & _)%two_user_tasks_all)
    ltac:(intros v [->|[->|[]%elem_of_nil]%elem_of_cons]%elem_of_cons; exists 1; split; [lia|reflexivity|lia|reflexivity]) H1)
    as (Hr1 & Hk1 & Hs1 & Hv1).
  destruct (served_reconciles σ1 (versions A h1) m1 n1 _ _ _ _ _ _ Hk1 Hs1 Hv1 H2) as (Hr2 & _).
  pose proof (transitivity Hr1 Hr2) as Hsteps.
  split; [exact Hsteps|]. split; [exact Hload|].
  refine (Reconcile_keeps_capacity "mpc" host_data 0 two_user_tasks A empty_memory _ _ _ _ two_user_tasks_sane _ two_user_tasks_fit Hsteps).
  - by intros [_ [=]%host_data_names].
  - done.
Defined.

(** ** A list that is out of date *)

(** The server, but for lists, which show the store as it was. *)
Definition lagging_server (seen : store) : environment mpcE (store * memory * nat) := λ X e '(σ, m, n),
  let x := match e in mpcE X return X with
           | Client c => match c in clientE X return X with
                         | List_TaskRuns o => api_answer host_config seen (List_TaskRuns o)
                         | c => versioned_answer σ n c
                         end
           | e => server_answer host_config σ m e
           end in
  (x, (act_effect (action_of (Ev e x)) σ, event_effect e x m, S n)).

(** One after the other, with a list from before the first assignment, two reconciles put
    two tasks on a host that may run one: the capacity and a lag of one. *)
Theorem stale_list_overcommits :
  let '(_, (σ1, m1, n1)) := run (lagging_server two_user_tasks) (Reconcile "mpc" (Key "team" "one")) (two_user_tasks, empty_memory, 2) in
  let '(_, (σ2, _, _)) := run (lagging_server two_user_tasks) (Reconcile "mpc" (Key "team" "two")) (σ1, m1, n1) in
  load "a" σ1 = 1 ∧ load "a" σ2 = 2.
Proof. vm_compute. split; reflexivity. Qed.
