(* ===== verification/ProgressFacts.v ===== *)
(** * Progress: a TaskRun gets a host when one has a free spot *)
From S2P Require Import Prelude GoLib GoStrings Md5 Prog Exec Kube Cloud Effects Metrics Update Provision HostPools.
From S2P Require Import Trace UpdateFacts ProvisionFacts HostPoolFacts Cluster ClusterFacts.

Section progress.
Context `{K8sLaws} `{RetryLaws}.
Variable operatorNamespace : string.

(** [tr] is stored on host [k]. *)
Definition stored_on (k : string) (key : NamespacedName) (σ : store) : Prop :=
  ∃ st, σ !! key = Some st ∧ label st AssignedHost = k.

(** The update of a stored TaskRun is accepted at once. *)
Lemma wp_willing_update m σ tr (Q : TaskRun * option error → hist mpcE → Prop) h :
  is_Some (after σ h !! ObjectKeyFromObject tr) →
  (∀ tr', same_object tr tr' →
    Q (tr', None) (Ev (Client (Update_TaskRun tr)) (Ok tr') :: h)) →
  wp (willing_spec operatorNamespace m σ) (UpdateTaskRunWithRetry tr) Q h.
Proof.
  intros Hst HQ. unfold UpdateTaskRunWithRetry, client. apply wp_bind, wp_trigger. intros r [[Hok _] Hacc].
  destruct (Hacc Hst) as [tr' ->]. apply wp_ret, HQ. destruct (Hok _ eq_refl) as (?&?&?&?&?&?). by split.
Qed.

(** The provisioning task is created, or exists. *)
Lemma wp_willing_provisioning m σ tr sn ssh address user platform sudo k key (Q : TaskRun * option error → hist mpcE → Prop) h :
  stored_on k key (after σ h) →
  (∀ l task r, stored_on k key (after σ (l ++ h)) → A_Create task r ∈ actions (l ++ h) →
    label task UserTaskName = tr_Name tr → label task UserTaskNamespace = tr_Namespace tr → Q (tr, None) (l ++ h)) →
  wp (willing_spec operatorNamespace m σ) (launchProvisioningTask operatorNamespace tr sn ssh address user platform sudo) Q h.
Proof.
  intros Hst HQ. unfold launchProvisioningTask, client. apply wp_bind, wp_trigger. intros r [_ Hs]. destruct (Hs eq_refl) as [s ->].
  apply wp_bind, wp_trigger. intros cfg _. cbv zeta. apply wp_bind, wp_trigger. intros r [[_ Hcur] Hacc].
  set (task := provision_task _ _ _ _ _ _ _ _ _) in *.
  assert (stored_on k key (after σ ([Ev (Client (Create_TaskRun task)) r; Ev (Client (Get_ConfigMap (Key operatorNamespace HostConfig))) cfg;
    Ev (Client (Get_Secret (Key operatorNamespace ssh))) (Ok s)] ++ h))).
  { destruct r as [t'|err]; [|exact Hst]. destruct (Hcur _ eq_refl) as [Hnone _]. destruct Hst as (st & Hst & Hk).
    exists st. split; [|done]. etrans; [apply lookup_insert_ne|exact Hst]. intros Heq.
    assert (after σ h !! ObjectKeyFromObject t' = None) as Hn by exact Hnone. rewrite Heq in Hn. congruence. }
  destruct r as [t'|err]; [|rewrite (Hacc _ eq_refl)]; apply wp_ret;
    (eapply (HQ [_; _; _]); [eassumption|left|reflexivity|reflexivity]).
Qed.

(** What an allocation that succeeds leaves: [tr] on a host of the platform that had fewer
    tasks than it may run, stored, and a provisioning task for it. *)
Definition allocated_to (hp : HostPool) (tr tr' : TaskRun) (σ : store) (l : hist mpcE) : Prop :=
  ∃ k host task r, HostPoolFacts.eligible hp (Split (annotation tr FailedHosts) ",") k host ∧
    (Z.of_nat (load k σ) < h_Concurrency host)%Z ∧ label tr' AssignedHost = k ∧ stored_on k (ObjectKeyFromObject tr) (after σ l) ∧
    A_Create task r ∈ actions l ∧ label task UserTaskName = tr_Name tr ∧ label task UserTaskNamespace = tr_Namespace tr.

Lemma wp_willing_assigns m σ hp tr sn k host h :
  named_hosts hp → HostPoolFacts.eligible hp (Split (annotation tr FailedHosts) ",") k host →
  (Z.of_nat (load k σ) < h_Concurrency host)%Z → is_Some (tr_Labels tr) → is_Some (after σ h !! ObjectKeyFromObject tr) →
  wp (willing_spec operatorNamespace m σ) (assigns_branch operatorNamespace hp tr sn host)
    (λ '(tr', res, err) l, err = None ∧ res = no_requeue ∧ allocated_to hp tr tr' σ l) h.
Proof.
  intros Hn Hel Hroom [g Hg] Hst. unfold assigns_branch, set_label, map_assign. rewrite Hg. cbn [map_set option_map].
  destruct (Hn _ _ (proj1 (proj1 Hel))) as [Hk _].
  apply wp_bind, wp_bind, wp_ret, wp_ret. cbv zeta. set (tr1 := with_finalizers _ _).
  assert (label tr1 AssignedHost = k) as Ha.
  { unfold tr1, label, map_get. simpl. rewrite lookup_delete_ne by differ. by rewrite lookup_insert_eq. }
  apply wp_bind, wp_willing_update; [done|]. intros tr2 [Hkey Hl _ _ _ _].
  apply wp_bind, (wp_willing_provisioning _ _ _ _ _ _ _ _ _ k (ObjectKeyFromObject tr)).
  - exists tr2. split; [|by rewrite (label_same _ _ _ Hl)]. unfold after. cbn. rewrite Hkey. apply lookup_insert_eq.
  - intros l task r Hs Hin Hun Hus. apply wp_ret. split_and!; [done..|].
    apply key_eq in Hkey as [Hname Hns]. exists k, host, task, r.
    split_and!; [done|done|by rewrite (label_same _ _ _ Hl)|done..|by rewrite Hun|by rewrite Hus].
Qed.
Lemma wp_willing_Allocate hp m σ tr secretName k host h :
  after σ h = σ → named_hosts hp → is_Some (tr_Labels tr) → is_Some (σ !! ObjectKeyFromObject tr) →
  HostPoolFacts.eligible hp (Split (annotation tr FailedHosts) ",") k host →
  (Z.of_nat (load k σ) < h_Concurrency host)%Z →
  wp (willing_spec operatorNamespace m σ) (HostPool.Allocate operatorNamespace hp tr secretName)
    (λ '(tr', res, err) l, err = None ∧ res = no_requeue ∧ allocated_to hp tr tr' σ l) h.
Proof.
  intros Hσ Hn Hl Hst Hel Hfree. unfold HostPool.Allocate. rewrite bool_decide_false.
  2: { destruct Hel as [[Hk _] _]. intros Hempty. by rewrite Hempty in Hk. }
  unfold client at 1. apply wp_bind, wp_trigger. intros r [[Hok Hcur] [items ->]].
  apply wp_bind, wp_trigger. intros keys [[Hkeys _] _]. cbv zeta.
  destruct (select_host_cases hp (Split (annotation tr FailedHosts) ",") (HostPool.count_assigned items) keys Hkeys)
    as (He & Hf & Hs).
  set (s := HostPool.select_host _ _ _ _) in *. destruct (Hn _ _ (proj1 (proj1 Hel))) as [_ Hk0].
  rewrite (proj2 He); [|by exists k, host; apply Hel]. cbn [negb].
  destruct (HostPool.allPlatformHostsFailed s); [destruct Hel as [Hc Hnf]; by destruct Hnf; eapply Hf|].
  destruct (HostPool.selected s) as [host'|].
  - destruct Hs as [k' [Hel' [Hroom _]]]. destruct (Hn _ _ (proj1 (proj1 Hel'))) as [_ Hk'].
    unfold free_spots in Hroom. specialize (Hcur _ eq_refl). rewrite Hσ in Hcur.
    rewrite count_assigned_spec, (load_listed _ σ) in Hroom by done.
    eapply wp_willing_assigns; [done..|lia|done|]. change (is_Some (after σ h !! ObjectKeyFromObject tr)). by rewrite Hσ.
  - pose proof (Hs k host Hel) as Hno. unfold free_spots in Hno. specialize (Hcur _ eq_refl). rewrite Hσ in Hcur.
    rewrite count_assigned_spec, (load_listed _ σ) in Hno by done. lia.
Qed.
End progress.

(** A TaskRun without a host that the API server stores gets one, when an eligible host
    has fewer tasks than it may run: with an API server that refuses nothing it need not
    refuse, [HostPool.Allocate] returns without an error, the stored TaskRun is on an
    eligible host, and there is a provisioning task for it. *)
Theorem HostPool_Allocate_progresses `{K8sLaws} `{RetryLaws} operatorNamespace hp m σ tr secretName k host :
  named_hosts hp → is_Some (tr_Labels tr) → is_Some (σ !! ObjectKeyFromObject tr) →
  HostPoolFacts.eligible hp (Split (annotation tr FailedHosts) ",") k host →
  (Z.of_nat (load k σ) < h_Concurrency host)%Z →
  wp (willing_spec operatorNamespace m σ) (HostPool.Allocate operatorNamespace hp tr secretName)
    (λ '(tr', res, err) l, err = None ∧ res = no_requeue ∧ allocated_to hp tr tr' σ l) [].
Proof. intros. by eapply wp_willing_Allocate. Qed.

(** The API server of the examples refuses nothing it need not refuse. *)
Lemma api_server_willing config m0 σ0 h w X (e : mpcE X) :
  in_step m0 σ0 h w →
  willing_spec "mpc" m0 σ0 h X e (api_server config X e w).1 ∧ in_step m0 σ0 (Ev e (api_server config X e w).1 :: h) (api_server config X e w).2.
Proof.
  intros HI. destruct (api_server_ok config _ _ _ _ _ e HI) as [Hok HI']. split; [|done]. split; [done|].
  destruct HI as [-> _]. destruct e as [Y c|Y c|Y q c|Y c|Y c| | | | |]; try exact I.
  destruct c as [key|key|key|o|p|tr|s|tr|p|tr|s]; try exact I; simpl.
  - intros ->. by eexists.
  - by eexists.
  - destruct (after σ0 h !! ObjectKeyFromObject tr) as [t|] eqn:Ht; rewrite ?Ht; [|done]. by intros err [= <-].
  - intros [t Ht]. rewrite Ht. by eexists.
Qed.

#[local] Existing Instances example_k8s example_k8s_laws example_retry example_retry_laws.

Lemma HostPool_Allocate_progresses_witness :
  wp (willing_spec "mpc" empty_memory example_store) (allocation example_task)
    (λ '(tr', res, err) l, err = None ∧ res = no_requeue ∧ allocated_to example_pool example_task tr' example_store l) [].
Proof.
  refine (HostPool_Allocate_progresses "mpc" example_pool empty_memory example_store example_task "ssh" "b" (example_host "b" 4)
    example_pool_named _ _ _ _).
  - by eexists.
  - eexists. vm_compute. reflexivity.
  - split; [split; vm_compute; reflexivity|]. apply (bool_decide_unpack _). vm_compute. exact I.
  - vm_compute. reflexivity.
Defined.

(** So it does in the examples' server. *)
Lemma example_allocation_lands : ∃ tr', (allocated example_store example_task).1 = Done (tr', no_requeue, None) ∧
  label tr' AssignedHost = "b".
Proof. eexists. split; vm_compute; reflexivity. Qed.
