(* ===== verification/ServiceFacts.v ===== *)
(** * Progress of a reconcile: a TaskRun gets a static host when one is free *)
From S2P Require Import Prelude GoLib GoStrings Prog Emits Exec Kube NetIP Config Cloud Effects Metrics Update Provision.
From S2P Require Import HostPools LocalHost Dynamics DynamicPools Platforms Reconciler.
From S2P Require Import Trace UpdateFacts ProvisionFacts HostPoolFacts ConfigFacts PlatformFacts ReconcilerFacts.
From S2P Require Import Cluster ClusterFacts ProgressFacts Fleet FleetTypes Examples FleetFacts.

(** ** Resolution *)

Section resolution.
Context `{K8sLaws} `{RetryLaws}.
Variable operatorNamespace : string.

Lemma platform_list_fun data key t ps ps' : platform_list data key t ps → platform_list data key t ps' → ps' = ps.
Proof. unfold platform_list. congruence. Qed.

(** A configuration says of a static platform what it is, and nothing else. *)
Lemma resolves_static_fun data platform hp c :
  resolves operatorNamespace data platform (Static hp) → resolves operatorNamespace data platform c → c = Static hp.
Proof.
  inversion 1 as [| | |ls ds ps hp' Hls Hl Hds Hd Hps Hp [Ht _ Hh]]; subst.
  destruct 1 as [ls' Hls' Hl'|ls' ds' c' r Hls' _ Hds' Hd' _ _|ls' ds' ps' c' p Hls' _ Hds' _ Hps' Hp' _ _
    |ls' ds' ps' hp' Hls' _ Hds' _ Hps' _ [Ht' _ Hh']].
  - by rewrite (platform_list_fun _ _ _ _ _ Hls Hls') in Hl'.
  - by rewrite (platform_list_fun _ _ _ _ _ Hds Hds') in Hd'.
  - by rewrite (platform_list_fun _ _ _ _ _ Hps Hps') in Hp'.
  - assert (hosts hp' = hosts hp) as Heq.
    { apply map_eq. intros k. apply option_eq. intros h. by rewrite Hh, Hh'. }
    destruct hp, hp'; cbn in *; congruence.
Qed.

Lemma parse_static_hosts_total data platform ret names :
  (∀ n, n ∈ names → ∃ c, static_valid data n c) → ∃ hs, parse_static_hosts data platform ret names = Ok hs.
Proof.
  revert ret. induction names as [|n names IH]; intros ret Hn; simpl; [by eexists|].
  destruct (Hn n) as [c Hc]; [left|]. rewrite <- ParseStaticHostConfig_iff in Hc. rewrite Hc. cbn.
  apply IH. intros. apply Hn. by right.
Qed.
End resolution.

(** ** The contract *)

(** An API server that has the host configuration [data] and the TaskRuns it stores, has no
    secret yet for the TaskRun [request], and otherwise is as in [willing_spec]; collectors
    can be registered. *)
Definition serves {X} (operatorNamespace : string) (data : smap) (request : NamespacedName) (σ : store) (e : mpcE X) : X → Prop :=
  match e in mpcE X return X → Prop with
  | Client c =>
      match c in clientE X return X → Prop with
      | Get_ConfigMap key => λ r, key = Key operatorNamespace HostConfig → ∃ cm, r = Ok cm ∧ cm_Data cm = data
      | Get_Secret key => λ r, key = Key (key_namespace request) (SecretPrefix +:+ key_name request) →
          ∃ err, r = Err err ∧ IsNotFound err = true
      | _ => λ _, True
      end
  | APIReader c =>
      match c in clientE X return X → Prop with
      | Get_TaskRun key => λ r, is_Some (σ !! key) → ∃ tr, r = Ok tr
      | _ => λ _, True
      end
  | Metric c =>
      match c in metricE X return X → Prop with
      | Registry_Register _ _ => λ r, r = None
      | _ => λ _, True
      end
  | _ => λ _, True
  end.
Definition service_spec (operatorNamespace : string) (data : smap) (request : NamespacedName) (m : memory) (σ : store) :
    contract mpcE := λ h X e x,
  willing_spec operatorNamespace m σ h X e x ∧ serves operatorNamespace data request (after σ h) e x.

Section service.
Context `{K8sLaws} `{RetryLaws}.
Variables (operatorNamespace : string) (data : smap) (request : NamespacedName) (m : memory) (σ : store).
Abbreviation service := (service_spec operatorNamespace data request m σ).

Lemma service_willing : contract_le service (willing_spec operatorNamespace m σ).
Proof. by intros h X e x []. Qed.
Lemma service_go : contract_le service (go_spec m).
Proof. by intros h X e x [[[]]]. Qed.

(** What is known of a call from its specification, and from the requests it makes. *)
Lemma wp_service_call {A B} (p : mpc A) (f : A → mpc B) Q1 Q h :
  spec p Q1 → emits aside p →
  (∀ a l, Q1 a l → after σ (l ++ h) = after σ h → wp service (f a) Q (l ++ h)) → wp service (p ≫= f) Q h.
Proof.
  intros Hp He Hf. apply wp_bind. eapply wp_mono; [|apply wp_emits; [exact He|]].
  2: { apply (wp_contract_le _ _ _ (λ a h', ∃ l, h' = l ++ h ∧ Q1 a l) _ service_go), wp_at.
    eapply wp_mono; [|apply Hp]. intros a l HQ. by exists l. }
  intros a h' [(l & -> & HQ) (l' & Hl & Ha)]. apply app_inv_tail in Hl as <-. apply Hf; [done|]. by apply aside_after.
Qed.

(** *** The configuration *)

Lemma wp_service_register p n h : wp service (RegisterPlatformMetrics p n) (λ r _, r = None) h.
Proof.
  assert (∀ p names h, wp service (register_collectors p names) (λ r _, r = None) h) as Hc.
  { intros p'. induction names as [|c names IH]; intros h'; cbn [register_collectors]; [by apply wp_ret|].
    unfold metric. apply wp_bind, wp_trigger. intros r [_ ->]. apply IH. }
  unfold RegisterPlatformMetrics, metric. cbv zeta. apply wp_bind, wp_trigger. intros [] _; [by apply wp_ret|].
  apply wp_bind. eapply wp_mono; [|apply Hc]. intros r h' ->.
  apply wp_bind, wp_trigger. intros u _. by apply wp_bind, wp_trigger.
Qed.

Lemma wp_service_static platform hp h :
  resolves operatorNamespace data platform (Static hp) →
  wp service (static_platform data platform) (λ r _, ∃ c, r = Ok c) h.
Proof.
  inversion 1 as [| | |ls ds ps hp' _ _ _ _ _ _ [_ Hv _]]; subst. unfold static_platform.
  apply wp_bind, wp_trigger. intros keys [[[Hkeys _] _] _]. apply wp_bind, wp_trigger. intros names [[[Hnames _] _] _].
  edestruct (parse_static_hosts_total data platform ∅ names) as [hs ->].
  { intros n Hn. apply Hv. apply (elem_of_range_keys _ _ _ Hnames), lookup_static_host_names in Hn as (k & Hk & Hn).
    exists k. split; [|done]. by apply (elem_of_range_keys _ _ _ Hkeys). }
  apply wp_bind, wp_trigger. intros order _. cbv zeta. apply wp_bind, wp_trigger. intros u _.
  apply wp_bind. eapply wp_mono; [|apply wp_service_register]. intros r h' ->. apply wp_ret. by eexists.
Qed.

Lemma wp_service_config_ok platform ns hp h :
  resolves operatorNamespace data platform (Static hp) →
  wp service (getPlatformConfig operatorNamespace platform ns) (λ r _, ∃ c, r = Ok c) h.
Proof.
  intros Hr. unfold getPlatformConfig, client. apply wp_bind, wp_trigger. intros r [_ Hs]. destruct (Hs eq_refl) as (cm & -> & ->).
  apply wp_bind. eapply (wp_mono _ _ (λ _ _, True)).
  2: { unfold refresh_cache, mem. apply wp_bind, wp_trigger. intros v _. destruct (negb _); [|by apply wp_ret].
    apply wp_bind, wp_trigger. intros u _. by apply wp_trigger. }
  intros u h' _. apply wp_bind, wp_trigger. intros [c|] _; [apply wp_ret; by eexists|].
  apply wp_bind, wp_trigger. intros tags _. inversion Hr as [| | |ls ds ps hp' Hls Hl Hds Hd Hps Hp _]; subst.
  unfold resolve_platform. rewrite Hls, (bool_decide_false _ Hl), Hds, (bool_decide_false _ Hd), Hps, (bool_decide_false _ Hp).
  by eapply wp_service_static.
Qed.

(** A static platform resolves to its pool. *)
Lemma wp_service_config platform ns hp h :
  coherent operatorNamespace (λ _, data) (mem_of m h) → resolves operatorNamespace data platform (Static hp) →
  wp service (getPlatformConfig operatorNamespace platform ns)
    (λ r h', r = Ok (Static hp) ∧ after σ h' = after σ h) h.
Proof.
  intros Hco Hr.
  pose proof (wp_contract_le _ _ (getPlatformConfig operatorNamespace platform ns) (λ r h', ∃ l, h' = l ++ h ∧ _) h service_go
    (wp_at _ _ _ _ (wp_mono _ _ _ _ _ (λ r l Hl, ex_intro _ l (conj eq_refl Hl))
      (wp_getPlatformConfig operatorNamespace platform ns (mem_of m h))))) as Hget.
  eapply wp_mono; [|apply wp_and; [by eapply wp_service_config_ok|apply wp_meets, wp_emits; [apply emits_aside_getPlatformConfig|exact Hget]]].
  intros r h' [[c ->] [[(l & -> & _ & [(err & [=] & _)|(cm & l0 & -> & _ & Hans)]) (l1 & Hl1 & Hl)] (l' & Hl' & Hm)]].
  apply app_inv_tail in Hl' as <-. apply app_inv_tail in Hl1 as <-. split; [|by apply aside_after]. f_equal.
  apply meets_app in Hm as [_ [[_ Hcm] _]]. destruct (Hcm eq_refl) as (cm' & [= <-] & Hdata).
  destruct (Hans (λ _, data) Hdata Hco) as (_ & _ & Hc). specialize (Hc _ eq_refl). rewrite Hdata in Hc.
  by eapply resolves_static_fun.
Qed.

(** *** The allocation *)

Variable hp : HostPool.
Hypothesis hp_named : named_hosts hp.

(** The TaskRun is stored on an eligible host, which had fewer tasks than it may run, and
    there is a provisioning task for it. *)
Definition landed (tr : TaskRun) (l : hist mpcE) : Prop :=
  ∃ k host task r, HostPoolFacts.eligible hp (Split (annotation tr FailedHosts) ",") k host ∧
    (Z.of_nat (load k σ) < h_Concurrency host)%Z ∧ stored_on k (ObjectKeyFromObject tr) (after σ l) ∧ A_Create task r ∈ actions l ∧
    label task UserTaskName = tr_Name tr ∧ label task UserTaskNamespace = tr_Namespace tr.

(** One of the hosts has room for the TaskRun. *)
Definition has_room (tr : TaskRun) : Prop :=
  is_Some (σ !! ObjectKeyFromObject tr) ∧ ∃ k host,
    HostPoolFacts.eligible hp (Split (annotation tr FailedHosts) ",") k host ∧ (Z.of_nat (load k σ) < h_Concurrency host)%Z.

Lemma landed_app tr l h : after σ (l ++ h) = after σ h → landed tr h → landed tr (l ++ h).
Proof.
  intros Hσ (k & host & task & r & ? & ? & ? & ? & ? & ?). exists k, host, task, r. rewrite Hσ.
  split_and!; [done..| |done|done]. apply elem_of_actions_app. by right.
Qed.

Lemma wp_service_metrics (b : bool) platform f h tr (Q : hist mpcE → Prop) :
  (∀ p, spec (f p) (λ _ l, quiet l)) → (∀ p, emits aside (f p)) → landed tr h →
  (∀ h', landed tr h' → Q h') → wp service (if b then HandleMetrics platform f else mret tt) (λ _ h', Q h') h.
Proof.
  intros Hf He Hl HQ. destruct b; [|by apply wp_ret, HQ].
  assert (wp service (HandleMetrics platform f ≫= λ u, mret u) (λ _ h', Q h') h) as Hw.
  { eapply wp_service_call; [by apply wp_HandleMetrics|unfold HandleMetrics, metric; by emits|].
    intros u l _ Hσ. by apply wp_ret, HQ, landed_app. }
  apply wp_bind_iff in Hw. eapply wp_mono; [|exact Hw]. by intros [] h' ?.
Qed.

Lemma wp_service_allocate_host tr sn platform h :
  after σ h = σ → is_Some (tr_Labels tr) → has_room tr →
  wp service (allocate_host operatorNamespace (Static hp) tr sn platform)
    (λ '(_, res, err) h', err = None ∧ res = no_requeue ∧ landed tr h') h.
Proof.
  intros Hσ Hl [Hst (k & host & Hel & Hfree)]. unfold allocate_host. cbv zeta.
  set (tr1 := with_annotations tr _).
  assert (annotation tr1 FailedHosts = annotation tr FailedHosts) as Hann by apply map_get_make_if_nil.
  eapply wp_service_call; [apply wp_allocation_start|unfold allocation_start, now; by emits|].
  intros start l0 _ Hσ0. apply wp_bind. eapply wp_mono.
  2: { eapply wp_contract_le; [apply service_willing|]. cbn [Allocate].
    apply (wp_willing_Allocate operatorNamespace hp m σ tr1 sn k host); [by rewrite Hσ0|done|done|done|by rewrite Hann|exact Hfree]. }
  intros [[tr2 res] err] h1 (-> & -> & k' & host' & task & r & Hel' & Hroom & _ & Hs & Hin & Hname & Hns). rewrite Hann in Hel'.
  assert (landed tr h1) as Hland by (by exists k', host', task, r).
  cbv zeta. apply wp_bind. eapply wp_service_metrics; [intros; apply (wp_observe_now _ _ (λ t, InSeconds _))|intros; unfold now, metric; by emits|done|].
  intros h2 Hland2. apply wp_bind. eapply wp_service_metrics; [intros; apply (wp_observe_now _ _ (λ t, InSeconds _))|intros; unfold now, metric; by emits|done|].
  intros h3 Hland3. by apply wp_ret.
Qed.

Lemma wp_service_handleHostAllocation tr sn platform h :
  after σ h = σ → is_Some (tr_Labels tr) → has_room tr → ObjectKeyFromObject tr = request →
  sn = SecretPrefix +:+ tr_Name tr → coherent operatorNamespace (λ _, data) (mem_of m h) →
  resolves operatorNamespace data platform (Static hp) →
  wp service (handleHostAllocation operatorNamespace tr sn platform)
    (λ '(_, res, err) h', err = None ∧ res = no_requeue ∧ landed tr h') h.
Proof.
  intros Hσ Hl Hroom Hkey -> Hco Hr. unfold handleHostAllocation, client. apply wp_bind, wp_trigger. intros r [_ Hs].
  destruct (Hs ltac:(by rewrite <- Hkey)) as (err & -> & Hnf). rewrite Hnf. cbn [negb].
  apply wp_bind. eapply wp_mono; [|by apply wp_service_config]. intros r h' [-> Hσ'].
  apply wp_service_allocate_host; [by rewrite Hσ'|done..].
Qed.

Lemma wp_service_request_host tr sn platform h :
  after σ h = σ → has_room tr → ObjectKeyFromObject tr = request →
  sn = SecretPrefix +:+ tr_Name tr → coherent operatorNamespace (λ _, data) (mem_of m h) →
  resolves operatorNamespace data platform (Static hp) →
  wp service (request_host operatorNamespace tr sn platform) (λ '(res, err) h', err = None ∧ res = no_requeue ∧ landed tr h') h.
Proof.
  intros Hσ Hroom Hkey Hsn Hco Hr. unfold request_host. cbv zeta.
  set (tr1 := with_labels tr (make_if_nil (tr_Labels tr))).
  assert (∀ tr2, tr_meta tr2 = meta_with_labels (tr_meta tr) (tr_Labels tr2) → is_Some (tr_Labels tr2) →
    wp service ('(tr, res, err) ← handleHostAllocation operatorNamespace tr2 sn platform;
      _ ← (match err with
           | Some err' => if IsConflict err' then mret tt else
               _ ← HandleMetrics platform (inc HostAllocationFailures);
               _ ← createErrorSecret tr platform sn ("Error allocating host: " +:+ Error err'); mret tt
           | None => mret tt end);
      mret (res, err)) (λ '(res, err) h', err = None ∧ res = no_requeue ∧ landed tr h') h) as Hrest.
  { intros tr2 Hm Hl2.
    assert (ObjectKeyFromObject tr2 = ObjectKeyFromObject tr ∧ tr_Annotations tr2 = tr_Annotations tr ∧
      tr_Name tr2 = tr_Name tr ∧ tr_Namespace tr2 = tr_Namespace tr) as (Hk2 & Ha2 & Hn2 & Hns2).
    { unfold ObjectKeyFromObject, tr_Annotations, tr_Name, tr_Namespace. by rewrite Hm. }
    apply wp_bind. eapply wp_mono; [|apply (wp_service_handleHostAllocation tr2); [done|done| | | |done|done]].
    - intros [[tr3 res] err] h' (-> & -> & Hland). apply wp_bind, wp_ret, wp_ret. split_and!; [done..|].
      unfold landed, annotation in *. by rewrite Hk2, Ha2, Hn2, Hns2 in Hland.
    - unfold has_room, annotation in *. by rewrite Hk2, Ha2.
    - by rewrite Hk2.
    - by rewrite Hn2. }
  destruct (String.eqb _ ""); [|apply wp_bind, wp_ret, Hrest; [done|by eexists]].
  unfold set_label, map_assign. change (tr_Labels tr1) with (Some (default ∅ (tr_Labels tr))). cbn [map_set option_map].
  apply wp_bind, wp_bind, wp_ret, wp_ret, Hrest; [done|by eexists].
Qed.
End service.

(** C6. A TaskRun of a user that wants a host of a static platform, is stored, has no host,
    and has not finished: when a host of the platform, which has not failed for it, has
    fewer tasks than it may run, and the API server has what the controller needs and
    answers with what it stores, its reconcile ends without an error, the stored TaskRun is
    on a host of the platform that has not failed for it and had fewer tasks than it may
    run, and there is a provisioning task for it. *)
Theorem Reconcile_progresses `{K8sLaws} `{RetryLaws} operatorNamespace data m σ request tr platform hp k host :
  σ !! request = Some tr → label tr TaskTypeLabel = "" → wants_host tr = true → label tr AssignedHost = "" →
  finished tr = false → ValidatePlatform tr = Ok platform →
  coherent operatorNamespace (λ _, data) m → resolves operatorNamespace data platform (Static hp) → named_hosts hp →
  HostPoolFacts.eligible hp (Split (annotation tr FailedHosts) ",") k host →
  (Z.of_nat (load k σ) < h_Concurrency host)%Z →
  wp (service_spec operatorNamespace data request m σ) (Reconcile operatorNamespace request)
    (λ '(res, err) l, err = None ∧ res = no_requeue ∧ landed σ hp tr l) [].
Proof.
  intros Hst Hty Hw Ha Hf Hp Hco Hr Hn Hel Hfree. unfold Reconcile, apiReader. apply wp_bind, wp_trigger.
  intros r [[[Hok Hcur] _] Hs]. destruct (Hs (ex_intro _ tr Hst)) as [tr' ->]. pose proof (Hok _ eq_refl) as Hkey.
  specialize (Hcur _ eq_refl). change (after σ []) with σ in Hcur. rewrite Hst in Hcur. simplify_eq.
  unfold handleTaskRunReceived. cbv zeta. rewrite Hty, Hw. cbn [String.eqb negb]. unfold handleUserTask. cbv zeta.
  rewrite Ha, Hf, Hp. cbn [String.eqb negb]. apply wp_service_request_host; try done.
  split; [by eexists|]. by exists k, host.
Qed.

(** ** A host of a configuration *)

#[local] Existing Instances example_k8s example_k8s_laws example_retry example_retry_laws.

Definition host_a : Host :=
  {| h_Address := "10.0.0.1"; h_Name := "a"; h_User := "ec2-user"; h_Concurrency := 1;
     h_Platform := "linux/arm64"; h_Secret := "awskeys"; h_StartTime := None |}.
Definition pool_a : HostPool := {| hosts := {["a" := host_a]}; targetPlatform := "linux/arm64" |}.

Lemma pool_a_named : named_hosts pool_a.
Proof. intros k host. cbn [hosts pool_a]. by intros [<- <-]%lookup_singleton_Some. Qed.

Lemma host_data_resolves : resolves "mpc" host_data "linux/arm64" (Static pool_a).
Proof.
  assert (names_host host_data "a") as Ha by (exists "host.a.address"; split; [by eexists; vm_compute|reflexivity]).
  destruct (ParseStaticHostConfig host_data "a") as [c|e] eqn:Hc; [|by vm_compute in Hc].
  assert (host_Platform c = "linux/arm64" ∧ static_host "a" c = host_a) as [Hp Hh] by (vm_compute in Hc; by simplify_eq).
  apply (resolves_static _ _ _ [] [] []); [vm_compute; reflexivity|apply not_elem_of_nil|vm_compute; reflexivity|apply not_elem_of_nil|
    vm_compute; reflexivity|apply not_elem_of_nil|]. split; [done|..].
  - intros name ->%host_data_names. exists c. by apply ParseStaticHostConfig_iff.
  - intros name h. cbn [hosts pool_a]. rewrite lookup_singleton_Some. split.
    + intros [<- <-]. split; [done|]. exists c.
      split_and!; [by apply ParseStaticHostConfig_iff|exact Hp|exact (eq_sym Hh)].
    + intros [->%host_data_names (c' & Hc' & _ & ->)]. rewrite <- ParseStaticHostConfig_iff, Hc in Hc'.
      split; [done|]. injection Hc' as <-. exact (eq_sym Hh).
Qed.

(** The examples' server keeps to the contract. *)
Lemma server_serves m σ h w X (e : mpcE X) :
  in_step m σ h w →
  service_spec "mpc" host_data (Key "team" "build") m σ h X e (api_server host_config X e w).1 ∧
  in_step m σ (Ev e (api_server host_config X e w).1 :: h) (api_server host_config X e w).2.
Proof.
  intros HI. destruct (api_server_willing host_config _ _ _ _ _ e HI) as [Hok HI']. split; [|done]. split; [done|].
  destruct HI as [-> _]. destruct e as [Y c|Y c|Y q c|Y c|Y c| | | | |]; try exact I; destruct c; try exact I; simpl.
  - intros ->. by eexists.
  - intros _. by eexists.
  - intros [tr Htr]. rewrite Htr. by eexists.
  - done.
Qed.

Lemma Reconcile_progresses_witness :
  let σ := with_task (user_task "build" None) in
  wp (service_spec "mpc" host_data (Key "team" "build") empty_memory σ) (Reconcile "mpc" (Key "team" "build"))
    (λ '(res, err) l, err = None ∧ res = no_requeue ∧ landed σ pool_a (user_task "build" None) l) [].
Proof.
  refine (Reconcile_progresses "mpc" host_data empty_memory (with_task (user_task "build" None)) (Key "team" "build")
    (user_task "build" None) "linux/arm64" pool_a "a" host_a _ _ _ _ _ _ _ host_data_resolves pool_a_named _ _).
  1-6: vm_compute; reflexivity.
  - by intros p c.
  - split; [by split|]. apply (bool_decide_unpack _). vm_compute. exact I.
  - vm_compute. reflexivity.
Defined.
