(* ===== verification/HostUpdateFacts.v ===== *)
(** * The periodic update of the static hosts: one task for every host, with the host's
      fields, ten minutes apart *)
From S2P Require Import Prelude GoLib GoStrings Prog Kube Cloud Effects Platforms HostUpdate.
From S2P Require Import Trace ConfigFacts.

(** ** Keys *)

(** The key of a field of a host. *)
Definition field_key (name field : string) : string := "host." +:+ name +:+ "." +:+ field.

Lemma host_key_iff k name field :
  host_key k = Some (name, field) ↔ k = field_key name field ∧ str_mem "." field = false.
Proof.
  unfold host_key, field_key. split.
  - destruct (HasPrefix k "host.") eqn:Hp; [|done]. apply prefix_split in Hp as [r ->].
    cbn [negb]. rewrite slice_from_app. destruct (str_mem "." r) eqn:Hm.
    + apply last_split in Hm as (p & f & -> & Hf). rewrite LastIndex_app by done.
      unfold slice. rewrite Nat.sub_0_r, substring_prefix.
      replace (slice_from _ _) with f; [intros [= <- <-]; done|].
      replace (String.length p + 1) with (String.length (p +:+ ".")) by (rewrite length_str_app; simpl; lia).
      change (String "." f) with ("." +:+ f). rewrite <- str_app_assoc. by rewrite slice_from_app.
    + by rewrite (proj2 (LastIndex_None _ _) Hm).
  - intros [-> Hf]. rewrite prefix_app. cbn [negb]. rewrite slice_from_app.
    change ("." +:+ field) with (String "." field). rewrite LastIndex_app by done.
    unfold slice. rewrite Nat.sub_0_r, substring_prefix. do 2 f_equal.
    replace (String.length name + 1) with (String.length (name +:+ ".")) by (rewrite length_str_app; simpl; lia).
    change (String "." field) with ("." +:+ field). rewrite <- str_app_assoc. by rewrite slice_from_app.
Qed.

(** ** The hosts *)

Section hosts.
Variable data : smap.

(** The value of a field, when its key was visited. *)
Definition visited (keys : list string) (name field : string) : string :=
  if bool_decide (field_key name field ∈ keys) then sget data (field_key name field) else "".

Definition host_visited (keys : list string) (name : string) : Host :=
  {| h_Address := visited keys name "address"; h_Name := name; h_User := visited keys name "user";
     h_Concurrency := 0; h_Platform := visited keys name "platform"; h_Secret := visited keys name "secret";
     h_StartTime := None |}.

(** Some key of the host was visited. *)
Definition names (keys : list string) (name : string) : Prop := ∃ k field, k ∈ keys ∧ host_key k = Some (name, field).

Lemma visited_snoc keys k name field :
  visited (keys ++ [k]) name field =
  if decide (k = field_key name field) then sget data (field_key name field) else visited keys name field.
Proof.
  unfold visited. case_decide as Hk; [subst; rewrite bool_decide_true; [done|apply elem_of_snoc; by right]|].
  rewrite (bool_decide_ext _ (field_key name field ∈ keys)); [done|]. rewrite elem_of_snoc. naive_solver.
Qed.

Lemma set_host_field_visited keys k name field :
  host_key k = Some (name, field) →
  set_host_field (host_visited keys name) field (sget data k) = host_visited (keys ++ [k]) name.
Proof.
  intros [-> Hf]%host_key_iff.
  assert (∀ f, field_key name field = field_key name f ↔ field = f) as Hinj.
  { intros f. split; [|by intros ->]. unfold field_key. intros Heq.
    assert (∀ p a b, p +:+ a = p +:+ b → a = b) as Happ by (intros p a b Hp; by apply (inj (String.append p)) in Hp).
    by do 3 apply Happ in Heq. }
  unfold set_host_field, host_visited. rewrite !visited_snoc. cbn [h_Address h_Name h_User h_Concurrency h_Platform h_Secret h_StartTime].
  destruct (String.eqb_spec field "address") as [->|H1].
  { rewrite decide_True by done. repeat rewrite decide_False by (rewrite Hinj; differ). done. }
  rewrite (decide_False (P := field_key name field = field_key name "address")) by by rewrite Hinj.
  destruct (String.eqb_spec field "user") as [->|H2].
  { rewrite decide_True by done. repeat rewrite decide_False by (rewrite Hinj; differ). done. }
  rewrite (decide_False (P := field_key name field = field_key name "user")) by by rewrite Hinj.
  destruct (String.eqb_spec field "platform") as [->|H3].
  { rewrite decide_True by done. repeat rewrite decide_False by (rewrite Hinj; differ). done. }
  rewrite (decide_False (P := field_key name field = field_key name "platform")) by by rewrite Hinj.
  destruct (String.eqb_spec field "secret") as [->|H4]; [by rewrite decide_True|].
  by rewrite decide_False by by rewrite Hinj.
Qed.
(** A key of no field of the host changes nothing of it. *)
Lemma host_visited_other keys k name :
  (∀ field, host_key k ≠ Some (name, field)) → host_visited (keys ++ [k]) name = host_visited keys name.
Proof.
  intros Hk. assert (∀ f, str_mem "." f = false → visited (keys ++ [k]) name f = visited keys name f) as Hv.
  { intros f Hf. rewrite visited_snoc, decide_False; [done|]. intros ->. by apply (Hk f), host_key_iff. }
  unfold host_visited. by rewrite !Hv.
Qed.

Lemma not_visited keys name field :
  str_mem "." field = false → ¬ names keys name → visited keys name field = "".
Proof.
  intros Hf Hn. unfold visited. rewrite bool_decide_false; [done|]. intros Hin. destruct Hn.
  exists (field_key name field), field. split; [done|]. by apply host_key_iff.
Qed.

Lemma host_visited_fresh keys name : ¬ names keys name → host_visited keys name = fresh_host name.
Proof. intros Hn. unfold host_visited. by rewrite !not_visited. Qed.

Lemma names_snoc keys k name :
  names (keys ++ [k]) name ↔ names keys name ∨ ∃ field, host_key k = Some (name, field).
Proof. unfold names. setoid_rewrite elem_of_snoc. naive_solver. Qed.

(** The loop over the ConfigMap, in whatever order. *)
Lemma visit_all keys :
  let acc := foldl (visit_key data) no_update_hosts keys in
  (∀ name h, u_hosts acc !! name = Some h ↔ names keys name ∧ h = host_visited keys name) ∧
  ∀ name, sget (hostsConcurrency acc) name = visited keys name "concurrency".
Proof.
  induction keys as [|k keys IH] using rev_ind; cbv zeta in *.
  { split; [|done]. intros name h. cbn [foldl no_update_hosts u_hosts]. rewrite lookup_empty.
    split; [done|]. by intros [(k & f & ?%not_elem_of_nil & _) _]. }
  rewrite foldl_app. cbn [foldl]. set (acc := foldl _ _ keys) in *. destruct IH as [Hh Hc].
  unfold visit_key. destruct (host_key k) as [[n f]|] eqn:Hk.
  - assert (default (fresh_host n) (u_hosts acc !! n) = host_visited keys n) as ->.
    { destruct (u_hosts acc !! n) as [h|] eqn:Hn; simpl; [by apply Hh in Hn as [_ ->]|].
      symmetry. apply host_visited_fresh. intros Hnames.
      assert (u_hosts acc !! n = Some (host_visited keys n)) by by apply Hh. congruence. }
    split; intros name; cbn [u_hosts hostsConcurrency].
    + intros h. rewrite names_snoc. destruct (decide (n = name)) as [->|Hne].
      * rewrite lookup_insert_eq, (set_host_field_visited _ _ _ _ Hk). naive_solver.
      * rewrite lookup_insert_ne, Hh by done. rewrite host_visited_other by naive_solver. naive_solver.
    + rewrite visited_snoc. apply host_key_iff in Hk as [-> Hf].
      destruct (decide (n = name ∧ f = "concurrency")) as [[-> ->]|Hne].
      * rewrite decide_True by done. cbn [String.eqb]. destruct (String.eqb_spec (sget data (field_key name "concurrency")) "") as [He|He].
        -- rewrite He. simpl. rewrite Hc. unfold visited. case_bool_decide; [done|done].
        -- simpl. unfold sget at 1. by rewrite lookup_insert_eq.
      * rewrite decide_False.
        -- destruct (_ && _) eqn:Hand; [|done]. apply andb_true_iff in Hand as [->%String.eqb_eq _].
           unfold sget at 1. rewrite lookup_insert_ne by naive_solver. apply Hc.
        -- intros Heq. destruct Hne. assert (host_key (field_key n f) = Some (n, f)) as H1 by by apply host_key_iff.
           assert (host_key (field_key name "concurrency") = Some (name, "concurrency")) as H2 by by apply host_key_iff.
           rewrite Heq in H1. rewrite H1 in H2. by simplify_eq.
  - split; intros name.
    + intros h. rewrite Hh, names_snoc, host_visited_other by by rewrite Hk. naive_solver.
    + rewrite Hc, visited_snoc, decide_False; [done|]. intros ->.
      assert (host_key (field_key name "concurrency") = Some (name, "concurrency")) by by apply host_key_iff. congruence.
Qed.

(** The hosts the ConfigMap names, with their fields: [host.<name>.<field>], where the field
    has no dot. *)
Definition configured (name : string) : Prop :=
  ∃ field, str_mem "." field = false ∧ is_Some (data !! ("host." +:+ name +:+ "." +:+ field)).

Lemma configured_iff name : configured name ↔ ∃ k field, is_Some (data !! k) ∧ host_key k = Some (name, field).
Proof.
  split.
  - intros (field & Hf & Hk). exists (field_key name field), field. split; [done|]. by apply host_key_iff.
  - intros (k & field & Hk & [-> Hf]%host_key_iff). by exists field.
Qed.

Definition host_of (name : string) : Host :=
  let field := λ f, sget data (field_key name f) in
  {| h_Address := field "address"; h_Name := name; h_User := field "user"; h_Concurrency := 0;
     h_Platform := field "platform"; h_Secret := field "secret"; h_StartTime := None |}.

Lemma visited_all keys name field :
  keys ≡ₚ (map_to_list data).*1 → visited keys name field = sget data (field_key name field).
Proof.
  intros Hk. unfold visited. case_bool_decide as Hin; [done|].
  rewrite (elem_of_range_keys _ _ _ Hk) in Hin. unfold sget. by rewrite (proj2 (eq_None_not_Some _) Hin).
Qed.

Lemma visit_all_hosts keys acc :
  keys ≡ₚ (map_to_list data).*1 → acc = foldl (visit_key data) no_update_hosts keys →
  (∀ name, is_Some (u_hosts acc !! name) ↔ configured name) ∧
  ∀ name, configured name → default (fresh_host name) (u_hosts acc !! name) = host_of name ∧
    sget (hostsConcurrency acc) name = sget data (field_key name "concurrency").
Proof.
  intros Hk ->. destruct (visit_all keys) as [Hh Hc]. set (acc := foldl _ _ _) in *.
  assert (∀ name, names keys name ↔ configured name) as Hn.
  { intros name. rewrite configured_iff. unfold names. by setoid_rewrite (elem_of_range_keys _ _ _ Hk). }
  split.
  - intros name. rewrite <- Hn. split; [intros [h [? _]%Hh]; done|].
    intros Hname. exists (host_visited keys name). by apply Hh.
  - intros name Hname%Hn. assert (u_hosts acc !! name = Some (host_visited keys name)) as -> by by apply Hh.
    rewrite Hc. unfold host_visited, host_of. by rewrite !(visited_all _ _ _ Hk).
Qed.
End hosts.

(** ** The schedule *)

(** The number of hosts up to which the delays do not overflow. *)
Definition max_staggered : nat := 15000.

Lemma lookup_schedule ns acc names d i u :
  (0 ≤ d)%Z → schedule ns acc d names !! i = Some u →
  ∃ name, names !! i = Some name ∧
    su_task u = update_task ns name (default (fresh_host name) (u_hosts acc !! name))
      (sget (hostsConcurrency acc) (h_Name (default (fresh_host name) (u_hosts acc !! name)))) ∧
    ((d + Z.of_nat i ≤ Z.of_nat max_staggered)%Z → su_delay u = ((d + Z.of_nat i) * (10 * Minute))%Z).
Proof.
  revert d i. induction names as [|name names IH]; intros d i Hd; cbn [schedule]; [done|].
  destruct i as [|i]; simpl.
  - intros [= <-]. exists name. split_and!; [done..|]. intros Hle. cbn [su_delay].
    change (Z.of_nat max_staggered) with 15000%Z in Hle.
    assert (in_int64 (Minute * d)) by (unfold in_int64, min_int64, max_int64, Minute, Second; lia).
    rewrite (wrap64_id (Minute * d)) by done.
    rewrite wrap64_id by (unfold in_int64, min_int64, max_int64, Minute, Second; lia). lia.
  - destruct (decide (d + 1 ≤ max_int64)%Z) as [Hmax|Hmax].
    + rewrite wrap64_id by (unfold in_int64, min_int64 in *; lia).
      intros (n & ? & ? & Hu)%IH; [|lia]. exists n. split_and!; [done..|]. intros Hle.
      rewrite Hu by lia. lia.
    + intros Hu.
      assert (∀ d i, schedule ns acc d names !! i = Some u → ∃ name, names !! i = Some name ∧
        su_task u = update_task ns name (default (fresh_host name) (u_hosts acc !! name))
          (sget (hostsConcurrency acc) (h_Name (default (fresh_host name) (u_hosts acc !! name))))) as Hany.
      { clear. induction names as [|n names IH]; intros d [|i]; simpl; intros Hs; simplify_eq; [by exists n|by apply (IH _ _ Hs)]. }
      destruct (Hany _ _ Hu) as (n & ? & ?). exists n. split_and!; [done..|].
      change (Z.of_nat max_staggered) with 15000%Z. unfold max_int64 in Hmax. lia.
Qed.

Lemma length_schedule ns acc d names : length (schedule ns acc d names) = length names.
Proof. revert d. induction names; intros d; simpl; auto. Qed.

(** The update task of a host: the fields of the host in the ConfigMap are its parameters,
    and its secret the workspace. *)
Record updates_host (ns : string) (data : smap) (name : string) (t : TaskRun) : Prop := {
  uh_namespace : tr_Namespace t = ns;
  uh_name : tr_Name t = "" ∧ GenerateName (tr_meta t) = "update-task";
  uh_labels : tr_Labels t = Some (list_to_map
    [("build.appstudio.redhat.com/task-type", "update"); ("build.appstudio.redhat.com/assigned-host", name)]);
  uh_params : Params (tr_Spec t) = Some
    [{| p_Name := "HOST"; p_StringVal := sget data ("host." +:+ name +:+ ".address") |};
     {| p_Name := "USER"; p_StringVal := sget data ("host." +:+ name +:+ ".user") |};
     {| p_Name := "PLATFORM"; p_StringVal := sget data ("host." +:+ name +:+ ".platform") |};
     {| p_Name := "CONCURRENCY"; p_StringVal := sget data ("host." +:+ name +:+ ".concurrency") |}];
  uh_task : TaskRefName (tr_Spec t) = "update-host";
  uh_secret : Workspaces (tr_Spec t) = [{| w_Name := "ssh"; w_SecretName := sget data ("host." +:+ name +:+ ".secret") |}]
}.

Lemma update_task_updates ns data name :
  updates_host ns data name (update_task ns name (host_of data name) (sget data (field_key name "concurrency"))).
Proof. by split. Qed.

(** The goroutines that [UpdateHostPools] starts: one for each host of the ConfigMap, with
    the host's fields, each ten minutes after the one before. *)
Definition staggers (ns : string) (data : smap) (us : list scheduled_update) : Prop :=
  ∃ order, NoDup order ∧ (∀ name, name ∈ order ↔ configured data name) ∧ length us = length order ∧
    ∀ i u, us !! i = Some u → ∃ name, order !! i = Some name ∧
      updates_host ns data name (su_task u) ∧
      (i ≤ max_staggered → su_delay u = (Z.of_nat i * (10 * Minute))%Z).

Lemma wp_UpdateHostPools ns :
  spec (UpdateHostPools ns) (λ us l,
    (∃ e, A_Config (Key ns HostConfig) (Err e) ∈ actions l ∧ us = []) ∨
    ∃ cm, A_Config (Key ns HostConfig) (Ok cm) ∈ actions l ∧ staggers ns (cm_Data cm) us).
Proof.
  intros m. unfold UpdateHostPools, client. apply wp_bind, wp_trigger. intros [cm|e] _.
  2:{ apply wp_ret. left. exists e. split; [left|done]. }
  apply wp_bind, wp_range. intros keys Hkeys. cbv zeta.
  destruct (visit_all_hosts (cm_Data cm) keys _ Hkeys eq_refl) as [Hin Hhost].
  set (acc := foldl _ _ _) in *. apply wp_bind, wp_range. intros order Horder. apply wp_ret. right. exists cm.
  split; [right; right; left|]. exists order. split_and!.
  - by eapply NoDup_range_keys.
  - intros name. by rewrite (elem_of_range_keys _ _ _ Horder).
  - apply length_schedule.
  - intros i u Hu. apply lookup_schedule in Hu as (name & Hn & Ht & Hd); [|done]. exists name.
    assert (configured (cm_Data cm) name) as Hc by (apply Hin, (elem_of_range_keys _ _ _ Horder); by eapply list_elem_of_lookup_2).
    destruct (Hhost name Hc) as [He Hcc]. rewrite He in Ht. cbn [h_Name host_of] in Ht. rewrite Hcc in Ht.
    split_and!; [done|rewrite Ht; apply update_task_updates|]. intros Hi. rewrite Hd by lia. lia.
Qed.

(** When its timer fires, a goroutine creates its task, and does nothing else. *)
Lemma wp_fire u : spec (fire u) (λ err l, ∃ r, l = [Ev (Client (Create_TaskRun (su_task u))) r] ∧
  err = match r with Ok _ => None | Err e => Some e end).
Proof. intros m. unfold fire, client. apply wp_bind, wp_trigger. intros r _. apply wp_ret. by exists r. Qed.

(** ** Properties *)

