(* ===== verification/MetricsFacts.v ===== *)
(** * The exported task counts: every gauge that is set shows how many tasks there are *)
From S2P Require Import Prelude GoLib GoStrings Prog Kube Cloud Effects Metrics Trace.

(** ** Counting *)

Section count.
Variable key : TaskRun → option metricLabels.

(** The number of tasks counted under [k]. *)
Definition tasks_under (k : metricLabels) (trs : list TaskRun) : nat :=
  length (filter (λ tr, key tr = Some k) trs).

Lemma tasks_under_snoc k trs tr :
  tasks_under k (trs ++ [tr]) = tasks_under k trs + (if decide (key tr = Some k) then 1 else 0).
Proof.
  unfold tasks_under. rewrite filter_app, length_app, filter_cons, filter_nil. by case_decide.
Qed.

Lemma lookup_count_up counts k' k :
  count_up counts k' !! k = if decide (k' = k) then Some (default 0 (counts !! k) + 1)%Z else counts !! k.
Proof.
  unfold count_up. case_decide; simplify_eq; [by rewrite lookup_insert_eq|by rewrite lookup_insert_ne].
Qed.

Lemma count_tasks_lookup trs k :
  count_tasks key trs !! k = (let n := tasks_under k trs in if decide (n = 0) then None else Some (Z.of_nat n)).
Proof.
  induction trs as [|tr trs IH] using rev_ind; [done|]. cbv zeta in *.
  unfold count_tasks in *. rewrite foldl_app, tasks_under_snoc. cbn [foldl].
  destruct (key tr) as [k'|]; [|by rewrite (decide_False (P := None = Some k)), Nat.add_0_r].
  rewrite lookup_count_up, IH. destruct (decide (k' = k)) as [->|Hne].
  - rewrite (decide_True (P := Some k = Some k)) by done.
    rewrite (decide_False (P := _ + 1 = 0)) by lia. f_equal. case_decide; simpl; lia.
  - rewrite (decide_False (P := Some k' = Some k)) by congruence. by rewrite Nat.add_0_r.
Qed.
End count.

(** ** Exporting *)

(** The gauges a history sets. *)
Definition gauge_set (ev : event mpcE) : option (gauge * metricLabels * Z) :=
  match ev_req ev with
  | Metric c => match c with Set_gauge g p n v => Some (g, (p, n), v) | _ => None end
  | _ => None
  end.
Definition gauges (h : hist mpcE) : list (gauge * metricLabels * Z) := omap gauge_set h.

(** A TaskRun is running on a platform, or waits for one, in a namespace. *)
Definition runs_on (platform namespace : string) (tr : TaskRun) : Prop :=
  CompletionTime (tr_Status tr) = None ∧ label tr "build.appstudio.redhat.com/target-platform" ≠ "" ∧
  platformLabel (label tr "build.appstudio.redhat.com/target-platform") = platform ∧ tr_Namespace tr = namespace.
Definition waits_for (platform namespace : string) (tr : TaskRun) : Prop :=
  label tr "build.appstudio.redhat.com/waiting-for-platform" ≠ "" ∧
  platformLabel (label tr "build.appstudio.redhat.com/waiting-for-platform") = platform ∧ tr_Namespace tr = namespace.

#[global] Instance runs_on_dec p n tr : Decision (runs_on p n tr).
Proof. unfold runs_on. destruct (CompletionTime (tr_Status tr)); [right; by intros []|apply _]. Defined.
#[global] Instance waits_for_dec p n tr : Decision (waits_for p n tr).
Proof. apply _. Defined.

Lemma running_key_iff tr p n : running_key tr = Some (p, n) ↔ runs_on p n tr.
Proof.
  unfold running_key, runs_on. destruct (CompletionTime _); [naive_solver|].
  cbv zeta. destruct (String.eqb_spec (label tr TargetPlatformLabel) ""); naive_solver.
Qed.
Lemma waiting_key_iff tr p n : waiting_key tr = Some (p, n) ↔ waits_for p n tr.
Proof.
  unfold waiting_key, waits_for. cbv zeta. destruct (String.eqb_spec (label tr WaitingForPlatformLabel) ""); naive_solver.
Qed.

(** The gauges of a listing: one for each platform and namespace that has such tasks, with
    their number. *)
Definition shows_counts (g : gauge) (counted : string → string → TaskRun → Prop) `{∀ p n tr, Decision (counted p n tr)}
    (items : list TaskRun) (l : list (gauge * metricLabels * Z)) : Prop :=
  NoDup l.*1 ∧
  ∀ g' p n v, (g', (p, n), v) ∈ l ↔ g' = g ∧ v = Z.of_nat (length (filter (counted p n) items)) ∧ (0 < v)%Z.

(** An export: the listing fails and no gauge is set, or the gauges show its counts. *)
Definition exports (g : gauge) (labelKey : string) (counted : string → string → TaskRun → Prop)
    `{∀ p n tr, Decision (counted p n tr)} (err : option error) (l : hist mpcE) : Prop :=
  (∃ e, A_List (HasLabels [labelKey]) (Err e) ∈ actions l ∧ err = Some e ∧ gauges l = []) ∨
  ∃ items, A_List (HasLabels [labelKey]) (Ok items) ∈ actions l ∧ err = None ∧
    Forall (λ tr, is_Some (map_lookup (tr_Labels tr) labelKey)) items ∧ shows_counts g counted items (gauges l).

Lemma wp_export_tasks g labelKey key counted `{∀ p n tr, Decision (counted p n tr)} :
  (∀ tr p n, key tr = Some (p, n) ↔ counted p n tr) →
  spec (export_tasks g labelKey key) (exports g labelKey counted).
Proof.
  intros Hcounted m. unfold export_tasks, client. apply wp_bind, wp_trigger. intros [items|e] Hitems.
  2:{ apply wp_ret. left. exists e. split_and!; [left|done..]. }
  cbv zeta. apply wp_bind, wp_range. intros ks Hks. apply wp_bind.
  set (value := λ k, default 0%Z (count_tasks key items !! k)). set (h0 := [_; _]).
  apply (wp_foldM _ _ (λ pre _ h, ∃ l, h = l ++ h0 ∧ gauges l = (λ k, (g, k, value k)) <$> reverse pre) ks tt []).
  - by exists [].
  - intros pre k u h _ (l & -> & Hl). unfold metric. apply wp_trigger. intros u' _.
    eexists (_ :: l). split; [done|]. rewrite reverse_snoc, fmap_cons.
    trans ((g, (k.1, k.2), value k) :: gauges l); [done|]. rewrite Hl. by destruct k.
  - intros u h (l & -> & Hl). apply wp_ret. right. exists items. split_and!.
    + apply elem_of_actions_app. right. right. left.
    + done.
    + specialize (Hitems items eq_refl). eapply Forall_impl; [exact Hitems|]. intros tr Htr.
      by apply Forall_cons in Htr as [? _].
    + assert (gauges (l ++ h0) = gauges l) as Hg by (unfold gauges; rewrite omap_app; apply app_nil_r).
      rewrite Hg, Hl. split.
      * rewrite <- list_fmap_compose. apply NoDup_fmap_2; [by intros k k' [= ->]|].
        rewrite reverse_Permutation. by eapply NoDup_range_keys.
      * intros g' p n v. set (k := (p, n)).
        assert (length (filter (counted p n) items) = tasks_under key k items) as ->.
        { unfold tasks_under. f_equal. apply list_filter_iff. intros tr. symmetry. apply Hcounted. }
        rewrite list_elem_of_fmap. setoid_rewrite elem_of_reverse.
        assert (value k = Z.of_nat (tasks_under key k items) ∧ (k ∈ ks ↔ tasks_under key k items ≠ 0)) as [Hv Hin].
        { rewrite (elem_of_range_keys _ _ _ Hks). unfold value. rewrite count_tasks_lookup. cbv zeta.
          case_decide as Hz; simpl; (split; [lia|]); [split; [by intros []|done]|split; [done|by eexists]]. }
        split.
        -- intros (k' & [= -> Hkk ->] & Hk'); subst k'; apply Hin in Hk'. split_and!; [done..|lia].
        -- intros (-> & -> & Hpos). exists k. split; [by rewrite Hv|]. apply Hin. lia.
Qed.

(** ** The goroutine *)

(** The listings among the calls of the exporters, the last one first. *)
Definition listing (ev : event exporterE) : option ListOption :=
  match ev_req ev with
  | Exports e => match e with Client c => match c with List_TaskRuns o => Some o | _ => None end | _ => None end
  | _ => None
  end.
Definition listings (h : hist exporterE) : list ListOption := omap listing h.

(** How often the loop has waited. *)
Definition waits (h : hist exporterE) : nat :=
  length (omap (λ ev : event exporterE, match ev_req ev with Select => Some tt | _ => None end) h).

(** The calls of the exporters. *)
Definition export_ev (ev : event exporterE) : option (event mpcE) :=
  (match ev_req ev in exporterE X return X → option (event mpcE) with
   | Exports e => λ x, Some (Ev e x) | _ => λ _, None end) (ev_ans ev).

(** The ticker ticks [n] times before the context is done. *)
Definition ticks_spec (m0 : memory) (n : nat) : contract exporterE := λ h X e,
  match e in exporterE X return X → Prop with
  | Select => λ w, w = if waits h <? n then Tick else ContextDone
  | Exports e => go_spec m0 (omap export_ev h) _ e
  | _ => λ _, True
  end.

(** One export lists once, whatever comes of it. *)
Lemma export_tasks_lists_once g labelKey key :
  spec (export_tasks g labelKey key) (λ _ l, listings (inj_ev (λ X, @Exports X) <$> l) = [HasLabels [labelKey]]).
Proof.
  intros m. unfold export_tasks, client. apply wp_bind, wp_trigger. intros [items|e] _; [|by apply wp_ret].
  cbv zeta. apply wp_bind, wp_range. intros ks _. apply wp_bind. set (h0 := [_; _]).
  apply (wp_foldM _ _ (λ _ _ h, listings (inj_ev (λ X, @Exports X) <$> h) = [HasLabels [labelKey]]) ks tt []); [done| |].
  - intros pre k u h _ Hh. unfold metric. apply wp_trigger. intros u' _. exact Hh.
  - intros u h Hh. by apply wp_ret.
Qed.

Lemma wp_exporting m n g labelKey key (Q : option error → hist exporterE → Prop) h :
  (∀ err h', waits h' = waits h → listings h' = HasLabels [labelKey] :: listings h → Q err h') →
  wp (ticks_spec m n) (exporting (export_tasks g labelKey key)) Q h.
Proof.
  intros HQ. unfold exporting.
  eapply wpp_panics; [|eapply wp_mono; [|apply (wp_embed (go_spec (mem_of m (omap export_ev h)))); [|apply export_tasks_lists_once]]].
  - by intros why h' (l & _ & []).
  - intros err h' (l & -> & Hl). apply HQ; [|etrans; [apply omap_app|exact (f_equal (.++ listings h) Hl)]].
    clear Hl. unfold waits. rewrite omap_app, length_app. induction l as [|ev l IH]; [done|exact IH].
  - intros l X e x Hx. unfold go_spec in *. cbn [ticks_spec] in Hx. unfold go_spec in Hx.
    rewrite omap_app, mem_of_app in Hx.
    assert (omap export_ev (inj_ev (λ X, @Exports X) <$> l) = l) as Hl; [|rewrite <- Hl; exact Hx].
    clear Hx. induction l as [|[Y e' y] l IH]; [done|]. cbn. by f_equal.
Qed.

(** ** Properties *)

(** C40. The exporters of the running and of the waiting TaskRuns either fail to list them
    and set no gauge, or set, for exactly the platforms and namespaces that have such
    TaskRuns, one gauge to their number: the running ones are those with an assigned host
    that have not completed, under the platform of their target-platform label; the waiting
    ones are under that of their waiting-for-platform label. A platform that has none any
    more is not set to zero. *)
Theorem exporters_show_counts :
  spec exportRunningTasks (exports runningTasksGauge "build.appstudio.redhat.com/assigned-host" runs_on) ∧
  spec exportWaitingTasks (exports waitingTasksGauge "build.appstudio.redhat.com/waiting-for-platform" waits_for).
Proof. split; apply wp_export_tasks; [apply running_key_iff|apply waiting_key_iff]. Qed.

(** The exporter's goroutine: when its context is done after [n] ticks it returns, without
    an error or a panic, and by then it has listed the running TaskRuns and the waiting
    ones once per tick, in this order, whatever the outcome of the listings; a cache that
    does not synchronise is its only error, and nothing is listed then. *)
Theorem exporter_runs_every_tick m n :
  wp (ticks_spec m n) (AddTaskRunMetricsExporter (S n)) (λ r h,
    r = Some (Some (ErrText "context canceled")) ∧ listings h = [] ∨
    r = Some None ∧ listings h =
      concat (replicate n [HasLabels [WaitingForPlatformLabel]; HasLabels [AssignedHost]])) [].
Proof.
  unfold AddTaskRunMetricsExporter. apply wp_bind, wp_trigger. intros [] _; cbn [negb]; [|apply wp_ret; by left].
  do 3 (apply wp_bind, wp_trigger; intros ? _). apply wp_bind. set (h0 := [_; _; _; _]).
  set (both := [HasLabels [WaitingForPlatformLabel]; HasLabels [AssignedHost]]).
  eapply (wp_mono _ _ (λ r h, r = true ∧ listings h = concat (replicate n both))).
  - intros r h [-> Hl]. apply wp_bind, wp_trigger. intros u _. apply wp_ret. by right.
  - apply (wp_until _ _ (λ k h, k ≤ n ∧ waits h = n - k ∧ listings h = concat (replicate (n - k) both))).
    + intros k h (Hk & Hw & Hl). unfold export_round. apply wp_bind, wp_trigger. intros w Hx. cbn [ticks_spec] in Hx. rewrite Hw in Hx.
      destruct k as [|k].
      * rewrite Nat.sub_0_r, Nat.ltb_irrefl in *. subst w. apply wp_ret. exact Hl.
      * rewrite (proj2 (Nat.ltb_lt _ _)) in Hx by lia. subst w.
        apply wp_bind, wp_exporting. intros e1 h1 Hw1 Hl1. apply wp_bind, wp_exporting. intros e2 h2 Hw2 Hl2. apply wp_ret.
        assert (n - k = S (n - S k)) as Hnk by lia. split_and!; [lia| |].
        -- rewrite Hw2, Hw1, Hnk, <- Hw. reflexivity.
        -- rewrite Hl2, Hl1, Hnk. cbn [replicate concat]. rewrite <- Hl. reflexivity.
    + split_and!; [lia|by rewrite Nat.sub_diag..].
Qed.
